(* ===== verification/_CoqProject ===== *)
-Q . S2P
Prelude.v
Defs.v
Text.v
Datetime.v
SmMeta.v
Values.v
Bitmap.v
Replacer.v
Posix.v
DiskManager.v
BufferPool.v
RmFile.v
RmPage.v
RmSpec.v
RmManager.v
Txn.v
LockManager.v
LogRecord.v
LogManager.v
IxNode.v
IxIndex.v
IxManager.v
IxNodeSpec.v
IxTree.v
IxClaims.v
Printer.v
SmManager.v
TableSpec.v
TxnManager.v
Recovery.v
Executor.v
ExecutorSpec.v
OperatorSpec.v
ScanExec.v
ScanSpec.v
Dml.v
Ast.v
Analyze.v
Planner.v
Portal.v
Server.v
TxnSpec.v
RecoverySpec.v
QuerySpec.v
PlanSem.v
PlannerSpec.v
AnalyzeSpec.v
SelectSpec.v
DmlSpec.v
DmlSql.v
ServerSpec.v
