(* ===== verification/Prelude.v ===== *)
(** * RMDB: a verification development

    RMDB (src/src) is a relational database server in C++: a client sends SQL,
    the server answers and keeps its tables, B+ tree indexes and log in files.
    This library models the server from the POSIX file calls up to the turn of
    the server loop for one request, and proves what its parts promise to each
    other, up to the theorems that a request is a transaction, that a SELECT
    prints the answer of the relational calculus, and that recovery restores the
    committed state after a crash.

    ** How the code is modelled

    Code that changes state is a function in a state and exception monad [ST]
    below: a call returns a value or throws, and either way leaves a state; C++
    exceptions are the constructors of [exn].  Classes are Records of their
    fields, virtual classes and the operating system are type classes of
    operations, with their laws in a second class.  Memory is a list of bytes,
    that is integers from 0 to 255; int, int64_t and page numbers are Z with
    wrap-around written out ([wrap_s], [wrap_u]); pointers to frames, transactions and
    nodes are indices, ids or list positions, so that aliases share their object.
    Floating-point values are their bits, compared as exact binary fractions.

    Every class runs under its own mutex in the code, so a method is one atomic
    step; interleavings are sequences of such steps ([LockManager.lm_step],
    [TxnSpec.wrote]).  Loops whose end is not structural take fuel.  The loops over a
    file, a page or a tree compute it, as the number of slots, bits or pages, of
    which every turn passes one; loops over the rows of a child executor take it
    from the caller.  Running out is the exception [Diverge]: the theorems that give
    the result of a call exclude it, and those about statements say what fuel is
    enough.

    ** The parts, from below

    - [Prelude], [Defs], [Text], [Datetime]: exceptions, the monad, machine integers,
      bytes; src/common, defs.h, errors.h; decimal text; DATETIME literals.
    - [Posix]: the file calls as an interface with its documented laws, and an
      in-memory file system that satisfies them, for the witnesses.
    - [Replacer]: replacer/, the interface and LRUReplacer with its list nodes.
    - [DiskManager], [BufferPool]: storage/.  The pool is written against the interfaces
      of disk and replacer; clients above use [PageStore], the pool's own interface,
      whose laws are stated on the [view], the bytes of every page as a client sees
      them.
    - [Bitmap], [RmFile], [RmManager]: record/, pages, free list, scans, files; [RmPage]
      and [RmSpec] are their correctness: a file is a map from record ids to bytes.
    - [IxNode], [IxIndex], [IxManager]: index/, B+ trees on page bytes; [IxNodeSpec],
      [IxTree], [IxClaims]: nodes as sorted maps, trees, lookup and insertion.
    - [Txn], [LockManager], [TxnManager]: transaction/.
    - [LogRecord], [LogManager], [Recovery]: recovery/.
    - [SmMeta], [SmManager], [Values], [Printer]: system/, stored values with their
      comparison and casts, the send buffer.  [TableSpec] abstracts the open files to
      [tables], one map from table names and record ids to bytes: [tables_ok].
    - [Executor], [ScanExec], [Dml]: execution/, each executor class and its operations.
    - [Ast], [Analyze], [Planner], [Portal], [Server]: parser/ast.h, analyze/, optimizer/,
      portal.h with execution_manager.cpp, and rmdb.cpp.

    A request runs [Server.client_request]: SetTransaction begins a transaction, the parse
    tree goes through [do_analyze], [plan_query], [portal_start] and [portal_run] to the
    executors, which lock tables in the lock manager, read and write records through
    the system manager's files, log every change and remember it in the write set;
    then the transaction commits, or aborts by undoing the write set.

    ** What is proved

    - The server ([ServerSpec]): a request with a data change is one transaction, done
      and committed, or refused and undone, or failed without effect.
    - Data changes ([DmlSpec], [DmlSql]): INSERT, DELETE and UPDATE refine the abstract
      relation [DmlSql.change] on tables, and a rollback after any of them restores what
      the tables would hold without the transaction.
    - Queries: [ExecutorSpec.source] is what an executor promises to the one above, for
      fixed rows; each operator keeps it for the rows its operation gives
      ([ExecutorSpec], [OperatorSpec], [ScanSpec]).  [QuerySpec.denotes] gives the rows of a
      plan and portal and QlManager print them; [PlanSem] and [PlannerSpec] show that a
      plan of the planner means the product of its tables filtered by the
      conditions; [AnalyzeSpec] is the soundness of the checks on conditions;
      [SelectSpec] composes them for a SELECT statement.
    - Transactions ([TxnSpec]): a commit is durable, an abort restores; locks are
      exclusive, two-phase and released at the end ([LockManager]).
    - Log and recovery ([LogManager], [RecoverySpec]): flushed records are read back, a torn
      log is read up to its last whole record, and redo and undo lead from any
      mixture of old and new records to the committed state.
    - Records, indexes, pages, files, catalog, values, dates: functional correctness,
      invariants, round trips and bounds in the files named above.

    Every theorem with hypotheses has a witness, a concrete run on the in-memory
    file system with LRUReplacer, in a Module named after its file.

    ** Assumptions of the theorems

    The theorems about statements speak of tables without indexes: index maintenance is
    modelled (Dml.v, TxnManager.v) and [IxClaims] is about the tree alone.  Pages can be fetched
    ([TableSpec.roomy]): the disk works and two frames are not pinned.  Where a
    theorem has [exact], false is the weaker invariant of files that recovery has
    extended, whose free list may miss pages.

    ** What is not modelled

    The scanner and the grammar are generated tables: [yyparse] is a parameter of the
    server.  Sockets, threads, signals, the two mutexes of rmdb.cpp and the check
    of the calling thread are left out, as are rmdb_client, unit_test.cpp,
    ast_printer.h, googletest, and drop_db, a shell command.  A malformed db.meta,
    which leaves operator>> halfway, is read as an empty catalog.  Signed
    overflow, undefined in C++, wraps around.  Memory is never exhausted.  A memcpy past the end of the send buffer
    makes its list longer, so that an overrun is visible as a length. *)

From Stdlib Require Export ZArith Lia.
From stdpp Require Export base numbers gmap strings option.
From stdpp Require Export list.
#[export] Set Warnings "-clear-no-such-hyp,-notation-for-abbreviation".

(* ------------------------------------------------------------------ *)
(** ** Exceptions                                                       *)
(* ------------------------------------------------------------------ *)

(** The exception classes of src/src/errors.h, with the constructor arguments
    the code passes; [TransactionAbort] is TransactionAbortException of
    txn_defs.h, [OutOfRange] is what std::map::at and std::vector::at throw,
    [AssertFail] a failed assert and [NullDeref] a dereference of nullptr.
    [Diverge] is no exception of the program: it marks a loop that used up the
    fuel its model has. *)
Inductive abort_reason :=
  | LOCK_ON_SHIRINKING
  | UPGRADE_CONFLICT
  | DEADLOCK_PREVENTION.

Inductive exn :=
  | RMDBError (msg : string)
  | InternalError (msg : string)
  | UnixError
  | FileNotOpenError (fd : Z)
  | FileNotClosedError (filename : string)
  | FileExistsError (filename : string)
  | FileNotFoundError (filename : string)
  | RecordNotFoundError (page_no slot_no : Z)
  | InvalidRecordSizeError (record_size : Z)
  | InvalidColLengthError (col_len : Z)
  | IndexEntryNotFoundError
  | DatabaseNotFoundError (db_name : string)
  | DatabaseExistsError (db_name : string)
  | TableNotFoundError (tab_name : string)
  | TableExistsError (tab_name : string)
  | ColumnNotFoundError (col_name : string)
  | IndexNotFoundError (tab_name : string) (col_names : list string)
  | IndexExistsError (tab_name : string) (col_names : list string)
  | InvalidValueCountError
  | StringOverflowError
  | IncompatibleTypeError (lhs rhs : string)
  | NumericOverflowError (target : string)
  | InvalidDateTimeError (value : list Z)
  | AmbiguousColumnError (col_name : string)
  | PageNotExistError (table_name : string) (page_no : Z)
  | TransactionAbort (txn_id : Z) (reason : abort_reason)
  | OutOfRange
  | AssertFail
  | NullDeref
  | Diverge.

(** The result of a call: a value, or an exception that unwinds. *)
Inductive outcome (A : Type) :=
  | Ret (a : A)
  | Throw (e : exn).
Arguments Ret {A} _.
Arguments Throw {A} _.

#[export] Instance outcome_ret : MRet outcome := λ A a, Ret a.
#[export] Instance outcome_bind : MBind outcome := λ A B k m,
  match m with Ret a => k a | Throw e => Throw e end.

(** A stateful call: the state survives an exception, as the heap does. *)
Definition ST (S A : Type) : Type := S → outcome A * S.

#[export] Instance st_ret {S} : MRet (ST S) := λ A a s, (Ret a, s).
#[export] Instance st_bind {S} : MBind (ST S) := λ A B k m s,
  match m s with
  | (Ret a, s') => k a s'
  | (Throw e, s') => (Throw e, s')
  end.

Definition throw {S A} (e : exn) : ST S A := λ s, (Throw e, s).
Definition get_st {S} : ST S S := λ s, (Ret s, s).
Definition put_st {S} (s : S) : ST S unit := λ _, (Ret tt, s).
Definition modify_st {S} (f : S → S) : ST S unit := λ s, (Ret tt, f s).
Definition lift_outcome {S A} (o : outcome A) : ST S A := λ s, (o, s).
Definition assert_that {S} (b : bool) : ST S unit :=
  if b then mret tt else throw AssertFail.

(** try { m } catch (...): the handler runs in the state the exception left. *)
Definition try_catch {S A} (m : ST S A) (handler : exn → ST S A) : ST S A := λ s,
  match m s with
  | (Throw e, s') => handler e s'
  | r => r
  end.

(** [for (x : l) f x] with effects. *)
Fixpoint for_each {S A} (f : A → ST S unit) (l : list A) : ST S unit :=
  match l with
  | [] => mret tt
  | x :: l' => f x ;; for_each f l'
  end.

(** Mapping a throwing function over a vector, left to right. *)
Fixpoint map_out {A B} (f : A → outcome B) (l : list A) : outcome (list B) :=
  match l with
  | [] => Ret []
  | x :: l' => y ← f x; ys ← map_out f l'; Ret (y :: ys)
  end.

Definition of_option {A} (e : exn) (o : option A) : outcome A :=
  match o with Some a => Ret a | None => Throw e end.

(* ------------------------------------------------------------------ *)
(** ** Machine integers and bytes                                       *)
(* ------------------------------------------------------------------ *)

Open Scope Z_scope.

(** [wrap_u w z] and [wrap_s w z]: z at width w, unsigned and two's complement. *)
Definition wrap_u (w z : Z) : Z := z mod 2 ^ w.
Definition wrap_s (w z : Z) : Z := (z + 2 ^ (w - 1)) mod 2 ^ w - 2 ^ (w - 1).

Definition int32_min : Z := -2147483648.
Definition int32_max : Z := 2147483647.
Definition int64_min : Z := -9223372036854775808.
Definition int64_max : Z := 9223372036854775807.
Definition is_int32 (z : Z) : Prop := int32_min ≤ z ≤ int32_max.
Definition is_int64 (z : Z) : Prop := int64_min ≤ z ≤ int64_max.
Definition is_byte (z : Z) : Prop := 0 ≤ z < 256.

(** Memory as a list of bytes (values 0..255).  [le_bytes n z] is what a store
    of an n-byte integer leaves in memory on a little-endian machine. *)
Fixpoint le_bytes (n : nat) (z : Z) : list Z :=
  match n with
  | O => []
  | S n' => z mod 256 :: le_bytes n' (z / 256)
  end.

Fixpoint le_val (l : list Z) : Z :=
  match l with
  | [] => 0
  | b :: l' => b + 256 * le_val l'
  end.

(** A load of a signed integer of [n] bytes. *)
Definition le_int (n : nat) (l : list Z) : Z :=
  wrap_s (8 * Z.of_nat n) (le_val (take n l)).
Definition le_uint (n : nat) (l : list Z) : Z := le_val (take n l).

(** [read_at off n mem]: the n bytes at offset off; [splice off src mem]:
    memcpy(mem + off, src, length src), memory after the range unchanged. *)
Definition read_at {A} (off n : nat) (mem : list A) : list A := take n (drop off mem).
Definition splice {A} (off : nat) (src mem : list A) : list A :=
  take off mem ++ src ++ drop (off + length src) mem.

Definition load_i32 (off : nat) (mem : list Z) : Z := le_int 4 (drop off mem).
Definition load_u32 (off : nat) (mem : list Z) : Z := le_uint 4 (drop off mem).
Definition load_i64 (off : nat) (mem : list Z) : Z := le_int 8 (drop off mem).
Definition load_u64 (off : nat) (mem : list Z) : Z := le_uint 8 (drop off mem).
Definition store_int (n off : nat) (z : Z) (mem : list Z) : list Z :=
  splice off (le_bytes n z) mem.
Abbreviation store_i32 := (store_int 4).
Abbreviation store_i64 := (store_int 8).

(* ------------------------------------------------------------------ *)
(** ** Tactics and hint databases                                       *)
(* ------------------------------------------------------------------ *)

Create HintDb rmdb discriminated.

Create Rewrite HintDb len.

(** [len]: rewrite lengths of the list operations the models use, then lia. *)
#[export] Hint Rewrite @length_app @length_take @length_drop @length_replicate
  @length_fmap @length_insert @length_reverse : len.
Ltac len := autorewrite with len in *; simpl in *; try lia.

(** [bool_prop]: turn boolean tests of the code into propositions. *)
Ltac bool_prop :=
  repeat match goal with
  | H : _ && _ = true |- _ => apply andb_true_iff in H as [? ?]
  | H : _ || _ = false |- _ => apply orb_false_iff in H as [? ?]
  | H : negb _ = true |- _ => apply negb_true_iff in H
  | H : negb _ = false |- _ => apply negb_false_iff in H
  | H : bool_decide _ = true |- _ => apply bool_decide_eq_true in H
  | H : bool_decide _ = false |- _ => apply bool_decide_eq_false in H
  | H : (_ =? _) = true |- _ => apply Z.eqb_eq in H
  | H : (_ =? _) = false |- _ => apply Z.eqb_neq in H
  | H : (_ <? _) = true |- _ => apply Z.ltb_lt in H
  | H : (_ <? _) = false |- _ => apply Z.ltb_ge in H
  | H : (_ <=? _) = true |- _ => apply Z.leb_le in H
  | H : (_ <=? _) = false |- _ => apply Z.leb_gt in H
  end.

(** [case_if]: case on the test of an [if] in the goal, keeping its equation. *)
Ltac case_if :=
  match goal with
  | |- context [if ?b then _ else _] =>
      let E := fresh "E" in destruct b eqn:E; bool_prop
  end.

(* ------------------------------------------------------------------ *)
(** ** Laws of the outcome and state monads                             *)
(* ------------------------------------------------------------------ *)

Lemma st_bind_ret_inv {S A B} (m : ST S A) (k : A → ST S B) s b s'' :
  (m ≫= k) s = (Ret b, s'') →
  ∃ a s', m s = (Ret a, s') ∧ k a s' = (Ret b, s'').
Proof. unfold mbind, st_bind. destruct (m s) as [[a|e] s']; naive_solver. Qed.

Lemma st_bind_ret {S A B} (m : ST S A) (k : A → ST S B) s a s' :
  m s = (Ret a, s') → (m ≫= k) s = k a s'.
Proof. unfold mbind, st_bind. by intros ->. Qed.

Lemma st_bind_throw {S A B} (m : ST S A) (k : A → ST S B) s e s' :
  m s = (Throw e, s') → (m ≫= k) s = (Throw e, s').
Proof. unfold mbind, st_bind. by intros ->. Qed.

(** Either step of a bind may end it. *)
Lemma st_bind_inv {S A B} (m : ST S A) (k : A → ST S B) s r s'' :
  (m ≫= k) s = (r, s'') →
  (∃ a s', m s = (Ret a, s') ∧ k a s' = (r, s'')) ∨ (∃ e, m s = (Throw e, s'') ∧ r = Throw e).
Proof. unfold mbind, st_bind. destruct (m s) as [[a|e] s'] eqn:E; naive_solver. Qed.

(** A run with a known outcome, its final state left unevaluated. *)
Lemma run_eq {A B} (x : A * B) a : fst x = a → x = (a, snd x).
Proof. destruct x. by intros <-. Qed.

Lemma out_bind_ret_inv {A B} (m : outcome A) (k : A → outcome B) b :
  m ≫= k = Ret b → ∃ a, m = Ret a ∧ k a = Ret b.
Proof. destruct m; naive_solver. Qed.

Lemma map_out_ret {A B} (f : A → outcome B) l ys :
  map_out f l = Ret ys ↔ Forall2 (λ x y, f x = Ret y) l ys.
Proof.
  split.
  - revert ys. induction l as [|x l IH]; simpl; intros ys H.
    + inv H. constructor.
    + apply out_bind_ret_inv in H as (y & Hy & H).
      apply out_bind_ret_inv in H as (ys' & Hys & H). inv H. constructor; auto.
  - induction 1 as [|x y l ys Hx _ IH]; simpl; [done|]. by rewrite Hx; simpl; rewrite IH.
Qed.

(** [mstep H]: peel one bind off a successful stateful call. *)
Ltac mstep H :=
  let a := fresh "a" in let s := fresh "s" in let E := fresh "E" in
  apply st_bind_ret_inv in H as (a & s & E & H).

(* ------------------------------------------------------------------ *)
(** ** Bytes and memory                                                 *)
(* ------------------------------------------------------------------ *)

Lemma length_le_bytes n z : length (le_bytes n z) = n.
Proof. revert z. induction n; simpl; auto. Qed.
#[export] Hint Rewrite length_le_bytes : len.

Lemma le_bytes_byte n z : Forall is_byte (le_bytes n z).
Proof.
  revert z. induction n; simpl; constructor; auto.
  unfold is_byte. by apply Z.mod_pos_bound.
Qed.

Lemma le_val_bytes n z : le_val (le_bytes n z) = z mod 2 ^ (8 * Z.of_nat n).
Proof.
  revert z. induction n as [|n IH]; intros z; simpl le_bytes; simpl le_val.
  - by rewrite Z.mod_1_r.
  - rewrite IH. replace (8 * Z.of_nat (S n)) with (8 + 8 * Z.of_nat n) by lia.
    rewrite Z.pow_add_r by lia. change (2 ^ 8) with 256.
    rewrite Z.rem_mul_r by lia. lia.
Qed.

Lemma le_val_bound l : Forall is_byte l → 0 ≤ le_val l < 2 ^ (8 * Z.of_nat (length l)).
Proof.
  induction 1 as [|b l Hb _ IH]; simpl; [lia|].
  replace (8 * Z.of_nat (S (length l))) with (8 + 8 * Z.of_nat (length l)) by lia.
  rewrite Z.pow_add_r by lia. change (2 ^ 8) with 256. unfold is_byte in Hb. lia.
Qed.

Lemma le_bytes_val l : Forall is_byte l → le_bytes (length l) (le_val l) = l.
Proof.
  induction 1 as [|b l Hb _ IH]; simpl; [done|]. unfold is_byte in Hb.
  rewrite (Z.mul_comm 256), Z.mod_add, Z.mod_small, Z.div_add, Z.div_small by lia.
  by rewrite Z.add_0_l, IH.
Qed.

Lemma wrap_s_small w z : 0 < w → - 2 ^ (w - 1) ≤ z < 2 ^ (w - 1) → wrap_s w z = z.
Proof.
  intros Hw Hz. unfold wrap_s.
  assert (2 ^ w = 2 * 2 ^ (w - 1)) as E.
  { rewrite <- Z.pow_succ_r by lia. f_equal. lia. }
  rewrite Z.mod_small by lia. lia.
Qed.

Lemma wrap_s_mod w z : 0 < w → wrap_s w (z mod 2 ^ w) = wrap_s w z.
Proof.
  intros Hw. unfold wrap_s. rewrite Z.add_mod_idemp_l; [done|].
  apply Z.pow_nonzero; lia.
Qed.

Lemma take_le_bytes n z l : take n (le_bytes n z ++ l) = le_bytes n z.
Proof. rewrite take_app_le by (rewrite length_le_bytes; lia). apply take_ge. len. Qed.

Lemma le_int_bytes n z l :
  (0 < n)%nat → - 2 ^ (8 * Z.of_nat n - 1) ≤ z < 2 ^ (8 * Z.of_nat n - 1) →
  le_int n (le_bytes n z ++ l) = z.
Proof.
  intros Hn Hz. unfold le_int. rewrite take_le_bytes, le_val_bytes, wrap_s_mod by lia.
  apply wrap_s_small; lia.
Qed.

Lemma le_uint_bytes n z l :
  0 ≤ z < 2 ^ (8 * Z.of_nat n) → le_uint n (le_bytes n z ++ l) = z.
Proof. intros Hz. unfold le_uint. by rewrite take_le_bytes, le_val_bytes, Z.mod_small. Qed.

Lemma length_read_at {A} off n (l : list A) :
  (off + n ≤ length l)%nat → length (read_at off n l) = n.
Proof. unfold read_at. len. Qed.

Lemma length_splice {A} off (src mem : list A) :
  (off + length src ≤ length mem)%nat → length (splice off src mem) = length mem.
Proof. unfold splice. len. Qed.

Lemma drop_splice {A} off (src mem : list A) :
  (off ≤ length mem)%nat → drop off (splice off src mem) = src ++ drop (off + length src) mem.
Proof.
  intros H. unfold splice. rewrite drop_app_length'; [done|]. len.
Qed.

Lemma read_splice_eq {A} off (src mem : list A) :
  (off ≤ length mem)%nat → read_at off (length src) (splice off src mem) = src.
Proof. intros H. unfold read_at. rewrite drop_splice by done. by rewrite take_app_length. Qed.

Lemma lookup_splice_out {A} off (src mem : list A) i :
  (off ≤ length mem)%nat → ((i < off) ∨ (off + length src ≤ i))%nat →
  splice off src mem !! i = mem !! i.
Proof.
  intros Hl [Hi|Hi]; unfold splice.
  - rewrite lookup_app_l by (rewrite length_take; lia). by rewrite lookup_take_lt.
  - rewrite lookup_app_r by (rewrite length_take; lia).
    rewrite lookup_app_r by (rewrite length_take; lia).
    rewrite lookup_drop, length_take. f_equal. lia.
Qed.

Lemma lookup_splice_in {A} off (src mem : list A) i :
  (off ≤ length mem)%nat → (i < length src)%nat →
  splice off src mem !! (off + i)%nat = src !! i.
Proof.
  intros Hl Hi. unfold splice.
  rewrite lookup_app_r by (rewrite length_take; lia).
  rewrite lookup_app_l by (rewrite length_take; lia).
  rewrite length_take. f_equal. lia.
Qed.

(** Two byte ranges that do not meet. *)
Definition apart (o1 n1 o2 n2 : nat) : Prop := (o1 + n1 ≤ o2 ∨ o2 + n2 ≤ o1)%nat.

Lemma read_splice_ne {A} off off' n (src mem : list A) :
  (off ≤ length mem)%nat → apart off (length src) off' n →
  read_at off' n (splice off src mem) = read_at off' n mem.
Proof.
  intros Hl Hap. unfold read_at. apply list_eq. intros i.
  destruct (decide (i < n)%nat) as [Hi|Hi].
  - rewrite !lookup_take_lt, !lookup_drop by done.
    apply lookup_splice_out; [done|]. destruct Hap; lia.
  - by rewrite !lookup_take_ge by lia.
Qed.

Lemma load_i32_read off mem : load_i32 off mem = wrap_s 32 (le_val (read_at off 4 mem)).
Proof. done. Qed.

Lemma load_store_i32 off z mem :
  (off ≤ length mem)%nat → is_int32 z → load_i32 off (store_i32 off z mem) = z.
Proof.
  intros Hl Hz. unfold load_i32, store_int. rewrite drop_splice by done.
  apply le_int_bytes; [lia|]. unfold is_int32, int32_min, int32_max in Hz. simpl. lia.
Qed.

Lemma load_i32_splice_ne off off' src mem :
  (off ≤ length mem)%nat → apart off (length src) off' 4 →
  load_i32 off' (splice off src mem) = load_i32 off' mem.
Proof. intros. rewrite !load_i32_read. by rewrite read_splice_ne. Qed.

(* ------------------------------------------------------------------ *)
(** ** Lists                                                            *)
(* ------------------------------------------------------------------ *)

Lemma filter_all {A} (P : A → Prop) `{∀ x, Decision (P x)} (l : list A) :
  (∀ x, x ∈ l → P x) → filter P l = l.
Proof.
  induction l as [|x l IH]; intros Hl; [done|].
  rewrite filter_cons_True by (apply Hl; constructor).
  f_equal. apply IH. intros. apply Hl. by constructor.
Qed.

Lemma last_snoc_inv {A} (l : list A) x : last l = Some x → l = removelast l ++ [x].
Proof.
  intros H. destruct (decide (l = [])) as [->|Hn]; [done|].
  destruct (exists_last Hn) as (l' & a & ->).
  rewrite last_snoc in H. simplify_eq. by rewrite removelast_last.
Qed.

Lemma last_elem_of {A} (l : list A) x : last l = Some x → x ∈ l.
Proof. intros ->%last_snoc_inv. set_solver. Qed.

Lemma filter_ext_in {A} (P Q : A → Prop) `{∀ x, Decision (P x), ∀ x, Decision (Q x)} (l : list A) :
  (∀ x, x ∈ l → P x ↔ Q x) → filter P l = filter Q l.
Proof.
  induction l as [|x l IH]; intros Hl; [done|]. rewrite !filter_cons.
  rewrite IH by (intros; apply Hl; by constructor).
  specialize (Hl x ltac:(constructor)). repeat case_decide; tauto.
Qed.

(** One more element of a duplicate-free list satisfies the predicate. *)
Lemma length_filter_flip {A} (P Q : A → Prop) `{∀ x, Decision (P x), ∀ x, Decision (Q x)} (l : list A) x :
  NoDup l → x ∈ l → ¬ P x → Q x → (∀ y, y ≠ x → P y ↔ Q y) →
  length (filter Q l) = S (length (filter P l)).
Proof.
  intros Hnd Hx HP HQ Hy. induction l as [|z l IH]; [by apply elem_of_nil in Hx|].
  apply NoDup_cons in Hnd as [Hz Hnd]. rewrite !filter_cons. apply elem_of_cons in Hx as [->|Hx].
  - rewrite decide_True by done. rewrite decide_False by done. simpl. f_equal. f_equal.
    apply filter_ext_in. intros y Hin. rewrite Hy; [done|]. by intros ->.
  - specialize (IH Hnd Hx). assert (z ≠ x) as Hne by by intros ->. specialize (Hy z Hne).
    repeat case_decide; simpl; try tauto. by rewrite IH.
Qed.

Lemma filter_none {A} (P : A → Prop) `{∀ x, Decision (P x)} (l : list A) :
  (∀ x, x ∈ l → ¬ P x) → filter P l = [].
Proof.
  induction l as [|x l IH]; intros Hl; [done|]. rewrite filter_cons_False by (apply Hl; constructor).
  apply IH. intros y Hy. apply Hl. by constructor.
Qed.

(* ------------------------------------------------------------------ *)
(** ** Strings as bytes                                                 *)
(* ------------------------------------------------------------------ *)

Definition byte_of_ascii (a : Ascii.ascii) : Z := Z.of_nat (Ascii.nat_of_ascii a).
Definition ascii_of_byte (b : Z) : Ascii.ascii := Ascii.ascii_of_nat (Z.to_nat b).
Definition bytes_of_string (s : string) : list Z := byte_of_ascii <$> String.list_ascii_of_string s.
Definition string_of_bytes (l : list Z) : string := String.string_of_list_ascii (ascii_of_byte <$> l).

Lemma string_of_bytes_of_string s : string_of_bytes (bytes_of_string s) = s.
Proof.
  unfold string_of_bytes, bytes_of_string. rewrite <- list_fmap_compose.
  rewrite (list_fmap_ext _ id), list_fmap_id; [apply String.string_of_list_ascii_of_string|].
  intros i a _. unfold compose, ascii_of_byte, byte_of_ascii. rewrite Nat2Z.id. apply Ascii.ascii_nat_embedding.
Qed.

Lemma bytes_of_string_byte s : Forall is_byte (bytes_of_string s).
Proof.
  apply Forall_fmap, Forall_true. intros a. unfold compose, is_byte, byte_of_ascii.
  pose proof (Ascii.nat_ascii_bounded a). lia.
Qed.

(** Consecutive copies write one block. *)
Lemma splice_app {A} off (a b mem : list A) :
  (off + length a ≤ length mem)%nat → splice (off + length a) b (splice off a mem) = splice off (a ++ b) mem.
Proof.
  intros Hl. unfold splice at 1.
  assert (take (off + length a) (splice off a mem) = take off mem ++ a) as ->.
  { unfold splice. rewrite app_assoc. apply take_app_length'. len. }
  assert (drop (off + length a + length b) (splice off a mem) = drop (off + (length a + length b)) mem) as ->.
  { unfold splice. rewrite app_assoc, drop_app_ge by len. rewrite length_app, length_take, drop_drop. f_equal. lia. }
  unfold splice. rewrite length_app. by rewrite <- !app_assoc.
Qed.

(** Reading a byte string field by field: the fields at a position, when the
    rest of the memory from there on is known. *)
Lemma cur_read {A} off (v k src : list A) :
  drop off src = v ++ k → read_at off (length v) src = v ∧ drop (off + length v) src = k.
Proof.
  intros E. unfold read_at. rewrite E, take_app_length, <- drop_drop, E, drop_app_length. done.
Qed.

Lemma cur_i32 off z k src : is_int32 z → drop off src = le_bytes 4 z ++ k →
  load_i32 off src = z ∧ drop (off + 4) src = k.
Proof.
  intros Hz E. split.
  - unfold load_i32. rewrite E. apply le_int_bytes; [lia|]. unfold is_int32, int32_min, int32_max in Hz. simpl. lia.
  - apply cur_read in E as [_ E]. by rewrite length_le_bytes in E.
Qed.

Lemma cur_u32 off z k src : 0 ≤ z < 2 ^ 32 → drop off src = le_bytes 4 z ++ k →
  load_u32 off src = z ∧ drop (off + 4) src = k.
Proof.
  intros Hz E. split.
  - unfold load_u32. rewrite E. by apply le_uint_bytes.
  - apply cur_read in E as [_ E]. by rewrite length_le_bytes in E.
Qed.

Lemma cur_u64 off z k src : 0 ≤ z < 2 ^ 64 → drop off src = le_bytes 8 z ++ k →
  load_u64 off src = z ∧ drop (off + 8) src = k.
Proof.
  intros Hz E. split.
  - unfold load_u64. rewrite E. by apply le_uint_bytes.
  - apply cur_read in E as [_ E]. by rewrite length_le_bytes in E.
Qed.

(* ------------------------------------------------------------------ *)
(** ** Functions updated at one point                                   *)
(* ------------------------------------------------------------------ *)

Definition upd {A} (n : Z) (x : A) (f : Z → A) : Z → A := λ m, if m =? n then x else f m.

Lemma upd_eq {A} n (x : A) f : upd n x f n = x.
Proof. unfold upd. by rewrite Z.eqb_refl. Qed.
Lemma upd_ne {A} n m (x : A) f : m ≠ n → upd n x f m = f m.
Proof. unfold upd. intros. by destruct (Z.eqb_spec m n). Qed.
Lemma upd_upd {A} n (x y : A) f m : upd n x (upd n y f) m = upd n x f m.
Proof. destruct (decide (m = n)) as [->|]; [by rewrite !upd_eq|by rewrite !upd_ne]. Qed.

Lemma elem_concat {A} (x : A) ls : x ∈ concat ls ↔ ∃ i l, ls !! i = Some l ∧ x ∈ l.
Proof.
  rewrite list_elem_of_In, in_concat. split.
  - intros (l & Hl & Hx). apply list_elem_of_In, list_elem_of_lookup in Hl as [i Hi]. exists i, l.
    by rewrite list_elem_of_In.
  - intros (i & l & Hi & Hx). exists l. rewrite <- !list_elem_of_In. split; [|done]. by eapply list_elem_of_lookup_2.
Qed.
