(* ===== verification/Defs.v ===== *)
(** * Shared declarations

    The constants of src/src/common/config.h and the plain data types of
    src/src/defs.h and src/src/storage/page.h that every component uses:
    record ids, column types and page ids, with decidable equality and
    countability so that they can be map keys. *)

From S2P Require Import Prelude.

(** config.h *)
Definition INVALID_PAGE_ID : Z := -1.
Definition INVALID_TXN_ID : Z := -1.
Definition INVALID_LSN : Z := -1.
Definition PAGE_SIZE : Z := 4096.
Definition BUFFER_POOL_SIZE : Z := 65536.
Definition LOG_BUFFER_SIZE : Z := 1024 * PAGE_SIZE.
Definition BUFFER_LENGTH : Z := 8192.
Definition LOG_FILE_NAME : string := "db.log".
Definition DB_META_NAME : string := "db.meta".

(** defs.h: struct Rid and its operator== *)
Record Rid := mkRid { page_no : Z; slot_no : Z }.

#[export] Instance Rid_eq_dec : EqDecision Rid.
Proof. solve_decision. Defined.
#[export] Instance Rid_countable : Countable Rid.
Proof.
  refine (inj_countable' (λ r, (page_no r, slot_no r)) (λ p, mkRid p.1 p.2) _). by intros [].
Defined.

Definition rid_eqb (x y : Rid) : bool :=
  (page_no x =? page_no y) && (slot_no x =? slot_no y).

Lemma rid_eqb_eq x y : rid_eqb x y = true ↔ x = y.
Proof.
  destruct x, y. unfold rid_eqb. simpl. rewrite andb_true_iff, !Z.eqb_eq.
  split; [intros [-> ->]; done | by inversion 1].
Qed.

(** The struct in memory. *)
Definition rid_bytes (r : Rid) : list Z := le_bytes 4 (page_no r) ++ le_bytes 4 (slot_no r).

Definition rid_wf (r : Rid) : Prop := is_int32 (page_no r) ∧ is_int32 (slot_no r).

(** defs.h: enum ColType, numbered from 0 *)
Inductive ColType := TYPE_INT | TYPE_BIGINT | TYPE_FLOAT | TYPE_STRING | TYPE_DATETIME.

#[export] Instance ColType_eq_dec : EqDecision ColType.
Proof. solve_decision. Defined.

Definition coltype_code (t : ColType) : Z :=
  match t with
  | TYPE_INT => 0 | TYPE_BIGINT => 1 | TYPE_FLOAT => 2 | TYPE_STRING => 3 | TYPE_DATETIME => 4
  end.

(** static_cast<ColType>(int): the values outside the enumeration have no
    constructor, hence [None]. *)
Definition coltype_of_code (z : Z) : option ColType :=
  if z =? 0 then Some TYPE_INT else if z =? 1 then Some TYPE_BIGINT
  else if z =? 2 then Some TYPE_FLOAT else if z =? 3 then Some TYPE_STRING
  else if z =? 4 then Some TYPE_DATETIME else None.

Lemma coltype_of_code_code t : coltype_of_code (coltype_code t) = Some t.
Proof. by destruct t. Qed.

Definition coltype2str (t : ColType) : string :=
  match t with
  | TYPE_INT => "INT" | TYPE_BIGINT => "BIGINT" | TYPE_FLOAT => "FLOAT"
  | TYPE_STRING => "STRING" | TYPE_DATETIME => "DATETIME"
  end.

(** page.h: struct PageId, operator== and operator< *)
Record PageId := mkPageId { pid_fd : Z; pid_no : Z }.

#[export] Instance PageId_eq_dec : EqDecision PageId.
Proof. solve_decision. Defined.
#[export] Instance PageId_countable : Countable PageId.
Proof.
  refine (inj_countable' (λ r, (pid_fd r, pid_no r)) (λ p, mkPageId p.1 p.2) _). by intros [].
Defined.

Definition pageid_eqb (x y : PageId) : bool :=
  (pid_fd x =? pid_fd y) && (pid_no x =? pid_no y).

Definition pageid_ltb (this x : PageId) : bool :=
  if pid_fd this <? pid_fd x then true else pid_no this <? pid_no x.

(** PageId::Get and PageIdHash: [fd << 16] is 32-bit int arithmetic. *)
Definition pageid_get (x : PageId) : Z :=
  Z.lor (wrap_s 32 (Z.shiftl (pid_fd x) 16)) (pid_no x).

Lemma pageid_eqb_eq x y : pageid_eqb x y = true ↔ x = y.
Proof.
  destruct x, y. unfold pageid_eqb. simpl. rewrite andb_true_iff, !Z.eqb_eq.
  split; [intros [-> ->]; done | by inversion 1].
Qed.

(** operator< of PageId is not a strict order: two distinct ids can each be
    less than the other. *)
Lemma pageid_ltb_not_asymmetric :
  pageid_ltb (mkPageId 1 5) (mkPageId 2 3) = true ∧
  pageid_ltb (mkPageId 2 3) (mkPageId 1 5) = true.
Proof. done. Qed.
