(* ===== verification/Text.v ===== *)
(** * Text input and output

    What the sources use of the standard library to print and read text:
    decimal conversion of integers (std::to_string, operator<<, the %0nd
    conversion of snprintf) and formatted extraction from a stream
    (operator>> for strings, integers and bool).  Text is a list of bytes. *)

From S2P Require Import Prelude.

Definition is_digit (c : Z) : bool := (48 <=? c) && (c <=? 57).
(** isspace in the C locale *)
Definition is_space (c : Z) : bool := (c =? 32) || ((9 <=? c) && (c <=? 13)).

Fixpoint digits_loop (fuel : nat) (n : Z) (acc : list Z) : list Z :=
  match fuel with
  | O => acc
  | S fuel' =>
      let acc := (48 + n mod 10) :: acc in
      if n / 10 =? 0 then acc else digits_loop fuel' (n / 10) acc
  end.

(** The decimal digits of a natural number; it has at most log2 n + 1. *)
Definition digits (n : Z) : list Z := digits_loop (Z.to_nat (Z.log2 n + 1)) n [].

Definition to_string (z : Z) : list Z := if z <? 0 then 45 :: digits (- z) else digits z.

(** %0<width>d *)
Definition zero_pad (width : nat) (z : Z) : list Z :=
  if z <? 0 then 45 :: replicate (width - S (length (digits (- z)))) 48 ++ digits (- z)
  else replicate (width - length (digits z)) 48 ++ digits z.

Definition digits_value (l : list Z) : Z := fold_left (λ acc c, acc * 10 + (c - 48)) l 0.

(** ** Extraction: [None] is a stream whose failbit is set *)

Fixpoint skip_ws (l : list Z) : list Z :=
  match l with
  | c :: l' => if is_space c then skip_ws l' else l
  | [] => []
  end.

Fixpoint span (f : Z → bool) (l : list Z) : list Z * list Z :=
  match l with
  | c :: l' => if f c then let '(a, b) := span f l' in (c :: a, b) else ([], l)
  | [] => ([], [])
  end.

Definition read_word (l : list Z) : option (list Z * list Z) :=
  match span (λ c, negb (is_space c)) (skip_ws l) with
  | ([], _) => None
  | p => Some p
  end.

Definition read_sign (l : list Z) : bool * list Z :=
  match l with
  | c :: l' => if c =? 45 then (true, l') else if c =? 43 then (false, l') else (false, l)
  | [] => (false, [])
  end.

(** is >> x for an integer type with the range [lo, hi]. *)
Definition read_int (lo hi : Z) (l : list Z) : option (Z * list Z) :=
  let '(neg, l) := read_sign (skip_ws l) in
  match span is_digit l with
  | ([], _) => None
  | (ds, rest) =>
      let v := if neg then - digits_value ds else digits_value ds in
      if (lo <=? v) && (v <=? hi) then Some (v, rest) else None
  end.

Definition read_i32 : list Z → option (Z * list Z) := read_int int32_min int32_max.
Definition read_size_t : list Z → option (Z * list Z) := read_int 0 (2 ^ 64 - 1).
Definition read_bool (l : list Z) : option (bool * list Z) :=
  match read_int int64_min int64_max l with
  | Some (v, rest) => if v =? 0 then Some (false, rest) else if v =? 1 then Some (true, rest) else None
  | None => None
  end.

(* ------------------------------------------------------------------ *)
(** ** Decimal digits                                                   *)
(* ------------------------------------------------------------------ *)

Lemma digits_value_app l k : digits_value (l ++ k) = fold_left (λ acc c, acc * 10 + (c - 48)) k (digits_value l).
Proof. unfold digits_value. by rewrite fold_left_app. Qed.

Lemma digits_value_snoc l c : digits_value (l ++ [c]) = digits_value l * 10 + (c - 48).
Proof. by rewrite digits_value_app. Qed.

Lemma digits_loop_app fuel n acc : digits_loop fuel n acc = digits_loop fuel n [] ++ acc.
Proof.
  revert n acc. induction fuel as [|fuel IH]; intros n acc; [done|]. simpl. case_if; [done|].
  rewrite IH, (IH _ [_]). by rewrite <- app_assoc.
Qed.

Lemma digits_loop_step fuel n : 10 ≤ n →
  digits_loop (S fuel) n [] = digits_loop fuel (n / 10) [] ++ [48 + n mod 10].
Proof.
  intros Hn. cbn [digits_loop]. destruct (Z.eqb_spec (n / 10) 0) as [E|_].
  - pose proof (Z.div_mod n 10). pose proof (Z.mod_pos_bound n 10). lia.
  - apply digits_loop_app.
Qed.

Lemma digits_loop_small fuel n : 0 ≤ n < 10 → digits_loop (S fuel) n [] = [48 + n].
Proof. intros Hn. cbn [digits_loop]. rewrite Z.mod_small, Z.div_small by lia. done. Qed.

(** Enough fuel is as good as any. *)
Lemma digits_loop_fuel f1 f2 n : 0 ≤ n → n < 10 ^ Z.of_nat f1 → n < 10 ^ Z.of_nat f2 →
  (0 < f1)%nat → (0 < f2)%nat → digits_loop f1 n [] = digits_loop f2 n [].
Proof.
  revert f2 n. induction f1 as [|f1 IH]; intros f2 n Hn H1 H2 Hp1 Hp2; [lia|]. destruct f2 as [|f2]; [lia|].
  destruct (Z.lt_ge_cases n 10) as [Hs|Hs]; [by rewrite !digits_loop_small|].
  rewrite !digits_loop_step by done.
  assert (∀ f, n < 10 ^ Z.of_nat (S f) → n / 10 < 10 ^ Z.of_nat f ∧ (0 < f)%nat) as Hd.
  { intros f Hf. destruct f as [|f]; [simpl in Hf; lia|]. split; [|lia]. apply Z.div_lt_upper_bound; [lia|].
    rewrite <- Z.pow_succ_r by lia. rewrite <- Nat2Z.inj_succ. done. }
  destruct (Hd f1 H1), (Hd f2 H2). f_equal. apply IH; try done. apply Z.div_pos; lia.
Qed.

Lemma log2_fuel n : 0 ≤ n → n < 10 ^ Z.of_nat (Z.to_nat (Z.log2 n + 1)) ∧ (0 < Z.to_nat (Z.log2 n + 1))%nat.
Proof.
  intros Hn. pose proof (Z.log2_nonneg n). split; [|lia]. rewrite Z2Nat.id by lia.
  destruct (Z.eq_dec n 0) as [->|Hz]; [done|]. pose proof (Z.log2_spec n ltac:(lia)) as [_ Hs].
  eapply Z.lt_le_trans; [exact Hs|]. apply Z.pow_le_mono_l. lia.
Qed.

Lemma digits_small n : 0 ≤ n < 10 → digits n = [48 + n].
Proof.
  intros Hn. unfold digits. pose proof (log2_fuel n ltac:(lia)) as [_ Hf].
  destruct (Z.to_nat _) as [|f]; [lia|]. by apply digits_loop_small.
Qed.

Lemma digits_step n : 10 ≤ n → digits n = digits (n / 10) ++ [48 + n mod 10].
Proof.
  intros Hn. unfold digits. pose proof (log2_fuel n ltac:(lia)) as [Hf1 Hf2].
  assert (0 < n / 10) by (apply Z.div_str_pos; lia).
  pose proof (log2_fuel (n / 10) ltac:(lia)) as [Hg1 Hg2].
  destruct (Z.to_nat (Z.log2 n + 1)) as [|f]; [lia|]. rewrite digits_loop_step by done. f_equal.
  assert (n / 10 < 10 ^ Z.of_nat f).
  { apply Z.div_lt_upper_bound; [lia|]. rewrite <- Z.pow_succ_r by lia. by rewrite <- Nat2Z.inj_succ. }
  destruct f; [simpl in *; lia|]. apply digits_loop_fuel; try lia.
Qed.

Lemma digits_snoc m x : 0 < m → 0 ≤ x < 10 → digits (m * 10 + x) = digits m ++ [48 + x].
Proof.
  intros Hm Hx. rewrite digits_step, Z.div_add_l, (Z.div_small x), Z.add_0_r by lia.
  do 2 f_equal. rewrite (Z.add_comm (m * 10)), Z.mod_add, Z.mod_small by lia. done.
Qed.

(** Induction on the number of digits. *)
Lemma digits_ind (P : Z → Prop) :
  (∀ n, 0 ≤ n < 10 → P n) → (∀ n, 10 ≤ n → P (n / 10) → P n) → ∀ n, 0 ≤ n → P n.
Proof.
  intros H0 H1 n Hn. revert Hn. pattern n. apply (well_founded_induction (Z.lt_wf 0)). clear n. intros n IH Hn.
  destruct (Z.lt_ge_cases n 10); [by apply H0|]. apply H1; [done|].
  pose proof (Z.div_mod n 10). pose proof (Z.mod_pos_bound n 10). apply IH; lia.
Qed.

Lemma digits_value_digits n : 0 ≤ n → digits_value (digits n) = n.
Proof.
  revert n. apply digits_ind.
  - intros n Hn. rewrite digits_small by done. unfold digits_value. simpl. lia.
  - intros n Hn IH. rewrite digits_step, digits_value_snoc, IH by done. pose proof (Z.div_mod n 10). lia.
Qed.

Lemma digits_are_digits n : 0 ≤ n → Forall (λ c, is_digit c = true) (digits n).
Proof.
  assert (∀ d, 0 ≤ d < 10 → is_digit (48 + d) = true) as Hd.
  { intros d Hd. unfold is_digit. apply andb_true_iff. rewrite !Z.leb_le. lia. }
  revert n. apply digits_ind.
  - intros n Hn. rewrite digits_small by done. repeat constructor. by apply Hd.
  - intros n Hn IH. rewrite digits_step by done. apply Forall_app. split; [done|]. repeat constructor. apply Hd.
    by apply Z.mod_pos_bound.
Qed.

Lemma digits_nonempty n : 0 ≤ n → digits n ≠ [].
Proof.
  intros Hn. destruct (Z.lt_ge_cases n 10); [rewrite digits_small by lia; done|]. rewrite digits_step by lia.
  intros E. by apply app_nil in E as [_ ?].
Qed.

Lemma digits_length_le n k : 0 ≤ n < 10 ^ Z.of_nat (S k) → (length (digits n) ≤ S k)%nat.
Proof.
  revert n. induction k as [|k IH]; intros n Hn; [rewrite digits_small by (simpl in Hn; lia); simpl; lia|].
  destruct (Z.lt_ge_cases n 10); [rewrite digits_small by lia; simpl; lia|].
  rewrite digits_step by lia. rewrite length_app. simpl. specialize (IH (n / 10)).
  assert (0 ≤ n / 10 < 10 ^ Z.of_nat (S k)); [|specialize (IH ltac:(done)); lia].
  split; [apply Z.div_pos; lia|]. apply Z.div_lt_upper_bound; [lia|].
  rewrite <- Z.pow_succ_r by lia. rewrite <- Nat2Z.inj_succ. apply Hn.
Qed.

(* ------------------------------------------------------------------ *)
(** ** Reading back what was printed                                    *)
(* ------------------------------------------------------------------ *)

Lemma span_app f l k : Forall (λ c, f c = true) l → (∀ c k', k = c :: k' → f c = false) → span f (l ++ k) = (l, k).
Proof.
  intros Hl Hk. induction Hl as [|c l Hc _ IH]; simpl.
  - destruct k as [|c k]; [done|]. simpl. by rewrite (Hk c k).
  - by rewrite Hc, IH.
Qed.

Lemma skip_ws_word c l : is_space c = false → skip_ws (c :: l) = c :: l.
Proof. intros Hc. simpl. by rewrite Hc. Qed.

Lemma digit_not_space c : is_digit c = true → is_space c = false ∧ c ≠ 45 ∧ c ≠ 43.
Proof.
  unfold is_digit, is_space. intros [H1 H2]%andb_true_iff. bool_prop. rewrite orb_false_iff, andb_false_iff.
  rewrite Z.eqb_neq, !Z.leb_gt. lia.
Qed.

(** [ends_word k]: the text after a token: white space or the end. *)
Definition ends_word (k : list Z) : Prop := ∀ c k', k = c :: k' → is_space c = true.
(** A token: not empty, no white space. *)
Definition token (w : list Z) : Prop := w ≠ [] ∧ Forall (λ c, is_space c = false) w.

Lemma ends_word_cons c k : is_space c = true → ends_word (c :: k).
Proof. intros Hc c' k' [= <- <-]. done. Qed.

Lemma read_word_token w k : token w → ends_word k → read_word (w ++ k) = Some (w, k).
Proof.
  intros [Hne Hw] Hk. unfold read_word. destruct w as [|c w]; [done|].
  rewrite <- app_comm_cons, skip_ws_word by by apply Forall_cons in Hw as [? _].
  rewrite app_comm_cons, span_app; [done| |].
  - eapply Forall_impl; [exact Hw|]. simpl. intros x ->. done.
  - intros c' k' ->. by rewrite (Hk c' k').
Qed.

Lemma read_word_ws c l : is_space c = true → read_word (c :: l) = read_word l.
Proof. intros Hc. unfold read_word. simpl. by rewrite Hc. Qed.

Lemma read_int_ws lo hi c l : is_space c = true → read_int lo hi (c :: l) = read_int lo hi l.
Proof. intros Hc. unfold read_int. simpl. by rewrite Hc. Qed.

Lemma read_int_to_string lo hi z k : lo ≤ z ≤ hi → ends_word k → read_int lo hi (to_string z ++ k) = Some (z, k).
Proof.
  intros Hz Hk. unfold read_int, to_string.
  assert (∀ n, 0 ≤ n → span is_digit (digits n ++ k) = (digits n, k)) as Hspan.
  { intros n Hn. apply span_app; [by apply digits_are_digits|]. intros c k' ->. specialize (Hk c k' eq_refl).
    destruct (is_digit c) eqn:E; [|done]. apply digit_not_space in E as [E _]. congruence. }
  assert ((lo <=? z) && (z <=? hi) = true) as Hr by (apply andb_true_iff; rewrite !Z.leb_le; done).
  destruct (Z.ltb_spec z 0) as [Hneg|Hpos].
  - rewrite <- app_comm_cons, skip_ws_word by done. cbn [read_sign]. simpl (45 =? 45). cbv iota.
    rewrite Hspan by lia. destruct (digits (- z)) as [|c ds] eqn:E; [by apply digits_nonempty in E; [|lia]|].
    rewrite <- E, digits_value_digits, Z.opp_involutive, Hr by lia. done.
  - pose proof (digits_are_digits z Hpos) as Hd. destruct (digits z) as [|c ds] eqn:E;
      [by apply digits_nonempty in E|]. apply Forall_cons in Hd as [Hc _].
    apply digit_not_space in Hc as (Hs & H45 & H43). rewrite <- app_comm_cons, skip_ws_word by done.
    unfold read_sign. destruct (Z.eqb_spec c 45); [done|]. destruct (Z.eqb_spec c 43); [done|].
    rewrite app_comm_cons, <- E, Hspan by done. rewrite E, <- E, digits_value_digits, Hr by done. done.
Qed.

Lemma read_bool_to_string (b : bool) k : ends_word k → read_bool (to_string (if b then 1 else 0) ++ k) = Some (b, k).
Proof.
  intros Hk. unfold read_bool. rewrite read_int_to_string; [by destruct b| |done].
  unfold int64_min, int64_max. destruct b; lia.
Qed.
