(* ===== verification/Datetime.v ===== *)
(** * Datetime values (src/src/common/datetime_utils.h)

    Parsing of 'YYYY-MM-DD hh:mm:ss' literals into the decimal encoding that is
    stored in records, and its printing. *)

From S2P Require Import Prelude Text.

(** The operands of % are non-negative in every call, where C and Rocq agree. *)
Definition is_leap_year (year : Z) : bool :=
  ((Z.rem year 4 =? 0) && negb (Z.rem year 100 =? 0)) || (Z.rem year 400 =? 0).

Definition month_days : list Z := [31; 28; 31; 30; 31; 30; 31; 31; 30; 31; 30; 31].

Definition days_in_month (year month : Z) : Z :=
  if (month =? 2) && is_leap_year year then 29
  else nth (Z.to_nat (month - 1)) month_days 0.

(** value[i] *)
Definition char_at (value : list Z) (i : nat) : Z := nth i value 0.

Fixpoint component_loop (value : list Z) (begin len : nat) (result : Z) : outcome Z :=
  match len with
  | O => Ret result
  | S len' =>
      let ch := char_at value begin in
      if negb (is_digit ch) then Throw (InvalidDateTimeError value)
      else component_loop value (S begin) len' (result * 10 + (ch - 48))
  end.

Definition parse_datetime_component (value : list Z) (begin len : nat) : outcome Z :=
  component_loop value begin len 0.

Definition encode_datetime (year month day hour minute second : Z) : Z :=
  let encoded := year in
  let encoded := encoded * 100 + month in
  let encoded := encoded * 100 + day in
  let encoded := encoded * 100 + hour in
  let encoded := encoded * 100 + minute in
  encoded * 100 + second.

Definition datetime_in_range (year month day hour minute second : Z) : bool :=
  negb ((year <? 1000) || (9999 <? year) || (month <? 1) || (12 <? month) || (day <? 1) ||
        (days_in_month year month <? day) || (hour <? 0) || (23 <? hour) || (minute <? 0) ||
        (59 <? minute) || (second <? 0) || (59 <? second)).

Definition parse_datetime_string (value : list Z) : outcome Z :=
  if negb (Z.of_nat (length value) =? 19) || negb (char_at value 4 =? 45) || negb (char_at value 7 =? 45) ||
     negb (char_at value 10 =? 32) || negb (char_at value 13 =? 58) || negb (char_at value 16 =? 58)
  then Throw (InvalidDateTimeError value) else
  year ← parse_datetime_component value 0 4;
  month ← parse_datetime_component value 5 2;
  day ← parse_datetime_component value 8 2;
  hour ← parse_datetime_component value 11 2;
  minute ← parse_datetime_component value 14 2;
  second ← parse_datetime_component value 17 2;
  if negb (datetime_in_range year month day hour minute second) then Throw (InvalidDateTimeError value)
  else Ret (encode_datetime year month day hour minute second).

(** snprintf into buffer[20] keeps at most 19 characters. *)
Definition format_datetime_value (encoded : Z) : list Z :=
  let second := Z.rem encoded 100 in
  let encoded := Z.quot encoded 100 in
  let minute := Z.rem encoded 100 in
  let encoded := Z.quot encoded 100 in
  let hour := Z.rem encoded 100 in
  let encoded := Z.quot encoded 100 in
  let day := Z.rem encoded 100 in
  let encoded := Z.quot encoded 100 in
  let month := Z.rem encoded 100 in
  let encoded := Z.quot encoded 100 in
  let year := Z.rem encoded 10000 in
  take 19 (zero_pad 4 year ++ [45] ++ zero_pad 2 month ++ [45] ++ zero_pad 2 day ++ [32] ++
           zero_pad 2 hour ++ [58] ++ zero_pad 2 minute ++ [58] ++ zero_pad 2 second).

(* ------------------------------------------------------------------ *)
(** ** Fields of a literal                                              *)
(* ------------------------------------------------------------------ *)

Definition digit_value (c : Z) : Z := c - 48.

Lemma component2 value i v :
  parse_datetime_component value i 2 = Ret v →
  let a := char_at value i in let b := char_at value (S i) in
  is_digit a = true ∧ is_digit b = true ∧ v = digit_value a * 10 + digit_value b.
Proof.
  unfold parse_datetime_component, digit_value. simpl. do 2 (case_if; [done|]). intros [= <-].
  split_and!; [done|done|lia].
Qed.

Lemma component4 value i v :
  parse_datetime_component value i 4 = Ret v →
  let a := char_at value i in let b := char_at value (S i) in
  let c := char_at value (S (S i)) in let d := char_at value (S (S (S i))) in
  is_digit a = true ∧ is_digit b = true ∧ is_digit c = true ∧ is_digit d = true ∧
  v = ((digit_value a * 10 + digit_value b) * 10 + digit_value c) * 10 + digit_value d.
Proof.
  unfold parse_datetime_component, digit_value. simpl. do 4 (case_if; [done|]). intros [= <-].
  split_and!; [done..|lia].
Qed.

Lemma digit_bounds c : is_digit c = true → 48 ≤ c ≤ 57.
Proof. unfold is_digit. intros [? ?]%andb_true_iff. bool_prop. lia. Qed.

Lemma zero_pad2 a b : 0 ≤ a < 10 → 0 ≤ b < 10 → zero_pad 2 (a * 10 + b) = [48 + a; 48 + b].
Proof.
  intros Ha Hb. unfold zero_pad. destruct (Z.ltb_spec (a * 10 + b) 0); [lia|].
  destruct (Z.eq_dec a 0) as [->|Hz]; [by rewrite digits_small by lia|].
  by rewrite digits_snoc, digits_small by lia.
Qed.

Lemma zero_pad4 a b c d : 0 < a < 10 → 0 ≤ b < 10 → 0 ≤ c < 10 → 0 ≤ d < 10 →
  zero_pad 4 (((a * 10 + b) * 10 + c) * 10 + d) = [48 + a; 48 + b; 48 + c; 48 + d].
Proof.
  intros Ha Hb Hc Hd. unfold zero_pad. destruct (Z.ltb_spec (((a * 10 + b) * 10 + c) * 10 + d) 0); [lia|].
  rewrite !digits_snoc, digits_small by lia. done.
Qed.

Lemma zero_pad2_range v : 0 ≤ v < 100 → ∃ a b, 0 ≤ a < 10 ∧ 0 ≤ b < 10 ∧ v = a * 10 + b.
Proof.
  intros Hv. exists (v / 10), (v mod 10). pose proof (Z.div_mod v 10). pose proof (Z.mod_pos_bound v 10).
  assert (0 ≤ v / 10 < 10) by (split; [apply Z.div_pos|apply Z.div_lt_upper_bound]; lia). lia.
Qed.

Lemma zero_pad4_range v : 1000 ≤ v ≤ 9999 →
  ∃ a b c d, 0 < a < 10 ∧ 0 ≤ b < 10 ∧ 0 ≤ c < 10 ∧ 0 ≤ d < 10 ∧ v = ((a * 10 + b) * 10 + c) * 10 + d.
Proof.
  intros Hv. exists (v / 10 / 10 / 10), (v / 10 / 10 mod 10), (v / 10 mod 10), (v mod 10).
  pose proof (Z.mod_pos_bound v 10). pose proof (Z.mod_pos_bound (v / 10) 10).
  pose proof (Z.mod_pos_bound (v / 10 / 10) 10). pose proof (Z.div_mod v 10). pose proof (Z.div_mod (v / 10) 10).
  pose proof (Z.div_mod (v / 10 / 10) 10). lia.
Qed.

(** Splitting an encoding into its fields. *)
Lemma encode_split x v : 0 ≤ x → 0 ≤ v < 100 → Z.rem (x * 100 + v) 100 = v ∧ Z.quot (x * 100 + v) 100 = x.
Proof.
  intros Hx Hv. rewrite Z.rem_mod_nonneg, Z.quot_div_nonneg by lia.
  rewrite Z.add_comm, Z.mod_add, Z.div_add, Z.mod_small, Z.div_small by lia. lia.
Qed.

Lemma format_encode year month day hour minute second :
  1000 ≤ year ≤ 9999 → 0 ≤ month < 100 → 0 ≤ day < 100 → 0 ≤ hour < 100 → 0 ≤ minute < 100 → 0 ≤ second < 100 →
  format_datetime_value (encode_datetime year month day hour minute second) =
  zero_pad 4 year ++ [45] ++ zero_pad 2 month ++ [45] ++ zero_pad 2 day ++ [32] ++
  zero_pad 2 hour ++ [58] ++ zero_pad 2 minute ++ [58] ++ zero_pad 2 second.
Proof.
  intros Hy Hmo Hd Hh Hmi Hs. unfold format_datetime_value, encode_datetime. cbv zeta.
  repeat (match goal with
          | |- context [Z.rem (?x * 100 + ?v) 100] =>
              destruct (encode_split x v) as [Er Eq]; [lia|done|]; rewrite Er, Eq; clear Er Eq
          end).
  rewrite Z.rem_small by lia.
  destruct (zero_pad4_range year Hy) as (a & b & c & d & ? & ? & ? & ? & ->).
  destruct (zero_pad2_range month Hmo) as (? & ? & ? & ? & ->).
  destruct (zero_pad2_range day Hd) as (? & ? & ? & ? & ->).
  destruct (zero_pad2_range hour Hh) as (? & ? & ? & ? & ->).
  destruct (zero_pad2_range minute Hmi) as (? & ? & ? & ? & ->).
  destruct (zero_pad2_range second Hs) as (? & ? & ? & ? & ->).
  rewrite zero_pad4, !zero_pad2 by done. done.
Qed.

Lemma is_digit_of d : 0 ≤ d < 10 → is_digit (48 + d) = true.
Proof. intros Hd. unfold is_digit. apply andb_true_iff. rewrite !Z.leb_le. lia. Qed.

Lemma in_range_bounds y mo d h mi s : datetime_in_range y mo d h mi s = true →
  1000 ≤ y ≤ 9999 ∧ 1 ≤ mo ≤ 12 ∧ 1 ≤ d ≤ days_in_month y mo ∧ 0 ≤ h < 24 ∧ 0 ≤ mi < 60 ∧ 0 ≤ s < 60.
Proof. unfold datetime_in_range. intros H. bool_prop. lia. Qed.

Lemma days_in_month_le y mo : 1 ≤ mo ≤ 12 → days_in_month y mo ≤ 31.
Proof.
  intros Hm. unfold days_in_month. case_if; [lia|].
  assert (mo ∈ [1; 2; 3; 4; 5; 6; 7; 8; 9; 10; 11; 12]) as Hin by (rewrite !elem_of_cons; lia).
  unfold month_days. repeat (apply elem_of_cons in Hin as [->|Hin]; [simpl; lia|]). by apply elem_of_nil in Hin.
Qed.

(** Parsing a literal whose fields are given by their digits. *)
Lemma component2_digits value i a b : char_at value i = 48 + a → char_at value (S i) = 48 + b →
  0 ≤ a < 10 → 0 ≤ b < 10 → parse_datetime_component value i 2 = Ret (a * 10 + b).
Proof.
  intros Ea Eb Ha Hb. unfold parse_datetime_component. cbn [component_loop]. rewrite Ea, Eb, !is_digit_of by done.
  simpl. f_equal. lia.
Qed.

Lemma component4_digits value i a b c d : char_at value i = 48 + a → char_at value (S i) = 48 + b →
  char_at value (S (S i)) = 48 + c → char_at value (S (S (S i))) = 48 + d →
  0 ≤ a < 10 → 0 ≤ b < 10 → 0 ≤ c < 10 → 0 ≤ d < 10 →
  parse_datetime_component value i 4 = Ret (((a * 10 + b) * 10 + c) * 10 + d).
Proof.
  intros Ea Eb Ec Ed Ha Hb Hc Hd. unfold parse_datetime_component. cbn [component_loop].
  rewrite Ea, Eb, Ec, Ed, !is_digit_of by done. simpl. f_equal. lia.
Qed.

Lemma parse_format y mo d h mi s : datetime_in_range y mo d h mi s = true →
  parse_datetime_string (format_datetime_value (encode_datetime y mo d h mi s)) =
  Ret (encode_datetime y mo d h mi s).
Proof.
  intros Hr. destruct (in_range_bounds _ _ _ _ _ _ Hr) as (Hy & Hmo & Hd & Hh & Hmi & Hs).
  pose proof (days_in_month_le y mo Hmo). rewrite format_encode by lia.
  destruct (zero_pad4_range y Hy) as (a & b & c & e & ? & ? & ? & ? & Ey).
  destruct (zero_pad2_range mo ltac:(lia)) as (m1 & m2 & ? & ? & Em).
  destruct (zero_pad2_range d ltac:(lia)) as (d1 & d2 & ? & ? & Ed).
  destruct (zero_pad2_range h ltac:(lia)) as (h1 & h2 & ? & ? & Eh).
  destruct (zero_pad2_range mi ltac:(lia)) as (i1 & i2 & ? & ? & Ei).
  destruct (zero_pad2_range s ltac:(lia)) as (s1 & s2 & ? & ? & Es).
  rewrite Ey, Em, Ed, Eh, Ei, Es, zero_pad4, !zero_pad2 by done. unfold parse_datetime_string.
  cbn [app length]. simpl (negb _). cbn [orb].
  rewrite (component4_digits _ 0 a b c e), (component2_digits _ 5 m1 m2), (component2_digits _ 8 d1 d2),
    (component2_digits _ 11 h1 h2), (component2_digits _ 14 i1 i2), (component2_digits _ 17 s1 s2) by (done || lia).
  cbn [mbind outcome_bind]. rewrite <- Ey, <- Em, <- Ed, <- Eh, <- Ei, <- Es, Hr. done.
Qed.

Lemma list_19 (l : list Z) : length l = 19%nat →
  ∃ c0 c1 c2 c3 c4 c5 c6 c7 c8 c9 c10 c11 c12 c13 c14 c15 c16 c17 c18,
    l = [c0; c1; c2; c3; c4; c5; c6; c7; c8; c9; c10; c11; c12; c13; c14; c15; c16; c17; c18].
Proof. intros H. do 19 (destruct l as [|? l]; [done|]). destruct l; [|done]. repeat eexists. Qed.

Lemma zero_pad2_chars a b : is_digit a = true → is_digit b = true →
  0 ≤ digit_value a * 10 + digit_value b < 100 ∧ zero_pad 2 (digit_value a * 10 + digit_value b) = [a; b].
Proof.
  intros Ha%digit_bounds Hb%digit_bounds. unfold digit_value. split; [lia|]. rewrite zero_pad2 by lia.
  f_equal; [lia|f_equal; lia].
Qed.

Lemma format_parse value e : parse_datetime_string value = Ret e →
  format_datetime_value e = value ∧
  ∃ y mo d h mi s, datetime_in_range y mo d h mi s = true ∧ e = encode_datetime y mo d h mi s.
Proof.
  unfold parse_datetime_string. case_if; [done|]. bool_prop. intros Hm.
  repeat (let v := fresh "v" in let Hv := fresh "Hv" in apply out_bind_ret_inv in Hm as (v & Hv & Hm)).
  destruct (datetime_in_range _ _ _ _ _ _) eqn:Hr in Hm; [|done]. injection Hm as <-.
  destruct (list_19 value) as (? & ? & ? & ? & ? & ? & ? & ? & ? & ? & ? & ? & ? & ? & ? & ? & ? & ? & ? & ->); [lia|].
  unfold char_at in *. simpl in *. subst.
  apply component4 in Hv as (? & ? & ? & ? & ->).
  apply component2 in Hv0 as (? & ? & ->), Hv1 as (? & ? & ->), Hv2 as (? & ? & ->), Hv3 as (? & ? & ->),
    Hv4 as (? & ? & ->).
  unfold char_at in *. simpl in *. split; [|by repeat eexists].
  pose proof (in_range_bounds _ _ _ _ _ _ Hr) as (Hy & _).
  rewrite format_encode by (try done; by apply zero_pad2_chars).
  rewrite !(λ a b Ha Hb, proj2 (zero_pad2_chars a b Ha Hb)) by done.
  repeat match goal with Hd : is_digit _ = true |- _ => apply digit_bounds in Hd end.
  unfold digit_value in *. rewrite zero_pad4 by lia. simpl. repeat (f_equal; try lia).
Qed.

(** C32: the literal and the stored encoding of a datetime determine each other:
    a valid date and time prints to a literal that parses back to its encoding,
    and a literal that parses is the printed form of the result. *)
Theorem datetime_roundtrip y mo d h mi s value e (Hr : datetime_in_range y mo d h mi s = true)
    (Hp : parse_datetime_string value = Ret e) :
  parse_datetime_string (format_datetime_value (encode_datetime y mo d h mi s)) =
    Ret (encode_datetime y mo d h mi s) ∧
  format_datetime_value e = value.
Proof. split; [by apply parse_format|by apply format_parse]. Qed.

Lemma datetime_roundtrip_witness :
  parse_datetime_string (format_datetime_value (encode_datetime 2024 2 29 23 59 58)) = Ret 20240229235958 ∧
  format_datetime_value 20000101000000 = bytes_of_string "2000-01-01 00:00:00".
Proof.
  apply (datetime_roundtrip 2024 2 29 23 59 58 (bytes_of_string "2000-01-01 00:00:00") 20000101000000);
    vm_compute; reflexivity.
Defined.

(** Lexicographic order on (year, month, day, hour, minute, second). *)
Fixpoint lex_ltb (a b : list Z) : bool :=
  match a, b with
  | x :: a', y :: b' => (x <? y) || ((x =? y) && lex_ltb a' b')
  | _, _ => false
  end.

(** C33: the integer order that comparisons, sorting and indexes use on the
    encodings is the chronological order of the dates. *)
Theorem datetime_order y mo d h mi s y' mo' d' h' mi' s' (Hr : datetime_in_range y mo d h mi s = true)
    (Hr' : datetime_in_range y' mo' d' h' mi' s' = true) :
  (encode_datetime y mo d h mi s <? encode_datetime y' mo' d' h' mi' s') =
  lex_ltb [y; mo; d; h; mi; s] [y'; mo'; d'; h'; mi'; s'].
Proof.
  apply in_range_bounds in Hr as (Hy & Hmo & Hd & Hh & Hmi & Hs).
  apply in_range_bounds in Hr' as (Hy' & Hmo' & Hd' & Hh' & Hmi' & Hs').
  pose proof (days_in_month_le y mo Hmo). pose proof (days_in_month_le y' mo' Hmo').
  assert (∀ x v x' v', 0 ≤ v < 100 → 0 ≤ v' < 100 →
            (x * 100 + v <? x' * 100 + v') = (x <? x') || ((x =? x') && (v <? v'))) as Hstep.
  { intros x v x' v' Hv Hv'. destruct (Z.ltb_spec (x * 100 + v) (x' * 100 + v')), (Z.ltb_spec x x'),
      (Z.eqb_spec x x'), (Z.ltb_spec v v'); simpl; lia. }
  assert (∀ x v x' v', 0 ≤ v < 100 → 0 ≤ v' < 100 →
            (x * 100 + v =? x' * 100 + v') = (x =? x') && (v =? v')) as Heq.
  { intros x v x' v' Hv Hv'. destruct (Z.eqb_spec (x * 100 + v) (x' * 100 + v')), (Z.eqb_spec x x'),
      (Z.eqb_spec v v'); simpl; lia. }
  unfold encode_datetime. rewrite !Hstep by lia. rewrite !Heq by lia. cbn [lex_ltb].
  destruct (y <? y'), (y =? y'), (mo <? mo'), (mo =? mo'), (d <? d'), (d =? d'); simpl; try done;
    destruct (h <? h'), (h =? h'), (mi <? mi'), (mi =? mi'), (s <? s'), (s =? s'); done.
Qed.

Lemma datetime_order_witness :
  (encode_datetime 2024 2 29 23 59 58 <? encode_datetime 2024 3 1 0 0 0) =
  lex_ltb [2024; 2; 29; 23; 59; 58] [2024; 3; 1; 0; 0; 0].
Proof. apply (datetime_order 2024 2 29 23 59 58 2024 3 1 0 0 0); vm_compute; reflexivity. Defined.
