(* ===== verification/SmMeta.v ===== *)
(** * Catalog metadata (src/src/system/sm_meta.h)

    ColMeta, IndexMeta, TabMeta and DbMeta, their lookups, and the text form
    that operator<< writes to db.meta and operator>> reads. *)

From stdpp Require Import sorting.
From S2P Require Import Prelude Defs Text.

Record ColMeta := mkColMeta {
  cm_tab_name : string;
  cm_name : string;
  cm_type : ColType;
  cm_len : Z;
  cm_offset : Z;
  cm_index : bool
}.

Record IndexMeta := mkIndexMeta {
  im_tab_name : string;
  im_col_tot_len : Z;
  im_col_num : Z;
  im_cols : list ColMeta
}.

Record TabMeta := mkTabMeta {
  tm_name : string;
  tm_cols : list ColMeta;
  tm_indexes : list IndexMeta
}.

Record DbMeta := mkDbMeta { db_name : string; db_tabs : gmap string TabMeta }.

#[export] Instance ColMeta_eq_dec : EqDecision ColMeta.
Proof. solve_decision. Defined.
#[export] Instance IndexMeta_eq_dec : EqDecision IndexMeta.
Proof. solve_decision. Defined.
#[export] Instance TabMeta_eq_dec : EqDecision TabMeta.
Proof. solve_decision. Defined.

(* ------------------------------------------------------------------ *)
(** ** Lookups                                                          *)
(* ------------------------------------------------------------------ *)

Definition find_col (col_name : string) (cols : list ColMeta) : option ColMeta :=
  find (λ c, bool_decide (cm_name c = col_name)) cols.

Definition is_col (tab : TabMeta) (col_name : string) : bool :=
  match find_col col_name (tm_cols tab) with Some _ => true | None => false end.

Definition get_col (tab : TabMeta) (col_name : string) : outcome ColMeta :=
  of_option (ColumnNotFoundError col_name) (find_col col_name (tm_cols tab)).

(** The comparison loop of is_index and get_index_meta. *)
Fixpoint names_match (cols : list ColMeta) (col_names : list string) : bool :=
  match col_names, cols with
  | [], _ => true
  | n :: col_names', c :: cols' => bool_decide (cm_name c = n) && names_match cols' col_names'
  | _, [] => false
  end.

Definition index_matches (col_names : list string) (index : IndexMeta) : bool :=
  (im_col_num index =? Z.of_nat (length col_names)) && names_match (im_cols index) col_names.

Definition is_index (tab : TabMeta) (col_names : list string) : bool :=
  existsb (index_matches col_names) (tm_indexes tab).

Definition get_index_meta (tab : TabMeta) (col_names : list string) : outcome IndexMeta :=
  of_option (IndexNotFoundError (tm_name tab) col_names) (find (index_matches col_names) (tm_indexes tab)).

Definition is_table (db : DbMeta) (tab_name : string) : bool := bool_decide (is_Some (db_tabs db !! tab_name)).

Definition get_table (db : DbMeta) (tab_name : string) : outcome TabMeta :=
  of_option (TableNotFoundError tab_name) (db_tabs db !! tab_name).

Definition SetTabMeta (tab_name : string) (meta : TabMeta) (db : DbMeta) : DbMeta :=
  mkDbMeta (db_name db) (<[tab_name := meta]> (db_tabs db)).

(* ------------------------------------------------------------------ *)
(** ** operator<<                                                       *)
(* ------------------------------------------------------------------ *)

Definition sp : list Z := [32].
Definition nl : list Z := [10].
Definition out_str (s : string) : list Z := bytes_of_string s.
Definition out_bool (b : bool) : list Z := to_string (if b then 1 else 0).
Definition out_size {A} (l : list A) : list Z := to_string (Z.of_nat (length l)).

Definition print_col (c : ColMeta) : list Z :=
  out_str (cm_tab_name c) ++ sp ++ out_str (cm_name c) ++ sp ++ to_string (coltype_code (cm_type c)) ++ sp ++
  to_string (cm_len c) ++ sp ++ to_string (cm_offset c) ++ sp ++ out_bool (cm_index c).

Definition print_index (i : IndexMeta) : list Z :=
  out_str (im_tab_name i) ++ sp ++ to_string (im_col_tot_len i) ++ sp ++ to_string (im_col_num i) ++
  concat ((λ c, nl ++ print_col c) <$> im_cols i).

Definition print_tab (t : TabMeta) : list Z :=
  out_str (tm_name t) ++ nl ++ out_size (tm_cols t) ++ nl ++
  concat ((λ c, print_col c ++ nl) <$> tm_cols t) ++
  out_size (tm_indexes t) ++ nl ++
  concat ((λ i, print_index i ++ nl) <$> tm_indexes t).

(** std::map iterates in the order of the keys. *)
Definition key_le (x y : string * TabMeta) : Prop := String.leb x.1 y.1 = true.
#[export] Instance key_le_dec x y : Decision (key_le x y).
Proof. unfold key_le. apply _. Defined.
Definition map_entries (m : gmap string TabMeta) : list (string * TabMeta) := merge_sort key_le (map_to_list m).

Definition print_db (db : DbMeta) : list Z :=
  out_str (db_name db) ++ nl ++ to_string (Z.of_nat (size (db_tabs db))) ++ nl ++
  concat ((λ e, print_tab e.2 ++ nl) <$> map_entries (db_tabs db)).

(* ------------------------------------------------------------------ *)
(** ** operator>>                                                       *)
(* ------------------------------------------------------------------ *)

Definition in_str (l : list Z) : option (string * list Z) :=
  '(w, l) ← read_word l; Some (string_of_bytes w, l).

(** A loop of n extractions. *)
Fixpoint read_n {A} (rd : list Z → option (A * list Z)) (n : nat) (l : list Z) : option (list A * list Z) :=
  match n with
  | O => Some ([], l)
  | S n' => '(x, l) ← rd l; '(xs, l) ← read_n rd n' l; Some (x :: xs, l)
  end.

Definition read_coltype (l : list Z) : option (ColType * list Z) :=
  '(code, l) ← read_i32 l; t ← coltype_of_code code; Some (t, l).

Definition read_col (l : list Z) : option (ColMeta * list Z) :=
  '(tab_name, l) ← in_str l;
  '(name, l) ← in_str l;
  '(type, l) ← read_coltype l;
  '(len, l) ← read_i32 l;
  '(offset, l) ← read_i32 l;
  '(index, l) ← read_bool l;
  Some (mkColMeta tab_name name type len offset index, l).

Definition read_index (l : list Z) : option (IndexMeta * list Z) :=
  '(tab_name, l) ← in_str l;
  '(col_tot_len, l) ← read_i32 l;
  '(col_num, l) ← read_i32 l;
  '(cols, l) ← read_n read_col (Z.to_nat col_num) l;
  Some (mkIndexMeta tab_name col_tot_len col_num cols, l).

Definition read_tab (l : list Z) : option (TabMeta * list Z) :=
  '(name, l) ← in_str l;
  '(n, l) ← read_size_t l;
  '(cols, l) ← read_n read_col (Z.to_nat n) l;
  '(n, l) ← read_size_t l;
  '(indexes, l) ← read_n read_index (Z.to_nat n) l;
  Some (mkTabMeta name cols indexes, l).

(** tabs_[tab.name] = tab for each table read *)
Definition add_tabs (tabs : list TabMeta) (m : gmap string TabMeta) : gmap string TabMeta :=
  fold_left (λ m t, <[tm_name t := t]> m) tabs m.

Definition read_db (l : list Z) : option (DbMeta * list Z) :=
  '(name, l) ← in_str l;
  '(n, l) ← read_size_t l;
  '(tabs, l) ← read_n read_tab (Z.to_nat n) l;
  Some (mkDbMeta name (add_tabs tabs ∅), l).

(* ------------------------------------------------------------------ *)
(** ** Round trip                                                       *)
(* ------------------------------------------------------------------ *)

(** Names are tokens: not empty and without white space, as the lexer's
    identifiers are. *)
Definition name_ok (s : string) : Prop := token (bytes_of_string s).

Definition col_ok (c : ColMeta) : Prop :=
  name_ok (cm_tab_name c) ∧ name_ok (cm_name c) ∧ is_int32 (cm_len c) ∧ is_int32 (cm_offset c).
Definition index_ok (i : IndexMeta) : Prop :=
  name_ok (im_tab_name i) ∧ is_int32 (im_col_tot_len i) ∧ im_col_num i = Z.of_nat (length (im_cols i)) ∧
  is_int32 (im_col_num i) ∧ Forall col_ok (im_cols i).
Definition tab_ok (t : TabMeta) : Prop :=
  name_ok (tm_name t) ∧ Forall col_ok (tm_cols t) ∧ Forall index_ok (tm_indexes t) ∧
  Z.of_nat (length (tm_cols t)) < 2 ^ 64 ∧ Z.of_nat (length (tm_indexes t)) < 2 ^ 64.
Definition db_ok (db : DbMeta) : Prop :=
  name_ok (db_name db) ∧ Z.of_nat (size (db_tabs db)) < 2 ^ 64 ∧
  ∀ k t, db_tabs db !! k = Some t → tm_name t = k ∧ tab_ok t.

(** White space. *)
Definition spaces (ws : list Z) : Prop := Forall (λ c, is_space c = true) ws.
Lemma spaces_sp : spaces sp.
Proof. by repeat constructor. Qed.
Lemma spaces_nl : spaces nl.
Proof. by repeat constructor. Qed.
Lemma spaces_nil : spaces [].
Proof. constructor. Qed.
Lemma ends_sp k : ends_word (sp ++ k).
Proof. by apply ends_word_cons. Qed.
Lemma ends_nl k : ends_word (nl ++ k).
Proof. by apply ends_word_cons. Qed.
#[export] Hint Resolve spaces_sp spaces_nl spaces_nil ends_sp ends_nl : rmdb.

Lemma ends_spaces ws k : spaces ws → ws ≠ [] → ends_word (ws ++ k).
Proof. intros Hw Hne. destruct Hw as [|c ws Hc _]; [done|]. by apply ends_word_cons. Qed.

Lemma skip_spaces ws k : spaces ws → skip_ws (ws ++ k) = skip_ws k.
Proof. induction 1 as [|c ws Hc _ IH]; [done|]. simpl. by rewrite Hc. Qed.

(** [reads rd x w]: rd extracts x from the text w, whatever white space comes
    before it and whatever text after it; [eats]: w ends with white space, some
    of which is left. *)
Definition reads {A} (rd : list Z → option (A * list Z)) (x : A) (w : list Z) : Prop :=
  ∀ ws k, spaces ws → ends_word k → rd (ws ++ w ++ k) = Some (x, k).
Definition eats {A} (rd : list Z → option (A * list Z)) (x : A) (w : list Z) : Prop :=
  ∀ ws k, spaces ws → ∃ ws', spaces ws' ∧ ws' ≠ [] ∧ rd (ws ++ w ++ k) = Some (x, ws' ++ k).

Lemma reads_nil {A} rd (x : A) w k : reads rd x w → ends_word k → rd (w ++ k) = Some (x, k).
Proof. intros H. apply (H [] k spaces_nil). Qed.

Lemma reads_eats {A} rd (x : A) w : reads rd x w → eats rd x (w ++ nl).
Proof. intros H ws k Hw. exists nl. rewrite <- app_assoc, H by auto with rmdb. by split; auto with rmdb. Qed.

Lemma reads_str s : name_ok s → reads in_str s (out_str s).
Proof.
  intros Hs ws k Hw Hk. unfold in_str, out_str, read_word. rewrite skip_spaces by done.
  fold (read_word (bytes_of_string s ++ k)). rewrite (read_word_token _ _ Hs Hk). simpl.
  by rewrite string_of_bytes_of_string.
Qed.

Lemma reads_int lo hi z : lo ≤ z ≤ hi → reads (read_int lo hi) z (to_string z).
Proof.
  intros Hz ws k Hw Hk. unfold read_int. rewrite skip_spaces by done.
  by apply (read_int_to_string lo hi z k).
Qed.

Lemma reads_i32 z : is_int32 z → reads read_i32 z (to_string z).
Proof. apply reads_int. Qed.

Lemma reads_size n : 0 ≤ n < 2 ^ 64 → reads read_size_t n (to_string n).
Proof. intros Hn. apply reads_int. lia. Qed.

Lemma reads_bool b : reads read_bool b (out_bool b).
Proof.
  intros ws k Hw Hk. unfold read_bool, out_bool. rewrite reads_int; [by destruct b| |done|done].
  unfold int64_min, int64_max. destruct b; lia.
Qed.

Lemma reads_coltype t : reads read_coltype t (to_string (coltype_code t)).
Proof.
  intros ws k Hw Hk. unfold read_coltype. rewrite reads_i32; [|by destruct t|done|done]. simpl.
  by rewrite coltype_of_code_code.
Qed.

(** [read_step H]: perform the first extraction of the goal with the fact H. *)
Ltac read_step H := rewrite H by eauto with rmdb; cbn [mbind option_bind].

Lemma reads_col c : col_ok c → reads read_col c (print_col c).
Proof.
  intros (Ht & Hn & Hl & Ho) ws k Hw Hk. unfold read_col, print_col. rewrite <- !app_assoc.
  read_step (reads_str _ Ht). read_step (reads_str _ Hn). read_step (reads_coltype (cm_type c)).
  read_step (reads_i32 _ Hl). read_step (reads_i32 _ Ho). read_step (reads_bool (cm_index c)). by destruct c.
Qed.

(** Elements that each follow a newline. *)
Lemma reads_list {A} rd (w : A → list Z) xs k :
  Forall (λ x, reads rd x (w x)) xs → ends_word k →
  read_n rd (length xs) (concat ((λ x, nl ++ w x) <$> xs) ++ k) = Some (xs, k).
Proof.
  intros Hxs Hk. induction Hxs as [|x xs Hx Hxs IH]; [done|]. rewrite fmap_cons. cbn [concat length read_n].
  rewrite <- !app_assoc. rewrite Hx; [|auto with rmdb|].
  - cbn [mbind option_bind]. by rewrite IH.
  - destruct xs as [|y xs]; [done|]. rewrite fmap_cons. cbn [concat]. rewrite <- !app_assoc. apply ends_nl.
Qed.

(** Elements that are each followed by white space. *)
Lemma eats_list {A} rd (w : A → list Z) xs ws k :
  Forall (λ x, eats rd x (w x)) xs → spaces ws → ws ≠ [] →
  ∃ ws', spaces ws' ∧ ws' ≠ [] ∧ read_n rd (length xs) (ws ++ concat (w <$> xs) ++ k) = Some (xs, ws' ++ k).
Proof.
  intros Hxs. revert ws. induction Hxs as [|x xs Hx Hxs IH]; intros ws Hw Hne; [by exists ws|].
  rewrite fmap_cons. cbn [concat length read_n]. rewrite <- !app_assoc.
  destruct (Hx ws (concat (w <$> xs) ++ k) Hw) as (w1 & Hw1 & Hn1 & ->). cbn [mbind option_bind].
  destruct (IH w1 Hw1 Hn1) as (w2 & Hw2 & Hn2 & ->). cbn [mbind option_bind]. by exists w2.
Qed.

Lemma reads_index i : index_ok i → reads read_index i (print_index i).
Proof.
  intros (Ht & Hl & En & Hn & Hc) ws k Hw Hk. unfold read_index, print_index. rewrite <- !app_assoc.
  read_step (reads_str _ Ht). read_step (reads_i32 _ Hl). rewrite (reads_i32 _ Hn); [|auto with rmdb|].
  - cbn [mbind option_bind]. rewrite En, Nat2Z.id.
    rewrite (reads_list read_col print_col); [simpl; rewrite <- En; by destruct i| |done].
    eapply Forall_impl; [exact Hc|]. apply reads_col.
  - destruct (im_cols i) as [|y xs]; [done|]. rewrite fmap_cons. cbn [concat]. rewrite <- !app_assoc. apply ends_nl.
Qed.

Lemma eats_tab t : tab_ok t → eats read_tab t (print_tab t).
Proof.
  intros (Hn & Hc & Hi & Hs1 & Hs2) ws k Hw. unfold read_tab, print_tab, out_size. rewrite <- !app_assoc.
  read_step (reads_str _ Hn). read_step (reads_size (Z.of_nat (length (tm_cols t))) ltac:(lia)). rewrite Nat2Z.id.
  destruct (eats_list read_col (λ c, print_col c ++ nl) (tm_cols t) nl
    (to_string (Z.of_nat (length (tm_indexes t))) ++ nl ++
     concat ((λ i, print_index i ++ nl) <$> tm_indexes t) ++ k)) as (w1 & Hw1 & Hn1 & ->);
    [|auto with rmdb|done|].
  { eapply Forall_impl; [exact Hc|]. intros c Hok. by apply reads_eats, reads_col. }
  cbn [mbind option_bind].
  rewrite (reads_size (Z.of_nat (length (tm_indexes t))) ltac:(lia)) by eauto with rmdb. cbn [mbind option_bind].
  rewrite Nat2Z.id.
  destruct (eats_list read_index (λ i, print_index i ++ nl) (tm_indexes t) nl k) as (w2 & Hw2 & Hn2 & ->);
    [|auto with rmdb|done|].
  { eapply Forall_impl; [exact Hi|]. intros i Hok. by apply reads_eats, reads_index. }
  exists w2. by destruct t.
Qed.

Lemma eats_more {A} rd (x : A) w : eats rd x w → eats rd x (w ++ nl).
Proof.
  intros H ws k Hw. rewrite <- app_assoc. destruct (H ws (nl ++ k) Hw) as (w1 & H1 & Hn1 & ->).
  exists (w1 ++ nl). rewrite <- app_assoc. split_and!; [|by destruct w1|done].
  apply Forall_app. split; [done|apply spaces_nl].
Qed.

Lemma add_tabs_list (es : list (string * TabMeta)) m :
  (∀ k t, (k, t) ∈ es → tm_name t = k) →
  NoDup es.*1 → (∀ k, k ∈ es.*1 → m !! k = None) →
  add_tabs es.*2 m = list_to_map es ∪ m.
Proof.
  revert m. induction es as [|[k t] es IH]; intros m Hk Hnd Hm; [simpl; by rewrite map_empty_union|].
  cbn [fmap list_fmap snd fst add_tabs fold_left] in *. apply NoDup_cons in Hnd as [Hni Hnd].
  rewrite (Hk k t) by constructor. fold (add_tabs es.*2 (<[k:=t]> m)). rewrite IH.
  - cbn [list_to_map foldr]. rewrite <- insert_union_r by (by apply not_elem_of_list_to_map_1).
    by rewrite insert_union_l.
  - intros. apply Hk. by constructor.
  - done.
  - intros k' Hin. rewrite lookup_insert_ne by congruence. apply Hm. by constructor.
Qed.

Lemma map_entries_perm m : map_entries m ≡ₚ map_to_list m.
Proof. apply merge_sort_Permutation. Qed.

Lemma reads_db db : db_ok db → ∃ rest, read_db (print_db db) = Some (db, rest).
Proof.
  intros (Hn & Hsz & Ht). unfold read_db, print_db. rewrite (reads_nil in_str _ _ _ (reads_str _ Hn)) by auto with rmdb. cbn [mbind option_bind].
  assert (0 ≤ Z.of_nat (size (db_tabs db)) < 2 ^ 64) as Hsz' by lia. read_step (reads_size _ Hsz'). rewrite Nat2Z.id.
  pose proof (map_entries_perm (db_tabs db)) as Hp. set (es := map_entries (db_tabs db)) in *.
  assert (∀ k t, (k, t) ∈ es → tm_name t = k ∧ tab_ok t) as Hes.
  { intros k t Hin. rewrite Hp in Hin. apply elem_of_map_to_list in Hin. by apply Ht. }
  assert (size (db_tabs db) = length es.*2) as ->.
  { rewrite length_fmap, (Permutation_length Hp). by rewrite length_map_to_list. }
  assert ((λ e : string * TabMeta, print_tab e.2 ++ nl) <$> es = (λ t, print_tab t ++ nl) <$> es.*2) as ->
    by by rewrite <- list_fmap_compose.
  destruct (eats_list read_tab (λ t, print_tab t ++ nl) es.*2 nl []) as (w & _ & _ & Er); [|auto with rmdb|done|].
  { apply Forall_fmap, Forall_forall. intros [k t] Hin. simpl. apply eats_more, eats_tab. by apply (Hes k t). }
  rewrite app_nil_r in Er. rewrite Er. cbn [mbind option_bind]. eexists. f_equal. f_equal.
  rewrite add_tabs_list.
  - rewrite map_union_empty. destruct db as [n m]. simpl in *. f_equal.
    rewrite (list_to_map_proper es (map_to_list m)); [apply list_to_map_to_list| |done].
    rewrite Hp. apply NoDup_fst_map_to_list.
  - intros k t Hin. by apply Hes.
  - rewrite Hp. apply NoDup_fst_map_to_list.
  - intros k _. apply lookup_empty.
Qed.

(** C34: a catalog whose names are tokens and whose numbers fit their types is
    read back exactly from the text that flush_meta writes to db.meta. *)
Theorem meta_roundtrip db (Hok : db_ok db) : ∃ rest, read_db (print_db db) = Some (db, rest).
Proof. by apply reads_db. Qed.

(** A table with two columns and an index, and an empty one. *)
Definition sample_col : ColMeta := mkColMeta "t" "id" TYPE_INT 4 0 false.
Definition sample_tab : TabMeta :=
  mkTabMeta "t" [sample_col; mkColMeta "t" "name" TYPE_STRING 16 4 true] [mkIndexMeta "t" 4 1 [sample_col]].
Definition sample_db : DbMeta := mkDbMeta "db1" {["t" := sample_tab; "u" := mkTabMeta "u" [] []]}.

Lemma meta_roundtrip_witness : ∃ rest, read_db (print_db sample_db) = Some (sample_db, rest).
Proof.
  apply (meta_roundtrip sample_db).
  assert (∀ s, match bytes_of_string s with [] => false | _ => true end = true →
    forallb (λ c, negb (is_space c)) (bytes_of_string s) = true → name_ok s) as Hname.
  { intros s H1 H2. split; [by destruct (bytes_of_string s)|]. apply Is_true_true, forallb_True in H2.
    eapply Forall_impl; [exact H2|]. intros c Hc. simpl in *. by destruct (is_space c). }
  assert (col_ok sample_col ∧ col_ok (mkColMeta "t" "name" TYPE_STRING 16 4 true)) as [Hc1 Hc2].
  { split; (split; [by apply Hname|split; [by apply Hname|]]); unfold is_int32, int32_min, int32_max; simpl; lia. }
  split; [by apply Hname|]. split; [by vm_compute|].
  intros k t. unfold sample_db. cbn [db_tabs]. rewrite lookup_insert_Some, lookup_singleton_Some.
  intros [[<- <-]|[_ [<- <-]]]; (split; [done|]).
  - split; [by apply Hname|]. split; [by repeat constructor|]. split; [|by vm_compute].
    constructor; [|constructor]. split; [by apply Hname|]. unfold is_int32, int32_min, int32_max. simpl.
    split; [lia|]. split; [done|]. split; [lia|]. by constructor.
  - split; [by apply Hname|]. by repeat constructor.
Defined.
