(* ===== verification/Values.v ===== *)
(** * Values and comparisons (src/src/common/common.h,
      src/src/execution/executor_utils.h)

    SQL values, their raw encoding in records, casts to a column type, the
    comparison of encoded fields and the evaluation of conditions.  A float is
    its 32 bits.  A long double (x87, 64-bit significand) holds every int64_t
    and every float exactly: [LFin m e] is m * 2^e, and only sums round. *)

From S2P Require Import Prelude Defs Text Datetime SmMeta.

(* ------------------------------------------------------------------ *)
(** ** float and long double                                            *)
(* ------------------------------------------------------------------ *)

Inductive ldouble := LNan | LInf (neg : bool) | LFin (m e : Z).

(** static_cast<long double>(float): sign, 8 exponent bits, 23 mantissa bits *)
Definition float_to_ld (bits : Z) : ldouble :=
  let neg := Z.testbit bits 31 in
  let ex := Z.land (Z.shiftr bits 23) 255 in
  let man := Z.land bits (2 ^ 23 - 1) in
  let sg (z : Z) := if neg then - z else z in
  if ex =? 255 then (if man =? 0 then LInf neg else LNan)
  else if ex =? 0 then LFin (sg man) (-149)
  else LFin (sg (man + 2 ^ 23)) (ex - 150).

Definition int_to_ld (z : Z) : ldouble := LFin z 0.

(** Round m * 2^e to a significand of [prec] bits and an exponent of at least
    [emin], to nearest, ties to even. *)
Definition round_ne (prec emin m e : Z) : Z * Z :=
  let k := Z.max (Z.log2 (Z.abs m) + 1 - prec) (emin - e) in
  if k <=? 0 then (m, e) else
  let q := Z.abs m / 2 ^ k in
  let r := Z.abs m mod 2 ^ k in
  let up := (2 ^ (k - 1) <? r) || ((r =? 2 ^ (k - 1)) && Z.odd q) in
  (Z.sgn m * (if up then q + 1 else q), e + k).

(** The bits of a float with the value m * 2^e, which is representable. *)
Definition float_bits (m e : Z) : Z :=
  if m =? 0 then 0 else
  let shift := Z.max (Z.log2 (Z.abs m) - 23) (-149 - e) in
  let a := if 0 <=? shift then Z.abs m / 2 ^ shift else Z.abs m * 2 ^ (- shift) in
  let ex := e + shift in
  let sign := if m <? 0 then 2 ^ 31 else 0 in
  if 105 <=? ex then sign + 255 * 2 ^ 23                 (* overflow: infinity *)
  else if a <? 2 ^ 23 then sign + a                      (* subnormal *)
  else sign + (ex + 150) * 2 ^ 23 + (a - 2 ^ 23).

(** static_cast<float>(long double) *)
Definition ld_to_float (x : ldouble) : Z :=
  match x with
  | LNan => 2143289344
  | LInf neg => (if neg then 2 ^ 31 else 0) + 255 * 2 ^ 23
  | LFin m e => let '(m, e) := round_ne 24 (-149) m e in float_bits m e
  end.

(** static_cast<int64_t>(long double) truncates; out of range it gives the x86
    "integer indefinite" value. *)
Definition ld_trunc (x : ldouble) : Z :=
  match x with
  | LFin m e =>
      let z := if 0 <=? e then m * 2 ^ e else Z.quot m (2 ^ (- e)) in
      if (int64_min <=? z) && (z <=? int64_max) then z else int64_min
  | _ => int64_min
  end.

Definition ld_compare (x y : ldouble) : option comparison :=
  match x, y with
  | LNan, _ | _, LNan => None
  | LInf a, LInf b => Some (match a, b with
                            | true, false => Lt | false, true => Gt | _, _ => Eq end)
  | LInf a, LFin _ _ => Some (if a then Lt else Gt)
  | LFin _ _, LInf b => Some (if b then Gt else Lt)
  | LFin m e, LFin m' e' =>
      let k := Z.min e e' in Some (m * 2 ^ (e - k) ?= m' * 2 ^ (e' - k))
  end.

Definition ld_lt (x y : ldouble) : bool := match ld_compare x y with Some Lt => true | _ => false end.
Definition ld_gt (x y : ldouble) : bool := match ld_compare x y with Some Gt => true | _ => false end.

(** x + y, rounded to the 64-bit significand *)
Definition ld_add (x y : ldouble) : ldouble :=
  match x, y with
  | LNan, _ | _, LNan => LNan
  | LInf a, LInf b => if eqb a b then LInf a else LNan
  | LInf a, _ => LInf a
  | _, LInf b => LInf b
  | LFin m e, LFin m' e' =>
      let k := Z.min e e' in
      let '(m, e) := round_ne 64 (-16445) (m * 2 ^ (e - k) + m' * 2 ^ (e' - k)) k in LFin m e
  end.

(* ------------------------------------------------------------------ *)
(** ** common.h                                                         *)
(* ------------------------------------------------------------------ *)

Record TabCol := mkTabCol { tc_tab : string; tc_col : string }.
#[export] Instance TabCol_eq_dec : EqDecision TabCol.
Proof. solve_decision. Defined.

(** The union of Value with its tag; float_val is its bits. *)
Inductive value_data :=
  | VInt (int_val : Z)
  | VBigint (bigint_val : Z)
  | VFloat (float_val : Z)
  | VStr (str_val : list Z)
  | VDatetime (datetime_val : Z).

Record Value := mkValue { val : value_data; raw : option (list Z) }.

Definition val_type (v : Value) : ColType :=
  match val v with
  | VInt _ => TYPE_INT | VBigint _ => TYPE_BIGINT | VFloat _ => TYPE_FLOAT
  | VStr _ => TYPE_STRING | VDatetime _ => TYPE_DATETIME
  end.

Definition set_int (z : Z) (v : Value) : Value := mkValue (VInt z) (raw v).
Definition set_bigint (z : Z) (v : Value) : Value := mkValue (VBigint z) (raw v).
Definition set_float (z : Z) (v : Value) : Value := mkValue (VFloat z) (raw v).
Definition set_str (s : list Z) (v : Value) : Value := mkValue (VStr s) (raw v).
Definition set_datetime (z : Z) (v : Value) : Value := mkValue (VDatetime z) (raw v).

(** The bytes init_raw stores; the asserts on len fail otherwise. *)
Definition encode_value (v : value_data) (len : Z) : outcome (list Z) :=
  match v with
  | VInt z => if len =? 4 then Ret (le_bytes 4 z) else Throw AssertFail
  | VBigint z => if len =? 8 then Ret (le_bytes 8 z) else Throw AssertFail
  | VFloat z => if len =? 4 then Ret (le_bytes 4 z) else Throw AssertFail
  | VStr s => if len <? Z.of_nat (length s) then Throw StringOverflowError
              else Ret (s ++ replicate (Z.to_nat len - length s) 0)
  | VDatetime z => if len =? 8 then Ret (le_bytes 8 z) else Throw AssertFail
  end.

Definition init_raw (len : Z) (v : Value) : outcome Value :=
  match raw v with
  | Some _ => Throw AssertFail
  | None => bs ← encode_value (val v) len; Ret (mkValue (val v) (Some bs))
  end.

Inductive CompOp := OP_EQ | OP_NE | OP_LT | OP_GT | OP_LE | OP_GE.
#[export] Instance CompOp_eq_dec : EqDecision CompOp.
Proof. solve_decision. Defined.

Record Condition := mkCond {
  lhs_col : TabCol;
  op : CompOp;
  is_rhs_val : bool;
  rhs_col : TabCol;
  rhs_val : Value
}.

Record SetClause := mkSet { sc_lhs : TabCol; sc_rhs : Value }.

Inductive AggType := AGG_COUNT | AGG_MAX | AGG_MIN | AGG_SUM.
#[export] Instance AggType_eq_dec : EqDecision AggType.
Proof. solve_decision. Defined.

Record AggregateExpr := mkAgg { agg_type : AggType; is_count_star : bool; agg_col : TabCol; agg_alias : string }.
Record SortKey := mkSortKey { sk_col : TabCol; is_desc : bool }.

(* ------------------------------------------------------------------ *)
(** ** executor_utils.h                                                 *)
(* ------------------------------------------------------------------ *)

Definition is_numeric_type (t : ColType) : bool :=
  match t with TYPE_INT | TYPE_BIGINT | TYPE_FLOAT => true | _ => false end.
Definition is_integral_type (t : ColType) : bool :=
  match t with TYPE_INT | TYPE_BIGINT => true | _ => false end.

Definition value_as_long_double (v : Value) : outcome ldouble :=
  match val v with
  | VInt z => Ret (int_to_ld z)
  | VBigint z => Ret (int_to_ld z)
  | VFloat f => Ret (float_to_ld f)
  | _ => Throw (IncompatibleTypeError "NUMERIC" (coltype2str (val_type v)))
  end.

Definition cast_value_to_col_type (v : Value) (col : ColMeta) : outcome Value :=
  let incompatible : outcome Value :=
    Throw (IncompatibleTypeError (coltype2str (cm_type col)) (coltype2str (val_type v))) in
  if bool_decide (val_type v = cm_type col) then Ret v else
  if bool_decide (cm_type col = TYPE_DATETIME) then
    match val v with
    | VStr s => e ← parse_datetime_string s; Ret (set_datetime e v)
    | _ => incompatible
    end
  else if negb (is_numeric_type (val_type v)) || negb (is_numeric_type (cm_type col)) then incompatible else
  numeric ← value_as_long_double v;
  match cm_type col with
  | TYPE_FLOAT => Ret (set_float (ld_to_float numeric) v)
  | TYPE_INT =>
      if ld_lt numeric (int_to_ld int32_min) || ld_gt numeric (int_to_ld int32_max)
      then Throw (NumericOverflowError (coltype2str (cm_type col)))
      else Ret (set_int (wrap_s 32 (ld_trunc numeric)) v)
  | TYPE_BIGINT =>
      if ld_lt numeric (int_to_ld int64_min) || ld_gt numeric (int_to_ld int64_max)
      then Throw (NumericOverflowError (coltype2str (cm_type col)))
      else Ret (set_bigint (ld_trunc numeric) v)
  | _ => incompatible
  end.

Definition find_col_meta (cols : list ColMeta) (target : TabCol) : outcome ColMeta :=
  of_option (ColumnNotFoundError (tc_tab target +:+ "." +:+ tc_col target))
    (find (λ c, bool_decide (cm_tab_name c = tc_tab target) && bool_decide (cm_name c = tc_col target)) cols).

(** The sign of memcmp over n bytes. *)
Fixpoint memcmp (n : nat) (a b : list Z) : Z :=
  match n with
  | O => 0
  | S n' =>
      let x := nth 0 a 0 in let y := nth 0 b 0 in
      if x <? y then -1 else if y <? x then 1 else memcmp n' (tl a) (tl b)
  end.

Definition cmp3 (x y : Z) : Z := if x <? y then -1 else if y <? x then 1 else 0.
Definition ld_cmp3 (x y : ldouble) : Z := if ld_lt x y then -1 else if ld_gt x y then 1 else 0.

Definition load_integral (t : ColType) (p : list Z) : Z := if bool_decide (t = TYPE_INT) then load_i32 0 p else load_i64 0 p.
Definition load_numeric (t : ColType) (p : list Z) : ldouble :=
  match t with
  | TYPE_INT => int_to_ld (load_i32 0 p)
  | TYPE_BIGINT => int_to_ld (load_i64 0 p)
  | _ => float_to_ld (load_u32 0 p)
  end.

(** some byte of p[from .. to) is not '\0' *)
Definition any_nonzero (from to : Z) (p : list Z) : bool :=
  existsb (λ c, negb (c =? 0)) (read_at (Z.to_nat from) (Z.to_nat (to - from)) p).

Definition compare_raw_data (lhs : list Z) (lhs_type : ColType) (lhs_len : Z)
    (rhs : list Z) (rhs_type : ColType) (rhs_len : Z) : outcome Z :=
  if is_numeric_type lhs_type && is_numeric_type rhs_type then
    if is_integral_type lhs_type && is_integral_type rhs_type then
      Ret (cmp3 (load_integral lhs_type lhs) (load_integral rhs_type rhs))
    else Ret (ld_cmp3 (load_numeric lhs_type lhs) (load_numeric rhs_type rhs))
  else if negb (bool_decide (lhs_type = rhs_type)) then
    Throw (IncompatibleTypeError (coltype2str lhs_type) (coltype2str rhs_type))
  else match lhs_type with
  | TYPE_DATETIME => Ret (cmp3 (load_i64 0 lhs) (load_i64 0 rhs))
  | TYPE_STRING =>
      let common_len := Z.min lhs_len rhs_len in
      let cmp := memcmp (Z.to_nat common_len) lhs rhs in
      Ret (if negb (cmp =? 0) then cmp else
           if lhs_len =? rhs_len then 0 else
           if rhs_len <? lhs_len then (if any_nonzero common_len lhs_len lhs then 1 else 0)
           else (if any_nonzero common_len rhs_len rhs then -1 else 0))
  | TYPE_INT => Ret (cmp3 (load_i32 0 lhs) (load_i32 0 rhs))
  | TYPE_BIGINT => Ret (cmp3 (load_i64 0 lhs) (load_i64 0 rhs))
  | TYPE_FLOAT => Ret (ld_cmp3 (load_numeric TYPE_FLOAT lhs) (load_numeric TYPE_FLOAT rhs))
  end.

Definition evaluate_compare_result (cmp : Z) (o : CompOp) : bool :=
  match o with
  | OP_EQ => cmp =? 0 | OP_NE => negb (cmp =? 0) | OP_LT => cmp <? 0
  | OP_GT => 0 <? cmp | OP_LE => cmp <=? 0 | OP_GE => 0 <=? cmp
  end.

(** One condition on a record; record.data + offset is a drop. *)
Definition check_condition (record : list Z) (cols : list ColMeta) (cond : Condition) : outcome bool :=
  lhs ← find_col_meta cols (lhs_col cond);
  let lhs_data := drop (Z.to_nat (cm_offset lhs)) record in
  '(rhs_data, rhs_type, rhs_len) ←
    (if is_rhs_val cond then
       match raw (rhs_val cond) with
       | None => Throw (InternalError "Condition raw value is not initialized")
       | Some bs => Ret (bs, val_type (rhs_val cond), Z.of_nat (length bs))
       end
     else
       rhs ← find_col_meta cols (rhs_col cond);
       Ret (drop (Z.to_nat (cm_offset rhs)) record, cm_type rhs, cm_len rhs));
  cmp ← compare_raw_data lhs_data (cm_type lhs) (cm_len lhs) rhs_data rhs_type rhs_len;
  Ret (evaluate_compare_result cmp (op cond)).

Fixpoint record_satisfies_conditions (record : list Z) (cols : list ColMeta) (conds : list Condition) : outcome bool :=
  match conds with
  | [] => Ret true
  | cond :: conds' =>
      ok ← check_condition record cols cond;
      if negb ok then Ret false else record_satisfies_conditions record cols conds'
  end.

Definition build_key_step (record : list Z) (p : Z * list Z) (col : ColMeta) : Z * list Z :=
  (p.1 + cm_len col,
   splice (Z.to_nat p.1) (read_at (Z.to_nat (cm_offset col)) (Z.to_nat (cm_len col)) record) p.2).

Definition build_index_key (index : IndexMeta) (record : list Z) : list Z :=
  (fold_left (build_key_step record) (im_cols index) (0, replicate (Z.to_nat (im_col_tot_len index)) 0)).2.

(* ------------------------------------------------------------------ *)
(** ** The order of encoded fields                                      *)
(* ------------------------------------------------------------------ *)

Lemma ld_compare_int a b : ld_compare (int_to_ld a) (int_to_ld b) = Some (a ?= b).
Proof. unfold int_to_ld, ld_compare. simpl. by rewrite !Z.mul_1_r. Qed.

Lemma ld_cmp3_int a b : ld_cmp3 (int_to_ld a) (int_to_ld b) = cmp3 a b.
Proof.
  unfold ld_cmp3, ld_lt, ld_gt, cmp3. rewrite ld_compare_int.
  destruct (Z.compare_spec a b), (Z.ltb_spec a b), (Z.ltb_spec b a); lia.
Qed.

(** Comparing at any smaller common exponent gives the same result. *)
Lemma ld_compare_scale m e m' e' k : k ≤ e → k ≤ e' →
  ld_compare (LFin m e) (LFin m' e') = Some (m * 2 ^ (e - k) ?= m' * 2 ^ (e' - k)).
Proof.
  intros H1 H2. unfold ld_compare. f_equal. set (j := Z.min e e').
  replace (e - k) with ((e - j) + (j - k)) by lia. replace (e' - k) with ((e' - j) + (j - k)) by lia.
  rewrite !Z.pow_add_r, !Z.mul_assoc by lia.  rewrite <- Zmult_compare_compat_r; [done|]. apply Z.lt_gt, Z.pow_pos_nonneg; lia.
Qed.

Definition is_nan (x : ldouble) : bool := match x with LNan => true | _ => false end.

(** ld_cmp3 is a total preorder on everything but NaN. *)
Lemma ld_cmp3_antisym x y : ld_cmp3 y x = - ld_cmp3 x y.
Proof.
  unfold ld_cmp3, ld_lt, ld_gt. destruct x as [|a|m e], y as [|b|m' e']; try done.
  - destruct a, b; done.
  - destruct a; done.
  - destruct b; done.
  - set (k := Z.min e e'). rewrite (ld_compare_scale m e m' e' k), (ld_compare_scale m' e' m e k) by lia.
    rewrite (Z.compare_antisym (m * _)). by destruct (_ ?= _).
Qed.

Lemma ld_cmp3_trans x y z : is_nan x = false → is_nan y = false → is_nan z = false →
  ld_cmp3 x y ≤ 0 → ld_cmp3 y z ≤ 0 → ld_cmp3 x z ≤ 0.
Proof.
  unfold ld_cmp3, ld_lt, ld_gt. destruct x as [|a|m e], y as [|b|m' e'], z as [|c|m2 e2]; try done;
    intros _ _ _; try (destruct a); try (destruct b); try (destruct c); try (simpl; lia).
  set (k := Z.min e (Z.min e' e2)).
  rewrite (ld_compare_scale m e m' e' k), (ld_compare_scale m' e' m2 e2 k), (ld_compare_scale m e m2 e2 k) by lia.
  destruct (Z.compare_spec (m * 2 ^ (e - k)) (m' * 2 ^ (e' - k))),
    (Z.compare_spec (m' * 2 ^ (e' - k)) (m2 * 2 ^ (e2 - k))),
    (Z.compare_spec (m * 2 ^ (e - k)) (m2 * 2 ^ (e2 - k))); lia.
Qed.

Lemma cmp3_antisym x y : cmp3 y x = - cmp3 x y.
Proof. unfold cmp3. destruct (Z.ltb_spec x y), (Z.ltb_spec y x); lia. Qed.
Lemma cmp3_trans x y z : cmp3 x y ≤ 0 → cmp3 y z ≤ 0 → cmp3 x z ≤ 0.
Proof. unfold cmp3. repeat case_if; lia. Qed.

Lemma memcmp_antisym n a b : memcmp n b a = - memcmp n a b.
Proof.
  revert a b. induction n as [|n IH]; intros a b; [done|]. cbn [memcmp]. rewrite IH.
  destruct (Z.ltb_spec (nth 0 a 0) (nth 0 b 0)), (Z.ltb_spec (nth 0 b 0) (nth 0 a 0)); lia.
Qed.

Lemma memcmp_trans n a b c : memcmp n a b ≤ 0 → memcmp n b c ≤ 0 → memcmp n a c ≤ 0.
Proof.
  revert a b c. induction n as [|n IH]; intros a b c; [done|]. cbn [memcmp]. specialize (IH (tl a) (tl b) (tl c)).
  destruct (Z.ltb_spec (nth 0 a 0) (nth 0 b 0)), (Z.ltb_spec (nth 0 b 0) (nth 0 a 0)),
    (Z.ltb_spec (nth 0 b 0) (nth 0 c 0)), (Z.ltb_spec (nth 0 c 0) (nth 0 b 0)),
    (Z.ltb_spec (nth 0 a 0) (nth 0 c 0)), (Z.ltb_spec (nth 0 c 0) (nth 0 a 0)); try lia; done.
Qed.

(** A field that is not a NaN. *)
Definition not_nan (t : ColType) (p : list Z) : Prop :=
  t = TYPE_FLOAT → is_nan (float_to_ld (load_u32 0 p)) = false.

(** The three-way result of comparing two fields of one column. *)
Definition field_cmp (t : ColType) (len : Z) (a b : list Z) : Z :=
  match t with
  | TYPE_INT => cmp3 (load_i32 0 a) (load_i32 0 b)
  | TYPE_BIGINT | TYPE_DATETIME => cmp3 (load_i64 0 a) (load_i64 0 b)
  | TYPE_FLOAT => ld_cmp3 (float_to_ld (load_u32 0 a)) (float_to_ld (load_u32 0 b))
  | TYPE_STRING => memcmp (Z.to_nat len) a b
  end.

Lemma compare_raw_field t len a b : compare_raw_data a t len b t len = Ret (field_cmp t len a b).
Proof.
  destruct t; try done. unfold compare_raw_data, field_cmp. simpl. rewrite Z.min_id, Z.eqb_refl.
  case_if; [done|]. by rewrite E.
Qed.

Lemma field_cmp_antisym t len a b : field_cmp t len b a = - field_cmp t len a b.
Proof. destruct t; simpl; auto using cmp3_antisym, memcmp_antisym, ld_cmp3_antisym. Qed.

Lemma field_cmp_trans t len a b c : not_nan t a → not_nan t b → not_nan t c →
  field_cmp t len a b ≤ 0 → field_cmp t len b c ≤ 0 → field_cmp t len a c ≤ 0.
Proof.
  intros Ha Hb Hc. destruct t; simpl; try apply cmp3_trans; [|apply memcmp_trans].
  apply ld_cmp3_trans; auto.
Qed.

(* ------------------------------------------------------------------ *)
(** ** Comparison of values                                             *)
(* ------------------------------------------------------------------ *)

(** The values that fit their C++ types; strings are bytes without '\0'. *)
Definition value_wf (v : value_data) : Prop :=
  match v with
  | VInt z => is_int32 z
  | VBigint z | VDatetime z => is_int64 z
  | VFloat f => 0 ≤ f < 2 ^ 32
  | VStr s => Forall (λ c, 0 < c < 256) s
  end.

Definition as_number (v : value_data) : option ldouble :=
  match v with
  | VInt z | VBigint z => Some (int_to_ld z)
  | VFloat f => Some (float_to_ld f)
  | _ => None
  end.

(** Lexicographic order, a proper prefix being smaller. *)
Fixpoint lex_cmp (a b : list Z) : Z :=
  match a, b with
  | [], [] => 0
  | [], _ => -1
  | _, [] => 1
  | x :: a', y :: b' => if x <? y then -1 else if y <? x then 1 else lex_cmp a' b'
  end.

(** The order of SQL values: numbers by value across the numeric types,
    datetimes by time, strings lexicographically; other pairs do not compare. *)
Definition value_cmp (v w : value_data) : option Z :=
  match v, w with
  | VStr a, VStr b => Some (lex_cmp a b)
  | VDatetime a, VDatetime b => Some (cmp3 a b)
  | _, _ => match as_number v, as_number w with Some x, Some y => Some (ld_cmp3 x y) | _, _ => None end
  end.

Lemma load_i64_app z k : is_int64 z → load_i64 0 (le_bytes 8 z ++ k) = z.
Proof. intros Hz. apply le_int_bytes; [lia|]. unfold is_int64, int64_min, int64_max in Hz. simpl. lia. Qed.
Lemma load_i32_app z k : is_int32 z → load_i32 0 (le_bytes 4 z ++ k) = z.
Proof. intros Hz. apply le_int_bytes; [lia|]. unfold is_int32, int32_min, int32_max in Hz. simpl. lia. Qed.
Lemma load_u32_app z k : 0 ≤ z < 2 ^ 32 → load_u32 0 (le_bytes 4 z ++ k) = z.
Proof. intros Hz. by apply le_uint_bytes. Qed.

(** What a numeric field loads as. *)
Lemma load_encoded v len bs k : value_wf v → encode_value v len = Ret bs →
  match v with
  | VInt z => load_i32 0 (bs ++ k) = z
  | VBigint z | VDatetime z => load_i64 0 (bs ++ k) = z
  | VFloat f => load_u32 0 (bs ++ k) = f
  | VStr s => ∃ n, bs = s ++ replicate n 0 ∧ Z.of_nat (length bs) = Z.max len 0
  end.
Proof.
  intros Hw E. destruct v as [z|z|f|s|z]; unfold encode_value in E; case_match; try done; injection E as <-.
  - by apply load_i32_app.
  - by apply load_i64_app.
  - by apply load_u32_app.
  - eexists. split; [done|]. bool_prop. len.
  - by apply load_i64_app.
Qed.

(** The string branch of compare_raw_data on two fields of known contents. *)
Definition nonzero (c : Z) : bool := negb (c =? 0).
Definition string_cmp (A B : list Z) : Z :=
  let cmp := memcmp (Nat.min (length A) (length B)) A B in
  if negb (cmp =? 0) then cmp else
  if (length A =? length B)%nat then 0 else
  if (length B <? length A)%nat then (if existsb nonzero (drop (length B) A) then 1 else 0)
  else (if existsb nonzero (drop (length A) B) then -1 else 0).

Lemma memcmp_app n A B k k' : (n ≤ length A)%nat → (n ≤ length B)%nat →
  memcmp n (A ++ k) (B ++ k') = memcmp n A B.
Proof.
  revert A B. induction n as [|n IH]; intros [|x A] [|y B] HA HB; simpl in *; try lia; [done..|].
  by rewrite IH by lia.
Qed.

Lemma compare_raw_string A B k k' :
  compare_raw_data (A ++ k) TYPE_STRING (Z.of_nat (length A)) (B ++ k') TYPE_STRING (Z.of_nat (length B)) =
  Ret (string_cmp A B).
Proof.
  unfold compare_raw_data, string_cmp. simpl. f_equal. rewrite <- Nat2Z.inj_min, Nat2Z.id.
  rewrite memcmp_app by lia. case_if; [done|].
  assert (∀ (C D j : list Z), (length D ≤ length C)%nat →
    any_nonzero (Z.of_nat (length D)) (Z.of_nat (length C)) (C ++ j) = existsb nonzero (drop (length D) C)) as Ha.
  { intros C D j Hl. unfold any_nonzero, read_at, nonzero. rewrite Nat2Z.id, drop_app_le by done. f_equal.
    apply take_app_length'. len. }
  destruct (Nat.eqb_spec (length A) (length B)) as [El|El]; [by rewrite El, Z.eqb_refl|].
  destruct (Z.eqb_spec (Z.of_nat (length A)) (Z.of_nat (length B))); [lia|].
  destruct (Nat.ltb_spec (length B) (length A)), (Z.ltb_spec (Z.of_nat (length B)) (Z.of_nat (length A))); try lia.
  - rewrite Nat.min_r by lia. by rewrite Ha by lia.
  - rewrite Nat.min_l by lia. by rewrite Ha by lia.
Qed.

Lemma string_cmp_cons x A y B :
  string_cmp (x :: A) (y :: B) = if x <? y then -1 else if y <? x then 1 else string_cmp A B.
Proof. unfold string_cmp. cbn [length Nat.min memcmp nth tl]. destruct (x <? y); [done|]. by destruct (y <? x). Qed.

Lemma string_cmp_nil B : string_cmp [] B = if existsb nonzero B then -1 else 0.
Proof. unfold string_cmp. by destruct B. Qed.

Lemma string_cmp_sym A B : string_cmp B A = - string_cmp A B.
Proof.
  revert B. induction A as [|x A IH]; intros [|y B]; [done| | |].
  - unfold string_cmp. simpl. by destruct (nonzero y || existsb nonzero B).
  - unfold string_cmp. simpl. by destruct (nonzero x || existsb nonzero A).
  - rewrite !string_cmp_cons, IH. destruct (Z.ltb_spec x y), (Z.ltb_spec y x); lia.
Qed.

Lemma existsb_zeros n : existsb nonzero (replicate n 0) = false.
Proof. by induction n. Qed.

(** Zero padding does not disturb the order of strings without '\0'. *)
Lemma string_cmp_pad a b n m : Forall (λ c, 0 < c < 256) a → Forall (λ c, 0 < c < 256) b →
  string_cmp (a ++ replicate n 0) (b ++ replicate m 0) = lex_cmp a b.
Proof.
  assert (∀ y b n m, 0 < y < 256 → string_cmp (replicate n 0) ((y :: b) ++ replicate m 0) = -1) as Hpos.
  { intros y b' n' m' Hy. destruct n' as [|n']; simpl.
    - rewrite string_cmp_nil. simpl. unfold nonzero. by rewrite (proj2 (Z.eqb_neq y 0)) by lia.
    - rewrite string_cmp_cons. by rewrite (proj2 (Z.ltb_lt 0 y)) by lia. }
  intros Ha. revert b. induction Ha as [|x a Hx _ IH]; intros b Hb; destruct Hb as [|y b Hy Hb].
  - simpl. clear. revert m. induction n as [|n IH]; intros m; simpl.
    + rewrite string_cmp_nil. by rewrite existsb_zeros.
    + destruct m as [|m]; simpl; [|rewrite string_cmp_cons; apply IH].
      rewrite string_cmp_sym, string_cmp_nil. simpl. by rewrite existsb_zeros.
  - by rewrite app_nil_l, Hpos.
  - rewrite string_cmp_sym. by rewrite app_nil_l, Hpos.
  - rewrite <- !app_comm_cons, string_cmp_cons. cbn [lex_cmp]. by rewrite IH.
Qed.

Lemma type_of_data v r : val_type (mkValue v r) = val_type (mkValue v None).
Proof. done. Qed.

(** C35: comparing two stored fields compares the values they encode: numbers by
    value across INT, BIGINT and FLOAT, datetimes by time, strings in
    lexicographic order whatever the declared lengths; any other pair of types
    is refused. *)
Theorem compare_encoded v w len len' bs bs' k k' (Hv : value_wf v) (Hw : value_wf w)
    (Ev : encode_value v len = Ret bs) (Ew : encode_value w len' = Ret bs') :
  let t := val_type (mkValue v None) in
  let t' := val_type (mkValue w None) in
  compare_raw_data (bs ++ k) t (Z.of_nat (length bs)) (bs' ++ k') t' (Z.of_nat (length bs')) =
  match value_cmp v w with
  | Some c => Ret c
  | None => Throw (IncompatibleTypeError (coltype2str t) (coltype2str t'))
  end.
Proof.
  pose proof (load_encoded v len bs k Hv Ev) as Lv. pose proof (load_encoded w len' bs' k' Hw Ew) as Lw.
  destruct v as [z|z|f|s|z], w as [z'|z'|f'|s'|z']; cbn [value_cmp as_number val_type val]; cbv zeta;
    try done; rewrite ?ld_cmp3_int;
    try (unfold compare_raw_data, load_integral, load_numeric; simpl; by rewrite Lv, Lw).
  destruct Lv as (n & -> & _), Lw as (m & -> & _). rewrite compare_raw_string. by rewrite string_cmp_pad.
Qed.

Lemma compare_encoded_witness :
  compare_raw_data (le_bytes 4 (-7)) TYPE_INT 4 (le_bytes 4 1065353216) TYPE_FLOAT 4 = Ret (-1).
Proof.
  apply (compare_encoded (VInt (-7)) (VFloat 1065353216) 4 4 (le_bytes 4 (-7)) (le_bytes 4 1065353216) [] []);
    [unfold value_wf, is_int32, int32_min, int32_max; lia|unfold value_wf; lia|reflexivity|reflexivity].
Defined.

(** C36: within one column the comparison used by ORDER BY, MIN and MAX and by
    conditions is a total preorder on the stored fields, NaN excepted. *)
Theorem compare_column_order t len a b c (Ha : not_nan t a) (Hb : not_nan t b) (Hc : not_nan t c) :
  ∃ ab ba bc ac,
    compare_raw_data a t len b t len = Ret ab ∧ compare_raw_data b t len a t len = Ret ba ∧
    compare_raw_data b t len c t len = Ret bc ∧ compare_raw_data a t len c t len = Ret ac ∧
    ba = - ab ∧ (ab ≤ 0 → bc ≤ 0 → ac ≤ 0).
Proof.
  do 4 eexists. rewrite !compare_raw_field. do 4 (split; [done|]). split; [apply field_cmp_antisym|].
  by apply field_cmp_trans.
Qed.

Lemma compare_column_order_witness :
  ∃ ab ba bc ac,
    compare_raw_data [1] TYPE_STRING 1 [2] TYPE_STRING 1 = Ret ab ∧ compare_raw_data [2] TYPE_STRING 1 [1] TYPE_STRING 1 = Ret ba ∧
    compare_raw_data [2] TYPE_STRING 1 [3] TYPE_STRING 1 = Ret bc ∧ compare_raw_data [1] TYPE_STRING 1 [3] TYPE_STRING 1 = Ret ac ∧
    ba = - ab ∧ (ab ≤ 0 → bc ≤ 0 → ac ≤ 0).
Proof. apply (compare_column_order TYPE_STRING 1 [1] [2] [3]); discriminate. Defined.

(* ------------------------------------------------------------------ *)
(** ** Casts                                                            *)
(* ------------------------------------------------------------------ *)

Lemma float_bits_range m e : 0 ≤ float_bits m e < 2 ^ 32.
Proof.
  unfold float_bits. destruct (Z.eqb_spec m 0) as [|Hm]; [lia|]. set (sh := Z.max _ _). cbv zeta.
  assert (0 < Z.abs m) as Hpos by lia. pose proof (Z.log2_spec _ Hpos) as [_ Hlog].
  assert (0 ≤ (if 0 <=? sh then Z.abs m / 2 ^ sh else Z.abs m * 2 ^ (- sh)) < 2 ^ 24) as Ha.
  { destruct (Z.leb_spec 0 sh).
    - split; [apply Z.div_pos; [lia|by apply Z.pow_pos_nonneg]|]. apply Z.div_lt_upper_bound;
        [by apply Z.pow_pos_nonneg|]. rewrite <- Z.pow_add_r by lia. eapply Z.lt_le_trans; [exact Hlog|].
      apply Z.pow_le_mono_r; lia.
    - split; [apply Z.mul_nonneg_nonneg; [lia|apply Z.pow_nonneg; lia]|].
      apply Z.lt_le_trans with (2 ^ Z.succ (Z.log2 (Z.abs m)) * 2 ^ (- sh)).
      + apply Z.mul_lt_mono_pos_r; [apply Z.pow_pos_nonneg; lia|done].
      + pose proof (Z.log2_nonneg (Z.abs m)). rewrite <- Z.pow_add_r by lia. apply Z.pow_le_mono_r; lia. }
  set (a := if 0 <=? sh then _ else _) in *. assert (-149 ≤ e + sh) by lia.
  destruct (m <? 0), (Z.leb_spec 105 (e + sh)), (Z.ltb_spec a (2 ^ 23)); lia.
Qed.

Lemma ld_to_float_range x : 0 ≤ ld_to_float x < 2 ^ 32.
Proof.
  destruct x as [|[]|m e]; [done..|]. unfold ld_to_float. destruct (round_ne _ _ _ _). apply float_bits_range.
Qed.

Lemma parse_datetime_int64 s e : parse_datetime_string s = Ret e → is_int64 e.
Proof.
  intros H. apply format_parse in H as (_ & y & mo & d & h & mi & sec & Hr & ->).
  apply in_range_bounds in Hr as (Hy & Hmo & Hd & Hh & Hmi & Hs). pose proof (days_in_month_le y mo Hmo).
  unfold encode_datetime, is_int64, int64_min, int64_max. lia.
Qed.

(** The range tests of the cast, then truncation, keep an integer or fit one. *)
Lemma ld_trunc_int z : is_int64 z → ld_trunc (int_to_ld z) = z.
Proof.
  intros [H1 H2]. unfold ld_trunc, int_to_ld. rewrite Z.pow_0_r, Z.mul_1_r. simpl.
  rewrite (proj2 (Z.leb_le _ _) H1), (proj2 (Z.leb_le _ _) H2). done.
Qed.

Lemma ld_range_int z lo hi :
  ld_lt (int_to_ld z) (int_to_ld lo) || ld_gt (int_to_ld z) (int_to_ld hi) = false ↔ lo ≤ z ≤ hi.
Proof.
  unfold ld_lt, ld_gt. rewrite !ld_compare_int.
  destruct (Z.compare_spec z lo), (Z.compare_spec z hi); simpl; split; intros; try lia; done.
Qed.

Lemma ld_trunc_range x lo hi : is_nan x = false → int64_min ≤ lo → lo ≤ 0 → 0 ≤ hi → hi ≤ int64_max →
  ld_lt x (int_to_ld lo) || ld_gt x (int_to_ld hi) = false → lo ≤ ld_trunc x ≤ hi.
Proof.
  intros Hn Hlo Hlo0 Hhi0 Hhi [Hl Hg]%orb_false_iff. unfold ld_lt, ld_gt in *.
  destruct x as [|[]|m e]; try done. unfold ld_trunc.
  assert (lo ≤ (if 0 <=? e then m * 2 ^ e else Z.quot m (2 ^ (- e))) ≤ hi) as Hr.
  { unfold int_to_ld in *. destruct (Z.leb_spec 0 e) as [He|He].
    - rewrite (ld_compare_scale m e lo 0 0), (ld_compare_scale m e hi 0 0) in * by lia.
      rewrite Z.sub_0_r, Z.sub_diag, Z.pow_0_r, !Z.mul_1_r in *.
      destruct (Z.compare_spec (m * 2 ^ e) lo), (Z.compare_spec (m * 2 ^ e) hi); try done; lia.
    - rewrite (ld_compare_scale m e lo 0 e), (ld_compare_scale m e hi 0 e) in * by lia.
      rewrite Z.sub_diag, Z.pow_0_r, Z.mul_1_r, Z.sub_0_l in *.
      assert (0 < 2 ^ (- e)) as Hp by (apply Z.pow_pos_nonneg; lia). set (p := 2 ^ (- e)) in *.
      assert (lo * p ≤ m ≤ hi * p) as Hm.
      { destruct (Z.compare_spec m (lo * p)), (Z.compare_spec m (hi * p)); try done; lia. }
      pose proof (Z.quot_mul lo p ltac:(lia)) as E1. pose proof (Z.quot_mul hi p ltac:(lia)) as E2.
      rewrite <- E1 at 1. rewrite <- E2. split; apply Z.quot_le_mono; lia. }
  set (z := if 0 <=? e then _ else _) in *.
  rewrite (proj2 (Z.leb_le int64_min z)), (proj2 (Z.leb_le z int64_max)) by lia. done.
Qed.

(** C37: a successful cast to a column's type gives a value of exactly that type
    that fits it, and an integer keeps its value: there is no silent
    truncation or wrap-around. *)
Theorem cast_value_sound v r col v' (Hv : value_wf v) (Hn : as_number v ≠ Some LNan)
    (E : cast_value_to_col_type (mkValue v r) col = Ret v') :
  val_type v' = cm_type col ∧ value_wf (val v') ∧ raw v' = r ∧
  (∀ z, as_number v = Some (int_to_ld z) → is_integral_type (cm_type col) = true →
     as_number (val v') = Some (int_to_ld z)).
Proof.
  unfold cast_value_to_col_type in E. case_bool_decide as Et; [injection E as <-; naive_solver|].
  case_bool_decide as Ed.
  { destruct v as [| | |s|]; try done. apply out_bind_ret_inv in E as (e & He & E). injection E as <-.
    apply parse_datetime_int64 in He. rewrite Ed. split_and!; [done|done|done|]. intros z [=]. }
  destruct (negb _ || negb _) eqn:Eb; [done|]. apply out_bind_ret_inv in E as (x & Hx & E).
  assert (as_number v = Some x) as Ex by (destruct v; try done; by injection Hx as <-).
  assert (is_nan x = false) as Hnx by (destruct x; [congruence|done|done]).
  destruct (cm_type col) eqn:Ec; try done.
  - destruct (_ || _) eqn:E2 in E; [done|]. injection E as <-. cbn [set_int val raw val_type].
    apply ld_trunc_range in E2 as Hr; [|done|by vm_compute..].
    assert (wrap_s 32 (ld_trunc x) = ld_trunc x) as Ew
      by (apply wrap_s_small; [lia|]; unfold int32_min, int32_max in Hr; lia). rewrite Ew.
    split_and!; [done|apply Hr..|done|]. intros z Hz _. rewrite Ex in Hz. injection Hz as ->. cbn [as_number].
    rewrite ld_trunc_int; [done|]. apply ld_range_int in E2.
    unfold is_int64, int32_min, int32_max, int64_min, int64_max in *. lia.
  - destruct (_ || _) eqn:E2 in E; [done|]. injection E as <-. cbn [set_bigint val raw val_type].
    apply ld_trunc_range in E2 as Hr; [|done|by vm_compute..].
    split_and!; [done|apply Hr..|done|]. intros z Hz _. rewrite Ex in Hz. injection Hz as ->. cbn [as_number].
    rewrite ld_trunc_int; [done|]. by apply ld_range_int in E2.
  - injection E as <-. cbn [set_float val raw val_type].
    pose proof (ld_to_float_range x). split_and!; try done; lia.
Qed.

Lemma cast_value_sound_witness :
  ∃ v', cast_value_to_col_type (mkValue (VBigint (-5)) None) (mkColMeta "t" "a" TYPE_INT 4 0 false) = Ret v' ∧
        val_type v' = TYPE_INT.
Proof.
  eexists. split; [reflexivity|].
  refine (proj1 (cast_value_sound (VBigint (-5)) None (mkColMeta "t" "a" TYPE_INT 4 0 false) _ _ _ eq_refl));
    [unfold value_wf, is_int64, int64_min, int64_max; lia|discriminate].
Defined.

(** An integer outside the range of an INT column is refused. *)
Lemma cast_overflow z r col : cm_type col = TYPE_INT → ¬ is_int32 z →
  cast_value_to_col_type (mkValue (VBigint z) r) col = Throw (NumericOverflowError "INT").
Proof.
  intros Ec Hz. unfold cast_value_to_col_type. rewrite Ec. simpl.
  destruct (ld_lt _ _ || ld_gt _ _) eqn:E; [done|]. by apply ld_range_int in E.
Qed.

(* ------------------------------------------------------------------ *)
(** ** Index keys                                                       *)
(* ------------------------------------------------------------------ *)

Definition field_of (record : list Z) (c : ColMeta) : list Z :=
  read_at (Z.to_nat (cm_offset c)) (Z.to_nat (cm_len c)) record.

(** The columns lie inside the record and their lengths add up. *)
Definition key_cols_ok (index : IndexMeta) (record : list Z) : Prop :=
  Forall (λ c, 0 ≤ cm_len c ∧ 0 ≤ cm_offset c ∧ (Z.to_nat (cm_offset c) + Z.to_nat (cm_len c) ≤ length record)%nat)
    (im_cols index) ∧
  im_col_tot_len index = foldr Z.add 0 (cm_len <$> im_cols index).

Lemma build_key_fold record cols : ∀ done rest,
  Forall (λ c, 0 ≤ cm_len c ∧ 0 ≤ cm_offset c ∧ (Z.to_nat (cm_offset c) + Z.to_nat (cm_len c) ≤ length record)%nat) cols →
  Z.of_nat (length rest) = foldr Z.add 0 (cm_len <$> cols) →
  (fold_left (build_key_step record) cols (Z.of_nat (length done), done ++ rest)).2 =
  done ++ concat (field_of record <$> cols).
Proof.
  induction cols as [|c cols IH]; intros done rest Hc Hr.
  { simpl in *. destruct rest; [done|simpl in Hr; lia]. }
  apply Forall_cons in Hc as [(Hl & Ho & Hin) Hc]. rewrite fmap_cons in Hr. cbn [foldr] in Hr.
  assert (length (field_of record c) = Z.to_nat (cm_len c)) as Hf by (unfold field_of; by rewrite length_read_at).
  assert (0 ≤ foldr Z.add 0 (cm_len <$> cols)) as Hpos.
  { clear -Hc. induction Hc as [|d ds (Hd & _) _ IH]; [done|]. rewrite fmap_cons. cbn [foldr]. lia. }
  cbn [fold_left]. unfold build_key_step at 2. cbn [fst snd]. fold (field_of record c).
  rewrite Nat2Z.id. unfold splice. rewrite take_app_length.
  assert (drop (length done + length (field_of record c)) (done ++ rest) = drop (length (field_of record c)) rest) as ->
    by by rewrite drop_app_add.
  rewrite app_assoc. replace (Z.of_nat (length done) + cm_len c) with (Z.of_nat (length (done ++ field_of record c)))
    by (rewrite length_app; lia).
  rewrite IH; [by rewrite fmap_cons; cbn [concat]; rewrite app_assoc|done|]. rewrite length_drop. lia.
Qed.

(** build_index_key is the concatenation of the indexed fields. *)
Lemma build_index_key_spec index record : key_cols_ok index record →
  build_index_key index record = concat (field_of record <$> im_cols index).
Proof.
  intros [Hc Hl]. unfold build_index_key.
  assert (0 ≤ im_col_tot_len index).
  { rewrite Hl. clear Hl. induction Hc as [|d ds (Hd & _) _ IH]; [done|]. rewrite fmap_cons. cbn [foldr]. lia. }
  apply (build_key_fold record (im_cols index) []); [done|]. rewrite length_replicate. lia.
Qed.
