(* ===== verification/Bitmap.v ===== *)
(** * Bitmap (src/src/record/bitmap.h)

    The per-page slot bitmap: bit [pos] is bit [7 - pos % 8] of byte [pos / 8].
    A bitmap is the list of bytes (0..255) it occupies in the page.  The code
    computes on [char], which is signed: [to_char] is that reading of a byte,
    so that [x & get_bit(pos)] is computed after sign extension as in C++. *)

From S2P Require Import Prelude.

Definition BITMAP_WIDTH : Z := 8.
Definition BITMAP_HIGHEST_BIT : Z := 0x80.

(** A byte read as a char, and a char (or int) stored into a byte. *)
Definition to_char (b : Z) : Z := wrap_s 8 b.
Definition of_char (c : Z) : Z := wrap_u 8 c.

Module Bitmap.

Definition get_bucket (pos : Z) : Z := Z.quot pos BITMAP_WIDTH.

Definition get_bit (pos : Z) : Z :=
  to_char (Z.shiftr BITMAP_HIGHEST_BIT (to_char (Z.rem pos BITMAP_WIDTH))).

(** memset(bm, 0, size) *)
Definition init (bm : list Z) (size : Z) : list Z :=
  splice 0 (replicate (Z.to_nat size) 0) bm.

Definition bucket (bm : list Z) (pos : Z) : Z := nth (Z.to_nat (get_bucket pos)) bm 0.

Definition set (bm : list Z) (pos : Z) : list Z :=
  <[Z.to_nat (get_bucket pos) := of_char (Z.lor (to_char (bucket bm pos)) (get_bit pos))]> bm.

Definition reset (bm : list Z) (pos : Z) : list Z :=
  <[Z.to_nat (get_bucket pos) :=
      of_char (Z.land (to_char (bucket bm pos)) (to_char (Z.lnot (get_bit pos))))]> bm.

Definition is_set (bm : list Z) (pos : Z) : bool :=
  negb (Z.land (to_char (bucket bm pos)) (get_bit pos) =? 0).

(** The loop [for (int i = curr + 1; i < max_n; i++)], by its trip count. *)
Fixpoint next_bit_loop (fuel : nat) (bit : bool) (bm : list Z) (max_n i : Z) : Z :=
  match fuel with
  | O => max_n
  | S fuel' =>
      if i <? max_n then
        if Bool.eqb (is_set bm i) bit then i
        else next_bit_loop fuel' bit bm max_n (i + 1)
      else max_n
  end.

Definition next_bit (bit : bool) (bm : list Z) (max_n curr : Z) : Z :=
  next_bit_loop (Z.to_nat (max_n - (curr + 1))) bit bm max_n (curr + 1).

Definition first_bit (bit : bool) (bm : list Z) (max_n : Z) : Z :=
  next_bit bit bm max_n (-1).

End Bitmap.

(** ** Specification: the bitmap as a function from positions to bits *)

Definition bit_at (bm : list Z) (pos : Z) : bool :=
  Z.testbit (nth (Z.to_nat (pos / 8)) bm 0) (7 - pos mod 8).

Lemma bucket_div pos : 0 ≤ pos → Bitmap.get_bucket pos = pos / 8.
Proof. intros. unfold Bitmap.get_bucket. by rewrite Z.quot_div_nonneg. Qed.

(** The eight bit positions of a byte. *)
Ltac bit_cases k :=
  let H := fresh in
  assert (k = 0 ∨ k = 1 ∨ k = 2 ∨ k = 3 ∨ k = 4 ∨ k = 5 ∨ k = 6 ∨ k = 7) as H by lia;
  destruct H as [->|[->|[->|[->|[->|[->|[->| ->]]]]]]].

Lemma get_bit_pow pos : 0 ≤ pos → of_char (Bitmap.get_bit pos) = 2 ^ (7 - pos mod 8).
Proof.
  intros Hp. unfold Bitmap.get_bit. rewrite Z.rem_mod_nonneg by (unfold BITMAP_WIDTH; lia).
  change BITMAP_WIDTH with 8. pose proof (Z.mod_pos_bound pos 8 ltac:(lia)).
  generalize dependent (pos mod 8). intros k Hk. bit_cases k; reflexivity.
Qed.

(** Facts about single bytes are decided by running over the 256 byte values. *)
Definition all_bytes (f : Z → bool) : bool := forallb f (seqZ 0 256).

Lemma all_bytes_spec f b : all_bytes f = true → is_byte b → f b = true.
Proof.
  intros H Hb. unfold all_bytes in H. rewrite forallb_forall in H. apply H.
  apply list_elem_of_In, elem_of_seqZ. unfold is_byte in Hb. lia.
Qed.

Definition char_of_pos (k : Z) : Z := to_char (Z.shiftr BITMAP_HIGHEST_BIT (to_char k)).

Lemma get_bit_mod pos : 0 ≤ pos → Bitmap.get_bit pos = char_of_pos (pos mod 8).
Proof. intros. unfold Bitmap.get_bit. by rewrite Z.rem_mod_nonneg by (unfold BITMAP_WIDTH; lia). Qed.

Lemma byte_test k b : 0 ≤ k < 8 → is_byte b →
  negb (Z.land (to_char b) (char_of_pos k) =? 0) = Z.testbit b (7 - k).
Proof.
  intros Hk Hb. apply eqb_prop. revert b Hb.
  enough (all_bytes (λ b, Bool.eqb (negb (Z.land (to_char b) (char_of_pos k) =? 0)) (Z.testbit b (7 - k))) = true)
    by (intros; by eapply (all_bytes_spec (λ b, Bool.eqb (negb (Z.land (to_char b) (char_of_pos k) =? 0)) (Z.testbit b (7 - k))))).
  bit_cases k; vm_compute; reflexivity.
Qed.

Definition set_char (b k : Z) : Z := of_char (Z.lor (to_char b) (char_of_pos k)).
Definition reset_char (b k : Z) : Z :=
  of_char (Z.land (to_char b) (to_char (Z.lnot (char_of_pos k)))).

(** What [set] and [reset] do to one byte, as one decidable statement. *)
Definition byte_update_ok (k j b : Z) : bool :=
  Bool.eqb (Z.testbit (set_char b k) (7 - j)) ((j =? k) || Z.testbit b (7 - j)) &&
  Bool.eqb (Z.testbit (reset_char b k) (7 - j)) (negb (j =? k) && Z.testbit b (7 - j)) &&
  (0 <=? set_char b k) && (set_char b k <? 256) &&
  (0 <=? reset_char b k) && (reset_char b k <? 256).

Lemma byte_update k j b : 0 ≤ k < 8 → 0 ≤ j < 8 → is_byte b → byte_update_ok k j b = true.
Proof.
  intros Hk Hj. apply all_bytes_spec.
  bit_cases k; bit_cases j; vm_compute; reflexivity.
Qed.

Lemma byte_update_spec k j b : 0 ≤ k < 8 → 0 ≤ j < 8 → is_byte b →
  Z.testbit (set_char b k) (7 - j) = (j =? k) || Z.testbit b (7 - j) ∧
  Z.testbit (reset_char b k) (7 - j) = negb (j =? k) && Z.testbit b (7 - j) ∧
  is_byte (set_char b k) ∧ is_byte (reset_char b k).
Proof.
  intros Hk Hj Hb. pose proof (byte_update k j b Hk Hj Hb) as H.
  unfold byte_update_ok in H. bool_prop.
  repeat match goal with H : Bool.eqb _ _ = true |- _ => apply eqb_prop in H end.
  unfold is_byte. auto with lia.
Qed.

Section bitmap_spec.
Context (bm : list Z) (Hbytes : Forall is_byte bm).

Lemma nth_byte i : is_byte (nth i bm 0).
Proof.
  destruct (decide (i < length bm)%nat).
  - rewrite Forall_forall in Hbytes. apply Hbytes, list_elem_of_In, nth_In. done.
  - rewrite nth_overflow by lia. unfold is_byte. lia.
Qed.

Lemma is_set_bit pos : 0 ≤ pos → Bitmap.is_set bm pos = bit_at bm pos.
Proof.
  intros Hp. unfold Bitmap.is_set, bit_at, Bitmap.bucket. rewrite bucket_div, get_bit_mod by done.
  apply byte_test; [apply Z.mod_pos_bound; lia | apply nth_byte].
Qed.

Lemma pos_split p q : 0 ≤ p → 0 ≤ q → (q =? p) = (q / 8 =? p / 8) && (q mod 8 =? p mod 8).
Proof.
  intros. destruct (Z.eqb_spec q p) as [->|Hne]; [by rewrite !Z.eqb_refl|].
  pose proof (Z.div_mod q 8). pose proof (Z.div_mod p 8).
  destruct (Z.eqb_spec (q / 8) (p / 8)), (Z.eqb_spec (q mod 8) (p mod 8)); simpl; lia.
Qed.

Lemma nth_insert (l : list Z) i j x :
  (i < length l)%nat → nth j (<[i := x]> l) 0 = if decide (i = j) then x else nth j l 0.
Proof.
  intros Hi. rewrite !nth_lookup. case_decide as E.
  - subst. by rewrite list_lookup_insert_eq.
  - by rewrite list_lookup_insert_ne.
Qed.

(** A slot position that lies inside the bitmap. *)
Definition in_bitmap (pos : Z) : Prop := 0 ≤ pos < 8 * Z.of_nat (length bm).

Lemma bucket_in pos : in_bitmap pos → (Z.to_nat (pos / 8) < length bm)%nat.
Proof. unfold in_bitmap. intros. pose proof (Z.div_lt_upper_bound pos 8 (Z.of_nat (length bm))).
  pose proof (Z.div_pos pos 8). lia. Qed.

Lemma bit_at_set p q : in_bitmap p → 0 ≤ q →
  bit_at (Bitmap.set bm p) q = (q =? p) || bit_at bm q.
Proof.
  intros Hp Hq. pose proof (bucket_in p Hp) as Hlt. unfold in_bitmap in Hp.
  unfold bit_at, Bitmap.set, Bitmap.bucket. rewrite bucket_div, get_bit_mod, nth_insert by (done || lia).
  pose proof (Z.mod_pos_bound p 8 ltac:(lia)). pose proof (Z.mod_pos_bound q 8 ltac:(lia)).
  destruct (byte_update_spec (p mod 8) (q mod 8) (nth (Z.to_nat (p / 8)) bm 0))
    as (Es & _); auto using nth_byte.
  rewrite pos_split by lia. case_decide as E.
  - assert (q / 8 = p / 8) as -> by (pose proof (Z.div_pos p 8); pose proof (Z.div_pos q 8); lia).
    rewrite Z.eqb_refl. exact Es.
  - destruct (Z.eqb_spec (q / 8) (p / 8)) as [E'|]; [by rewrite E' in E|done].
Qed.

Lemma bit_at_reset p q : in_bitmap p → 0 ≤ q →
  bit_at (Bitmap.reset bm p) q = negb (q =? p) && bit_at bm q.
Proof.
  intros Hp Hq. pose proof (bucket_in p Hp) as Hlt. unfold in_bitmap in Hp.
  unfold bit_at, Bitmap.reset, Bitmap.bucket. rewrite bucket_div, get_bit_mod, nth_insert by (done || lia).
  pose proof (Z.mod_pos_bound p 8 ltac:(lia)). pose proof (Z.mod_pos_bound q 8 ltac:(lia)).
  destruct (byte_update_spec (p mod 8) (q mod 8) (nth (Z.to_nat (p / 8)) bm 0))
    as (_ & Er & _); auto using nth_byte.
  rewrite pos_split by lia. case_decide as E.
  - assert (q / 8 = p / 8) as -> by (pose proof (Z.div_pos p 8); pose proof (Z.div_pos q 8); lia).
    rewrite Z.eqb_refl. exact Er.
  - destruct (Z.eqb_spec (q / 8) (p / 8)) as [E'|]; [by rewrite E' in E|done].
Qed.

Lemma set_bytes p : 0 ≤ p → Forall is_byte (Bitmap.set bm p).
Proof.
  intros Hp. apply Forall_insert; [done|]. unfold Bitmap.bucket. rewrite bucket_div, get_bit_mod by done.
  pose proof (Z.mod_pos_bound p 8 ltac:(lia)).
  by destruct (byte_update_spec (p mod 8) (p mod 8) (nth (Z.to_nat (p / 8)) bm 0)) as (_ & _ & ? & _);
    auto using nth_byte.
Qed.

Lemma reset_bytes p : 0 ≤ p → Forall is_byte (Bitmap.reset bm p).
Proof.
  intros Hp. apply Forall_insert; [done|]. unfold Bitmap.bucket. rewrite bucket_div, get_bit_mod by done.
  pose proof (Z.mod_pos_bound p 8 ltac:(lia)).
  by destruct (byte_update_spec (p mod 8) (p mod 8) (nth (Z.to_nat (p / 8)) bm 0)) as (_ & _ & _ & ?);
    auto using nth_byte.
Qed.

Lemma length_bitmap_set p : length (Bitmap.set bm p) = length bm.
Proof. apply length_insert. Qed.
Lemma length_bitmap_reset p : length (Bitmap.reset bm p) = length bm.
Proof. apply length_insert. Qed.

(** [next_bit] returns the least position after [curr] whose bit is [bit], or [max_n]. *)
Lemma next_bit_loop_spec fuel bit max_n i :
  0 ≤ i ≤ max_n → fuel = Z.to_nat (max_n - i) →
  let r := Bitmap.next_bit_loop fuel bit bm max_n i in
  i ≤ r ≤ max_n ∧ (∀ j, i ≤ j < r → bit_at bm j ≠ bit) ∧ (r < max_n → bit_at bm r = bit).
Proof.
  revert i. induction fuel as [|fuel IH]; intros i Hi Hf; simpl.
  - repeat split; try lia.
  - destruct (Z.ltb_spec i max_n); [|repeat split; lia].
    rewrite is_set_bit by lia. destruct (Bool.eqb_spec (bit_at bm i) bit) as [E|E].
    + repeat split; try lia. done.
    + destruct (IH (i + 1)) as (H1 & H2 & H3); [lia|lia|].
      repeat split; try lia; [|done]. intros j Hj. destruct (decide (j = i)) as [->|]; [done|].
      apply H2. lia.
Qed.

Lemma next_bit_spec bit max_n curr :
  -1 ≤ curr < max_n →
  let r := Bitmap.next_bit bit bm max_n curr in
  curr < r ≤ max_n ∧ (∀ j, curr < j < r → bit_at bm j ≠ bit) ∧ (r < max_n → bit_at bm r = bit).
Proof.
  intros Hc. destruct (next_bit_loop_spec (Z.to_nat (max_n - (curr + 1))) bit max_n (curr + 1))
    as (H1 & H2 & H3); [lia|done|].
  unfold Bitmap.next_bit. repeat split; [lia..| |done]. intros j Hj. apply H2. lia.
Qed.

End bitmap_spec.

(** Bitmap::set and Bitmap::reset change exactly the named bit, as
    Bitmap::is_set sees it, for every position inside the bitmap. *)
Theorem bitmap_set_reset bm p q (Hb : Forall is_byte bm) (Hp : in_bitmap bm p) (Hq : 0 ≤ q) :
  Bitmap.is_set (Bitmap.set bm p) q = (if q =? p then true else Bitmap.is_set bm q) ∧
  Bitmap.is_set (Bitmap.reset bm p) q = (if q =? p then false else Bitmap.is_set bm q).
Proof.
  assert (0 ≤ p) by apply Hp.
  rewrite !is_set_bit by auto using set_bytes, reset_bytes.
  rewrite bit_at_set, bit_at_reset by done. by destruct (q =? p).
Qed.

Lemma bitmap_set_reset_witness :
  Bitmap.is_set (Bitmap.set [0; 0] 9) 9 = true ∧ Bitmap.is_set (Bitmap.reset [0; 255] 9) 9 = false.
Proof.
  split.
  - refine (proj1 (bitmap_set_reset [0; 0] 9 9 _ _ _)); [|split; simpl; lia|lia].
    by repeat constructor.
  - refine (proj2 (bitmap_set_reset [0; 255] 9 9 _ _ _)); [|split; simpl; lia|lia].
    by repeat constructor.
Defined.

(** Bitmap::next_bit returns the least position after curr whose bit has the
    wanted value, and max_n when there is none; Bitmap::first_bit is the same
    search from the start. *)
Theorem bitmap_next_bit bm bit max_n curr (Hb : Forall is_byte bm) (Hc : -1 ≤ curr < max_n) :
  let r := Bitmap.next_bit bit bm max_n curr in
  curr < r ≤ max_n ∧ (∀ j, curr < j < r → Bitmap.is_set bm j ≠ bit) ∧
  (r < max_n → Bitmap.is_set bm r = bit).
Proof.
  intros r. destruct (next_bit_spec bm Hb bit max_n curr Hc) as (H1 & H2 & H3). fold r in H1, H2, H3.
  split_and!; [lia|lia| |].
  - intros j Hj. rewrite is_set_bit by (done || lia). by apply H2.
  - intros Hr. rewrite is_set_bit by (done || lia). by apply H3.
Qed.

Lemma bitmap_next_bit_witness : Bitmap.is_set [255; 127] (Bitmap.first_bit false [255; 127] 16) = false.
Proof.
  refine (proj2 (proj2 (bitmap_next_bit [255; 127] false 16 (-1) _ _)) _); [|lia|by vm_compute].
  by repeat constructor.
Defined.
