(* ===== verification/Replacer.v ===== *)
(** * Replacement policy (src/src/replacer/)

    [Replacer] is the abstract class of replacer.h: what the buffer pool may
    call.  [ReplacerLaws] states what it may rely on, in terms of the list of
    evictable frames.  [LRU] is LRUReplacer of lru_replacer.{h,cpp}: the
    std::list of frame ids with its node identities, and the hash table whose
    values are list iterators, here the identity of the node they point to. *)

From S2P Require Import Prelude.

(** replacer.h *)
Class Replacer (R : Type) := {
  victim : R → option Z * R;    (** [None]: returns false, *frame_id untouched *)
  pin : Z → R → R;
  unpin : Z → R → R;
  Size : R → Z
}.

Class ReplacerLaws (R : Type) `{Replacer R} := {
  rep_inv : R → Prop;
  rep_frames : R → list Z;      (** evictable frames *)
  rep_cap : R → Z;
  rep_nodup r : rep_inv r → NoDup (rep_frames r);
  rep_size r : rep_inv r → Size r = Z.of_nat (length (rep_frames r));
  rep_victim_some r f r' : rep_inv r → victim r = (Some f, r') →
    f ∈ rep_frames r ∧ rep_inv r' ∧ rep_cap r' = rep_cap r ∧
    (∀ g, g ∈ rep_frames r' ↔ g ∈ rep_frames r ∧ g ≠ f);
  rep_victim_none r r' : rep_inv r → victim r = (None, r') → rep_frames r = [] ∧ r' = r;
  rep_pin r f : rep_inv r →
    rep_inv (pin f r) ∧ rep_cap (pin f r) = rep_cap r ∧
    (∀ g, g ∈ rep_frames (pin f r) ↔ g ∈ rep_frames r ∧ g ≠ f);
  rep_unpin r f : rep_inv r → Z.of_nat (length (rep_frames r)) < rep_cap r →
    rep_inv (unpin f r) ∧ rep_cap (unpin f r) = rep_cap r ∧
    (∀ g, g ∈ rep_frames (unpin f r) ↔ g ∈ rep_frames r ∨ g = f)
}.

Module LRU.

(** class LRUReplacer.  A node of std::list has an identity that iterators
    keep across changes elsewhere in the list; [next_node] supplies fresh
    ones (the allocator). *)
Record LRUReplacer := mkLRU {
  LRUlist : list (nat * Z);
  LRUhash : gmap Z nat;
  max_size : Z;
  next_node : nat
}.

Definition init (num_pages : Z) : LRUReplacer := mkLRU [] ∅ num_pages 0.

(** list.erase(iterator) *)
Definition erase_node (n : nat) (l : list (nat * Z)) : list (nat * Z) :=
  filter (λ p, p.1 ≠ n) l.

Definition lru_victim (r : LRUReplacer) : option Z * LRUReplacer :=
  match last (LRUlist r) with
  | None => (None, r)
  | Some (_, frame_id) =>
      (Some frame_id,
       mkLRU (removelast (LRUlist r)) (delete frame_id (LRUhash r)) (max_size r) (next_node r))
  end.

Definition lru_pin (frame_id : Z) (r : LRUReplacer) : LRUReplacer :=
  match LRUhash r !! frame_id with
  | None => r
  | Some it =>
      mkLRU (erase_node it (LRUlist r)) (delete frame_id (LRUhash r)) (max_size r) (next_node r)
  end.

Definition lru_unpin (frame_id : Z) (r : LRUReplacer) : LRUReplacer :=
  if bool_decide (is_Some (LRUhash r !! frame_id))
     || (max_size r <=? Z.of_nat (length (LRUlist r))) then r
  else mkLRU ((next_node r, frame_id) :: LRUlist r)
             (<[frame_id := next_node r]> (LRUhash r)) (max_size r) (S (next_node r)).

Definition lru_size (r : LRUReplacer) : Z := Z.of_nat (length (LRUlist r)).

#[global] Instance LRU_Replacer : Replacer LRUReplacer := {
  victim := lru_victim; pin := lru_pin; unpin := lru_unpin; Size := lru_size
}.

(** ** Invariant: the hash table indexes exactly the list nodes *)

Record lru_inv (r : LRUReplacer) : Prop := mkLruInv {
  inv_ids : NoDup (LRUlist r).*1;
  inv_frames : NoDup (LRUlist r).*2;
  inv_hash : ∀ f n, LRUhash r !! f = Some n ↔ (n, f) ∈ LRUlist r;
  inv_fresh : ∀ n f, (n, f) ∈ LRUlist r → (n < next_node r)%nat;
  inv_cap : Z.of_nat (length (LRUlist r)) ≤ max_size r
}.

(** ** Abstract policy: a recency list of frames, most recent first *)

Definition frames (r : LRUReplacer) : list Z := (LRUlist r).*2.

Definition spec_victim (l : list Z) : option Z * list Z :=
  match last l with None => (None, l) | Some f => (Some f, removelast l) end.
Definition spec_pin (f : Z) (l : list Z) : list Z := filter (λ g, g ≠ f) l.
Definition spec_unpin (cap f : Z) (l : list Z) : list Z :=
  if bool_decide (f ∈ l) || (cap <=? Z.of_nat (length l)) then l else f :: l.

Lemma init_inv n : 0 ≤ n → lru_inv (init n).
Proof.
  intros. split; simpl; [constructor..| |set_solver|lia].
  intros ??. split; [by rewrite lookup_empty|set_solver].
Qed.

Lemma fmap_removelast {A B} (f : A → B) l : f <$> removelast l = removelast (f <$> l).
Proof. induction l as [|x [|y l] IH]; [done..|]. simpl in *. by rewrite <- IH. Qed.

Lemma NoDup_fst_inj {A B} (l : list (A * B)) a b b' :
  NoDup l.*1 → (a, b) ∈ l → (a, b') ∈ l → b = b'.
Proof.
  intros Hnd (i & Hi)%list_elem_of_lookup (j & Hj)%list_elem_of_lookup.
  assert (i = j) as ->; [|by simplify_eq].
  eapply (NoDup_lookup l.*1); [done| |]; rewrite list_lookup_fmap.
  - by rewrite Hi.
  - by rewrite Hj.
Qed.

Lemma NoDup_snd_inj {A B} (l : list (A * B)) a a' b :
  NoDup l.*2 → (a, b) ∈ l → (a', b) ∈ l → a = a'.
Proof.
  intros Hnd (i & Hi)%list_elem_of_lookup (j & Hj)%list_elem_of_lookup.
  assert (i = j) as ->; [|by simplify_eq].
  eapply (NoDup_lookup l.*2); [done| |]; rewrite list_lookup_fmap.
  - by rewrite Hi.
  - by rewrite Hj.
Qed.

Lemma elem_frames r f : f ∈ frames r ↔ ∃ n, (n, f) ∈ LRUlist r.
Proof.
  unfold frames. rewrite list_elem_of_fmap. split.
  - intros ([n g] & -> & H). eauto.
  - intros (n & H). by exists (n, f).
Qed.

Lemma hash_frames r f : lru_inv r → is_Some (LRUhash r !! f) ↔ f ∈ frames r.
Proof.
  intros Hi. rewrite elem_frames. split.
  - intros (n & Hn). exists n. by apply inv_hash.
  - intros (n & Hn). exists n. by apply inv_hash.
Qed.

Lemma erase_node_frames r n f : lru_inv r → (n, f) ∈ LRUlist r →
  (erase_node n (LRUlist r)).*2 = spec_pin f (frames r).
Proof.
  intros Hi Hin. unfold erase_node, spec_pin, frames.
  pose proof (inv_ids r Hi) as H1. pose proof (inv_frames r Hi) as H2.
  assert (∀ m g, (m, g) ∈ LRUlist r → m = n ↔ g = f) as Hk.
  { intros m g Hm. split; intros ->; [by eapply NoDup_fst_inj|by eapply NoDup_snd_inj]. }
  clear Hin H1 H2 Hi. induction (LRUlist r) as [|[m g] l IH]; [done|].
  rewrite filter_cons, fmap_cons, filter_cons. simpl.
  assert (m ≠ n ↔ g ≠ f) as E by (rewrite (Hk m g); [done|constructor]).
  specialize (IH (λ m' g' Hm', Hk m' g' (list_elem_of_further _ _ _ Hm'))).
  destruct (decide (m ≠ n)), (decide (g ≠ f)); try (exfalso; tauto); [|exact IH].
  rewrite fmap_cons. f_equal. exact IH.
Qed.

Lemma elem_spec_pin f g l : g ∈ spec_pin f l ↔ g ∈ l ∧ g ≠ f.
Proof. unfold spec_pin. rewrite list_elem_of_filter. naive_solver. Qed.

Lemma removelast_elem r n f : lru_inv r → last (LRUlist r) = Some (n, f) →
  (∀ m g, (m, g) ∈ removelast (LRUlist r) ↔ (m, g) ∈ LRUlist r ∧ g ≠ f) ∧
  NoDup (removelast (LRUlist r)).*1 ∧ NoDup (removelast (LRUlist r)).*2.
Proof.
  intros Hi Hl%last_snoc_inv. pose proof (inv_frames r Hi) as H2.
  pose proof (inv_ids r Hi) as H1. rewrite Hl in H1. rewrite Hl in H2. rewrite fmap_app in H1. rewrite fmap_app in H2.
  assert (∀ p, p ∈ LRUlist r ↔ p ∈ removelast (LRUlist r) ∨ p = (n, f)) as Hel.
  { intros p. rewrite Hl at 1. by rewrite elem_of_app, list_elem_of_singleton. }
  apply NoDup_app in H1 as (? & _ & _). apply NoDup_app in H2 as (? & Hd & _).
  split; [|done]. intros m g. rewrite Hel. split.
  - intros Hm. split; [by left|]. intros ->. apply (Hd f); [|set_solver].
    apply list_elem_of_fmap. by exists (m, f).
  - intros [[Hm|Hm] Hg]; [done|]. naive_solver.
Qed.

Lemma victim_inv r f r' : lru_inv r → lru_victim r = (Some f, r') → lru_inv r'.
Proof.
  intros Hi. unfold lru_victim. destruct (last (LRUlist r)) as [[n g]|] eqn:El; [|done].
  intros [= <- <-]. destruct (removelast_elem r n g Hi El) as (He & H1 & H2).
  pose proof (last_snoc_inv _ _ El) as Hl. apply (f_equal length) in Hl.
  destruct Hi as [_ _ Hh Hf Hc]. rewrite length_app in Hl. simpl in Hl.
  split; simpl; try done; [..|lia].
  - intros k m. rewrite lookup_delete_Some, He, Hh. naive_solver.
  - intros m k Hm. apply He in Hm as [Hm _]. eauto.
Qed.

Lemma pin_inv f r : lru_inv r → lru_inv (lru_pin f r).
Proof.
  intros Hi. unfold lru_pin. destruct (LRUhash r !! f) as [n|] eqn:Eh; [|done].
  pose proof (proj1 (inv_hash r Hi f n) Eh) as Hin.
  assert (∀ m g, (m, g) ∈ erase_node n (LRUlist r) ↔ (m, g) ∈ LRUlist r ∧ m ≠ n) as He.
  { intros m g. unfold erase_node. rewrite list_elem_of_filter. simpl. naive_solver. }
  pose proof (erase_node_frames r n f Hi Hin) as Ef.
  destruct Hi as [H1 H2 Hh Hf Hc]. split; simpl.
  - unfold erase_node. clear -H1. induction (LRUlist r) as [|[m g] l IH]; [done|].
    rewrite filter_cons. simpl in *. apply NoDup_cons in H1 as [Hm H1].
    case_decide; [|auto]. simpl. apply NoDup_cons. split; [|auto].
    intros (p & Ep & [_ Hp]%list_elem_of_filter)%list_elem_of_fmap.
    apply Hm, list_elem_of_fmap. eauto.
  - rewrite Ef. apply NoDup_filter. done.
  - intros g m. rewrite lookup_delete_Some, He, Hh. split; intros [Ha Hb]; split; try done.
    + intros ->. apply Ha. eapply NoDup_fst_inj; [exact H1|exact Hin|done].
    + intros <-. apply Hb. eapply NoDup_snd_inj; [exact H2|done..].
  - intros m g [Hm _]%He. eauto.
  - pose proof (length_filter (λ p : nat * Z, p.1 ≠ n) (LRUlist r)). unfold erase_node. lia.
Qed.

Lemma unpin_inv f r : lru_inv r → lru_inv (lru_unpin f r).
Proof.
  intros Hi. unfold lru_unpin. case_if; [done|]. bool_prop.
  assert (f ∉ frames r) as Hnf by by rewrite <- hash_frames.
  destruct Hi as [H1 H2 Hh Hf Hc]. split; simpl; [| | | |lia].
  - apply NoDup_cons. split; [|done].
    intros ([n g] & En & Hn)%list_elem_of_fmap. simpl in En. apply Hf in Hn. lia.
  - apply NoDup_cons. done.
  - intros g n. rewrite lookup_insert_Some, elem_of_cons, Hh. split.
    + intros [[-> ->]|[Hg Hn]]; [by left|by right].
    + intros [Hn|Hn]; [left; naive_solver|]. right. split; [|done].
      intros ->. apply Hnf, elem_frames. eauto.
  - intros n g [Hn|Hn]%elem_of_cons; [naive_solver lia|]. apply Hf in Hn. lia.
Qed.

(** The concrete operations compute the abstract ones on the recency list. *)
Lemma victim_refines r : lru_inv r →
  spec_victim (frames r) = ((lru_victim r).1, frames (lru_victim r).2).
Proof.
  intros Hi. unfold spec_victim, lru_victim, frames. rewrite fmap_last.
  destruct (last (LRUlist r)) as [[n f]|] eqn:El; simpl; [|done].
  by rewrite fmap_removelast.
Qed.

Lemma pin_refines f r : lru_inv r → frames (lru_pin f r) = spec_pin f (frames r).
Proof.
  intros Hi. unfold lru_pin. destruct (LRUhash r !! f) as [n|] eqn:Eh.
  - apply erase_node_frames; [done|]. by apply inv_hash.
  - unfold spec_pin. symmetry. apply filter_all. intros g Hg ->.
    assert (is_Some (LRUhash r !! f)) as [? Hs]; [|by rewrite Eh in Hs].
    by apply hash_frames.
Qed.

Lemma unpin_refines f r : lru_inv r → frames (lru_unpin f r) = spec_unpin (max_size r) f (frames r).
Proof.
  intros Hi. unfold lru_unpin, spec_unpin, frames. rewrite length_fmap.
  rewrite (bool_decide_ext (is_Some (LRUhash r !! f)) (f ∈ (LRUlist r).*2)) by by apply hash_frames.
  by case_if.
Qed.

#[global] Instance LRU_laws : ReplacerLaws LRUReplacer.
Proof.
  refine {| rep_inv := lru_inv; rep_frames := frames; rep_cap := max_size |}.
  - intros r Hi. apply Hi.
  - intros r Hi. unfold frames. simpl. unfold lru_size. by rewrite length_fmap.
  - intros r f r' Hi Hv. simpl in Hv. pose proof (victim_inv _ _ _ Hi Hv).
    unfold lru_victim in Hv. destruct (last (LRUlist r)) as [[n g]|] eqn:El; [|done].
    injection Hv as <- <-. destruct (removelast_elem r n g Hi El) as (He & _ & _).
    repeat split_and; try done.
    + apply elem_frames. exists n. by apply last_elem_of.
    + intros k. rewrite !elem_frames. simpl. setoid_rewrite He. naive_solver.
  - intros r r' Hi Hv. simpl in Hv. unfold lru_victim in Hv.
    destruct (last (LRUlist r)) as [[n g]|] eqn:El; [done|].
    apply last_None in El. unfold frames. rewrite El. naive_solver.
  - intros r f Hi. split; [by apply pin_inv|]. split; [unfold pin; simpl; unfold lru_pin; by case_match|].
    intros g. simpl. rewrite pin_refines by done. apply elem_spec_pin.
  - intros r f Hi Hlt. split; [by apply unpin_inv|].
    split; [simpl; unfold lru_unpin; by case_if|].
    intros g. simpl. rewrite unpin_refines by done. unfold spec_unpin.
    destruct (bool_decide_reflect (f ∈ frames r)) as [Hf|Hf]; simpl; [naive_solver|].
    destruct (Z.leb_spec (max_size r) (Z.of_nat (length (frames r)))); [simpl in *; lia|].
    rewrite elem_of_cons. naive_solver.
Defined.

(** ** Sequences of calls *)

Inductive lru_op := OpVictim | OpPin (f : Z) | OpUnpin (f : Z).

(** The replacer and the abstract policy run on a sequence of calls; both
    return the victims they handed out. *)
Fixpoint run_lru (ops : list lru_op) (r : LRUReplacer) : list (option Z) * LRUReplacer :=
  match ops with
  | [] => ([], r)
  | OpVictim :: ops' =>
      let '(o, r') := lru_victim r in
      let '(os, r'') := run_lru ops' r' in (o :: os, r'')
  | OpPin f :: ops' => run_lru ops' (lru_pin f r)
  | OpUnpin f :: ops' => run_lru ops' (lru_unpin f r)
  end.

Fixpoint run_spec (cap : Z) (ops : list lru_op) (l : list Z) : list (option Z) * list Z :=
  match ops with
  | [] => ([], l)
  | OpVictim :: ops' =>
      let '(o, l') := spec_victim l in
      let '(os, l'') := run_spec cap ops' l' in (o :: os, l'')
  | OpPin f :: ops' => run_spec cap ops' (spec_pin f l)
  | OpUnpin f :: ops' => run_spec cap ops' (spec_unpin cap f l)
  end.

Lemma run_lru_refines ops r : lru_inv r →
  let '(os, r') := run_lru ops r in
  lru_inv r' ∧ run_spec (max_size r) ops (frames r) = (os, frames r').
Proof.
  revert r. induction ops as [|[|f|f] ops IH]; intros r Hi; simpl; [done|..].
  - pose proof (victim_refines r Hi) as E. destruct (lru_victim r) as [o r1] eqn:Ev.
    assert (lru_inv r1 ∧ max_size r1 = max_size r) as [Hi1 Hm].
    { destruct o; [split; [by eapply victim_inv|]|]; unfold lru_victim in Ev; by repeat case_match; simplify_eq. }
    specialize (IH r1 Hi1). destruct (run_lru ops r1) as [os r2]. rewrite Hm in IH.
    destruct IH as [Hi2 IH]. split; [done|]. simpl in E. rewrite E. by rewrite IH.
  - specialize (IH (lru_pin f r) (pin_inv f r Hi)). rewrite pin_refines in IH by done.
    assert (max_size (lru_pin f r) = max_size r) as E by (unfold lru_pin; by destruct (LRUhash r !! f)). rewrite E in IH. exact IH.
  - specialize (IH (lru_unpin f r) (unpin_inv f r Hi)). rewrite unpin_refines in IH by done.
    assert (max_size (lru_unpin f r) = max_size r) as E by (unfold lru_unpin; by case_if). rewrite E in IH. exact IH.
Qed.

(** C24: the hash-indexed list of LRUReplacer implements the least-recently-
    unpinned policy.  On any sequence of victim, pin and unpin calls from a fresh
    replacer of capacity n it hands out the victims of the abstract recency
    list, and ends with the same evictable frames in the same order. *)
Theorem lru_implements_policy n ops (Hn : 0 ≤ n) :
  let '(os, r) := run_lru ops (init n) in run_spec n ops [] = (os, frames r).
Proof.
  pose proof (run_lru_refines ops (init n) (init_inv n Hn)) as E.
  destruct (run_lru ops (init n)) as [os r]. by destruct E.
Qed.

Lemma lru_implements_policy_witness :
  run_spec 3 [OpUnpin 1; OpUnpin 2; OpUnpin 1; OpUnpin 3; OpPin 2; OpVictim; OpVictim; OpVictim] [] =
  ([Some 1; Some 3; None], []).
Proof.
  exact (lru_implements_policy 3
    [OpUnpin 1; OpUnpin 2; OpUnpin 1; OpUnpin 3; OpPin 2; OpVictim; OpVictim; OpVictim] ltac:(lia)).
Defined.

End LRU.
