(* ===== verification/Posix.v ===== *)
(** * The operating system's files, as an interface

    src/src/storage/disk_manager.cpp calls stat, open, close, unlink, lseek,
    read, write and system.  Those are not part of the repository: [Posix]
    lists them as operations of an unspecified operating-system state, and
    [PosixLaws] states the documented behaviour the disk manager relies on.
    [MemFS] is an in-memory file system that satisfies the laws; it makes the
    models that use the interface executable and shows that the laws can hold. *)

From S2P Require Import Prelude.

(** Writing [bs] at offset [pos] of a file with contents [c]; a gap between
    the end of the file and [pos] reads as zeros.  Writing nothing does not
    extend the file. *)
Definition file_write (c : list Z) (pos : nat) (bs : list Z) : list Z :=
  match bs with
  | [] => c
  | _ => splice pos bs (c ++ replicate (pos - length c) 0)
  end.

Class Posix (OS : Type) := {
  os_is_reg : OS → string → bool;             (** stat(p) == 0 && S_ISREG *)
  os_is_dir : OS → string → bool;             (** stat(p) == 0 && S_ISDIR *)
  os_size : OS → string → Z;                  (** st_size, or -1 when stat fails *)
  os_open : string → OS → option Z * OS;      (** open(p, O_RDWR); None is -1 *)
  os_creat : string → OS → option Z * OS;     (** open(p, O_RDWR|O_CREAT|O_EXCL, 0644) *)
  os_close : Z → OS → bool * OS;
  os_unlink : string → OS → bool * OS;
  os_lseek : Z → Z → OS → bool * OS;          (** lseek(fd, off, SEEK_SET); false is -1 *)
  os_lseek_end : Z → OS → bool * OS;          (** lseek(fd, 0, SEEK_END) *)
  os_read : Z → nat → OS → list Z * OS;       (** the bytes read *)
  os_write : Z → list Z → OS → Z * OS;        (** the number of bytes written *)
  os_system : string → OS → Z * OS            (** system(cmd) *)
}.

Class PosixLaws (OS : Type) `{Posix OS} := {
  os_name : OS → string → option nat;         (** directory: path to inode *)
  os_ino : OS → Z → option nat;               (** open descriptor to inode *)
  os_data : OS → nat → list Z;                (** contents of an inode *)
  os_pos : OS → Z → Z;                        (** file offset of a descriptor *)
  os_reg_name o p : os_is_reg o p = true → is_Some (os_name o p);
  os_size_name o p i : os_name o p = Some i → os_size o p = Z.of_nat (length (os_data o i));
  os_open_ok o p fd o' : os_open p o = (Some fd, o') →
    0 ≤ fd ∧ os_ino o fd = None ∧ is_Some (os_name o p) ∧ os_ino o' fd = os_name o p ∧
    (∀ g, g ≠ fd → os_ino o' g = os_ino o g) ∧
    (∀ q, os_name o' q = os_name o q) ∧ (∀ i, os_data o' i = os_data o i);
  os_open_fail o p o' : os_open p o = (None, o') → o' = o;
  os_creat_ok o p fd o' : os_creat p o = (Some fd, o') →
    0 ≤ fd ∧ os_name o p = None ∧ os_ino o fd = None ∧
    (∃ i, os_name o' p = Some i ∧ os_ino o' fd = Some i ∧ os_data o' i = [] ∧
      (∀ q, os_name o q ≠ Some i) ∧ (∀ g, os_ino o g ≠ Some i) ∧
      (∀ j, j ≠ i → os_data o' j = os_data o j)) ∧
    (∀ g, g ≠ fd → os_ino o' g = os_ino o g) ∧ (∀ q, q ≠ p → os_name o' q = os_name o q);
  os_creat_fail o p o' : os_creat p o = (None, o') → o' = o;
  os_unlink_ok o p b o' : os_unlink p o = (b, o') →
    (b = true → os_name o' p = None) ∧ (b = false → o' = o) ∧
    (∀ q, q ≠ p → os_name o' q = os_name o q) ∧
    (∀ g, os_ino o' g = os_ino o g) ∧ (∀ i, os_data o' i = os_data o i);
  os_close_ok o fd b o' : os_close fd o = (b, o') →
    (b = true → os_ino o' fd = None) ∧ (∀ g, g ≠ fd → os_ino o' g = os_ino o g) ∧
    (∀ q, os_name o' q = os_name o q) ∧ (∀ i, os_data o' i = os_data o i);
  os_lseek_ok o fd off b o' : os_lseek fd off o = (b, o') →
    (is_Some (os_ino o fd) → 0 ≤ off → b = true) ∧ (b = true → os_pos o' fd = off ∧ 0 ≤ off) ∧
    (∀ g, os_ino o' g = os_ino o g) ∧
    (∀ q, os_name o' q = os_name o q) ∧ (∀ i, os_data o' i = os_data o i);
  os_lseek_end_ok o fd b o' : os_lseek_end fd o = (b, o') →
    (∀ i, os_ino o fd = Some i → os_pos o' fd = Z.of_nat (length (os_data o i))) ∧
    (∀ g, os_ino o' g = os_ino o g) ∧
    (∀ q, os_name o' q = os_name o q) ∧ (∀ j, os_data o' j = os_data o j);
  os_read_ok o fd n bs o' : os_read fd n o = (bs, o') →
    (∀ i, os_ino o fd = Some i → bs = read_at (Z.to_nat (os_pos o fd)) n (os_data o i)) ∧
    (∀ g, os_ino o' g = os_ino o g) ∧
    (∀ q, os_name o' q = os_name o q) ∧ (∀ j, os_data o' j = os_data o j);
  (** A write may transfer only a prefix of its bytes; -1 is an error. *)
  os_write_ok o fd bs k o' i : os_ino o fd = Some i → os_write fd bs o = (k, o') →
    (k = -1 ∨ 0 ≤ k ≤ Z.of_nat (length bs)) ∧
    os_data o' i = file_write (os_data o i) (Z.to_nat (os_pos o fd)) (take (Z.to_nat k) bs) ∧
    (∀ j, j ≠ i → os_data o' j = os_data o j) ∧
    (∀ g, os_ino o' g = os_ino o g) ∧ (∀ q, os_name o' q = os_name o q);
  (** [os_live]: the device works and has room, so that writes are complete. *)
  os_live : OS → Prop;
  os_lseek_live o fd off b o' : os_lseek fd off o = (b, o') → os_live o → os_live o';
  os_lseek_end_live o fd b o' : os_lseek_end fd o = (b, o') → os_live o → os_live o';
  os_read_live o fd n bs o' : os_read fd n o = (bs, o') → os_live o → os_live o';
  os_write_live o fd bs k o' : is_Some (os_ino o fd) → os_write fd bs o = (k, o') → os_live o →
    os_live o' ∧ k = Z.of_nat (length bs)
}.

Lemma file_write_splice c pos bs :
  bs ≠ [] → file_write c pos bs = splice pos bs (c ++ replicate (pos - length c) 0).
Proof. by destruct bs. Qed.

Lemma length_file_write c pos bs :
  bs ≠ [] → length (file_write c pos bs) = Nat.max (length c) (pos + length bs).
Proof. intros. rewrite file_write_splice by done. unfold splice. len. Qed.

Lemma length_file_write_le c pos bs : (length c ≤ length (file_write c pos bs))%nat.
Proof.
  destruct (decide (bs = [])) as [->|?]; [done|]. rewrite length_file_write by done. lia.
Qed.

Lemma read_file_write c pos bs : read_at pos (length bs) (file_write c pos bs) = bs.
Proof.
  destruct (decide (bs = [])) as [->|?]; [done|].
  rewrite file_write_splice by done. apply read_splice_eq. len.
Qed.

Lemma read_file_write_ne c pos bs off n :
  apart pos (length bs) off n → (off + n ≤ length c)%nat →
  read_at off n (file_write c pos bs) = read_at off n c.
Proof.
  intros Hap Hl. destruct (decide (bs = [])) as [->|?]; [done|].
  rewrite file_write_splice by done. rewrite read_splice_ne; [|len|done].
  unfold read_at. rewrite drop_app_le by lia. rewrite take_app_le; [done|len].
Qed.

Module MemFS.

Record fs := mkFS {
  names : gmap string nat;
  inodes : gmap nat (list Z);
  fds : gmap Z (nat * Z);
  dirs : gset string
}.

Definition empty_fs : fs := mkFS ∅ ∅ ∅ ∅.

Definition fs_data (o : fs) (i : nat) : list Z := default [] (inodes o !! i).

Definition fresh_fd (o : fs) : Z := Z.of_nat (fresh ((Z.to_nat <$> elements (dom (fds o))))).

Definition fresh_ino (o : fs) : nat :=
  fresh (elements (dom (inodes o)) ++ (map_to_list (names o)).*2 ++ ((map_to_list (fds o)).*2).*1).

Definition fs_open (p : string) (o : fs) : option Z * fs :=
  match names o !! p with
  | None => (None, o)
  | Some i =>
      let fd := fresh_fd o in
      (Some fd, mkFS (names o) (inodes o) (<[fd := (i, 0)]> (fds o)) (dirs o))
  end.

Definition fs_creat (p : string) (o : fs) : option Z * fs :=
  match names o !! p with
  | Some _ => (None, o)
  | None =>
      let i := fresh_ino o in
      let fd := fresh_fd o in
      (Some fd, mkFS (<[p := i]> (names o)) (<[i := []]> (inodes o))
                     (<[fd := (i, 0)]> (fds o)) (dirs o))
  end.

Definition fs_close (fd : Z) (o : fs) : bool * fs :=
  match fds o !! fd with
  | None => (false, o)
  | Some _ => (true, mkFS (names o) (inodes o) (delete fd (fds o)) (dirs o))
  end.

Definition fs_unlink (p : string) (o : fs) : bool * fs :=
  match names o !! p with
  | None => (false, o)
  | Some _ => (true, mkFS (delete p (names o)) (inodes o) (fds o) (dirs o))
  end.

Definition fs_lseek (fd off : Z) (o : fs) : bool * fs :=
  match fds o !! fd with
  | Some (i, _) =>
      if 0 <=? off
      then (true, mkFS (names o) (inodes o) (<[fd := (i, off)]> (fds o)) (dirs o))
      else (false, o)
  | None => (false, o)
  end.

Definition fs_lseek_end (fd : Z) (o : fs) : bool * fs :=
  match fds o !! fd with
  | Some (i, _) =>
      (true, mkFS (names o) (inodes o)
               (<[fd := (i, Z.of_nat (length (fs_data o i)))]> (fds o)) (dirs o))
  | None => (false, o)
  end.

Definition fs_read (fd : Z) (n : nat) (o : fs) : list Z * fs :=
  match fds o !! fd with
  | Some (i, pos) =>
      let bs := read_at (Z.to_nat pos) n (fs_data o i) in
      (bs, mkFS (names o) (inodes o) (<[fd := (i, pos + Z.of_nat (length bs))]> (fds o)) (dirs o))
  | None => ([], o)
  end.

Definition fs_write (fd : Z) (bs : list Z) (o : fs) : Z * fs :=
  match fds o !! fd with
  | Some (i, pos) =>
      (Z.of_nat (length bs),
       mkFS (names o) (<[i := file_write (fs_data o i) (Z.to_nat pos) bs]> (inodes o))
            (<[fd := (i, pos + Z.of_nat (length bs))]> (fds o)) (dirs o))
  | None => (-1, o)
  end.

#[global] Instance MemFS_Posix : Posix fs := {
  os_is_reg o p := bool_decide (is_Some (names o !! p));
  os_is_dir o p := bool_decide (p ∈ dirs o);
  os_size o p := match names o !! p with
                 | Some i => Z.of_nat (length (fs_data o i)) | None => -1 end;
  os_open := fs_open; os_creat := fs_creat; os_close := fs_close; os_unlink := fs_unlink;
  os_lseek := fs_lseek; os_lseek_end := fs_lseek_end; os_read := fs_read; os_write := fs_write;
  os_system _ o := (0, o)
}.

Lemma fresh_fd_spec o : 0 ≤ fresh_fd o ∧ fds o !! fresh_fd o = None.
Proof.
  split; [unfold fresh_fd; lia|]. apply not_elem_of_dom. intros Hin.
  apply elem_of_elements in Hin. unfold fresh_fd in Hin.
  apply (infinite_is_fresh (Z.to_nat <$> elements (dom (fds o)))). apply list_elem_of_fmap.
  eexists. split; [|exact Hin]. by rewrite Nat2Z.id.
Qed.

Lemma fresh_ino_spec o :
  (∀ q, names o !! q ≠ Some (fresh_ino o)) ∧ (∀ g p, fds o !! g ≠ Some (fresh_ino o, p)).
Proof.
  pose proof (infinite_is_fresh
    (elements (dom (inodes o)) ++ (map_to_list (names o)).*2 ++ ((map_to_list (fds o)).*2).*1)) as Hf.
  fold (fresh_ino o) in Hf. rewrite !elem_of_app in Hf. split.
  - intros q Hq. apply Hf. right; left. apply list_elem_of_fmap.
    exists (q, fresh_ino o). split; [done|]. by apply elem_of_map_to_list.
  - intros g p Hg. apply Hf. right; right. apply list_elem_of_fmap.
    exists (fresh_ino o, p). split; [done|]. apply list_elem_of_fmap.
    exists (g, (fresh_ino o, p)). split; [done|]. by apply elem_of_map_to_list.
Qed.

Definition fs_ino (o : fs) (fd : Z) : option nat := fst <$> fds o !! fd.
Definition fs_pos (o : fs) (fd : Z) : Z := default 0 (snd <$> fds o !! fd).

Lemma fs_ino_set n i d fd ino pos dr g :
  fs_ino (mkFS n i (<[fd := (ino, pos)]> d) dr) g =
  if decide (fd = g) then Some ino else fst <$> d !! g.
Proof. unfold fs_ino. simpl. rewrite lookup_insert. by case_decide. Qed.

Lemma fs_ino_same n i (o : fs) fd ino p pos dr g :
  fds o !! fd = Some (ino, p) → fs_ino (mkFS n i (<[fd := (ino, pos)]> (fds o)) dr) g = fs_ino o g.
Proof. intros H. rewrite fs_ino_set. case_decide as E; [subst; unfold fs_ino; by rewrite H|done]. Qed.

#[global] Instance MemFS_laws : PosixLaws fs.
Proof.
  refine {| os_name o p := names o !! p; os_ino := fs_ino; os_data := fs_data; os_pos := fs_pos;
            os_live _ := True |}.
  - intros o p H. by apply bool_decide_eq_true in H.
  - intros o p i H. simpl. by rewrite H.
  - intros o p fd o' H. simpl in H. unfold fs_open in H. destruct (fresh_fd_spec o) as [H0 Hn].
    destruct (names o !! p) as [i|] eqn:Ep; [|done]. injection H as <- <-.
    split; [done|]. split; [unfold fs_ino; by rewrite Hn|]. split; [eauto|].
    split; [by rewrite fs_ino_set, decide_True|].
    split; [|done]. intros g Hg. rewrite fs_ino_set, decide_False by done. done.
  - intros o p o' H. simpl in H. unfold fs_open in H. by case_match; simplify_eq.
  - intros o p fd o' H. simpl in H. unfold fs_creat in H. destruct (fresh_fd_spec o) as [H0 Hn].
    destruct (fresh_ino_spec o) as [Hi Hj].
    destruct (names o !! p) as [i|] eqn:Ep; [done|]. injection H as <- <-.
    split; [done|]. split; [done|]. split; [unfold fs_ino; by rewrite Hn|]. split.
    + exists (fresh_ino o). simpl. rewrite lookup_insert_eq, fs_ino_set, decide_True by done.
      unfold fs_data. simpl. rewrite lookup_insert_eq. split_and!; try done.
      * intros g Hg. unfold fs_ino in Hg. apply fmap_Some in Hg as ([i q] & Hg & E).
        simpl in E. subst. by apply Hj in Hg.
      * intros j Hne. by rewrite lookup_insert_ne.
    + split; [|intros q Hq; simpl; by rewrite lookup_insert_ne].
      intros g Hg. rewrite fs_ino_set, decide_False by done. done.
  - intros o p o' H. simpl in H. unfold fs_creat in H. by case_match; simplify_eq.
  - intros o p b o' H. simpl in H. unfold fs_unlink in H. case_match; simplify_eq; simpl.
    + split_and!; try done; [intros _; apply lookup_delete_eq|].
      intros q Hq. by rewrite lookup_delete_ne.
    + split_and!; done.
  - intros o fd b o' H. simpl in H. unfold fs_close in H. case_match; simplify_eq; simpl.
    + split_and!; try done; unfold fs_ino; simpl; [intros _; by rewrite lookup_delete_eq|].
      intros g Hg. by rewrite lookup_delete_ne.
    + split_and!; done.
  - intros o fd off b o' H. simpl in H. unfold fs_lseek in H.
    destruct (fds o !! fd) as [[i q]|] eqn:E; [destruct (Z.leb_spec 0 off)|]; simplify_eq.
    + split_and!; try done; [|intros; by eapply fs_ino_same].
      intros _. unfold fs_pos. simpl. rewrite lookup_insert_eq. done.
    + split_and!; try done. lia.
    + split_and!; try done. unfold fs_ino. rewrite E. by intros [? ?].
  - intros o fd b o' H. simpl in H. unfold fs_lseek_end in H. unfold fs_ino at 1.
    destruct (fds o !! fd) as [[i' q]|] eqn:E; simplify_eq/=; [|by split_and!].
    split_and!; try done; [|intros; by eapply fs_ino_same].
    intros i Hi. simplify_eq. unfold fs_pos. simpl. by rewrite lookup_insert_eq.
  - intros o fd n bs o' H. simpl in H. unfold fs_read in H. unfold fs_ino at 1, fs_pos.
    destruct (fds o !! fd) as [[i' q]|] eqn:E; simplify_eq/=; [|by split_and!].
    split_and!; try done; [|intros; by eapply fs_ino_same].
    intros i Hi. by simplify_eq.
  - intros o fd bs k o' i Hi H. simpl in H. unfold fs_write in H. unfold fs_ino in Hi.
    destruct (fds o !! fd) as [[i' q]|] eqn:E; simplify_eq/=.
    split; [lia|]. split_and!; try done; [| |intros; by eapply fs_ino_same].
    + unfold fs_data at 1, fs_pos. simpl. rewrite lookup_insert_eq, E, Nat2Z.id, firstn_all. done.
    + intros j Hj. unfold fs_data. simpl. by rewrite lookup_insert_ne.
  - done.
  - done.
  - done.
  - intros o fd bs k o' [i Hi] H _. simpl in H. unfold fs_write in H. unfold fs_ino in Hi.
    destruct (fds o !! fd) as [[i' q]|]; [|done]. by injection H as <- _.
Defined.

End MemFS.
