(* ===== verification/DiskManager.v ===== *)
(** * Disk manager (src/src/storage/disk_manager.{h,cpp})

    [DiskManager] is the class's state: the two hash tables between paths and
    descriptors, the log descriptor, the per-descriptor page counters, and the
    operating system underneath.  Every public method is one definition in the
    state monad.  [DiskLike]/[DiskLaws] is the part of it the buffer pool uses
    (read_page, write_page and allocate_page) and what it promises; the
    instance at the end of the file discharges the laws from [PosixLaws]. *)

From S2P Require Import Prelude Defs Posix.

(** What the buffer pool, and its clients through it, ask of a disk.  [disk_read] returns the bytes that
    reached the caller's buffer together with the outcome of the call. *)
Class DiskLike (D : Type) := {
  disk_read : PageId → D → (list Z * outcome unit) * D;
  disk_write : PageId → list Z → ST D unit;
  disk_allocate : Z → ST D Z;
  disk_file_name : Z → D → outcome string
}.

(** [disk_page d p] is the page stored under [p]; it is [None] when the file
    is not open or too short.  [page_le m m'] says that m' keeps every page of m. *)
Definition page_le (m m' : PageId → option (list Z)) : Prop :=
  ∀ p bs, m p = Some bs → m' p = Some bs.

Definition page_le_but (p : PageId) (m m' : PageId → option (list Z)) : Prop :=
  ∀ q bs, q ≠ p → m q = Some bs → m' q = Some bs.

#[export] Instance page_le_preorder : PreOrder page_le.
Proof. split; [by intros ???|]. intros m1 m2 m3 H1 H2 p bs H. auto. Qed.

Class DiskLaws (D : Type) `{DiskLike D} := {
  disk_wf : D → Prop;
  disk_open : D → Z → Prop;
  disk_page : D → PageId → option (list Z);
  disk_page_len d p bs : disk_page d p = Some bs → Z.of_nat (length bs) = PAGE_SIZE;
  disk_write_ok d p bs r d' :
    disk_wf d → disk_open d (pid_fd p) → Z.of_nat (length bs) = PAGE_SIZE →
    disk_write p bs d = (r, d') →
    disk_wf d' ∧ (∀ g, disk_open d' g ↔ disk_open d g) ∧
    page_le_but p (disk_page d) (disk_page d') ∧
    (r = Ret tt → disk_page d' p = Some bs);
  disk_read_ok d p bs r d' :
    disk_wf d → disk_open d (pid_fd p) → disk_read p d = ((bs, r), d') →
    disk_wf d' ∧ (∀ g, disk_open d' g ↔ disk_open d g) ∧ page_le (disk_page d) (disk_page d') ∧
    (r = Ret tt → disk_page d p = Some bs) ∧
    (∀ bs', disk_page d p = Some bs' → r = Ret tt) ∧
    (length bs ≤ Z.to_nat PAGE_SIZE)%nat;
  disk_allocate_ok d fd r d' :
    disk_wf d → disk_allocate fd d = (r, d') →
    disk_wf d' ∧ (∀ g, disk_open d' g ↔ disk_open d g) ∧ page_le (disk_page d) (disk_page d');
  (** the number the next page allocated in a file will have *)
  disk_next : D → Z → Z;
  disk_write_next d p bs r d' :
    disk_write p bs d = (r, d') → ∀ g, disk_next d' g = disk_next d g;
  disk_read_next d p x d' : disk_read p d = (x, d') → ∀ g, disk_next d' g = disk_next d g;
  disk_allocate_next d fd n d' : disk_allocate fd d = (Ret n, d') →
    n = disk_next d fd ∧ (0 ≤ n < int32_max → disk_next d' fd = n + 1) ∧
    ∀ g, g ≠ fd → disk_next d' g = disk_next d g;
  (** on a disk that works, writes to open files and allocations return *)
  disk_live : D → Prop;
  disk_write_live d p bs r d' :
    disk_wf d → disk_open d (pid_fd p) → 0 ≤ pid_no p → disk_live d → disk_write p bs d = (r, d') →
    disk_live d' ∧ r = Ret tt;
  disk_read_live d p x d' : disk_live d → disk_read p d = (x, d') → disk_live d';
  disk_allocate_live d fd r d' :
    disk_open d fd → disk_live d → disk_allocate fd d = (r, d') → disk_live d' ∧ ∃ n, r = Ret n;
  (** the bytes of a file, by path; they change only by writes to its pages *)
  disk_bytes : D → string → list Z;
  disk_write_bytes d p bs r d' :
    disk_wf d → disk_open d (pid_fd p) → disk_write p bs d = (r, d') →
    (∀ g, disk_file_name g d' = disk_file_name g d) ∧
    ∀ path, disk_file_name (pid_fd p) d ≠ Ret path → disk_bytes d' path = disk_bytes d path;
  disk_read_bytes d p x d' : disk_wf d → disk_open d (pid_fd p) → disk_read p d = (x, d') →
    (∀ g, disk_file_name g d' = disk_file_name g d) ∧ ∀ path, disk_bytes d' path = disk_bytes d path;
  disk_allocate_bytes d fd r d' : disk_allocate fd d = (r, d') →
    (∀ g, disk_file_name g d' = disk_file_name g d) ∧ ∀ path, disk_bytes d' path = disk_bytes d path
}.

Section DiskManager.
Context {OS : Type} `{Posix OS}.

(** class DiskManager: fd2pageno_ is an array of MAX_FD counters, all 0 at
    construction. *)
Record DiskManager := mkDM {
  path2fd : gmap string Z;
  fd2path : gmap Z string;
  log_fd : Z;
  fd2pageno : gmap Z Z;
  os : OS
}.

Definition MAX_FD : Z := 8192.

Definition dm_init (o : OS) : DiskManager := mkDM ∅ ∅ (-1) ∅ o.

Definition set_os (d : DiskManager) (o : OS) : DiskManager :=
  mkDM (path2fd d) (fd2path d) (log_fd d) (fd2pageno d) o.

(** A system call. *)
Definition sys {A} (f : OS → A * OS) : ST DiskManager A :=
  λ d, let '(a, o) := f (os d) in (Ret a, set_os d o).

Definition write_page (fd page_no : Z) (offset : list Z) : ST DiskManager unit :=
  ok ← sys (os_lseek fd (page_no * PAGE_SIZE));
  if negb ok then throw UnixError else
  bytes_write ← sys (os_write fd offset);
  if negb (bytes_write =? Z.of_nat (length offset))
  then throw (InternalError "DiskManager::write_page Error") else mret tt.

(** The bytes read are delivered even when their number makes the call throw. *)
Definition read_page (fd page_no num_bytes : Z) (d : DiskManager)
    : (list Z * outcome unit) * DiskManager :=
  let '(ok, o) := os_lseek fd (page_no * PAGE_SIZE) (os d) in
  if negb ok then (([], Throw UnixError), set_os d o) else
  let '(bytes, o') := os_read fd (Z.to_nat num_bytes) o in
  ((bytes, if negb (Z.of_nat (length bytes) =? num_bytes)
           then Throw (InternalError "DiskManager::read_page Error") else Ret tt), set_os d o').

Definition get_fd2pageno (fd : Z) (d : DiskManager) : Z := default 0 (fd2pageno d !! fd).

Definition set_fd2pageno (fd start_page_no : Z) : ST DiskManager unit :=
  modify_st (λ d, mkDM (path2fd d) (fd2path d) (log_fd d)
                       (<[fd := start_page_no]> (fd2pageno d)) (os d)).

(** The counter is a std::atomic<int32_t>: its increment wraps. *)
Definition allocate_page (fd : Z) : ST DiskManager Z :=
  assert_that ((0 <=? fd) && (fd <? MAX_FD)) ;;
  d ← get_st;
  let n := get_fd2pageno fd d in
  set_fd2pageno fd (wrap_s 32 (n + 1)) ;;
  mret n.

Definition deallocate_page (page_id : Z) : ST DiskManager unit := mret tt.

Definition is_dir (path : string) (d : DiskManager) : bool := os_is_dir (os d) path.

Definition create_dir (path : string) : ST DiskManager unit :=
  rc ← sys (os_system ("mkdir " +:+ path));
  if rc <? 0 then throw UnixError else mret tt.

Definition destroy_dir (path : string) : ST DiskManager unit :=
  rc ← sys (os_system ("rm -r " +:+ path));
  if rc <? 0 then throw UnixError else mret tt.

Definition is_file (path : string) (d : DiskManager) : bool := os_is_reg (os d) path.

(** [int] result of an [off_t] size *)
Definition get_file_size (file_name : string) (d : DiskManager) : Z :=
  wrap_s 32 (os_size (os d) file_name).

Definition create_file (path : string) : ST DiskManager unit :=
  d ← get_st;
  if is_file path d then throw (FileExistsError path) else
  fd ← sys (os_creat path);
  match fd with
  | None => throw UnixError
  | Some fd =>
      ok ← sys (os_close fd);
      if negb ok then throw UnixError else mret tt
  end.

Definition destroy_file (path : string) : ST DiskManager unit :=
  d ← get_st;
  if negb (is_file path d) then throw (FileNotFoundError path) else
  if bool_decide (is_Some (path2fd d !! path)) then throw (FileNotClosedError path) else
  ok ← sys (os_unlink path);
  if negb ok then throw UnixError else mret tt.

Definition open_file (path : string) : ST DiskManager Z :=
  d ← get_st;
  if negb (is_file path d) then throw (FileNotFoundError path) else
  match path2fd d !! path with
  | Some fd => mret fd
  | None =>
      r ← sys (os_open path);
      match r with
      | None => throw UnixError
      | Some fd =>
          modify_st (λ d, mkDM (<[path := fd]> (path2fd d)) (<[fd := path]> (fd2path d))
                               (log_fd d) (fd2pageno d) (os d)) ;;
          d ← get_st;
          set_fd2pageno fd (Z.quot (get_file_size path d + PAGE_SIZE - 1) PAGE_SIZE) ;;
          mret fd
      end
  end.

Definition close_file (fd : Z) : ST DiskManager unit :=
  d ← get_st;
  match fd2path d !! fd with
  | None => throw (FileNotOpenError fd)
  | Some path =>
      ok ← sys (os_close fd);
      if negb ok then throw UnixError else
      modify_st (λ d, mkDM (delete path (path2fd d)) (delete fd (fd2path d))
                           (if log_fd d =? fd then -1 else log_fd d) (fd2pageno d) (os d))
  end.

Definition get_file_name (fd : Z) : ST DiskManager string :=
  d ← get_st;
  match fd2path d !! fd with
  | None => throw (FileNotOpenError fd)
  | Some path => mret path
  end.

Definition get_file_fd (file_name : string) : ST DiskManager Z :=
  d ← get_st;
  match path2fd d !! file_name with
  | None => open_file file_name
  | Some fd => mret fd
  end.

Definition SetLogFd (fd : Z) : ST DiskManager unit :=
  modify_st (λ d, mkDM (path2fd d) (fd2path d) fd (fd2pageno d) (os d)).

Definition GetLogFd (d : DiskManager) : Z := log_fd d.

(** if (log_fd_ == -1) log_fd_ = open_file(LOG_FILE_NAME); *)
Definition ensure_log : ST DiskManager unit :=
  d ← get_st;
  if log_fd d =? -1 then fd ← open_file LOG_FILE_NAME; SetLogFd fd else mret tt.

(** Returns the number of bytes (or -1) and the bytes put in log_data. *)
Definition read_log (size offset : Z) : ST DiskManager (Z * list Z) :=
  ensure_log ;;
  d ← get_st;
  let file_size := get_file_size LOG_FILE_NAME d in
  if file_size <? offset then mret (-1, []) else
  let size := Z.min size (file_size - offset) in
  if size =? 0 then mret (0, []) else
  sys (os_lseek (log_fd d) offset) ;;
  bytes ← sys (os_read (log_fd d) (Z.to_nat size));
  assert_that (Z.of_nat (length bytes) =? size) ;;
  mret (Z.of_nat (length bytes), bytes).

Definition write_log (log_data : list Z) : ST DiskManager unit :=
  ensure_log ;;
  d ← get_st;
  sys (os_lseek_end (log_fd d)) ;;
  bytes_write ← sys (os_write (log_fd d) log_data);
  if negb (bytes_write =? Z.of_nat (length log_data)) then throw UnixError else mret tt.

End DiskManager.
Arguments DiskManager : clear implicits.
Arguments dm_init {OS} _.

(* ------------------------------------------------------------------ *)
(** ** Invariant and laws                                               *)
(* ------------------------------------------------------------------ *)

Section DiskManagerLaws.
Context {OS : Type} `{PosixLaws OS}.
Abbreviation DM := (DiskManager OS).
Implicit Types (d : DM) (o : OS).

(** The tables are inverse to each other, an open descriptor refers to the
    file its path names, no file has two names, and log_fd_ is the descriptor
    of the log file once it is set. *)
Record dm_inv d : Prop := {
  inv_tables p fd : path2fd d !! p = Some fd ↔ fd2path d !! fd = Some p;
  inv_ino fd p : fd2path d !! fd = Some p →
    0 ≤ fd ∧ is_Some (os_name (os d) p) ∧ os_ino (os d) fd = os_name (os d) p;
  inv_names p q i : os_name (os d) p = Some i → os_name (os d) q = Some i → p = q;
  inv_log : log_fd d ≠ -1 → fd2path d !! log_fd d = Some LOG_FILE_NAME
}.

Definition dm_open d (fd : Z) : Prop := is_Some (fd2path d !! fd).

Definition page_off (n : Z) : nat := Z.to_nat (n * PAGE_SIZE).

Definition dm_page d (p : PageId) : option (list Z) :=
  if bool_decide (dm_open d (pid_fd p)) && (0 <=? pid_no p) then
    match os_ino (os d) (pid_fd p) with
    | Some i =>
        let bs := read_at (page_off (pid_no p)) (Z.to_nat PAGE_SIZE) (os_data (os d) i) in
        if (length bs =? Z.to_nat PAGE_SIZE)%nat then Some bs else None
    | None => None
    end
  else None.

Lemma dm_page_Some d p bs :
  dm_page d p = Some bs ↔
  dm_open d (pid_fd p) ∧ 0 ≤ pid_no p ∧ length bs = Z.to_nat PAGE_SIZE ∧
  ∃ i, os_ino (os d) (pid_fd p) = Some i ∧
    bs = read_at (page_off (pid_no p)) (Z.to_nat PAGE_SIZE) (os_data (os d) i).
Proof.
  unfold dm_page. split.
  - intros E. destruct (bool_decide _ && _) eqn:Eb; [|done]. bool_prop.
    destruct (os_ino _ _) as [i|]; [|done]. case_match eqn:El; [|done]. simplify_eq.
    apply Nat.eqb_eq in El. naive_solver.
  - intros (Ho & Hn & Hl & i & Hi & ->). rewrite bool_decide_eq_true_2 by done.
    destruct (Z.leb_spec 0 (pid_no p)); [|lia]. simpl. rewrite Hi. apply Nat.eqb_eq in Hl.
    by rewrite Hl.
Qed.

Lemma dm_inv_inj d f g i :
  dm_inv d → dm_open d f → dm_open d g → os_ino (os d) f = Some i → os_ino (os d) g = Some i → f = g.
Proof.
  intros Hd [p Hp] [q Hq] Hf Hg.
  destruct (inv_ino d Hd f p Hp) as (_ & _ & Ep). destruct (inv_ino d Hd g q Hq) as (_ & _ & Eq).
  assert (p = q) as -> by (apply (inv_names d Hd p q i); congruence).
  apply (inv_tables d Hd) in Hp, Hq. congruence.
Qed.

(** Changing only file contents and offsets keeps the invariant. *)
Lemma dm_inv_os d o :
  dm_inv d → (∀ g, os_ino o g = os_ino (os d) g) → (∀ q, os_name o q = os_name (os d) q) →
  dm_inv (set_os d o).
Proof.
  intros Hd Hi Hn. split; simpl.
  - apply Hd.
  - intros fd p Hp. rewrite Hn, Hi. by apply Hd.
  - intros p q i. rewrite !Hn. apply Hd.
  - apply Hd.
Qed.

Lemma page_apart (m n : Z) (k : nat) : 0 ≤ m → 0 ≤ n → m ≠ n → (k ≤ Z.to_nat PAGE_SIZE)%nat →
  apart (page_off m) k (page_off n) (Z.to_nat PAGE_SIZE).
Proof. unfold apart, page_off, PAGE_SIZE. intros. lia. Qed.

Lemma write_page_spec d fd n bs r d' :
  dm_inv d → dm_open d fd → (length bs ≤ Z.to_nat PAGE_SIZE)%nat →
  write_page fd n bs d = (r, d') →
  dm_inv d' ∧ (∀ g, dm_open d' g ↔ dm_open d g) ∧
  page_le_but (mkPageId fd n) (dm_page d) (dm_page d') ∧
  (r = Ret tt → 0 ≤ n ∧ fd2path d' = fd2path d ∧ ∃ i, os_ino (os d') fd = Some i ∧
     read_at (page_off n) (length bs) (os_data (os d') i) = bs).
Proof.
  intros Hd Ho Hlen Hw. unfold write_page, sys, mbind, st_bind in Hw.
  destruct (os_lseek fd _ (os d)) as [ok o1] eqn:E1.
  apply os_lseek_ok in E1 as (_ & Hpos & Hi1 & Hn1 & Hd1).
  destruct Ho as [p Hp]. destruct (inv_ino d Hd fd p Hp) as (_ & [i Hi] & Hino).
  destruct ok; simpl in Hw.
  2:{ inv Hw. split_and!; [by apply dm_inv_os|done| |done].
      intros q bs' _ Hq. apply dm_page_Some in Hq as (? & ? & ? & j & Hj & ->).
      apply dm_page_Some. split_and!; try done. exists j. simpl. by rewrite Hi1, Hd1. }
  destruct (os_write fd bs o1) as [k o2] eqn:E2.
  destruct (Hpos eq_refl) as [Epos Hge].
  eapply os_write_ok in E2 as (Hk & Hw2 & Hoth & Hi2 & Hn2); [|rewrite Hi1, Hino; exact Hi].
  rewrite Epos, Hd1 in Hw2.
  assert (0 ≤ n) by (unfold PAGE_SIZE in Hge; lia).
  assert (dm_inv (set_os d o2)) as Hd2.
  { apply dm_inv_os; [done| |]; intros; [by rewrite Hi2, Hi1|by rewrite Hn2, Hn1]. }
  assert (page_le_but (mkPageId fd n) (dm_page d) (dm_page (set_os d o2))) as Hle.
  { intros q bs' Hne Hq. apply dm_page_Some in Hq as (Hoq & Hnq & Hlq & j & Hj & Ebs).
    apply dm_page_Some. split_and!; try done. exists j. simpl. split; [by rewrite Hi2, Hi1|].
    destruct (decide (j = i)) as [->|]; [|by rewrite Hoth, Hd1].
    assert (pid_fd q = fd) as Efd.
    { eapply dm_inv_inj; [exact Hd|done|by exists p|exact Hj|by rewrite Hino]. }
    rewrite Hw2. symmetry. rewrite Ebs. rewrite read_file_write_ne; [done| |].
    - apply page_apart; try done; [|rewrite length_take; lia].
      intros En. apply Hne. destruct q; simpl in *; by subst.
    - rewrite Ebs in Hlq. unfold read_at in Hlq. rewrite length_take, length_drop in Hlq.
      unfold PAGE_SIZE in *. lia. }
  destruct (Z.eqb_spec k (Z.of_nat (length bs))) as [->|]; simpl in Hw; inv Hw;
    (split; [done|]); (split; [done|]); (split; [done|]); [|done].
  intros _. split; [done|]. split; [done|]. exists i. simpl. split; [by rewrite Hi2, Hi1, Hino|].
  rewrite Nat2Z.id, firstn_all in Hw2. rewrite Hw2. apply read_file_write.
Qed.

Lemma dm_page_same d d' :
  fd2path d' = fd2path d → (∀ g, os_ino (os d') g = os_ino (os d) g) →
  (∀ i, os_data (os d') i = os_data (os d) i) → ∀ p, dm_page d' p = dm_page d p.
Proof. intros H1 H2 H3 p. unfold dm_page, dm_open. rewrite H1, H2. by destruct (os_ino _ _); rewrite ?H3. Qed.

Lemma read_page_spec d fd n bs r d' :
  dm_inv d → dm_open d fd → read_page fd n PAGE_SIZE d = ((bs, r), d') →
  dm_inv d' ∧ fd2path d' = fd2path d ∧ (∀ p, dm_page d' p = dm_page d p) ∧
  (r = Ret tt ↔ dm_page d (mkPageId fd n) = Some bs) ∧
  (∀ bs', dm_page d (mkPageId fd n) = Some bs' → r = Ret tt) ∧
  (length bs ≤ Z.to_nat PAGE_SIZE)%nat.
Proof.
  intros Hd [p Hp] Hr. destruct (inv_ino d Hd fd p Hp) as (_ & [i Hi] & Hino).
  unfold read_page in Hr. destruct (os_lseek fd _ (os d)) as [ok o1] eqn:E1.
  apply os_lseek_ok in E1 as (Hok & Hpos & Hi1 & Hn1 & Hd1).
  destruct ok; simpl in Hr.
  2:{ inv Hr. assert (∀ b, dm_page d (mkPageId fd n) ≠ Some b) as Hno.
      { intros b Hb. apply dm_page_Some in Hb as (_ & Hn & _). simpl in Hn.
        discriminate Hok; [by rewrite Hino, Hi|unfold PAGE_SIZE; lia]. }
      split_and!; [by apply dm_inv_os|done|by apply dm_page_same| | |simpl; lia].
      - split; [done|]. intros Hb. by apply Hno in Hb.
      - intros b Hb. by apply Hno in Hb. }
  destruct (os_read fd _ o1) as [b o2] eqn:E2. destruct (Hpos eq_refl) as [Epos Hge].
  apply os_read_ok in E2 as (Hb & Hi2 & Hn2 & Hd2).
  rewrite (Hb i), Epos, Hd1 in Hr by by rewrite Hi1, Hino. clear Hb.
  injection Hr as Ebs <- <-. fold (page_off n) in Ebs |- *.
  assert (0 ≤ n) by (unfold PAGE_SIZE in Hge; lia).
  assert (length bs ≤ Z.to_nat PAGE_SIZE)%nat as Hlb.
  { rewrite <- Ebs. unfold read_at. rewrite length_take. lia. }
  assert (dm_page d (mkPageId fd n) = if (length bs =? Z.to_nat PAGE_SIZE)%nat then Some bs else None) as Epg.
  { unfold dm_page, dm_open. simpl. rewrite Hp, bool_decide_eq_true_2 by eauto.
    destruct (Z.leb_spec 0 n); [|lia]. simpl. by rewrite Hino, Hi, Ebs. }
  rewrite Epg, Ebs. split_and!; [| |by apply dm_page_same; simpl; intros; rewrite ?Hi2, ?Hd2| | |done].
  - apply dm_inv_os; [done| |]; intros; [by rewrite Hi2, Hi1|by rewrite Hn2, Hn1].
  - done.
  - destruct (Nat.eqb_spec (length bs) (Z.to_nat PAGE_SIZE)) as [El|El]; split; intros E; try done.
    + destruct (Z.eqb_spec (Z.of_nat (length bs)) PAGE_SIZE); [done|unfold PAGE_SIZE in *; lia].
    + destruct (Z.eqb_spec (Z.of_nat (length bs)) PAGE_SIZE); [unfold PAGE_SIZE in *; lia|done].
  - intros bs' E. destruct (Nat.eqb_spec (length bs) (Z.to_nat PAGE_SIZE)); [|done].
    destruct (Z.eqb_spec (Z.of_nat (length bs)) PAGE_SIZE); [done|unfold PAGE_SIZE in *; lia].
Qed.

Lemma dm_inv_counters d m : dm_inv d → dm_inv (mkDM (path2fd d) (fd2path d) (log_fd d) m (os d)).
Proof. intros [H1 H2 H3 H4]. by split. Qed.

Lemma allocate_page_spec d fd r d' :
  allocate_page fd d = (r, d') →
  (0 ≤ fd < MAX_FD ∧ r = Ret (get_fd2pageno fd d) ∧
   d' = mkDM (path2fd d) (fd2path d) (log_fd d)
          (<[fd := wrap_s 32 (get_fd2pageno fd d + 1)]> (fd2pageno d)) (os d)) ∨
  (¬ (0 ≤ fd < MAX_FD) ∧ r = Throw AssertFail ∧ d' = d).
Proof.
  unfold allocate_page, assert_that, mbind, st_bind. case_if; simpl; intros E'; inv E'.
  - left. split; [lia|done].
  - right. split; [|done]. apply andb_false_iff in E as [E|E]; bool_prop; lia.
Qed.

(** The device works, the log is open, and the descriptors fit the array of page
    counters. *)
Definition dm_live d : Prop :=
  os_live (os d) ∧ log_fd d ≠ -1 ∧ ∀ fd, dm_open d fd → 0 ≤ fd < MAX_FD.

Lemma write_page_live d fd n bs r d' : dm_inv d → dm_open d fd → 0 ≤ n → dm_live d →
  write_page fd n bs d = (r, d') → dm_live d' ∧ r = Ret tt.
Proof.
  intros Hd [p Hp] Hn (Hl & Hlog & Hf) E. destruct (inv_ino d Hd fd p Hp) as (_ & [i Hi] & Hino).
  unfold write_page, sys, mbind, st_bind in E. destruct (os_lseek _ _ _) as [ok o1] eqn:E1.
  pose proof E1 as E1'. apply os_lseek_live in E1'; [|done]. apply os_lseek_ok in E1 as (Hok & _ & Hi1 & _).
  rewrite Hok in E by (rewrite ?Hino, ?Hi; unfold PAGE_SIZE; eauto with lia). simpl in E.
  destruct (os_write _ _ _) as [k o2] eqn:E2. apply os_write_live in E2 as [Hl2 ->]; [|by rewrite Hi1, Hino, Hi|done].
  rewrite Z.eqb_refl in E. simpl in E. by injection E as <- <-.
Qed.

(** The bytes behind a path. *)
Definition file_bytes (path : string) d : list Z :=
  match os_name (os d) path with Some i => os_data (os d) i | None => [] end.

Lemma file_name_path fd d path : fst (get_file_name fd d) = Ret path ↔ fd2path d !! fd = Some path.
Proof. unfold get_file_name, mbind, st_bind, get_st. destruct (fd2path d !! fd); simpl; split; congruence. Qed.

Lemma file_name_same d d' : fd2path d' = fd2path d → ∀ g, fst (get_file_name g d') = fst (get_file_name g d).
Proof. intros E g. unfold get_file_name, mbind, st_bind, get_st. rewrite E. by destruct (fd2path d !! g). Qed.

Lemma write_page_bytes d fd n bs r d' : dm_inv d → dm_open d fd → write_page fd n bs d = (r, d') →
  (∀ g, fst (get_file_name g d') = fst (get_file_name g d)) ∧
  ∀ path, fst (get_file_name fd d) ≠ Ret path → file_bytes path d' = file_bytes path d.
Proof.
  intros Hd [p Hp] E. destruct (inv_ino d Hd fd p Hp) as (_ & [i Hi] & Hino).
  unfold write_page, sys, mbind, st_bind in E. destruct (os_lseek _ _ _) as [ok o1] eqn:E1.
  apply os_lseek_ok in E1 as (_ & _ & Hi1 & Hn1 & Hd1). simpl in E. destruct ok; simpl in E.
  2:{ injection E as _ <-. split; [by apply file_name_same|]. intros path _. unfold file_bytes. simpl. rewrite Hn1. by destruct (os_name (os d) path); rewrite ?Hd1. }
  destruct (os_write _ _ _) as [k o2] eqn:E2.
  apply (os_write_ok _ _ _ _ _ i) in E2 as (_ & _ & Hoth & _ & Hn2); [|by rewrite Hi1, Hino, Hi].
  assert (d' = set_os d o2) as -> by (destruct (negb _); by inv E). split; [by apply file_name_same|].
  intros path Hne. unfold file_bytes. simpl. rewrite Hn2, Hn1. destruct (os_name (os d) path) as [j|] eqn:Ej; [|done].
  rewrite Hoth, Hd1; [done|]. intros ->. apply Hne, file_name_path. rewrite Hp. f_equal. by eapply (inv_names d Hd).
Qed.

Lemma read_page_bytes d fd n k bs r d' : dm_inv d → dm_open d fd → read_page fd n k d = ((bs, r), d') →
  (∀ g, fst (get_file_name g d') = fst (get_file_name g d)) ∧ ∀ path, file_bytes path d' = file_bytes path d.
Proof.
  intros Hd [p Hp] E. unfold read_page in E. destruct (os_lseek _ _ _) as [ok o1] eqn:E1.
  apply os_lseek_ok in E1 as (_ & _ & _ & Hn1 & Hd1).
  assert (∃ o2, d' = set_os d o2 ∧ (∀ q, os_name o2 q = os_name (os d) q) ∧ ∀ j, os_data o2 j = os_data (os d) j)
    as (o2 & -> & Hn & Hdt).
  { destruct ok; simpl in E; [|injection E as _ _ <-; by exists o1]. destruct (os_read _ _ _) as [b o2] eqn:E2.
    apply os_read_ok in E2 as (_ & _ & Hn2 & Hd2). injection E as _ _ <-. exists o2.
    split_and!; [done|intros q; by rewrite Hn2|intros j; by rewrite Hd2]. }
  split; [by apply file_name_same|]. intros path. unfold file_bytes. simpl. rewrite Hn. by destruct (os_name (os d) path); rewrite ?Hdt.
Qed.

#[export] Instance DM_disk : DiskLike DM := {
  disk_read p := read_page (pid_fd p) (pid_no p) PAGE_SIZE;
  disk_write p bs := write_page (pid_fd p) (pid_no p) bs;
  disk_allocate := allocate_page;
  disk_file_name fd d := fst (get_file_name fd d)
}.

#[export] Instance DM_disk_laws : DiskLaws DM.
Proof.
  refine {| disk_wf := dm_inv; disk_open := dm_open; disk_page := dm_page;
            disk_next d fd := get_fd2pageno fd d; disk_live := dm_live; disk_bytes d p := file_bytes p d |}.
  - intros d p bs E. apply dm_page_Some in E as (_ & _ & E & _). unfold PAGE_SIZE in *. lia.
  - intros d p bs r d' Hd Ho Hl Hw.
    apply write_page_spec in Hw as (Hd' & Ho' & Hle & Hr); [|done|done|unfold PAGE_SIZE in *; lia].
    split_and!; [done|done|by destruct p|]. intros Er. destruct (Hr Er) as (Hn & _ & i & Hi & Hb).
    apply dm_page_Some. split_and!; [by apply Ho'|done|unfold PAGE_SIZE in *; lia|].
    exists i. split; [done|].
    replace (Z.to_nat PAGE_SIZE) with (length bs) by (unfold PAGE_SIZE in *; lia). by rewrite Hb.
  - intros d p bs r d' Hd Ho Hr.
    apply read_page_spec in Hr as (Hd' & Hf & Hle & Hr & Hr' & Hlb); [|done|done].
    replace (mkPageId (pid_fd p) (pid_no p)) with p in * by by destruct p.
    split_and!; try done; [|intros q b; by rewrite Hle|naive_solver].
    intros g. unfold dm_open. by rewrite Hf.
  - intros d fd r d' Hd E. apply allocate_page_spec in E as [(_ & -> & ->)|(_ & -> & ->)].
    + split_and!; [by apply dm_inv_counters|done|]. intros p b Hb. done.
    + by split_and!.
  - intros d p bs r d' E g. simpl in E. unfold write_page, sys, mbind, st_bind, throw, mret, st_ret in E.
    repeat case_match; simplify_eq; done.
  - intros d p x d' E g. simpl in E. unfold read_page in E. repeat case_match; simplify_eq; done.
  - intros d fd n d' E. apply allocate_page_spec in E as [(_ & En & ->)|(_ & En & _)]; [|done].
    injection En as ->. split_and!; [done| |].
    + intros Hn. unfold get_fd2pageno at 1. simpl. rewrite lookup_insert_eq. simpl.
      unfold int32_max in Hn. apply wrap_s_small; lia.
    + intros g Hg. unfold get_fd2pageno. simpl. by rewrite lookup_insert_ne.
  - intros d p bs r d' Hd Ho. by apply write_page_live.
  - intros d p x d' (Hl & Hlog & Hf) E. simpl in E. unfold read_page in E.
    destruct (os_lseek _ _ _) as [ok o1] eqn:E1. apply os_lseek_live in E1; [|done].
    destruct ok; simpl in E; [|by injection E as <- <-]. destruct (os_read _ _ _) as [b o2] eqn:E2.
    apply os_read_live in E2; [|done]. by injection E as <- <-.
  - intros d fd r d' Ho (Hl & Hlog & Hf) E. apply allocate_page_spec in E as [(_ & -> & ->)|(Hn & _)]; [|by apply Hf in Ho].
    split; [done|by eexists].
  - intros d p bs r d' Hd Ho E. exact (write_page_bytes d _ _ bs r d' Hd Ho E).
  - intros d p [bs r] d' Hd Ho E. exact (read_page_bytes d _ _ _ bs r d' Hd Ho E).
  - intros d fd r d' E. apply allocate_page_spec in E as [(_ & _ & ->)|(_ & _ & ->)]; (split; [intros g; cbn [disk_file_name DM_disk]; by apply file_name_same|done]).
Defined.

(* ------------------------------------------------------------------ *)
(** ** Files                                                            *)
(* ------------------------------------------------------------------ *)

Lemma create_file_inv d p r d' : dm_inv d → create_file p d = (r, d') → dm_inv d'.
Proof.
  intros Hd Hc. unfold create_file, sys, mbind, st_bind, get_st in Hc.
  case_match; [by inv Hc|]. destruct (os_creat p (os d)) as [[fd|] o1] eqn:E1.
  2:{ inv Hc. apply os_creat_fail in E1 as ->. by destruct d. }
  apply os_creat_ok in E1 as (_ & Hnone & Hfd & (i & Hp & _ & _ & Hfi & _) & Hino & Hnm).
  simpl in Hc. destruct (os_close fd o1) as [b o2] eqn:E2.
  apply os_close_ok in E2 as (_ & Hino2 & Hnm2 & _).
  assert (d' = set_os d o2) as -> by (destruct b; by inv Hc).
  split; simpl; try apply Hd.
  - intros g q Hq. destruct (inv_ino d Hd g q Hq) as (H0' & [j Hj] & Hg).
    assert (g ≠ fd) by congruence. assert (q ≠ p) by congruence.
    rewrite Hino2, Hino, Hnm2, Hnm by done. eauto.
  - intros q1 q2 j. rewrite !Hnm2. intros Ha Hb.
    destruct (decide (q1 = p)) as [->|]; destruct (decide (q2 = p)) as [->|]; [done| | |].
    + rewrite Hnm in Hb by done. exfalso. apply (Hfi q2). congruence.
    + rewrite Hnm in Ha by done. exfalso. apply (Hfi q1). congruence.
    + rewrite Hnm in Ha by done; rewrite Hnm in Hb by done. by apply (inv_names d Hd q1 q2 j).
Qed.

Lemma destroy_file_inv d p r d' : dm_inv d → destroy_file p d = (r, d') → dm_inv d'.
Proof.
  intros Hd Hc. unfold destroy_file, sys, mbind, st_bind, get_st in Hc.
  case_match; [by inv Hc|]. case_match eqn:Ep; [by inv Hc|]. bool_prop.
  destruct (os_unlink p (os d)) as [b o1] eqn:E1.
  apply os_unlink_ok in E1 as (Ht & Hf & Hn & Hi & _).
  assert (d' = set_os d o1) as -> by (destruct b; by inv Hc).
  destruct b; [|rewrite (Hf eq_refl); by destruct d]. specialize (Ht eq_refl).
  split; simpl; try apply Hd.
  - intros g q Hq. assert (q ≠ p). { intros ->. apply (inv_tables d Hd) in Hq. by rewrite Hq in Ep; destruct Ep. }
    rewrite Hi, Hn by done. by apply Hd.
  - intros q1 q2 j Ha Hb. destruct (decide (q1 = p)) as [->|]; [congruence|].
    destruct (decide (q2 = p)) as [->|]; [congruence|].
    rewrite Hn in Ha by done; rewrite Hn in Hb by done. by apply (inv_names d Hd q1 q2 j).
Qed.

Lemma open_file_spec d p r d' :
  dm_inv d → open_file p d = (r, d') →
  dm_inv d' ∧
  (∀ q fd, path2fd d !! q = Some fd → path2fd d' !! q = Some fd) ∧
  page_le (dm_page d) (dm_page d') ∧
  log_fd d' = log_fd d ∧
  match r with
  | Ret fd => path2fd d' !! p = Some fd ∧
      (path2fd d !! p = None → ¬ dm_open d fd ∧
         get_fd2pageno fd d' = Z.quot (get_file_size p d' + PAGE_SIZE - 1) PAGE_SIZE)
  | Throw _ => d' = d
  end.
Proof.
  intros Hd Hc. unfold open_file, sys, mbind, st_bind, get_st in Hc.
  case_match; [by inv Hc|]. destruct (path2fd d !! p) as [fd|] eqn:Ep; [by inv Hc|].
  destruct (os_open p (os d)) as [[fd|] o1] eqn:E1.
  2:{ inv Hc. apply os_open_fail in E1 as ->. by destruct d. }
  apply os_open_ok in E1 as (H0' & Hnone & [i Hi] & Hfd & Hg & Hn & Hdat). inv Hc.
  assert (¬ dm_open d fd) as Hno.
  { intros [q Hq]. destruct (inv_ino d Hd fd q Hq) as (_ & [j Hj] & E). congruence. }
  assert (∀ q, path2fd d !! q ≠ Some fd) as Hnq.
  { intros q Hq. apply (inv_tables d Hd) in Hq. apply Hno. by exists q. }
  split_and!; simpl; try done.
  - split; simpl.
    + intros q g. rewrite !lookup_insert_Some. rewrite (inv_tables d Hd q g). split.
      * intros [[<- <-]|[Hq Hqg]]; [by left|]. right. split; [|done].
        intros <-. by apply (inv_tables d Hd) in Hqg; apply Hnq in Hqg.
      * intros [[<- <-]|[Hq Hqg]]; [by left|]. right. split; [|done].
        intros <-. apply (inv_tables d Hd) in Hqg. congruence.
    + intros g q. rewrite lookup_insert_Some. rewrite Hn. intros [[<- <-]|[Hne Hq]]; [by eauto|].
      rewrite Hg by done. by apply Hd.
    + intros q1 q2 j. rewrite !Hn. apply Hd.
    + intros Hl. rewrite lookup_insert_ne; [by apply (inv_log d Hd)|].
      intros E. apply Hno. rewrite E. eexists. by apply (inv_log d Hd).
  - intros q g Hq. rewrite lookup_insert_ne; [done|]. intros <-. congruence.
  - intros q bs. rewrite !dm_page_Some. intros (Ho & ? & ? & j & Hj & ->).
    assert (pid_fd q ≠ fd) by (intros E; by rewrite E in Ho).
    split_and!; try done; [unfold dm_open; simpl; by rewrite lookup_insert_ne|].
    exists j. simpl. by rewrite Hg, Hdat.
  - by rewrite lookup_insert_eq.
  - intros _. split; [done|]. unfold get_fd2pageno. simpl. by rewrite lookup_insert_eq.
Qed.

Lemma close_file_spec d fd d' :
  dm_inv d → close_file fd d = (Ret tt, d') →
  dm_inv d' ∧ dm_open d fd ∧ ¬ dm_open d' fd ∧
  (∀ g, g ≠ fd → dm_open d' g ↔ dm_open d g) ∧
  (∀ p, pid_fd p ≠ fd → dm_page d' p = dm_page d p).
Proof.
  intros Hd Hc. unfold close_file, sys, mbind, st_bind, get_st in Hc.
  destruct (fd2path d !! fd) as [p|] eqn:Ep; [|done].
  destruct (os_close fd (os d)) as [b o1] eqn:E1.
  apply os_close_ok in E1 as (_ & Hg & Hn & Hdat). destruct b; [|done]. inv Hc.
  split_and!; simpl.
  - split; simpl.
    + intros q g. rewrite !lookup_delete_Some, (inv_tables d Hd q g). split; intros [Hne Hq]; split; try done.
      * intros <-. rewrite Ep in Hq. congruence.
      * intros <-. apply (inv_tables d Hd) in Hq, Ep. congruence.
    + intros g q. rewrite lookup_delete_Some. intros [Hne Hq]. rewrite Hn, Hg by done.
      by apply (inv_ino d Hd).
    + intros q1 q2 j. rewrite !Hn. apply (inv_names d Hd).
    + destruct (Z.eqb_spec (log_fd d) fd) as [E|E]; [done|]. intros Hl.
      rewrite lookup_delete_ne by done. by apply (inv_log d Hd).
  - by exists p.
  - unfold dm_open. simpl. rewrite lookup_delete_eq. by intros [? ?].
  - intros g Hne. unfold dm_open. simpl. by rewrite lookup_delete_ne.
  - intros q Hne. unfold dm_page, dm_open. simpl. rewrite lookup_delete_ne, Hg by done.
    by destruct (os_ino _ _); rewrite ?Hdat.
Qed.

(* ------------------------------------------------------------------ *)
(** ** The log file                                                     *)
(* ------------------------------------------------------------------ *)

(** The contents of the log file. *)
Definition log_bytes d : list Z := file_bytes LOG_FILE_NAME d.

Lemma ensure_log_spec d r d' :
  dm_inv d → ensure_log d = (r, d') →
  dm_inv d' ∧ page_le (dm_page d) (dm_page d') ∧
  (r = Ret tt → log_fd d' ≠ -1).
Proof.
  intros Hd He. unfold ensure_log, mbind, st_bind, get_st in He.
  destruct (Z.eqb_spec (log_fd d) (-1)) as [El|El]; [|by inv He].
  destruct (open_file LOG_FILE_NAME d) as [[fd|e] d1] eqn:Eo;
    apply open_file_spec in Eo as (Hd1 & _ & Hle & _ & Hr); [|exact Hd|..|exact Hd];
    injection He as <- <-; [|by subst].
  destruct Hr as [Hp _]. apply (inv_tables d1 Hd1) in Hp.
  destruct (inv_ino d1 Hd1 _ _ Hp) as [Hge _].
  split_and!; simpl; [|done|lia]. destruct Hd1 as [Ha Hb Hc Hl]. by split.
Qed.

Lemma write_log_spec d bs r d' :
  dm_inv d → write_log bs d = (r, d') →
  dm_inv d' ∧
  (r = Ret tt → log_fd d ≠ -1 → log_bytes d' = log_bytes d ++ bs ∧ log_fd d' = log_fd d).
Proof.
  intros Hd Hw. unfold write_log in Hw.
  unfold mbind at 1, st_bind at 1 in Hw. destruct (ensure_log d) as [[[]|e] d1] eqn:E.
  2:{ inv Hw. split; [by eapply ensure_log_spec|done]. }
  assert (log_fd d ≠ -1 → d1 = d) as Hsame.
  { intros Hl. unfold ensure_log, mbind, st_bind, get_st in E.
    destruct (Z.eqb_spec (log_fd d) (-1)); [done|]. by inv E. }
  apply ensure_log_spec in E as (Hd1 & _ & Hl); [|done]. specialize (Hl eq_refl).
  pose proof (inv_log d1 Hd1 Hl) as Hp.
  destruct (inv_ino d1 Hd1 _ _ Hp) as (_ & [i Hi] & Hino).
  unfold sys, mbind, st_bind, get_st in Hw.
  destruct (os_lseek_end (log_fd d1) (os d1)) as [b o1] eqn:E1.
  apply os_lseek_end_ok in E1 as (Hpos & Hi1 & Hn1 & Hd1'). simpl in Hw.
  destruct (os_write (log_fd d1) bs o1) as [k o2] eqn:E2.
  eapply os_write_ok in E2 as (Hk & Hdat & _ & Hi2 & Hn2); [|by rewrite Hi1, Hino].
  rewrite (Hpos i), Nat2Z.id, Hd1' in Hdat by by rewrite Hino.
  assert (dm_inv (set_os d1 o2)).
  { apply dm_inv_os; [done| |]; intros; [by rewrite Hi2, Hi1|by rewrite Hn2, Hn1]. }
  destruct (Z.eqb_spec k (Z.of_nat (length bs))) as [->|]; simpl in Hw; inv Hw;
    (split; [done|]); [|done].
  intros _ Hld. rewrite <- (Hsame Hld). split; [|done]. unfold log_bytes, file_bytes. simpl.
  rewrite Hn2, Hn1, Hi, Hdat, Nat2Z.id, firstn_all. destruct bs as [|x bs']; [by rewrite app_nil_r|].
  unfold file_write, splice. rewrite Nat.sub_diag. simpl. rewrite app_nil_r, firstn_all.
  rewrite drop_ge by lia. by rewrite app_nil_r.
Qed.

Lemma read_log_spec d size off :
  dm_inv d → log_fd d ≠ -1 → Z.of_nat (length (log_bytes d)) ≤ int32_max →
  0 < size → 0 ≤ off →
  ∃ d', dm_inv d' ∧ log_bytes d' = log_bytes d ∧ log_fd d' = log_fd d ∧
  let bs := read_at (Z.to_nat off) (Z.to_nat size) (log_bytes d) in
  read_log size off d =
    (Ret (if Z.of_nat (length (log_bytes d)) <? off then (-1, [])
          else (Z.of_nat (length bs), bs)), d').
Proof.
  intros Hd Hl Hfit Hs Hoff. unfold read_log, ensure_log, sys, mbind, st_bind, get_st.
  destruct (Z.eqb_spec (log_fd d) (-1)) as [E|_]; [done|]. cbn [mret st_ret].
  pose proof (inv_log d Hd Hl) as Hp. destruct (inv_ino d Hd _ _ Hp) as (_ & [i Hi] & Hino).
  unfold log_bytes, file_bytes in *. rewrite Hi in *. set (c := os_data (os d) i) in *.
  assert (get_file_size LOG_FILE_NAME d = Z.of_nat (length c)) as ->.
  { unfold get_file_size. rewrite (os_size_name _ _ _ Hi). fold c. unfold int32_max in Hfit.
    apply wrap_s_small; lia. }
  destruct (Z.ltb_spec (Z.of_nat (length c)) off) as [Hlt|Hge].
  { exists d. by rewrite Hi. }
  destruct (Z.eqb_spec (Z.min size (Z.of_nat (length c) - off)) 0) as [E|E].
  { exists d. rewrite Hi. split_and!; try done. unfold read_at. rewrite drop_ge by lia. by rewrite take_nil. }
  destruct (os_lseek (log_fd d) off (os d)) as [b o1] eqn:E1.
  apply os_lseek_ok in E1 as (Hb & Hpos & Hi1 & Hn1 & Hd1).
  rewrite Hb in Hpos; [|by rewrite Hino|done]. destruct (Hpos eq_refl) as [Hpos' _].
  cbn [set_os log_fd os].
  destruct (os_read (log_fd d) _ o1) as [bs o2] eqn:E2.
  apply os_read_ok in E2 as (Hbs & Hi2 & Hn2 & Hd2).
  rewrite (Hbs i), Hpos', Hd1 by by rewrite Hi1, Hino. fold c.
  assert (read_at (Z.to_nat off) (Z.to_nat (Z.min size (Z.of_nat (length c) - off))) c =
          read_at (Z.to_nat off) (Z.to_nat size) c) as ->.
  { unfold read_at. destruct (Z.le_ge_cases size (Z.of_nat (length c) - off)).
    - by rewrite Z.min_l.
    - rewrite Z.min_r by done. rewrite !take_ge; [done| |]; rewrite length_drop; lia. }
  exists (set_os d o2). simpl. split.
  { apply dm_inv_os; [done| |]; intros; [by rewrite Hi2, Hi1|by rewrite Hn2, Hn1]. }
  rewrite Hn2, Hn1, Hi, Hd2, Hd1. fold c. split_and!; try done.
  unfold assert_that. case_if; [done|]. exfalso.
  unfold read_at in E0. rewrite length_take, length_drop in E0. lia.
Qed.

(* ------------------------------------------------------------------ *)
(** ** Sequences of calls                                               *)
(* ------------------------------------------------------------------ *)

(** The calls the rest of the system makes, as transitions.  A close that
    fails leaves the descriptor in a state POSIX does not define, so it is not
    a step; the directory commands run outside the database's own files. *)
Inductive dm_step : DM → DM → Prop :=
  | step_create p d r d' : create_file p d = (r, d') → dm_step d d'
  | step_destroy p d r d' : destroy_file p d = (r, d') → dm_step d d'
  | step_open p d r d' : open_file p d = (r, d') → dm_step d d'
  | step_close fd d d' : close_file fd d = (Ret tt, d') → dm_step d d'
  | step_write fd n bs d r d' : dm_open d fd → (length bs ≤ Z.to_nat PAGE_SIZE)%nat →
      write_page fd n bs d = (r, d') → dm_step d d'
  | step_read fd n d r d' : dm_open d fd → read_page fd n PAGE_SIZE d = (r, d') → dm_step d d'
  | step_alloc fd d r d' : allocate_page fd d = (r, d') → dm_step d d'
  | step_setno fd n d r d' : set_fd2pageno fd n d = (r, d') → dm_step d d'
  | step_write_log bs d r d' : write_log bs d = (r, d') → dm_step d d'.

Lemma dm_step_inv d d' : dm_step d d' → dm_inv d → dm_inv d'.
Proof.
  intros Hs Hd. destruct Hs as [p d r d' E|p d r d' E|p d r d' E|fd d d' E|fd n bs d r d' Ho Hl E|
    fd n d r d' Ho E|fd d r d' E|fd n d r d' E|bs d r d' E].
  - by eapply create_file_inv.
  - by eapply destroy_file_inv.
  - by eapply open_file_spec.
  - by eapply close_file_spec.
  - by eapply write_page_spec.
  - destruct r. by eapply read_page_spec.
  - apply allocate_page_spec in E as [(_ & _ & ->)|(_ & _ & ->)]; [by apply dm_inv_counters|done].
  - inv E. by apply dm_inv_counters.
  - by eapply write_log_spec.
Qed.

Lemma dm_init_inv o :
  (∀ p q i, os_name o p = Some i → os_name o q = Some i → p = q) → dm_inv (dm_init o).
Proof. intros Hn. by split. Qed.

(** Reachability from a fresh manager over an operating system without hard
    links. *)
Definition dm_reachable d : Prop :=
  ∃ o, (∀ p q i, os_name o p = Some i → os_name o q = Some i → p = q) ∧
       rtc dm_step (dm_init o) d.

Lemma dm_reachable_inv d : dm_reachable d → dm_inv d.
Proof.
  intros (o & Hn & Hs). assert (dm_inv (dm_init o)) as Hi by by apply dm_init_inv.
  remember (dm_init o) as d0 eqn:E. clear E. induction Hs; [done|]. eauto using dm_step_inv.
Qed.

(** C23: in every reachable state of the disk manager, path2fd_ and fd2path_ are
    inverse to each other, and two different open descriptors never refer to
    the same file. *)
Theorem dm_tables_consistent d (Hr : dm_reachable d) :
  (∀ p fd, path2fd d !! p = Some fd ↔ fd2path d !! fd = Some p) ∧
  (∀ f g, dm_open d f → dm_open d g → os_ino (os d) f = os_ino (os d) g → f = g).
Proof.
  apply dm_reachable_inv in Hr as Hd. split; [apply (inv_tables d Hd)|].
  intros f g Hf Hg E. destruct Hf as [p Hp] eqn:Ef.
  destruct (inv_ino d Hd f p Hp) as (_ & [i Hi] & Hino).
  eapply dm_inv_inj; [done|by exists p|done|by rewrite Hino|by rewrite <- E, Hino].
Qed.

(** C22: after write_page succeeds on an open file, read_page of that page
    returns the bytes written, and every other complete page of every open
    file still reads as before. *)
Theorem write_read_page d fd n bs d1 (Hr : dm_reachable d) (Ho : dm_open d fd)
    (Hlen : Z.of_nat (length bs) = PAGE_SIZE)
    (Hw : write_page fd n bs d = (Ret tt, d1)) :
  (∃ d2, read_page fd n PAGE_SIZE d1 = ((bs, Ret tt), d2)) ∧
  (∀ g m c, (g, m) ≠ (fd, n) → dm_open d g →
     (∃ d2, read_page g m PAGE_SIZE d = ((c, Ret tt), d2)) →
     ∃ d2, read_page g m PAGE_SIZE d1 = ((c, Ret tt), d2)).
Proof.
  apply dm_reachable_inv in Hr as Hd.
  destruct (@disk_write_ok DM _ DM_disk_laws d (mkPageId fd n) bs (Ret tt) d1 Hd Ho Hlen Hw)
    as (Hd1 & Ho1 & Hle & Hpg).
  assert (∀ g m c, dm_open d1 g → dm_page d1 (mkPageId g m) = Some c →
            ∃ d2, read_page g m PAGE_SIZE d1 = ((c, Ret tt), d2)) as Hread.
  { intros g m c Hg Hc. destruct (read_page g m PAGE_SIZE d1) as [[b r] d2] eqn:E. exists d2.
    apply read_page_spec in E as (_ & _ & _ & Hiff & Hsome & _); [|done|done].
    specialize (Hsome c Hc). subst. by destruct Hiff as [Hiff _]; rewrite Hiff in Hc; simplify_eq. }
  split; [apply Hread; [by apply Ho1|by apply Hpg]|].
  intros g m c Hne Hg [d2 E]. apply read_page_spec in E as (_ & _ & _ & [Hiff _] & _); [|done|done].
  apply Hread; [by apply Ho1|]. apply Hle; [|by apply Hiff]. intros E'. by inv E'.
Qed.

(** Bytes appended by write_log are returned by read_log at the offset
    where the log ended, and the earlier bytes of the log are kept. *)
Theorem write_read_log d bs d1 (Hr : dm_reachable d) (Hl : log_fd d ≠ -1)
    (Hne : bs ≠ []) (Hfit : Z.of_nat (length (log_bytes d) + length bs) ≤ int32_max)
    (Hw : write_log bs d = (Ret tt, d1)) :
  log_bytes d1 = log_bytes d ++ bs ∧
  ∃ d2, read_log (Z.of_nat (length bs)) (Z.of_nat (length (log_bytes d))) d1 =
        (Ret (Z.of_nat (length bs), bs), d2).
Proof.
  apply dm_reachable_inv in Hr as Hd.
  apply write_log_spec in Hw as (Hd1 & Hb); [|done]. destruct (Hb eq_refl Hl) as [Eb El].
  split; [done|]. destruct (read_log_spec d1 (Z.of_nat (length bs)) (Z.of_nat (length (log_bytes d))))
    as (d2 & _ & _ & _ & E); try done; [by rewrite El|rewrite Eb; len| |lia|].
  { destruct bs; [done|simpl; lia]. }
  exists d2. simpl in E. rewrite Eb, !Nat2Z.id in E. unfold read_at in E.
  rewrite drop_app_length, firstn_all in E. rewrite E. f_equal.
  destruct (Z.ltb_spec (Z.of_nat (length (log_bytes d ++ bs))) (Z.of_nat (length (log_bytes d)))); [|done].
  rewrite length_app in *. lia.
Qed.

End DiskManagerLaws.

(** Concrete states over the in-memory file system, for the witnesses: a data
    file t and the log, both open. *)
Module DiskWitness.

Definition d0 : DiskManager MemFS.fs := dm_init MemFS.empty_fs.
Definition d1 : DiskManager MemFS.fs := snd (create_file "t" d0).
Definition d2 : DiskManager MemFS.fs := snd (create_file LOG_FILE_NAME d1).
Definition d3 : DiskManager MemFS.fs := snd (open_file "t" d2).
Definition d4 : DiskManager MemFS.fs := snd (write_log [] d3).
Definition page : list Z := replicate (Z.to_nat PAGE_SIZE) 7.

Lemma d4_reachable : dm_reachable d4.
Proof.
  exists MemFS.empty_fs. split; [done|].
  eapply rtc_l; [by apply (step_create "t" d0 (Ret tt) d1); vm_compute|].
  eapply rtc_l; [by apply (step_create LOG_FILE_NAME d1 (Ret tt) d2); vm_compute|].
  eapply rtc_l; [by apply (step_open "t" d2 (Ret 0) d3); vm_compute|].
  eapply rtc_l; [by apply (step_write_log [] d3 (Ret tt) d4); vm_compute|].
  apply rtc_refl.
Qed.

Lemma dm_tables_consistent_witness : path2fd d4 !! "t" = Some 0 ∧ fd2path d4 !! 0 = Some "t".
Proof.
  split; [by vm_compute|].
  apply (proj1 (dm_tables_consistent d4 d4_reachable)). by vm_compute.
Defined.

Lemma write_read_page_witness :
  ∃ e, read_page 0 1 PAGE_SIZE (snd (write_page 0 1 page d4)) = ((page, Ret tt), e).
Proof.
  refine (proj1 (write_read_page d4 0 1 page _ d4_reachable _ _ _)); [by exists "t"|by vm_compute|by vm_compute].
Defined.

Lemma write_read_log_witness :
  ∃ e, read_log 3 0 (snd (write_log [1; 2; 3] d4)) = (Ret (3, [1; 2; 3]), e).
Proof. by refine (proj2 (write_read_log d4 [1; 2; 3] _ d4_reachable _ _ _ _)); vm_compute. Defined.

End DiskWitness.
