(* ===== verification/BufferPool.v ===== *)
(** * Buffer pool (src/src/storage/buffer_pool_manager.{h,cpp}, page.h)

    [BPM] is BufferPoolManager: the array of page frames, the page table, the
    free list, the disk and the replacer.  It is written against the
    [Replacer] and [DiskLike] interfaces, as the class is written against
    Replacer* and DiskManager*.  A Page* is the index of its frame.  All
    methods run under the class's latch, so they are atomic here.

    The theorems are about [view]: the contents of every page as a client sees
    them, in a frame if the page is resident and on disk otherwise. *)

From S2P Require Import Prelude Defs Replacer Posix DiskManager.

(** class Page *)
Record Page := mkPage { id_ : PageId; data_ : list Z; is_dirty : bool; pin_count : Z }.

Definition zero_page : list Z := replicate (Z.to_nat PAGE_SIZE) 0.
Arguments zero_page : simpl never.

Lemma length_zero_page : Z.of_nat (length zero_page) = PAGE_SIZE.
Proof. unfold zero_page. by rewrite length_replicate. Qed.

(** A frame as constructed: id_.fd is not initialised by the class; it is
    never read while page_no is INVALID_PAGE_ID. *)
Definition page_init : Page := mkPage (mkPageId 0 INVALID_PAGE_ID) zero_page false 0.

Definition OFFSET_LSN : nat := 0.
Definition OFFSET_PAGE_HDR : nat := 4.
Definition get_page_lsn (data : list Z) : Z := load_i32 OFFSET_LSN data.
Definition set_page_lsn (lsn : Z) (data : list Z) : list Z := store_i32 OFFSET_LSN lsn data.

(** disk_manager_->read_page(.., page->data_, PAGE_SIZE): the bytes that were
    read replace the beginning of the buffer. *)
Definition fill_page (bytes buf : list Z) : list Z := splice 0 bytes buf.

Section BufferPool.
Context {R D : Type} `{Replacer R, DiskLike D}.

Record BPM := mkBPM {
  pages : list Page;
  page_table : gmap PageId Z;
  free_list : list Z;
  disk : D;
  replacer : R
}.

Definition bpm_init (pool_size : nat) (d : D) (r : R) : BPM :=
  mkBPM (replicate pool_size page_init) ∅ (Z.of_nat <$> seq 0 pool_size) d r.

(** pages_[frame_id] *)
Definition frame (f : Z) (s : BPM) : Page := nth (Z.to_nat f) (pages s) page_init.

Definition set_frame (f : Z) (p : Page) (s : BPM) : BPM :=
  mkBPM (<[Z.to_nat f := p]> (pages s)) (page_table s) (free_list s) (disk s) (replacer s).

Definition set_table (t : gmap PageId Z) (s : BPM) : BPM :=
  mkBPM (pages s) t (free_list s) (disk s) (replacer s).

Definition set_free (l : list Z) (s : BPM) : BPM :=
  mkBPM (pages s) (page_table s) l (disk s) (replacer s).

Definition set_replacer (r : R) (s : BPM) : BPM :=
  mkBPM (pages s) (page_table s) (free_list s) (disk s) r.

Definition set_disk (d : D) (s : BPM) : BPM :=
  mkBPM (pages s) (page_table s) (free_list s) d (replacer s).

(** A call of the disk manager from the pool. *)
Definition on_disk {A} (m : ST D A) : ST BPM A :=
  λ s, let '(r, d) := m (disk s) in (r, set_disk d s).

Definition find_victim_page : ST BPM (option Z) := λ s,
  match free_list s with
  | f :: l => (Ret (Some f), set_free l s)
  | [] => let '(o, r) := victim (replacer s) in (Ret o, set_replacer r s)
  end.

Definition update_page (f : Z) (new_page_id : PageId) (new_frame_id : Z) : ST BPM unit :=
  s ← get_st;
  (let page := frame f s in
   if negb (pid_no (id_ page) =? INVALID_PAGE_ID) then
     (if is_dirty page then
        on_disk (disk_write (id_ page) (data_ page)) ;;
        modify_st (set_frame f (mkPage (id_ page) (data_ page) false (pin_count page)))
      else mret tt) ;;
     modify_st (λ s, set_table (delete (id_ page) (page_table s)) s)
   else mret tt) ;;
  modify_st (set_frame f (mkPage new_page_id zero_page false 0)) ;;
  if negb (pid_no new_page_id =? INVALID_PAGE_ID)
  then modify_st (λ s, set_table (<[new_page_id := new_frame_id]> (page_table s)) s)
  else mret tt.

(** page->pin_count_ = c *)
Definition set_pin (f c : Z) : ST BPM unit :=
  modify_st (λ s, let p := frame f s in set_frame f (mkPage (id_ p) (data_ p) (is_dirty p) c) s).

Definition replacer_pin (f : Z) : ST BPM unit :=
  modify_st (λ s, set_replacer (pin f (replacer s)) s).

Definition read_into (f : Z) (page_id : PageId) : ST BPM unit := λ s,
  let '((bytes, r), d) := disk_read page_id (disk s) in
  let p := frame f s in
  (r, set_frame f (mkPage (id_ p) (fill_page bytes (data_ p)) (is_dirty p) (pin_count p)) (set_disk d s)).

Definition fetch_page (page_id : PageId) : ST BPM (option Z) :=
  s ← get_st;
  match page_table s !! page_id with
  | Some frame_id =>
      set_pin frame_id (pin_count (frame frame_id s) + 1) ;;
      replacer_pin frame_id ;;
      mret (Some frame_id)
  | None =>
      v ← find_victim_page;
      match v with
      | None => mret None
      | Some frame_id =>
          update_page frame_id page_id frame_id ;;
          read_into frame_id page_id ;;
          set_pin frame_id 1 ;;
          replacer_pin frame_id ;;
          mret (Some frame_id)
      end
  end.

Definition unpin_page (page_id : PageId) (dirty : bool) : ST BPM bool :=
  s ← get_st;
  match page_table s !! page_id with
  | None => mret false
  | Some f =>
      let page := frame f s in
      if pin_count page <=? 0 then mret false else
      modify_st (set_frame f (mkPage (id_ page) (data_ page) (is_dirty page || dirty) (pin_count page - 1))) ;;
      (if pin_count page - 1 =? 0 then modify_st (λ s, set_replacer (unpin f (replacer s)) s)
       else mret tt) ;;
      mret true
  end.

(** disk_manager_->write_page(...); page->is_dirty_ = false; *)
Definition write_back (page_id : PageId) (f : Z) : ST BPM unit :=
  s ← get_st;
  on_disk (disk_write page_id (data_ (frame f s))) ;;
  modify_st (λ s, let p := frame f s in set_frame f (mkPage (id_ p) (data_ p) false (pin_count p)) s).

Definition flush_page (page_id : PageId) : ST BPM bool :=
  s ← get_st;
  match page_table s !! page_id with
  | None => mret false
  | Some f => write_back page_id f ;; mret true
  end.

(** The page id is an in-out argument: its fd is read, its page_no set. *)
Definition new_page (fd : Z) : ST BPM (option (Z * PageId)) :=
  v ← find_victim_page;
  match v with
  | None => mret None
  | Some frame_id =>
      no ← on_disk (disk_allocate fd);
      let page_id := mkPageId fd no in
      update_page frame_id page_id frame_id ;;
      set_pin frame_id 1 ;;
      replacer_pin frame_id ;;
      mret (Some (frame_id, page_id))
  end.

(** replacer_->pin; update_page to no page; free_list_.push_back *)
Definition drop_frame (fd f : Z) : ST BPM unit :=
  replacer_pin f ;;
  update_page f (mkPageId fd INVALID_PAGE_ID) f ;;
  modify_st (λ s, set_free (free_list s ++ [f]) s).

(** disk_manager_->deallocate_page does nothing. *)
Definition delete_page (page_id : PageId) : ST BPM bool :=
  s ← get_st;
  match page_table s !! page_id with
  | None => mret true
  | Some f =>
      if negb (pin_count (frame f s) =? 0) then mret false else
      drop_frame (pid_fd page_id) f ;;
      mret true
  end.

(** The entries of the page table that belong to a file, in the order the
    table is traversed. *)
Definition entries_of (fd : Z) (s : BPM) : list (PageId * Z) :=
  filter (λ e, pid_fd e.1 = fd) (map_to_list (page_table s)).

Definition delete_all_pages (fd : Z) : ST BPM bool :=
  s ← get_st;
  let page_ids := (entries_of fd s).*1 in
  if existsb (λ p, match page_table s !! p with
                   | Some f => negb (pin_count (frame f s) =? 0)
                   | None => false end) page_ids
  then mret false else
  for_each (λ p, s ← get_st;
                 match page_table s !! p with
                 | None => mret tt
                 | Some f => drop_frame fd f
                 end) page_ids ;;
  mret true.

Definition flush_all_pages (fd : Z) : ST BPM unit :=
  s ← get_st;
  for_each (λ e, write_back e.1 e.2) (entries_of fd s).

(** BufferPoolManager::mark_dirty, and the accesses of a client that holds a
    Page*: get_page_id, reading data_ and writing it. *)
Definition mark_dirty (f : Z) : ST BPM unit :=
  modify_st (λ s, let p := frame f s in set_frame f (mkPage (id_ p) (data_ p) true (pin_count p)) s).

Definition get_page_id (f : Z) (s : BPM) : PageId := id_ (frame f s).
Definition get_data (f : Z) (s : BPM) : list Z := data_ (frame f s).
Definition put_data (f : Z) (bs : list Z) (s : BPM) : BPM :=
  let p := frame f s in set_frame f (mkPage (id_ p) bs (is_dirty p) (pin_count p)) s.

End BufferPool.
Arguments BPM : clear implicits.

(* ------------------------------------------------------------------ *)
(** ** Invariant                                                        *)
(* ------------------------------------------------------------------ *)

Section Invariant.
Context {R D : Type} `{ReplacerLaws R, DiskLaws D}.
Abbreviation bpm := (BPM R D).
Implicit Types s : bpm.

Definition in_pool s (f : Z) : Prop := 0 ≤ f < Z.of_nat (length (pages s)).

Definition resident (p : Page) : Prop := pid_no (id_ p) ≠ INVALID_PAGE_ID.

(** A frame whose contents may be dropped without losing data. *)
Definition droppable s (f : Z) : Prop :=
  is_dirty (frame f s) = false → disk_page (disk s) (id_ (frame f s)) = Some (data_ (frame f s)).

(** The page table and the frames agree, free frames are unused, and the
    evictable frames are resident, unpinned and droppable.  It holds after
    every call, also one that throws. *)
Record bp_inv s : Prop := {
  i_table p f : page_table s !! p = Some f →
    in_pool s f ∧ id_ (frame f s) = p ∧ pid_no p ≠ INVALID_PAGE_ID ∧ disk_open (disk s) (pid_fd p);
  i_ids f : in_pool s f → resident (frame f s) → page_table s !! (id_ (frame f s)) = Some f;
  i_nodup : NoDup (free_list s);
  i_free f : f ∈ free_list s → in_pool s f ∧ ¬ resident (frame f s);
  i_page f : in_pool s f →
    Z.of_nat (length (data_ (frame f s))) = PAGE_SIZE ∧ 0 ≤ pin_count (frame f s) ∧
    (¬ resident (frame f s) → pin_count (frame f s) = 0);
  i_rep : rep_inv (replacer s);
  i_cap : rep_cap (replacer s) = Z.of_nat (length (pages s));
  i_evict f : f ∈ rep_frames (replacer s) →
    in_pool s f ∧ resident (frame f s) ∧ pin_count (frame f s) = 0 ∧ droppable s f;
  i_disk : disk_wf (disk s)
}.

(** No frame is lost: each is free, evictable or pinned.  Holds after every
    call that returns. *)
Definition bp_full s : Prop :=
  ∀ f, in_pool s f → f ∈ free_list s ∨ f ∈ rep_frames (replacer s) ∨ 0 < pin_count (frame f s).

(** The contents of a page as a client sees them. *)
Definition view s (p : PageId) : option (list Z) :=
  match page_table s !! p with
  | Some f => Some (data_ (frame f s))
  | None => disk_page (disk s) p
  end.

Definition pins s (p : PageId) : Z :=
  match page_table s !! p with Some f => pin_count (frame f s) | None => 0 end.

(** Only frame [f] may have changed. *)
Definition same_but (f : Z) s s' : Prop :=
  length (pages s') = length (pages s) ∧ ∀ g, in_pool s g → g ≠ f → frame g s' = frame g s.

Definition same_open s s' : Prop := ∀ fd, disk_open (disk s') fd ↔ disk_open (disk s) fd.

Lemma frame_set_eq f p s : in_pool s f → frame f (set_frame f p s) = p.
Proof.
  intros [Hf Hn]. unfold frame, set_frame. simpl. apply nth_lookup_Some.
  apply list_lookup_insert_eq. lia.
Qed.

Lemma frame_set_ne f g p s : 0 ≤ f → 0 ≤ g → g ≠ f → frame g (set_frame f p s) = frame g s.
Proof.
  intros Hf Hg Hne. unfold frame, set_frame. simpl. rewrite !nth_lookup, list_lookup_insert_ne by lia. done.
Qed.

Lemma in_pool_set f p s g : in_pool (set_frame f p s) g ↔ in_pool s g.
Proof. unfold in_pool, set_frame. simpl. by rewrite length_insert. Qed.

Lemma table_inj s p q f :
  bp_inv s → page_table s !! p = Some f → page_table s !! q = Some f → p = q.
Proof. intros Hs Hp Hq. apply (i_table s Hs) in Hp as (_ & <- & _). by apply (i_table s Hs) in Hq as (_ & <- & _). Qed.

(** Frame [f] is neither free nor evictable. *)
Definition taken s (f : Z) : Prop :=
  in_pool s f ∧ (f ∉ free_list s) ∧ f ∉ rep_frames (replacer s).

Lemma pinned_taken s f : bp_inv s → in_pool s f → 0 < pin_count (frame f s) → taken s f.
Proof.
  intros Hs Hf Hp. split_and!; [done| |].
  - intros Hin. apply (i_free s Hs) in Hin as [_ Hn].
    destruct (i_page s Hs f Hf) as (_ & _ & Hz). specialize (Hz Hn). lia.
  - intros Hin. apply (i_evict s Hs) in Hin as (_ & _ & Hz & _). lia.
Qed.

(** Overwriting a taken frame without changing which page it holds. *)
Lemma set_frame_inv f p s :
  bp_inv s → taken s f → id_ p = id_ (frame f s) →
  Z.of_nat (length (data_ p)) = PAGE_SIZE → 0 ≤ pin_count p → (¬ resident p → pin_count p = 0) →
  bp_inv (set_frame f p s).
Proof.
  intros Hs (Hf & Hnf & Hnr) Hid Hlen Hpin Hres.
  assert (∀ g, in_pool s g → g ≠ f → frame g (set_frame f p s) = frame g s) as Hoth.
  { intros g [Hg _] Hne. apply frame_set_ne; [apply Hf|done|done]. }
  assert (∀ g, in_pool s g → id_ (frame g (set_frame f p s)) = id_ (frame g s)) as Hids.
  { intros g Hg. destruct (decide (g = f)) as [->|]; [by rewrite frame_set_eq|by rewrite Hoth]. }
  split; simpl; try apply Hs.
  - intros q g Hq. apply (i_table s Hs) in Hq as (Hg & Hq & ? & ?).
    rewrite in_pool_set, Hids by done. done.
  - intros g. rewrite in_pool_set. intros Hg Hr. unfold resident in Hr. rewrite Hids in * by done.
    by apply Hs.
  - intros g Hg. apply (i_free s Hs) in Hg as Hg'. destruct Hg' as [Hg' Hr].
    rewrite in_pool_set. split; [done|]. unfold resident. by rewrite Hids.
  - intros g. rewrite in_pool_set. intros Hg. destruct (decide (g = f)) as [->|];
      [by rewrite frame_set_eq|rewrite Hoth by done; by apply Hs].
  - rewrite length_insert. apply Hs.
  - intros g Hg. apply (i_evict s Hs) in Hg as Hg'. destruct Hg' as (Hp & Hr & Hz & Hd).
    assert (g ≠ f) by congruence. rewrite in_pool_set. unfold droppable. rewrite Hoth by done. done.
Qed.

(** A disk that keeps every page but one which no evictable frame holds. *)
Lemma set_disk_inv d s p :
  bp_inv s → disk_wf d → (∀ fd, disk_open d fd ↔ disk_open (disk s) fd) →
  page_le_but p (disk_page (disk s)) (disk_page d) →
  (∀ f, f ∈ rep_frames (replacer s) → id_ (frame f s) ≠ p) →
  bp_inv (set_disk d s).
Proof.
  intros Hs Hd Ho Hle Hne. split; simpl; try apply Hs; [| |done].
  - intros q f Hq. apply (i_table s Hs) in Hq as (? & ? & ? & ?).
    split_and!; try done. by apply Ho.
  - intros f Hf. destruct (i_evict s Hs f Hf) as (? & ? & ? & Hdr).
    split_and!; try done. intros Hc. apply Hle; [by apply Hne|by apply Hdr].
Qed.

Lemma set_replacer_inv r s :
  bp_inv s → rep_inv r → rep_cap r = rep_cap (replacer s) →
  (∀ f, f ∈ rep_frames r → f ∈ rep_frames (replacer s)) → bp_inv (set_replacer r s).
Proof.
  intros Hs Hr Hc Hsub. split; simpl; try apply Hs; [done|rewrite Hc; apply Hs|].
  intros f Hf. by apply (i_evict s Hs), Hsub.
Qed.

(** find_victim_page hands out a frame that is free or droppable. *)
Lemma find_victim_spec s o s' :
  bp_inv s → find_victim_page s = (Ret o, s') →
  bp_inv s' ∧ pages s' = pages s ∧ page_table s' = page_table s ∧ disk s' = disk s ∧
  match o with
  | Some f => taken s' f ∧ pin_count (frame f s) = 0 ∧
      (resident (frame f s) → droppable s f) ∧
      (f ∈ free_list s ∨ f ∈ rep_frames (replacer s)) ∧
      (∀ g, g ≠ f → (g ∈ free_list s' ↔ g ∈ free_list s) ∧
                    (g ∈ rep_frames (replacer s') ↔ g ∈ rep_frames (replacer s)))
  | None => free_list s = [] ∧ rep_frames (replacer s) = [] ∧ s' = s
  end.
Proof.
  intros Hs E. unfold find_victim_page in E. destruct (free_list s) as [|f l] eqn:Ef.
  - destruct (victim (replacer s)) as [[f|] r] eqn:Ev; injection E as <- <-.
    + apply rep_victim_some in Ev as (Hin & Hr & Hc & Hg); [|apply Hs].
      destruct (i_evict s Hs f Hin) as (Hp & Hres & Hz & Hd).
      split; [apply set_replacer_inv; try done; intros g; rewrite Hg; by intros [? _]|].
      split_and!; try done; [|by right|].
      * split_and!; [done| |]; simpl; [rewrite Ef; set_solver|]. rewrite Hg. naive_solver.
      * intros g Hne. simpl. rewrite Ef, Hg. naive_solver.
    + apply rep_victim_none in Ev as (Hin & ->); [|apply Hs]. destruct s; simpl in *. by subst.
  - injection E as <- <-. destruct (i_free s Hs f) as [Hf Hr]; [rewrite Ef; constructor|].
    pose proof (i_nodup s Hs) as Hnd. rewrite Ef in Hnd. apply NoDup_cons in Hnd as [Hfl Hnd].
    split; [|split_and!; try done].
    + split; simpl; try apply Hs; [done|]. intros g Hg. apply (i_free s Hs). rewrite Ef. by constructor.
    + split_and!; [done|done|]. simpl. intros Hin. by apply (i_evict s Hs) in Hin as (_ & Hres & _).
    + by apply (i_page s Hs).
    + left. constructor.
    + intros g Hne. simpl. rewrite elem_of_cons. naive_solver.
Qed.

(** The table after frame [f] is retargeted from its page to [new]. *)
Definition retable s (f : Z) (new : PageId) : gmap PageId Z :=
  let t := if pid_no (id_ (frame f s)) =? INVALID_PAGE_ID then page_table s
           else delete (id_ (frame f s)) (page_table s) in
  if pid_no new =? INVALID_PAGE_ID then t else <[new := f]> t.

Lemma retable_lookup s f new q g :
  bp_inv s → in_pool s f → (pid_no new ≠ INVALID_PAGE_ID → page_table s !! new = None) →
  retable s f new !! q = Some g ↔
  (pid_no new ≠ INVALID_PAGE_ID ∧ q = new ∧ g = f) ∨ (page_table s !! q = Some g ∧ g ≠ f).
Proof.
  intros Hs Hf Hnew. unfold retable.
  assert ((if pid_no (id_ (frame f s)) =? INVALID_PAGE_ID then page_table s
           else delete (id_ (frame f s)) (page_table s)) !! q = Some g ↔
          page_table s !! q = Some g ∧ g ≠ f) as Ht.
  { destruct (Z.eqb_spec (pid_no (id_ (frame f s))) INVALID_PAGE_ID) as [E|E].
    - split; [|naive_solver]. intros Hq. split; [done|]. intros ->.
      apply (i_table s Hs) in Hq as (_ & <- & Hq & _). done.
    - rewrite lookup_delete_Some. split; intros [Ha Hb]; split; try done.
      + intros ->. apply Ha. symmetry. by apply (i_table s Hs) in Hb as (_ & <- & _).
      + intros <-. rewrite (i_ids s Hs) in Ha by done. congruence. }
  destruct (Z.eqb_spec (pid_no new) INVALID_PAGE_ID) as [E|E]; [rewrite Ht; naive_solver|].
  rewrite lookup_insert_Some, Ht. specialize (Hnew E). split.
  - intros [[<- <-]|[Hne Hq]]; [by left|by right].
  - intros [(_ & -> & ->)|[Hq Hg]]; [by left|]. right. split; [congruence|done].
Qed.

Definition retarget s (f : Z) (new : PageId) : bpm :=
  mkBPM (<[Z.to_nat f := mkPage new zero_page false 0]> (pages s)) (retable s f new)
        (free_list s) (disk s) (replacer s).

Lemma retarget_frame s f new g :
  in_pool s f → 0 ≤ g →
  frame g (retarget s f new) = if decide (g = f) then mkPage new zero_page false 0 else frame g s.
Proof.
  intros Hf Hg. change (frame g (retarget s f new)) with
    (frame g (set_frame f (mkPage new zero_page false 0) s)). case_decide as E.
  - subst. by apply frame_set_eq.
  - apply frame_set_ne; [apply Hf|done|done].
Qed.

Lemma retarget_inv s f new :
  bp_inv s → taken s f → (pid_no new ≠ INVALID_PAGE_ID →
    page_table s !! new = None ∧ disk_open (disk s) (pid_fd new)) →
  bp_inv (retarget s f new).
Proof.
  intros Hs (Hf & Hnf & Hnr) Hnew.
  assert (pid_no new ≠ INVALID_PAGE_ID → page_table s !! new = None) as Hn by naive_solver.
  assert (∀ g, in_pool (retarget s f new) g ↔ in_pool s g) as Hpool.
  { intros g. unfold in_pool, retarget. simpl. by rewrite length_insert. }
  split; try apply Hs; [intros p g|intros g|intros g|intros g| |intros g];
    simpl page_table; rewrite ?Hpool.
  - rewrite retable_lookup by done. intros [(Hnn & -> & ->)|[Hp Hne]].
    + rewrite retarget_frame, decide_True by (done || apply Hf). naive_solver.
    + apply (i_table s Hs) in Hp as (Hg & <- & ? & ?).
      rewrite retarget_frame, decide_False by (done || apply Hg). done.
  - intros Hg. rewrite retarget_frame by (done || apply Hg). unfold resident.
    rewrite retable_lookup by done. case_decide as E; simpl; intros Hr; [naive_solver|].
    right. split; [by apply (i_ids s Hs)|done].
  - intros Hg. apply (i_free s Hs) in Hg as Hg'. destruct Hg' as [Hg' Hr].
    assert (g ≠ f) by (intros ->; done).
    rewrite retarget_frame, decide_False by (done || apply Hg'). done.
  - intros Hg. rewrite retarget_frame by (done || apply Hg). case_decide; [|by apply (i_page s Hs)].
    cbn. split; [apply length_zero_page|lia].
  - simpl. rewrite length_insert. apply Hs.
  - simpl. intros Hg. destruct (i_evict s Hs g Hg) as (Hp & Hr & Hz & Hd).
    assert (g ≠ f) by (intros ->; done). unfold droppable.
    rewrite retarget_frame, decide_False by (done || apply Hp). done.
Qed.

Lemma update_page_eq s f new :
  update_page f new f s =
  if negb (pid_no (id_ (frame f s)) =? INVALID_PAGE_ID) && is_dirty (frame f s) then
    match disk_write (id_ (frame f s)) (data_ (frame f s)) (disk s) with
    | (Ret _, d) => (Ret tt, retarget (set_disk d s) f new)
    | (Throw e, d) => (Throw e, set_disk d s)
    end
  else (Ret tt, retarget s f new).
Proof.
  unfold update_page, on_disk, modify_st, get_st, mret, st_ret, mbind, st_bind, retarget, retable.
  change (frame f (set_disk _ s)) with (frame f s).
  destruct (pid_no (id_ (frame f s)) =? INVALID_PAGE_ID) eqn:E1; cbn -[zero_page frame Z.eqb Z.to_nat];
    [by destruct (pid_no new =? INVALID_PAGE_ID)|].
  destruct (is_dirty (frame f s)); cbn -[zero_page frame Z.eqb Z.to_nat]; [|by destruct (pid_no new =? INVALID_PAGE_ID)].
  destruct (disk_write _ _ _) as [[[]|e] d]; cbn -[zero_page frame Z.eqb Z.to_nat]; [|done].
  unfold set_frame, set_table. cbn -[zero_page frame Z.eqb Z.to_nat].
  destruct (pid_no new =? INVALID_PAGE_ID); cbn -[zero_page frame Z.eqb Z.to_nat];
    by rewrite list_insert_insert_eq.
Qed.

(** The state after frame [f] was emptied for page [new]: its old page is on
    disk and no other page of the disk was lost. *)
Definition emptied s f new s' : Prop :=
  frame f s' = mkPage new zero_page false 0 ∧ page_table s' = retable s f new ∧
  (∀ q bs, (resident (frame f s) → q ≠ id_ (frame f s)) → disk_page (disk s) q = Some bs →
     disk_page (disk s') q = Some bs) ∧
  (resident (frame f s) → disk_page (disk s') (id_ (frame f s)) = Some (data_ (frame f s))).

Lemma retarget_emptied s s1 f new :
  bp_inv s1 → taken s1 f → pages s1 = pages s → page_table s1 = page_table s →
  (∀ q bs, (resident (frame f s) → q ≠ id_ (frame f s)) → disk_page (disk s) q = Some bs →
     disk_page (disk s1) q = Some bs) →
  (resident (frame f s) → disk_page (disk s1) (id_ (frame f s)) = Some (data_ (frame f s))) →
  (pid_no new ≠ INVALID_PAGE_ID → page_table s !! new = None ∧ disk_open (disk s1) (pid_fd new)) →
  bp_inv (retarget s1 f new) ∧ same_but f s (retarget s1 f new) ∧ emptied s f new (retarget s1 f new).
Proof.
  intros Hs1 Ht1 Hpg Htb Hle Hw Hnew.
  assert (∀ g, frame g s1 = frame g s) as Hfr by (intros g; unfold frame; by rewrite Hpg).
  split; [|split; [split|split_and!]]; try done.
  - apply retarget_inv; [done|done|]. by rewrite Htb.
  - unfold retarget. simpl. by rewrite length_insert, Hpg.
  - intros g [Hg _] Hne. rewrite retarget_frame, decide_False by (done || apply Ht1). apply Hfr.
  - rewrite retarget_frame, decide_True by (done || apply Ht1). done.
  - simpl. unfold retable. by rewrite Hfr, Htb.
Qed.

Lemma update_page_spec s f new r s' :
  bp_inv s → taken s f → (resident (frame f s) → droppable s f) →
  (pid_no new ≠ INVALID_PAGE_ID → page_table s !! new = None ∧ disk_open (disk s) (pid_fd new)) →
  update_page f new f s = (r, s') →
  bp_inv s' ∧ same_but f s s' ∧ same_open s s' ∧
  free_list s' = free_list s ∧ replacer s' = replacer s ∧ (r = Ret tt → emptied s f new s').
Proof.
  intros Hs Ht Hdrop Hnew. rewrite update_page_eq. destruct (negb _ && _) eqn:E.
  - bool_prop. destruct Ht as (Hf & Ht).
    pose proof (i_ids s Hs f Hf ltac:(done)) as Hid. destruct (i_table s Hs _ _ Hid) as (_ & _ & _ & Hop).
    destruct (disk_write _ _ _) as [r0 d] eqn:Ew.
    apply disk_write_ok in Ew as (Hd & Hop' & Hle & Hr); [|apply Hs|done|by apply (i_page s Hs)].
    assert (bp_inv (set_disk d s)) as Hs1.
    { eapply set_disk_inv; try done. intros g Hg Eg. destruct (i_evict s Hs g Hg) as (Hgp & Hgr & _).
      apply (i_ids s Hs) in Hgr; [|done]. rewrite Eg, Hid in Hgr. simplify_eq. naive_solver. }
    destruct r0 as [[]|e]; intros E'; injection E' as <- <-; [|done].
    destruct (retarget_emptied s (set_disk d s) f new) as (? & ? & ?); try done.
    + intros q bs Hq. apply Hle. by apply Hq.
    + intros _. by apply Hr.
    + intros Hn. destruct (Hnew Hn). split; [done|by apply Hop'].
  - intros E'. injection E' as <- <-.
    destruct (retarget_emptied s s f new) as (? & ? & ?); try done.
    intros Hr. apply (Hdrop Hr). destruct (is_dirty _); [|done].
    apply andb_false_iff in E as [E|E]; bool_prop; [|done]. by unfold resident in Hr.
Qed.

Lemma view_frame s p f : page_table s !! p = Some f → view s p = Some (data_ (frame f s)).
Proof. unfold view. by intros ->. Qed.

(** Emptying a frame for [new] loses no page: a client sees every other page
    as before. *)
Lemma emptied_view s f new s' :
  bp_inv s → in_pool s f → same_but f s s' →
  (pid_no new ≠ INVALID_PAGE_ID → page_table s !! new = None) → emptied s f new s' →
  (∀ p bs, p ≠ new → view s p = Some bs → view s' p = Some bs) ∧
  (∀ p, p ≠ new → pin_count (frame f s) = 0 → pins s' p = pins s p) ∧
  (∀ bs, page_table s !! new = None → disk_page (disk s) new = Some bs →
         disk_page (disk s') new = Some bs).
Proof.
  intros Hs Hf Hsame Hnew (Hfr & Ht & Hle & Hold).
  assert (∀ p g, p ≠ new → page_table s' !! p = Some g ↔ page_table s !! p = Some g ∧ g ≠ f) as Hlk.
  { intros p g Hp. rewrite Ht, retable_lookup by done. naive_solver. }
  assert (∀ p g, page_table s !! p = Some g → g ≠ f → frame g s' = frame g s) as Hg.
  { intros p g Hp Hne. apply (i_table s Hs) in Hp as [Hg _]. by apply Hsame. }
  split_and!.
  - intros p bs Hp Hv. unfold view in Hv |- *. destruct (page_table s !! p) as [g|] eqn:Eg.
    + destruct (decide (g = f)) as [->|Hne].
      * destruct (page_table s' !! p) as [g|] eqn:Eg'; [apply Hlk in Eg'; naive_solver|].
        destruct (i_table s Hs _ _ Eg) as (_ & Eid & Hr & _). rewrite <- Eid, Hold; [done|].
        unfold resident. by rewrite Eid.
      * rewrite (proj2 (Hlk p g Hp)) by done. by rewrite (Hg p g).
    + destruct (page_table s' !! p) as [g|] eqn:Eg'; [apply Hlk in Eg'; naive_solver|].
      apply Hle; [|done]. intros Hr ->. apply (i_ids s Hs) in Hr; [congruence|done].
  - intros p Hp Hz. unfold pins. destruct (page_table s !! p) as [g|] eqn:Eg.
    + destruct (decide (g = f)) as [->|Hne].
      * destruct (page_table s' !! p) as [g|] eqn:Eg'; [apply Hlk in Eg'; naive_solver|]. lia.
      * rewrite (proj2 (Hlk p g Hp)) by done. by rewrite (Hg p g).
    + destruct (page_table s' !! p) as [g|] eqn:Eg'; [apply Hlk in Eg'; naive_solver|done].
  - intros bs Hn Hd. apply Hle; [|done]. intros Hr ->. apply (i_ids s Hs) in Hr; [congruence|done].
Qed.

(** What holds of the frames that were pinned: same page, same bytes, and
    clean ones are still backed by the disk. *)
Definition stable s s' : Prop :=
  ∀ g, in_pool s g → 0 < pin_count (frame g s) →
    id_ (frame g s') = id_ (frame g s) ∧ data_ (frame g s') = data_ (frame g s) ∧
    0 < pin_count (frame g s') ∧ (droppable s g → droppable s' g).

(** A call gave the caller a pin on page [p], in frame [f]. *)
Record handed s (p : PageId) (f : Z) s' : Prop := {
  h_pool : in_pool s' f;
  h_table : page_table s' !! p = Some f;
  h_pin : pin_count (frame f s') = pins s p + 1;
  h_pins q : q ≠ p → pins s' q = pins s q;
  h_view q bs : q ≠ p → view s q = Some bs → view s' q = Some bs;
  h_stable : stable s s';
  h_full : bp_full s → bp_full s';
  h_len : length (pages s') = length (pages s);
  h_res q : is_Some (page_table s' !! q) → is_Some (page_table s !! q) ∨ q = p
}.

Lemma replacer_pin_inv s f : bp_inv s → bp_inv (set_replacer (pin f (replacer s)) s).
Proof.
  intros Hs. destruct (rep_pin (replacer s) f) as (Hr & Hc & Hg); [apply Hs|].
  apply set_replacer_inv; try done. intros g. rewrite Hg. naive_solver.
Qed.

Lemma rep_pin_elem s f g : bp_inv s →
  g ∈ rep_frames (pin f (replacer s)) ↔ g ∈ rep_frames (replacer s) ∧ g ≠ f.
Proof. intros Hs. by destruct (rep_pin (replacer s) f) as (_ & _ & Hg); [apply Hs|]. Qed.

(** page->pin_count_ = c; replacer_->pin(f) *)
Definition repin s f c : bpm :=
  set_replacer (pin f (replacer s))
    (set_frame f (mkPage (id_ (frame f s)) (data_ (frame f s)) (is_dirty (frame f s)) c) s).

Lemma repin_inv s f c :
  bp_inv s → in_pool s f → f ∉ free_list s → 0 ≤ c → (¬ resident (frame f s) → c = 0) →
  bp_inv (repin s f c).
Proof.
  intros Hs Hf Hn Hc Hr. change (repin s f c) with
    (set_frame f (mkPage (id_ (frame f s)) (data_ (frame f s)) (is_dirty (frame f s)) c)
       (set_replacer (pin f (replacer s)) s)).
  apply set_frame_inv; simpl; try done.
  - by apply replacer_pin_inv.
  - split_and!; [done|done|]. simpl. rewrite rep_pin_elem by done. naive_solver.
  - by apply (i_page s Hs).
Qed.

Lemma repin_frame s f c g : in_pool s f → 0 ≤ g →
  frame g (repin s f c) =
  if decide (g = f) then mkPage (id_ (frame f s)) (data_ (frame f s)) (is_dirty (frame f s)) c
  else frame g s.
Proof.
  intros Hf Hg. change (frame g (repin s f c)) with (frame g (set_frame f
    (mkPage (id_ (frame f s)) (data_ (frame f s)) (is_dirty (frame f s)) c) s)).
  case_decide as E; [subst; by apply frame_set_eq|by apply frame_set_ne; [apply Hf|..]].
Qed.

Lemma in_pool_repin s f c g : in_pool (repin s f c) g ↔ in_pool s g.
Proof. apply in_pool_set. Qed.

Lemma fetch_hit s p f :
  bp_inv s → page_table s !! p = Some f →
  fetch_page p s = (Ret (Some f), repin s f (pin_count (frame f s) + 1)) ∧
  bp_inv (repin s f (pin_count (frame f s) + 1)) ∧
  handed s p f (repin s f (pin_count (frame f s) + 1)) ∧
  (∀ q, view (repin s f (pin_count (frame f s) + 1)) q = view s q) ∧
  (droppable s f → droppable (repin s f (pin_count (frame f s) + 1)) f).
Proof.
  intros Hs Hp. set (s' := repin s f _). destruct (i_table s Hs p f Hp) as (Hf & Hid & Hno & Hop).
  assert (resident (frame f s)) as Hres by (unfold resident; by rewrite Hid).
  destruct (i_page s Hs f Hf) as (_ & Hz & _).
  assert (f ∉ free_list s) as Hnf by (intros Hin; by apply (i_free s Hs) in Hin as [_ ?]).
  assert (∀ g, 0 ≤ g → data_ (frame g s') = data_ (frame g s) ∧ id_ (frame g s') = id_ (frame g s) ∧
            is_dirty (frame g s') = is_dirty (frame g s)) as Hsame.
  { intros g Hg. unfold s'. rewrite repin_frame by done. by case_decide; subst. }
  assert (∀ g, 0 ≤ g → droppable s g → droppable s' g) as Hdrop.
  { intros g Hg. destruct (Hsame g Hg) as (E1 & E2 & E3). unfold droppable. by rewrite E1, E2, E3. }
  assert (∀ q g, page_table s !! q = Some g → 0 ≤ g) as Hge.
  { intros q g Hq. by apply (i_table s Hs) in Hq as [[? _] _]. }
  split; [unfold fetch_page, set_pin, replacer_pin, modify_st, get_st, mret, st_ret, mbind, st_bind;
          by rewrite Hp|].
  split; [apply repin_inv; [done|done|done|lia|done]|].
  split; [|split; [|apply Hdrop; apply Hf]].
  - split.
    + by apply in_pool_repin.
    + done.
    + unfold s', pins. rewrite Hp, repin_frame, decide_True by (done || apply Hf). done.
    + intros q Hne. unfold pins. change (page_table s') with (page_table s).
      destruct (page_table s !! q) as [g|] eqn:Eq; [|done]. unfold s'.
      rewrite repin_frame, decide_False; [done| |done|by eapply Hge].
      intros ->. by apply Hne, (table_inj s q p f).
    + intros q bs _. unfold view. change (page_table s') with (page_table s).
      destruct (page_table s !! q) as [g|] eqn:Eq; [|done]. by rewrite (proj1 (Hsame g (Hge q g Eq))).
    + intros g Hg Hpin. destruct (Hsame g) as (-> & -> & _); [apply Hg|].
      split_and!; try done; [|apply Hdrop, Hg]. unfold s'. rewrite repin_frame by (done || apply Hg).
      case_decide; [simpl; lia|done].
    + intros Hfull g. unfold s'. rewrite in_pool_repin. intros Hg.
      rewrite repin_frame by (done || apply Hg). simpl. rewrite rep_pin_elem by done.
      case_decide as E; [simpl; right; right; lia|]. destruct (Hfull g Hg) as [?|[?|?]]; auto.
    + simpl. by rewrite length_insert.
    + intros q Hq. by left.
  - intros q. unfold view. change (page_table s') with (page_table s).
    destruct (page_table s !! q) as [g|] eqn:Eq; [|done]. by rewrite (proj1 (Hsame g (Hge q g Eq))).
Qed.

(** A frame [f] has been taken out of the free list or the replacer. *)
Record victimized s (f : Z) s1 : Prop := {
  v_inv : bp_inv s1;
  v_pages : pages s1 = pages s;
  v_table : page_table s1 = page_table s;
  v_open : same_open s s1;
  v_disk : page_le (disk_page (disk s)) (disk_page (disk s1));
  v_taken : taken s1 f;
  v_unpinned : pin_count (frame f s) = 0;
  v_drop : resident (frame f s1) → droppable s1 f;
  v_full g : bp_full s → in_pool s g → g ≠ f →
    g ∈ free_list s1 ∨ g ∈ rep_frames (replacer s1) ∨ 0 < pin_count (frame g s1)
}.

(** Frame [f] has been retargeted to page [p] and holds [bs], not pinned yet. *)
Record installed s (p : PageId) (f : Z) (bs : list Z) s2 : Prop := {
  n_inv : bp_inv s2;
  n_taken : taken s2 f;
  n_frame : frame f s2 = mkPage p bs false 0;
  n_table : page_table s2 !! p = Some f;
  n_len : length (pages s2) = length (pages s);
  n_pins q : q ≠ p → pins s2 q = pins s q;
  n_view q c : q ≠ p → view s q = Some c → view s2 q = Some c;
  n_stable : stable s s2;
  n_full g : bp_full s → in_pool s g → g ≠ f →
    g ∈ free_list s2 ∨ g ∈ rep_frames (replacer s2) ∨ 0 < pin_count (frame g s2);
  n_res q : is_Some (page_table s2 !! q) → is_Some (page_table s !! q) ∨ q = p
}.

Lemma find_victim_victimized s f s1 :
  bp_inv s → find_victim_page s = (Ret (Some f), s1) → victimized s f s1.
Proof.
  intros Hs E. apply find_victim_spec in E as (Hs1 & Hp & Ht & Hd & Htk & Hz & Hdr & _ & Hg); [|done].
  assert (∀ g, frame g s1 = frame g s) as Hfr by (intros g; unfold frame; by rewrite Hp).
  split; try done.
  - intros fd. by rewrite Hd.
  - by rewrite Hd.
  - unfold droppable. by rewrite Hfr, Hd.
  - intros g Hfull Hpool Hne. destruct (Hg g Hne) as [-> ->]. rewrite Hfr. by apply Hfull.
Qed.

Lemma victimized_disk s f s1 d :
  victimized s f s1 → disk_wf d → (∀ fd, disk_open d fd ↔ disk_open (disk s1) fd) →
  page_le (disk_page (disk s1)) (disk_page d) → victimized s f (set_disk d s1).
Proof.
  intros [Hi ? ? Hop ? ? ? Hdr ?] Hd Ho Hle. split; try done.
  - apply (set_disk_inv d s1 (mkPageId 0 INVALID_PAGE_ID)); try done; [intros q c _; apply Hle|].
    intros g Hg E. destruct (i_evict s1 Hi g Hg) as (_ & Hr & _). by apply Hr; rewrite E.
  - intros fd. rewrite (Ho fd). apply Hop.
  - by etransitivity.
  - intros Hr Hc. apply Hle. by apply Hdr.
Qed.

Lemma update_page_installed s f s1 p r s2 :
  bp_inv s → victimized s f s1 → pid_no p ≠ INVALID_PAGE_ID → page_table s !! p = None →
  disk_open (disk s) (pid_fd p) → update_page f p f s1 = (r, s2) →
  bp_inv s2 ∧ same_open s s2 ∧
  (r = Ret tt → installed s p f zero_page s2 ∧
     ∀ bs, disk_page (disk s) p = Some bs → disk_page (disk s2) p = Some bs).
Proof.
  intros Hs [Hi Hpg Htb Hop Hdk Htk Hz Hdr Hfull] Hno Hp Ho E.
  apply update_page_spec in E as (Hs2 & Hsame & Hop2 & Hfr2 & Hrp2 & Hem); try done; cycle 1.
  { intros _. rewrite Htb. split; [done|by apply Hop]. }
  split; [done|]. split; [intros fd; by rewrite (Hop2 fd)|]. intros Hr. specialize (Hem Hr).
  assert (∀ g, frame g s1 = frame g s) as Hf1 by (intros g; unfold frame; by rewrite Hpg).
  assert (page_table s1 !! p = None) as Hp1 by by rewrite Htb.
  destruct Htk as (Hf & Hnf & Hnr). destruct (emptied_view s1 f p s2) as (Hv & Hpn & Hdn); try done.
  destruct Hem as (Hfr & Ht & Hle & Hold). destruct Hsame as [Hlen Hsame].
  assert (∀ g, in_pool s1 g ↔ in_pool s g) as Hpool by (intros g; unfold in_pool; by rewrite Hpg).
  split; [split|]; try done.
  - split_and!; [|by rewrite Hfr2|by rewrite Hrp2]. unfold in_pool. by rewrite Hlen.
  - rewrite Ht. apply retable_lookup; [done|done|done|]. by left.
  - by rewrite Hlen, Hpg.
  - intros q Hq. rewrite Hpn by (done || by rewrite Hf1). unfold pins. rewrite Htb.
    destruct (page_table s !! q); [by rewrite Hf1|done].
  - intros q c Hq Hvq. apply Hv; [done|]. unfold view in Hvq |- *. rewrite Htb.
    destruct (page_table s !! q); [by rewrite Hf1|by apply Hdk].
  - intros g Hg Hpin. assert (g ≠ f) by (intros ->; lia).
    rewrite Hsame, Hf1 by (done || by apply Hpool). split_and!; try done.
    unfold droppable. rewrite Hsame, Hf1 by (done || by apply Hpool). intros Hd Hc.
    apply Hle; [|by apply Hdk, Hd]. rewrite Hf1. intros Hres Eid.
    assert (in_pool s f) as Hfs by by apply Hpool.
    assert (resident (frame g s)) as Hgr.
    { destruct (i_page s Hs g Hg) as (_ & _ & Hz'). intros Hn.
      rewrite Hz' in Hpin; [lia|]. by intros Hx; apply Hx. }
    apply (i_ids s Hs) in Hres, Hgr; try done. rewrite Eid in Hgr. congruence.
  - intros g Hb Hg Hne. rewrite Hfr2, Hrp2, Hsame by (done || by apply Hpool). by apply Hfull.
  - intros q [g Hq]. rewrite Ht, retable_lookup in Hq by done. rewrite Htb in Hq. naive_solver.
  - intros bs Hd. apply Hdn; [done|]. by apply Hdk.
Qed.

Lemma fill_zero bs : Z.of_nat (length bs) = PAGE_SIZE → fill_page bs zero_page = bs.
Proof.
  intros H0'. unfold fill_page, splice. rewrite take_0. simpl.
  rewrite drop_ge, app_nil_r; [done|]. pose proof length_zero_page. unfold PAGE_SIZE in *. lia.
Qed.

Lemma read_into_installed s p f s2 r s3 :
  installed s p f zero_page s2 → read_into f p s2 = (r, s3) →
  bp_inv s3 ∧ same_open s2 s3 ∧
  (r = Ret tt → ∃ bs, disk_page (disk s2) p = Some bs ∧ disk_page (disk s3) p = Some bs ∧
                      installed s p f bs s3).
Proof.
  intros [Hs2 Htk Hfr Ht Hlen Hpins Hview Hst Hfull Hres2] E. unfold read_into in E.
  destruct (disk_read p (disk s2)) as [[bytes r0] d] eqn:Er. injection E as <- <-.
  destruct (i_table s2 Hs2 p f Ht) as (Hf & _ & Hno & Hop).
  apply disk_read_ok in Er as (Hd & Ho & Hle & Hr & _ & Hlb); [|apply Hs2|done].
  rewrite Hfr. simpl. set (pg := mkPage p (fill_page bytes zero_page) false 0).
  assert (bp_inv (set_disk d s2)) as Hs2'.
  { apply (set_disk_inv d s2 p); try done; [intros q c _; apply Hle|].
    intros g Hg Eg. destruct (i_evict s2 Hs2 g Hg) as (Hgp & Hgr & _).
    apply (i_ids s2 Hs2) in Hgr; [|done]. rewrite Eg, Ht in Hgr. simplify_eq. by apply Htk. }
  assert (Z.of_nat (length (fill_page bytes zero_page)) = PAGE_SIZE) as Hlf.
  { unfold fill_page. rewrite length_splice; [apply length_zero_page|].
    pose proof length_zero_page. unfold PAGE_SIZE in *. lia. }
  assert (bp_inv (set_frame f pg (set_disk d s2))) as Hs3.
  { apply set_frame_inv; try done. by change (frame f (set_disk d s2)) with (frame f s2); rewrite Hfr. }
  split; [done|]. split; [done|]. intros Hr'. specialize (Hr Hr'). exists bytes.
  split; [done|]. split; [by apply Hle|].
  assert (fill_page bytes zero_page = bytes) as Efill by by eapply fill_zero, disk_page_len.
  assert (∀ g, 0 ≤ g → g ≠ f → frame g (set_frame f pg (set_disk d s2)) = frame g s2) as Hoth.
  { intros g Hg Hne. rewrite frame_set_ne by (done || apply Hf). done. }
  assert (∀ q g, page_table s2 !! q = Some g → q ≠ p → 0 ≤ g ∧ g ≠ f) as Hqg.
  { intros q g Hq Hne. split; [by apply (i_table s2 Hs2) in Hq as [[? _] _]|].
    intros ->. by apply Hne, (table_inj s2 q p f). }
  split; try done.
  - split_and!; [by apply in_pool_set|apply Htk|apply Htk].
  - rewrite frame_set_eq by done. unfold pg. by rewrite Efill.
  - simpl. by rewrite length_insert.
  - intros q Hq. rewrite <- Hpins by done. unfold pins. simpl.
    destruct (page_table s2 !! q) as [g|] eqn:Eg; [|done]. destruct (Hqg q g Eg Hq). by rewrite Hoth.
  - intros q c Hq Hv. apply Hview in Hv; [|done]. unfold view in Hv |- *. simpl.
    destruct (page_table s2 !! q) as [g|] eqn:Eg; [|by apply Hle].
    destruct (Hqg q g Eg Hq). by rewrite Hoth.
  - intros g Hg Hpin. destruct (Hst g Hg Hpin) as (E1 & E2 & E3 & E4).
    assert (g ≠ f) by (intros ->; rewrite Hfr in E3; simpl in E3; lia).
    unfold droppable. rewrite Hoth by (done || apply Hg). split_and!; try done.
    intros Hdr Hc. apply Hle. by apply E4.
  - intros g Hb Hg Hne. rewrite Hoth by (done || apply Hg). by apply Hfull.
Qed.

Lemma installed_pinned s p f bs s3 :
  page_table s !! p = None → installed s p f bs s3 →
  bp_inv (repin s3 f 1) ∧ handed s p f (repin s3 f 1) ∧
  data_ (frame f (repin s3 f 1)) = bs ∧ view (repin s3 f 1) p = Some bs ∧
  (disk_page (disk s3) p = Some bs → droppable (repin s3 f 1) f).
Proof.
  intros Hp [Hs3 Htk Hfr Ht Hlen Hpins Hview Hst Hfull Hres3].
  destruct Htk as (Hf & Hnf & Hnr). destruct (i_table s3 Hs3 p f Ht) as (_ & _ & Hno & _).
  assert (∀ g, 0 ≤ g → frame g (repin s3 f 1) =
            if decide (g = f) then mkPage p bs false 1 else frame g s3) as Hg.
  { intros g H0'. rewrite repin_frame by done. by rewrite Hfr. }
  assert (frame f (repin s3 f 1) = mkPage p bs false 1) as Hff
    by (rewrite Hg, decide_True by (done || apply Hf); done).
  assert (∀ q g, page_table s3 !! q = Some g → q ≠ p → 0 ≤ g ∧ g ≠ f) as Hqg.
  { intros q g Hq Hne. split; [by apply (i_table s3 Hs3) in Hq as [[? _] _]|].
    intros ->. by apply Hne, (table_inj s3 q p f). }
  split_and!; [| |by rewrite Hff| |].
  - apply repin_inv; [done|done|done|lia|]. rewrite Hfr. intros Hr. by exfalso; apply Hr.
  - split.
    + by apply in_pool_repin.
    + done.
    + unfold pins. by rewrite Hff, Hp.
    + intros q Hq. rewrite <- Hpins by done. unfold pins. simpl.
      destruct (page_table s3 !! q) as [g|] eqn:Eg; [|done]. destruct (Hqg q g Eg Hq).
      by rewrite Hg, decide_False.
    + intros q c Hq Hv. apply Hview in Hv; [|done]. unfold view in Hv |- *. simpl.
      destruct (page_table s3 !! q) as [g|] eqn:Eg; [|done]. destruct (Hqg q g Eg Hq).
      by rewrite Hg, decide_False.
    + intros g Hgp Hpin. destruct (Hst g Hgp Hpin) as (E1 & E2 & E3 & E4).
      assert (g ≠ f) by (intros ->; rewrite Hfr in E3; simpl in E3; lia).
      unfold droppable. by rewrite Hg, decide_False by (done || apply Hgp).
    + intros Hb g. rewrite in_pool_repin. unfold in_pool. rewrite Hlen. intros Hgp.
      rewrite Hg by (apply Hgp). simpl. rewrite rep_pin_elem by done.
      case_decide as E; [simpl; right; right; lia|]. destruct (Hfull g Hb Hgp E) as [?|[?|?]]; auto.
    + simpl. by rewrite length_insert.
    + done.
  - unfold view. simpl. by rewrite Ht, Hff.
  - intros Hd _. by rewrite Hff.
Qed.

Lemma fetch_page_spec s p r s' :
  bp_inv s → pid_no p ≠ INVALID_PAGE_ID → disk_open (disk s) (pid_fd p) → fetch_page p s = (r, s') →
  bp_inv s' ∧ same_open s s' ∧
  match r with
  | Ret (Some f) =>
      handed s p f s' ∧ page_le (view s) (view s') ∧
      (bp_full s → pins s p = 0 → droppable s' f)
  | Ret None => s' = s ∧ page_table s !! p = None ∧ free_list s = [] ∧ rep_frames (replacer s) = []
  | Throw _ => True
  end.
Proof.
  intros Hs Hno Hop E. destruct (page_table s !! p) as [f|] eqn:Ep.
  - destruct (fetch_hit s p f Hs Ep) as (E' & Hi & Hh & Hv & Hd). rewrite E' in E.
    injection E as <- <-. split; [done|]. split; [done|]. split; [done|].
    split; [intros q c; by rewrite Hv|].
    intros Hfull Hz. apply Hd. destruct (i_table s Hs p f Ep) as (Hf & Hid & _).
    unfold pins in Hz. rewrite Ep in Hz. destruct (Hfull f Hf) as [Hin|[Hin|Hin]]; [|by apply Hs|lia].
    apply (i_free s Hs) in Hin as [_ Hn]. unfold resident in Hn. by rewrite Hid in Hn.
  - unfold fetch_page, mbind, st_bind, get_st in E. rewrite Ep in E.
    destruct (find_victim_page s) as [[v|e] s1] eqn:Ev; [|by unfold find_victim_page in Ev; repeat case_match].
    destruct v as [f|].
    2:{ apply find_victim_spec in Ev as (_ & _ & _ & _ & ? & ? & ->); [|done]. by inv E. }
    apply find_victim_victimized in Ev; [|done].
    destruct (update_page f p f s1) as [[[]|e] s2] eqn:Eu;
      eapply update_page_installed in Eu as (Hs2 & Ho2 & Hu); try done; [|by inv E].
    destruct (Hu eq_refl) as [Hin Hdk].
    destruct (read_into f p s2) as [[[]|e] s3] eqn:Er;
      eapply read_into_installed in Er as (Hs3 & Ho3 & Hr); try done;
      (assert (same_open s s3) as Hos by (intros fd; by rewrite (Ho3 fd))); [|by inv E].
    destruct (Hr eq_refl) as (bs & Hb2 & Hb3 & Hin3).
    destruct (installed_pinned s p f bs s3 Ep Hin3) as (Hi & Hh & Hdat & Hv & Hd).
    injection E as <- <-. fold (repin s3 f 1). split; [done|]. split; [done|].
    assert (∀ c, view s p = Some c → c = bs) as Hvp.
    { intros c. unfold view. rewrite Ep. intros Hc. apply Hdk in Hc. congruence. }
    split; [done|]. split; [|by intros _ _; apply Hd].
    intros q c Hq. destruct (decide (q = p)) as [->|]; [by rewrite (Hvp c Hq)|].
    by apply (h_view _ _ _ _ Hh).
Qed.

Lemma new_page_spec s fd r s' :
  bp_inv s → disk_open (disk s) fd →
  (∀ n d, disk_allocate fd (disk s) = (Ret n, d) →
     n ≠ INVALID_PAGE_ID ∧ page_table s !! mkPageId fd n = None) →
  new_page fd s = (r, s') →
  bp_inv s' ∧ same_open s s' ∧
  match r with
  | Ret (Some (f, p)) =>
      handed s p f s' ∧ view s' p = Some zero_page ∧ pid_fd p = fd ∧
      ∃ d, disk_allocate fd (disk s) = (Ret (pid_no p), d)
  | Ret None => s' = s ∧ free_list s = [] ∧ rep_frames (replacer s) = []
  | Throw _ => True
  end.
Proof.
  intros Hs Hop Hal E. unfold new_page, mbind, st_bind in E.
  destruct (find_victim_page s) as [[v|e] s1] eqn:Ev; [|by unfold find_victim_page in Ev; repeat case_match].
  destruct v as [f|].
  2:{ apply find_victim_spec in Ev as (_ & _ & _ & _ & ? & ? & ->); [|done]. by inv E. }
  assert (disk s1 = disk s) as Ed by by apply find_victim_spec in Ev as (_ & _ & _ & ? & _).
  apply find_victim_victimized in Ev; [|done]. unfold on_disk in E.
  destruct (disk_allocate fd (disk s1)) as [rn d] eqn:Ea. rewrite Ed in Ea.
  pose proof Ea as Ea'. apply disk_allocate_ok in Ea' as (Hd & Ho & Hle); [|apply Hs].
  rewrite <- Ed in Hle. assert (victimized s f (set_disk d s1)) as Hv1.
  { apply victimized_disk; try done. by rewrite Ed. }
  assert (same_open s (set_disk d s1)) as Hos by apply Hv1.
  destruct rn as [n|e]; [|inv E; split; [apply Hv1|done]].
  destruct (Hal n d Ea) as [Hn Hfresh].
  destruct (update_page f (mkPageId fd n) f (set_disk d s1)) as [[[]|e] s2] eqn:Eu;
    eapply update_page_installed in Eu as (Hs2 & Ho2 & Hu); try done; [|by inv E].
  destruct (Hu eq_refl) as [Hin _].
  destruct (installed_pinned s _ f _ s2 Hfresh Hin) as (Hi & Hh & Hdat & Hv & _).
  injection E as <- <-. fold (repin s2 f 1). split_and!; try done. by exists d.
Qed.

Lemma evictable_room s f :
  bp_inv s → in_pool s f → f ∉ rep_frames (replacer s) →
  Z.of_nat (length (rep_frames (replacer s))) < rep_cap (replacer s).
Proof.
  intros Hs Hf Hn. rewrite (i_cap s Hs).
  assert (f :: rep_frames (replacer s) ⊆+ seqZ 0 (Z.of_nat (length (pages s)))) as Hsub.
  { apply NoDup_submseteq; [constructor; [done|apply rep_nodup, Hs]|].
    intros g. rewrite elem_of_cons, elem_of_seqZ. intros [->|Hg]; [unfold in_pool in Hf; lia|].
    destruct (i_evict s Hs g Hg) as [Hp _]. unfold in_pool in Hp. lia. }
  apply submseteq_length in Hsub. rewrite length_seqZ in Hsub. simpl in Hsub. lia.
Qed.

(** unpin_page on a page the caller has pinned: with [dirty] false the caller
    promises that the frame still agrees with the disk if it is clean. *)
Lemma unpin_page_spec s p f dirty :
  bp_inv s → page_table s !! p = Some f → 0 < pin_count (frame f s) →
  (dirty = false → droppable s f) →
  ∃ s', unpin_page p dirty s = (Ret true, s') ∧ bp_inv s' ∧ disk s' = disk s ∧
    page_table s' = page_table s ∧ same_but f s s' ∧
    frame f s' = mkPage (id_ (frame f s)) (data_ (frame f s)) (is_dirty (frame f s) || dirty)
                        (pin_count (frame f s) - 1) ∧
    (bp_full s → bp_full s').
Proof.
  intros Hs Hp Hpin Hdr. destruct (i_table s Hs p f Hp) as (Hf & Hid & Hno & _).
  set (pg := mkPage (id_ (frame f s)) (data_ (frame f s)) (is_dirty (frame f s) || dirty)
                    (pin_count (frame f s) - 1)).
  pose proof (pinned_taken s f Hs Hf Hpin) as Htk.
  assert (bp_inv (set_frame f pg s)) as Hs1.
  { apply set_frame_inv; simpl; try done; [by apply (i_page s Hs)|lia|].
    unfold resident. simpl. rewrite Hid. by intros []. }
  assert (∀ g, 0 ≤ g → g ≠ f → frame g (set_frame f pg s) = frame g s) as Hoth.
  { intros g Hg Hne. by apply frame_set_ne; [apply Hf|..]. }
  assert (droppable (set_frame f pg s) f) as Hdr'.
  { unfold droppable. rewrite frame_set_eq by done. simpl. intros Hc.
    apply orb_false_iff in Hc as [Hc ->]. by apply Hdr. }
  unfold unpin_page, mbind, st_bind, get_st. rewrite Hp.
  destruct (Z.leb_spec (pin_count (frame f s)) 0); [lia|]. simpl. fold pg.
  destruct (Z.eqb_spec (pin_count (frame f s) - 1) 0) as [Ez|Ez].
  - eexists. split; [reflexivity|].
    destruct (rep_unpin (replacer s) f) as (Hr & Hc & Hg); [apply Hs|by eapply evictable_room, Htk|].
    split_and!; try done; [| |by apply frame_set_eq|].
    + destruct Hs1 as [J1 J2 J3 J4 J5 J6 J7 J8 J9]. split; simpl; try done; [by rewrite Hc|].
      intros g. rewrite Hg. intros [Hin| ->]; [by apply J8|].
      split_and!; [by apply in_pool_set| | |done].
      * change (resident (frame f (set_frame f pg s))). unfold resident.
        rewrite frame_set_eq by done. simpl. by rewrite Hid.
      * change (frame f _) with (frame f (set_frame f pg s)). by rewrite frame_set_eq.
    + split; [simpl; by rewrite length_insert|]. intros g [? _] ?. by apply Hoth.
    + intros Hfull g. unfold in_pool. simpl. rewrite length_insert, Hg. intros Hgp.
      destruct (decide (g = f)) as [->|Hne]; [by right; left; right|].
      change (frame g _) with (frame g (set_frame f pg s)). rewrite Hoth by (done || apply Hgp).
      destruct (Hfull g Hgp) as [?|[?|?]]; auto.
  - eexists. split; [reflexivity|]. split_and!; try done; [|by apply frame_set_eq|].
    + split; [simpl; by rewrite length_insert|]. intros g [? _] ?. by apply Hoth.
    + intros Hfull g. rewrite in_pool_set. intros Hgp.
      destruct (decide (g = f)) as [->|Hne]; [right; right; rewrite frame_set_eq by done; simpl; lia|].
      rewrite Hoth by (done || apply Hgp). by apply Hfull.
Qed.

(** A change of one frame that keeps its page: what the other pages look like. *)
Lemma same_but_view s s' p f :
  bp_inv s → page_table s !! p = Some f → page_table s' = page_table s → disk s' = disk s →
  same_but f s s' →
  view s' p = Some (data_ (frame f s')) ∧ pins s' p = pin_count (frame f s') ∧
  ∀ q, q ≠ p → view s' q = view s q ∧ pins s' q = pins s q.
Proof.
  intros Hs Hp Ht Hd [_ Hsame]. unfold view, pins. rewrite Ht, Hd, Hp. split_and!; try done.
  intros q Hq. destruct (page_table s !! q) as [g|] eqn:Eg; [|done].
  rewrite Hsame; [done|by apply (i_table s Hs) in Eg as [? _]|].
  intros ->. by apply Hq, (table_inj s q p f).
Qed.

Lemma put_data_spec s f bs :
  bp_inv s → in_pool s f → 0 < pin_count (frame f s) → Z.of_nat (length bs) = PAGE_SIZE →
  bp_inv (put_data f bs s) ∧ same_but f s (put_data f bs s) ∧
  frame f (put_data f bs s) = mkPage (id_ (frame f s)) bs (is_dirty (frame f s)) (pin_count (frame f s)) ∧
  (bp_full s → bp_full (put_data f bs s)).
Proof.
  intros Hs Hf Hpin Hl. pose proof (pinned_taken s f Hs Hf Hpin) as Htk. unfold put_data.
  split_and!; [| |by apply frame_set_eq|].
  - apply set_frame_inv; simpl; try done; [lia|]. unfold resident. simpl. intros Hn.
    destruct (i_page s Hs f Hf) as (_ & _ & Hz). by apply Hz.
  - split; [simpl; by rewrite length_insert|]. intros g [? _] ?. by apply frame_set_ne; [apply Hf|..].
  - intros Hfull g. rewrite in_pool_set. intros Hg. destruct (decide (g = f)) as [->|].
    + right; right. by rewrite frame_set_eq.
    + rewrite frame_set_ne by (done || apply Hf || apply Hg). by apply Hfull.
Qed.

(** The effect of a call on what clients see: no page is lost, pins and open
    files are as before. *)
Record quiet s s' : Prop := {
  q_inv : bp_inv s';
  q_view : page_le (view s) (view s');
  q_pins p : pins s' p = pins s p;
  q_open : same_open s s';
  q_stable : stable s s';
  q_full : bp_full s → bp_full s'
}.

Lemma stable_refl s : stable s s.
Proof. intros g Hg Hp. auto. Qed.

Lemma stable_trans s1 s2 s3 :
  (∀ g, in_pool s1 g → in_pool s2 g) → stable s1 s2 → stable s2 s3 → stable s1 s3.
Proof.
  intros Hp H12 H23 g Hg Hpin. destruct (H12 g Hg Hpin) as (F1 & F2 & Hp2 & Hd).
  destruct (H23 g (Hp g Hg) Hp2) as (E1 & E2 & E3 & Hd'). split_and!; [congruence|congruence|done|]. auto.
Qed.

Lemma quiet_refl s : bp_inv s → quiet s s.
Proof. intros Hs. by split; try apply stable_refl. Qed.

Lemma quiet_trans s1 s2 s3 :
  length (pages s2) = length (pages s1) → quiet s1 s2 → quiet s2 s3 → quiet s1 s3.
Proof.
  intros Hl [A1 A2 A3 A4 A5 A6] [B1 B2 B3 B4 B5 B6]. split; try done.
  - by etransitivity.
  - intros p. by rewrite B3.
  - intros fd. by rewrite (B4 fd).
  - eapply stable_trans; [|done|done]. intros g. unfold in_pool. by rewrite Hl.
  - auto.
Qed.

Lemma write_back_spec s p f s' :
  bp_inv s → page_table s !! p = Some f → write_back p f s = (Ret tt, s') →
  quiet s s' ∧ page_table s' = page_table s ∧ free_list s' = free_list s ∧
  replacer s' = replacer s ∧ same_but f s s' ∧
  frame f s' = mkPage (id_ (frame f s)) (data_ (frame f s)) false (pin_count (frame f s)) ∧
  disk_page (disk s') p = Some (data_ (frame f s)) ∧
  page_le_but p (disk_page (disk s)) (disk_page (disk s')).
Proof.
  intros Hs Hp E. destruct (i_table s Hs p f Hp) as (Hf & Hid & Hno & Hop).
  unfold write_back, on_disk, mbind, st_bind, get_st, modify_st in E.
  destruct (disk_write p _ (disk s)) as [[[]|e] d] eqn:Ew; [|done].
  apply disk_write_ok in Ew as (Hd & Ho & Hle & Hr); [|apply Hs|done|by apply (i_page s Hs)].
  specialize (Hr eq_refl). injection E as <-. change (frame f (set_disk d s)) with (frame f s).
  set (pg := mkPage (id_ (frame f s)) (data_ (frame f s)) false (pin_count (frame f s))).
  set (s' := set_frame f pg (set_disk d s)).
  assert (frame f s' = pg) as Hff by by apply frame_set_eq.
  assert (∀ g, 0 ≤ g → g ≠ f → frame g s' = frame g s) as Hoth.
  { intros g Hg Hne. unfold s'. rewrite frame_set_ne by (done || apply Hf). done. }
  assert (∀ g, 0 ≤ g → id_ (frame g s') = id_ (frame g s) ∧ data_ (frame g s') = data_ (frame g s) ∧
            pin_count (frame g s') = pin_count (frame g s)) as Hkeep.
  { intros g Hg. destruct (decide (g = f)) as [->|]; [by rewrite Hff|by rewrite Hoth]. }
  assert (∀ g, in_pool s' g ↔ in_pool s g) as Hpool.
  { intros g. unfold in_pool, s'. simpl. by rewrite length_insert. }
  assert (∀ g, in_pool s g → resident (frame g s) → droppable s g → droppable s' g) as Hdrop.
  { intros g Hg Hr' Hdr. destruct (decide (g = f)) as [->|Hne].
    - intros _. rewrite Hff. simpl. by rewrite Hid.
    - unfold droppable. rewrite Hoth by (done || apply Hg). intros Hc. apply Hle; [|by apply Hdr].
      intros E. apply (i_ids s Hs) in Hr'; [|done]. rewrite E, Hp in Hr'. congruence. }
  assert (bp_inv s') as Hs'.
  { split; try apply Hs; try done; [intros q g Hq|intros g|intros g Hg|intros g| |intros g Hg].
    - apply (i_table s Hs) in Hq as (Hg & Hq & ? & ?). rewrite Hpool, (proj1 (Hkeep g (proj1 Hg))).
      split_and!; try done. by apply Ho.
    - rewrite Hpool. intros Hg. unfold resident. rewrite (proj1 (Hkeep g (proj1 Hg))). by apply Hs.
    - apply (i_free s Hs) in Hg as [Hg Hr']. rewrite Hpool. unfold resident.
      by rewrite (proj1 (Hkeep g (proj1 Hg))).
    - rewrite Hpool. intros Hg. unfold resident.
      destruct (Hkeep g (proj1 Hg)) as (-> & -> & ->). by apply (i_page s Hs).
    - simpl. rewrite length_insert. apply Hs.
    - destruct (i_evict s Hs g Hg) as (Hgp & Hgr & Hz & Hdr). rewrite Hpool. unfold resident.
      destruct (Hkeep g (proj1 Hgp)) as (-> & _ & ->). split_and!; try done. by apply Hdrop. }
  assert (∀ q g, page_table s !! q = Some g → 0 ≤ g) as Hge.
  { intros q g Hq. by apply (i_table s Hs) in Hq as [[? _] _]. }
  split; [split; try done|split_and!; try done].
  - intros q c. unfold view. simpl. destruct (page_table s !! q) as [g|] eqn:Eg.
    + fold s'. by rewrite (proj1 (proj2 (Hkeep g (Hge q g Eg)))).
    + intros Hq. apply Hle; [congruence|done].
  - intros q. unfold pins. simpl. destruct (page_table s !! q) as [g|] eqn:Eg; [|done].
    fold s'. by rewrite (proj2 (proj2 (Hkeep g (Hge q g Eg)))).
  - intros g Hg Hpin. destruct (Hkeep g (proj1 Hg)) as (-> & -> & ->). split_and!; try done.
    apply Hdrop; [done|]. intros Hn. destruct (i_page s Hs g Hg) as (_ & _ & Hz).
    rewrite Hz in Hpin; [lia|]. intros Hx; by apply Hx.
  - intros Hfull g. rewrite Hpool. intros Hg. rewrite (proj2 (proj2 (Hkeep g (proj1 Hg)))). by apply Hfull.
  - split; [simpl; by rewrite length_insert|]. intros g [? _] ?. by apply Hoth.
Qed.

Lemma flush_page_spec s p s' :
  bp_inv s → flush_page p s = (Ret true, s') → quiet s s' ∧ disk_page (disk s') p = view s p.
Proof.
  intros Hs E. unfold flush_page, mbind, st_bind, get_st in E.
  destruct (page_table s !! p) as [f|] eqn:Ep; [|done].
  destruct (write_back p f s) as [[[]|e] s1] eqn:Ew; [|done]. injection E as <-.
  apply write_back_spec in Ew as (Hq & _ & _ & _ & _ & _ & Hd & _); [|done|done].
  split; [done|]. unfold view. by rewrite Ep.
Qed.

(** Dropping an unpinned frame whose page may be dropped. *)
Lemma drop_frame_spec s p f s' :
  bp_inv s → bp_full s → page_table s !! p = Some f → pin_count (frame f s) = 0 →
  drop_frame (pid_fd p) f s = (Ret tt, s') →
  quiet s s' ∧ length (pages s') = length (pages s) ∧
  page_table s' !! p = None ∧
  (∀ q g, page_table s' !! q = Some g ↔ page_table s !! q = Some g ∧ q ≠ p) ∧
  (∀ q g, page_table s' !! q = Some g → frame g s' = frame g s).
Proof.
  intros Hs Hfull Hp Hz E. destruct (i_table s Hs p f Hp) as (Hf & Hid & Hno & Hop).
  assert (resident (frame f s)) as Hres by (unfold resident; by rewrite Hid).
  assert (f ∉ free_list s) as Hnf by (intros Hin; by apply (i_free s Hs) in Hin as [_ ?]).
  unfold drop_frame, replacer_pin, mbind, st_bind, modify_st in E.
  set (s1 := set_replacer (pin f (replacer s)) s) in E.
  assert (bp_inv s1) as Hs1 by by apply replacer_pin_inv.
  assert (taken s1 f) as Htk.
  { split_and!; [done|done|]. simpl. rewrite rep_pin_elem by done. naive_solver. }
  assert (droppable s f) as Hdr.
  { destruct (Hfull f Hf) as [?|[Hin|?]]; [done|by apply (i_evict s Hs)|lia]. }
  destruct (update_page f _ f s1) as [[[]|e] s2] eqn:Eu; [|done]. injection E as <-.
  apply update_page_spec in Eu as (Hs2 & Hsame & Ho2 & Hfl & Hrp & Hem); try done.
  specialize (Hem eq_refl). pose proof Hem as (Hfr & Ht & Hle & Hold).
  set (new := mkPageId (pid_fd p) INVALID_PAGE_ID) in *.
  destruct (emptied_view s1 f new s2) as (Hv & Hpn & _); try done. destruct Hsame as [Hlen Hsame].
  assert (∀ q g, page_table s2 !! q = Some g ↔ page_table s !! q = Some g ∧ g ≠ f) as Hlk.
  { intros q g. rewrite Ht, retable_lookup by done. unfold new. simpl. naive_solver. }
  assert (page_table s !! new = None) as Hnn.
  { destruct (page_table s !! new) as [g|] eqn:Eg; [|done]. by apply (i_table s Hs) in Eg as (_ & _ & ? & _). }
  set (s3 := set_free (free_list s2 ++ [f]) s2).
  assert (∀ g, frame g s3 = frame g s2) as H32 by done.
  assert (bp_inv s3) as Hs3.
  { destruct Hs2 as [J1 J2 J3 J4 J5 J6 J7 J8 J9]. split; try done; simpl.
    - apply NoDup_app. split_and!; [done| |apply NoDup_singleton].
      intros g Hg. rewrite list_elem_of_singleton. intros ->. by rewrite Hfl in Hg.
    - intros g. rewrite elem_of_app, list_elem_of_singleton. intros [Hg| ->]; [by apply J4|].
      split; [unfold in_pool; simpl; by rewrite Hlen|]. change (¬ resident (frame f s2)). rewrite Hfr.
      unfold resident. simpl. by intros []. }
  split; [split; try done|split_and!; try done].
  - intros q c Hq. change (view s2 q = Some c). destruct (decide (q = new)) as [->|]; [|by apply Hv].
    unfold view in Hq |- *. rewrite Hnn in Hq.
    destruct (page_table s2 !! new) as [g|] eqn:Eg; [apply Hlk in Eg; naive_solver|].
    apply Hle; [|done]. intros _ E. change (frame f s1) with (frame f s) in E. rewrite Hid in E.
    apply Hno. by rewrite <- E.
  - intros q. change (pins s2 q = pins s q). destruct (decide (q = new)) as [->|]; [|by apply Hpn].
    unfold pins. rewrite Hnn. by destruct (page_table s2 !! new) as [g|] eqn:Eg; [apply Hlk in Eg; naive_solver|].
  - intros g Hg Hpin. assert (g ≠ f) by (intros ->; lia).
    unfold droppable. rewrite !H32, Hsame by done. split_and!; try done. intros Hd Hc. simpl.
    apply Hle; [|by apply Hd]. change (frame f s1) with (frame f s). change (frame g s1) with (frame g s).
    intros _ E. assert (resident (frame g s)) as Hgr by (unfold resident; by rewrite E).
    apply (i_ids s Hs) in Hres, Hgr; try done. rewrite E in Hgr. congruence.
  - intros _ g Hg. rewrite H32. simpl. rewrite elem_of_app, list_elem_of_singleton, Hfl, Hrp. simpl.
    rewrite rep_pin_elem by done. destruct (decide (g = f)) as [->|]; [auto|].
    assert (in_pool s1 g) as Hg1 by (unfold in_pool in Hg; simpl in Hg; by rewrite Hlen in Hg).
    rewrite Hsame by done. change (frame g s1) with (frame g s).
    destruct (Hfull g Hg1) as [?|[?|?]]; auto.
  - simpl. destruct (page_table s2 !! p) as [g|] eqn:Eg; [apply Hlk in Eg; naive_solver|done].
  - intros q g. simpl. rewrite Hlk. split; intros [Hq Hne]; split; try done.
    { intros ->. congruence. }
    intros ->. by apply Hne, (table_inj s q p f).
  - intros q g Hq. simpl in Hq. apply Hlk in Hq as [Hq Hne]. rewrite H32, Hsame; [done|..|done].
    by apply (i_table s Hs) in Hq as [? _].
Qed.

Lemma delete_page_spec s p b s' :
  bp_inv s → bp_full s → delete_page p s = (Ret b, s') →
  quiet s s' ∧ (b = false ↔ pins s p ≠ 0) ∧ (b = true → page_table s' !! p = None).
Proof.
  intros Hs Hfull E. unfold delete_page, mbind, st_bind, get_st in E. unfold pins.
  destruct (page_table s !! p) as [f|] eqn:Ep.
  2:{ injection E as <- <-. split; [by apply quiet_refl|]. done. }
  destruct (Z.eqb_spec (pin_count (frame f s)) 0) as [Ez|Ez]; simpl in E.
  - destruct (drop_frame _ f s) as [[[]|e] s1] eqn:Ed; [|done]. injection E as <- <-.
    apply drop_frame_spec with (p := p) in Ed as (Hq & _ & Hn & _); try done.
  - injection E as <- <-. split; [by apply quiet_refl|]. done.
Qed.

Lemma entries_of_elem fd s p f :
  (p, f) ∈ entries_of fd s ↔ page_table s !! p = Some f ∧ pid_fd p = fd.
Proof.
  unfold entries_of. rewrite list_elem_of_filter, elem_of_map_to_list. naive_solver.
Qed.

Lemma write_back_list l s s' :
  bp_inv s → Forall (λ e, page_table s !! e.1 = Some e.2) l →
  for_each (λ e, write_back e.1 e.2) l s = (Ret tt, s') →
  quiet s s' ∧ length (pages s') = length (pages s) ∧ page_table s' = page_table s ∧
  (∀ p c, view s p = Some c → p ∈ l.*1 ∨ disk_page (disk s) p = Some c → disk_page (disk s') p = Some c).
Proof.
  revert s. induction l as [|[p f] l IH]; intros s Hs Hall E; simpl in E.
  { injection E as <-. split; [by apply quiet_refl|]. split_and!; try done. set_solver. }
  apply Forall_cons in Hall as [Hp Hall]. simpl in Hp.
  unfold mbind, st_bind in E. destruct (write_back p f s) as [[[]|e] s1] eqn:Ew; [|done].
  apply write_back_spec in Ew as (Hq & Ht & _ & _ & [Hl _] & _ & Hd & Hle); [|done|done].
  apply IH in E as (Hq' & Hl' & Ht' & Hd'); [|apply Hq|by rewrite Ht].
  split; [by eapply quiet_trans|]. split; [congruence|]. split; [congruence|].
  intros q c Hv Hin. apply Hd'; [by apply (q_view _ _ Hq)|]. rewrite fmap_cons, elem_of_cons in Hin.
  destruct (decide (q = p)) as [->|Hne].
  - right. unfold view in Hv. rewrite Hp in Hv. congruence.
  - destruct Hin as [[?|?]|Hin]; [done|by left|]. right. by apply Hle.
Qed.

Lemma flush_all_pages_spec s fd s' :
  bp_inv s → flush_all_pages fd s = (Ret tt, s') →
  quiet s s' ∧ page_table s' = page_table s ∧
  ∀ p c, pid_fd p = fd → view s p = Some c → disk_page (disk s') p = Some c.
Proof.
  intros Hs E. unfold flush_all_pages, mbind, st_bind, get_st in E.
  apply write_back_list in E as (Hq & _ & Ht & Hd); [|done|].
  2:{ apply Forall_forall. intros [p f] Hin. by apply entries_of_elem in Hin as [? _]. }
  split; [done|]. split; [done|]. intros p c Hfd Hv. apply Hd; [done|].
  unfold view in Hv. destruct (page_table s !! p) as [f|] eqn:Ep; [left|by right].
  apply list_elem_of_fmap. exists (p, f). split; [done|]. by apply entries_of_elem.
Qed.

Lemma drop_list fd l s s' :
  bp_inv s → bp_full s → (∀ p, p ∈ l → pid_fd p = fd ∧ pins s p = 0) →
  for_each (λ p, s ← get_st;
                 match page_table s !! p with
                 | None => mret tt
                 | Some f => drop_frame fd f
                 end) l s = (Ret tt, s') →
  quiet s s' ∧ length (pages s') = length (pages s) ∧
  (∀ q, is_Some (page_table s' !! q) ↔ is_Some (page_table s !! q) ∧ q ∉ l).
Proof.
  revert s. induction l as [|p l IH]; intros s Hs Hf Hall E; simpl in E.
  { injection E as <-. split; [by apply quiet_refl|]. split; [done|]. set_solver. }
  unfold mbind at 1, st_bind at 1 in E. unfold mbind at 1, st_bind at 1, get_st at 1 in E.
  destruct (page_table s !! p) as [f|] eqn:Ep.
  - destruct (drop_frame fd f s) as [[[]|e] s1] eqn:Ed; [|done].
    destruct (Hall p) as [<- Hz]; [set_solver|]. unfold pins in Hz. rewrite Ep in Hz.
    apply drop_frame_spec with (p := p) in Ed as (Hq & Hl & Hn & Hlk & _); try done.
    apply IH in E as (Hq' & Hl' & Hlk'); [|apply Hq|by apply (q_full _ _ Hq)|].
    2:{ intros q Hin. rewrite (q_pins _ _ Hq). apply Hall. set_solver. }
    split; [by eapply quiet_trans|]. split; [congruence|]. intros q. rewrite Hlk', elem_of_cons. split.
    + intros [[g Hg] Hin]. apply Hlk in Hg as [Hg Hne]. split; [eauto|]. naive_solver.
    + intros [[g Hg] Hin]. split; [|naive_solver]. exists g. apply Hlk. naive_solver.
  - apply IH in E as (Hq' & Hl' & Hlk'); [|done|done|]. 2:{ intros q Hin. apply Hall. set_solver. }
    split; [done|]. split; [done|]. intros q. rewrite Hlk', elem_of_cons. split.
    + intros [Hg Hin]. split; [done|]. intros [->|?]; [|done]. rewrite Ep in Hg. by destruct Hg.
    + naive_solver.
Qed.

Lemma delete_all_pages_spec s fd b s' :
  bp_inv s → bp_full s → delete_all_pages fd s = (Ret b, s') →
  quiet s s' ∧
  (b = false ↔ ∃ p, pid_fd p = fd ∧ pins s p ≠ 0) ∧
  (b = true → ∀ p, pid_fd p = fd → page_table s' !! p = None).
Proof.
  intros Hs Hf E. unfold delete_all_pages, mbind at 1, st_bind at 1, get_st in E.
  assert (∀ p, p ∈ (entries_of fd s).*1 ↔ is_Some (page_table s !! p) ∧ pid_fd p = fd) as Hin.
  { intros p. rewrite list_elem_of_fmap. split.
    - intros ([q f] & -> & Hin). apply entries_of_elem in Hin as [? ?]. split; [by exists f|done].
    - intros [[f Hp] Hfd]. exists (p, f). split; [done|]. by apply entries_of_elem. }
  destruct (existsb _ _) eqn:Ex.
  - injection E as <- <-. split; [by apply quiet_refl|]. split; [|done].
    apply existsb_exists in Ex as (p & Hp & Ez). apply list_elem_of_In, Hin in Hp as [[f Hf'] Hfd].
    rewrite Hf' in Ez. bool_prop. split; [|done]. intros _. exists p. unfold pins. by rewrite Hf'.
  - assert (∀ p, pid_fd p = fd → pins s p = 0) as Hz.
    { intros p Hfd. unfold pins. destruct (page_table s !! p) as [f|] eqn:Ep; [|done].
      destruct (decide (pin_count (frame f s) = 0)) as [|Hne]; [done|]. exfalso.
      apply not_true_iff_false in Ex. apply Ex, existsb_exists. exists p. split.
      - apply list_elem_of_In, Hin. by rewrite Ep.
      - rewrite Ep. by apply negb_true_iff, Z.eqb_neq. }
    unfold mbind at 1, st_bind at 1 in E. destruct (for_each _ _ s) as [[[]|e] s1] eqn:El; [|done].
    injection E as <- <-. apply drop_list in El as (Hq & _ & Hlk); [|done|done|].
    2:{ intros p Hp. apply Hin in Hp as [_ Hfd]. auto. }
    split; [done|]. split.
    + split; [done|]. intros (p & Hfd & Hp). by apply Hz in Hfd.
    + intros _ p Hfd. destruct (page_table s1 !! p) as [g|] eqn:Eg; [|done].
      destruct (proj1 (Hlk p)) as [Hs' Hn]; [by rewrite Eg|]. exfalso. by apply Hn, Hin.
Qed.

(* ------------------------------------------------------------------ *)
(** ** Page numbers                                                     *)
(* ------------------------------------------------------------------ *)

Definition next_no s (fd : Z) : Z := disk_next (disk s) fd.

Lemma update_page_next f p g s r s' : update_page f p g s = (r, s') → ∀ fd, next_no s' fd = next_no s fd.
Proof.
  unfold update_page, on_disk, modify_st, get_st, mret, st_ret, mbind, st_bind.
  intros E fd. repeat (case_match; simplify_eq/=); try done; unfold next_no; simpl;
    by eapply disk_write_next.
Qed.

Lemma find_victim_next s r s' : find_victim_page s = (r, s') → disk s' = disk s.
Proof. unfold find_victim_page. intros. by repeat (case_match; simplify_eq/=). Qed.

Lemma fetch_page_next p s r s' : fetch_page p s = (r, s') → ∀ fd, next_no s' fd = next_no s fd.
Proof.
  unfold fetch_page, mbind at 1, st_bind at 1, get_st. intros E fd.
  destruct (page_table s !! p) as [f|]; [by inv E|]. unfold mbind, st_bind in E.
  destruct (find_victim_page s) as [[[f|]|e] s1] eqn:Ev; apply find_victim_next in Ev;
    try (inv E; unfold next_no; by rewrite Ev).
  destruct (update_page f p f s1) as [ru s2] eqn:Eu. apply update_page_next with (fd := fd) in Eu.
  assert (next_no s2 fd = next_no s fd) as E2 by (rewrite Eu; unfold next_no; by rewrite Ev).
  destruct ru as [[]|e]; [|by inv E].
  destruct (read_into f p s2) as [rr s3] eqn:Er.
  assert (next_no s3 fd = next_no s fd) as E3.
  { rewrite <- E2. unfold read_into in Er. destruct (disk_read p (disk s2)) as [[bytes r0] d] eqn:Ed.
    injection Er as <- <-. unfold next_no. simpl. by eapply disk_read_next. }
  destruct rr as [[]|e]; by inv E.
Qed.

Lemma new_page_next fd s f p s' : new_page fd s = (Ret (Some (f, p)), s') →
  pid_no p = next_no s fd ∧ (0 ≤ pid_no p < int32_max → next_no s' fd = pid_no p + 1) ∧
  ∀ g, g ≠ fd → next_no s' g = next_no s g.
Proof.
  unfold new_page, mbind, st_bind. intros E.
  destruct (find_victim_page s) as [[[f'|]|e] s1] eqn:Ev; apply find_victim_next in Ev; try done.
  unfold on_disk in E. destruct (disk_allocate fd (disk s1)) as [[n|e] d] eqn:Ea; [|done].
  rewrite Ev in Ea. apply disk_allocate_next in Ea as (En & Hn & Hg).
  destruct (update_page f' (mkPageId fd n) f' (set_disk d s1)) as [[[]|e] s2] eqn:Eu; [|done].
  pose proof (update_page_next _ _ _ _ _ _ Eu) as Hu. injection E as <- <- <-.
  simpl. split_and!; [done| |].
  - intros Hr. etransitivity; [apply Hu|]. by apply Hn.
  - intros g Hne. etransitivity; [apply Hu|]. by apply Hg.
Qed.

(** *** A pool on a working disk *)

(** The disk works and no page has a negative number. *)
Definition pool_live s : Prop :=
  disk_live (disk s) ∧ ∀ p f, page_table s !! p = Some f → 0 ≤ pid_no p.

Lemma retarget_live s f new d : pool_live s → disk_live d → 0 ≤ pid_no new →
  pool_live (retarget (set_disk d s) f new) ∧ length (pages (retarget (set_disk d s) f new)) = length (pages s).
Proof.
  intros [_ Hp] Hd Hn. split; [split; [done|]|unfold retarget; simpl; by rewrite length_insert].
  intros q g. unfold retarget. simpl. unfold retable. simpl. case_match; case_match; intros Hq;
    repeat first [apply lookup_insert_Some in Hq as [[<- _]|[_ Hq]]; [done|]
                 |apply lookup_delete_Some in Hq as [_ Hq]]; by eapply Hp.
Qed.

Lemma update_page_live s f new r s' : bp_inv s → taken s f → pool_live s → 0 ≤ pid_no new →
  update_page f new f s = (r, s') →
  r = Ret tt ∧ pool_live s' ∧ length (pages s') = length (pages s).
Proof.
  intros Hs [Hf _] Hl Hn. rewrite update_page_eq. destruct (negb _ && _) eqn:E.
  - bool_prop. pose proof (i_ids s Hs f Hf ltac:(done)) as Hid. destruct (i_table s Hs _ _ Hid) as (_ & _ & _ & Hop).
    destruct (disk_write _ _ _) as [r0 d] eqn:Ew.
    apply disk_write_live in Ew as [Hd ->]; [|apply Hs|done|by eapply Hl|apply Hl]. intros [= <- <-].
    split; [done|]. by apply retarget_live.
  - intros [= <- <-]. split; [done|]. destruct (retarget_live s f new (disk s) Hl (proj1 Hl) Hn) as [Ha Hb]. by destruct s.
Qed.

Lemma read_into_live f p s r s' : pool_live s → read_into f p s = (r, s') →
  pool_live s' ∧ length (pages s') = length (pages s).
Proof.
  intros [Hd Hp] E. unfold read_into in E. destruct (disk_read p (disk s)) as [[bytes r0] d] eqn:Er.
  apply disk_read_live in Er; [|done]. injection E as <- <-. split; [done|]. simpl. by rewrite length_insert.
Qed.

Lemma repin_live s f c : pool_live s → pool_live (repin s f c) ∧ length (pages (repin s f c)) = length (pages s).
Proof. intros Hl. split; [done|]. simpl. by rewrite length_insert. Qed.

Lemma victim_live s o s1 : bp_inv s → pool_live s → find_victim_page s = (Ret o, s1) →
  bp_inv s1 ∧ pool_live s1 ∧ length (pages s1) = length (pages s).
Proof.
  intros Hs [Hl Hp] E. apply find_victim_spec in E as (Hs1 & Hpg & Ht & Hd & _); [|done].
  split; [done|]. rewrite Hpg. split; [|done]. split; [by rewrite Hd|by rewrite Ht].
Qed.

(** Some frame is not pinned when the pinned pages are fewer than the frames. *)
Lemma room_victim s (X : gset PageId) : bp_inv s → bp_full s → (∀ q, 0 < pins s q → q ∈ X) →
  (size X < length (pages s))%nat → ¬ (free_list s = [] ∧ rep_frames (replacer s) = []).
Proof.
  intros Hs Hfull HX Hsz [Hf Hr].
  assert (∀ f, in_pool s f → page_table s !! id_ (frame f s) = Some f ∧ id_ (frame f s) ∈ X) as Hall.
  { intros f Hf'. destruct (Hfull f Hf') as [Hx|[Hx|Hx]]; [rewrite Hf in Hx; by apply elem_of_nil in Hx|
      rewrite Hr in Hx; by apply elem_of_nil in Hx|].
    assert (resident (frame f s)) as Hres.
    { intros Hn. destruct (i_page s Hs f Hf') as (_ & _ & Hz). rewrite Hz in Hx by (intros Hy; by apply Hy). lia. }
    pose proof (i_ids s Hs f Hf' Hres) as Hid. split; [done|]. apply HX. unfold pins. by rewrite Hid. }
  assert ((λ f, id_ (frame f s)) <$> seqZ 0 (Z.of_nat (length (pages s))) ⊆+ elements X) as Hsub.
  { apply NoDup_submseteq.
    - apply NoDup_fmap_2_strong; [|apply NoDup_seqZ]. intros f g Hf' Hg E. apply elem_of_seqZ in Hf', Hg.
      destruct (Hall f) as [E1 _]; [unfold in_pool; lia|]. destruct (Hall g) as [E2 _]; [unfold in_pool; lia|]. congruence.
    - intros q (f & -> & Hf')%list_elem_of_fmap. apply elem_of_seqZ in Hf'. apply elem_of_elements, Hall. unfold in_pool. lia. }
  apply submseteq_length in Hsub. rewrite length_fmap, length_seqZ in Hsub.
  change (length (elements X)) with (size X) in Hsub. lia.
Qed.

Lemma room_without (X : gset PageId) p n : (size (X ∪ {[p]}) ≤ n)%nat → (size (X ∖ {[p]}) < n)%nat.
Proof.
  intros Hs. replace (X ∪ {[p]}) with ({[p]} ∪ X ∖ {[p]}) in Hs.
  - rewrite size_union, size_singleton in Hs by set_solver. lia.
  - apply set_eq. intros q. rewrite !elem_of_union, elem_of_difference, elem_of_singleton.
    destruct (decide (q = p)); naive_solver.
Qed.

Lemma fetch_page_live s p r s' : bp_inv s → 0 ≤ pid_no p → pool_live s → fetch_page p s = (r, s') →
  pool_live s' ∧ length (pages s') = length (pages s) ∧
  (disk_open (disk s) (pid_fd p) → is_Some (view s p) → bp_full s →
   ∀ X : gset PageId, (∀ q, 0 < pins s q → q ∈ X) → (size (X ∪ {[p]}) ≤ length (pages s))%nat → ∃ f, r = Ret (Some f)).
Proof.
  intros Hs Hno Hl E. destruct (page_table s !! p) as [f|] eqn:Ep.
  { destruct (fetch_hit s p f Hs Ep) as (E' & _). rewrite E' in E. injection E as <- <-.
    destruct (repin_live s f (pin_count (frame f s) + 1) Hl) as [? ?]. split_and!; [done|done|]. intros. by exists f. }
  unfold fetch_page, mbind, st_bind, get_st in E. rewrite Ep in E.
  destruct (find_victim_page s) as [[v|e] s1] eqn:Ev; [|by unfold find_victim_page in Ev; repeat case_match].
  destruct (victim_live s v s1 Hs Hl Ev) as (Hs1 & Hl1 & Hn1). pose proof Ev as Ev'.
  apply find_victim_spec in Ev' as (_ & _ & Htb & Hdk & Hv); [|done]. destruct v as [f|].
  2:{ injection E as <- <-. split_and!; [done|done|]. intros _ _ Hfull X HX Hsz. exfalso.
      apply (room_victim s (X ∖ {[p]}) Hs Hfull); [| |naive_solver].
      - intros q Hq. apply elem_of_difference. split; [by apply HX|]. intros ->%elem_of_singleton.
        unfold pins in Hq. by rewrite Ep in Hq.
      - by apply room_without. }
  destruct Hv as (Htk & _ & Hdr & _).
  destruct (update_page f p f s1) as [ru s2] eqn:Eu.
  destruct (update_page_live s1 f p ru s2 Hs1 Htk Hl1 Hno Eu) as (-> & Hl2 & Hn2).
  destruct (read_into f p s2) as [rr s3] eqn:Er. destruct (read_into_live f p s2 rr s3 Hl2 Er) as [Hl3 Hn3].
  assert (∃ f0, rr = Ret tt → r = Ret (Some f0)) as [f0 Hr] by (exists f; intros ->; by injection E as <- _).
  assert (pool_live s' ∧ length (pages s') = length (pages s)) as [Hl' Hn'].
  { destruct rr as [[]|e]; injection E as _ <-; [|split; [done|congruence]].
    destruct (repin_live s3 f 1 Hl3) as [? Hx]. unfold repin in *. split; [done|congruence]. }
  split_and!; [done|done|]. intros Hop [c Hc] _ X _ _. exists f0. apply Hr.
  assert (pid_no p ≠ INVALID_PAGE_ID) as Hne by (unfold INVALID_PAGE_ID; lia).
  apply find_victim_victimized in Ev; [|done].
  destruct (update_page_installed s f s1 p (Ret tt) s2) as (Hs2 & Ho2 & Hu); try done. destruct (Hu eq_refl) as [_ Hdk2].
  unfold view in Hc. rewrite Ep in Hc. apply Hdk2 in Hc. unfold read_into in Er.
  destruct (disk_read p (disk s2)) as [[bytes r0] d] eqn:Ed. injection Er as <- _.
  apply disk_read_ok in Ed as (_ & _ & _ & _ & Hx & _); [by eapply Hx|apply Hs2|by apply Ho2].
Qed.

Lemma new_page_live s fd r s' : bp_inv s → 0 ≤ next_no s fd → pool_live s → disk_open (disk s) fd → new_page fd s = (r, s') →
  pool_live s' ∧ length (pages s') = length (pages s) ∧
  (bp_full s → ∀ X : gset PageId, (∀ q, 0 < pins s q → q ∈ X) → (size X < length (pages s))%nat →
   ∃ f p, r = Ret (Some (f, p))).
Proof.
  intros Hs Hno Hl Hop E. unfold new_page, mbind, st_bind in E.
  destruct (find_victim_page s) as [[v|e] s1] eqn:Ev; [|by unfold find_victim_page in Ev; repeat case_match].
  destruct (victim_live s v s1 Hs Hl Ev) as (Hs1 & Hl1 & Hn1).
  apply find_victim_spec in Ev as (_ & _ & Htb & Hdk & Hv); [|done]. destruct v as [f|].
  2:{ injection E as <- <-. split_and!; [done|done|]. intros Hfull X HX Hsz. exfalso.
      apply (room_victim s X Hs Hfull HX Hsz). naive_solver. }
  destruct Hv as (Htk & _). unfold on_disk in E. destruct (disk_allocate fd (disk s1)) as [rn d] eqn:Ea. pose proof Ea as Ea'.
  apply disk_allocate_live in Ea' as [Hd [n ->]]; [|by rewrite Hdk|apply Hl1].
  pose proof Ea as Ea'. apply disk_allocate_next in Ea' as (-> & _). rewrite Hdk in *. fold (next_no s fd) in *.
  apply disk_allocate_ok in Ea as (Hwf & Ho & Hle); [|apply Hs].
  assert (bp_inv (set_disk d s1)) as Hs1'.
  { apply (set_disk_inv d s1 (mkPageId 0 INVALID_PAGE_ID)); try done; [by rewrite Hdk|intros q c _; rewrite Hdk; apply Hle|].
    intros g Hg E1. destruct (i_evict s1 Hs1 g Hg) as (_ & Hr & _). by apply Hr; rewrite E1. }
  destruct (update_page f _ f (set_disk d s1)) as [ru s2] eqn:Eu.
  apply update_page_live in Eu as (-> & Hl2 & Hn2); [|done|done|split; [done|apply Hl1]|done].
  injection E as <- <-. destruct (repin_live s2 f 1 Hl2) as [? Hx]. unfold repin in *.
  split_and!; [done|simpl in *; congruence|]. intros. by eexists _, _.
Qed.

(** *** Files without pages in the pool *)

(** No page of the file at [path] is in the pool; then fetches and new pages of
    other files leave its bytes alone. *)
Definition no_pages s (path : string) : Prop :=
  ∀ q, is_Some (page_table s !! q) → disk_file_name (pid_fd q) (disk s) ≠ Ret path.
Definition keeps_bytes s s' : Prop :=
  (∀ g, disk_file_name g (disk s') = disk_file_name g (disk s)) ∧
  ∀ path, no_pages s path → disk_bytes (disk s') path = disk_bytes (disk s) path.

Lemma update_page_bytes s f new r s' : bp_inv s → in_pool s f → update_page f new f s = (r, s') → keeps_bytes s s'.
Proof.
  intros Hs Hf. rewrite update_page_eq. destruct (negb _ && _) eqn:E; [|by intros [= <- <-]].
  bool_prop. pose proof (i_ids s Hs f Hf ltac:(done)) as Hid. destruct (i_table s Hs _ _ Hid) as (_ & _ & _ & Hop).
  destruct (disk_write _ _ _) as [r0 d] eqn:Ew. apply disk_write_bytes in Ew as [Hn Hb]; [|apply Hs|done].
  destruct r0 as [[]|e]; intros [= <- <-]; (split; [done|]); intros path Hp; apply Hb, Hp; eauto.
Qed.

Lemma fetch_page_bytes s p r s' : bp_inv s → pid_no p ≠ INVALID_PAGE_ID → disk_open (disk s) (pid_fd p) →
  fetch_page p s = (r, s') → keeps_bytes s s'.
Proof.
  intros Hs Hno Hop E. destruct (page_table s !! p) as [f|] eqn:Ep.
  { destruct (fetch_hit s p f Hs Ep) as (E' & _). rewrite E' in E. by injection E as <- <-. }
  unfold fetch_page, mbind, st_bind, get_st in E. rewrite Ep in E.
  destruct (find_victim_page s) as [[v|e] s1] eqn:Ev; [|by unfold find_victim_page in Ev; repeat case_match].
  pose proof Ev as Ev'. apply find_victim_spec in Ev' as (Hs1 & _ & Ht & Hd & Hv); [|done].
  destruct v as [f|]; [|injection E as <- <-; by rewrite (proj2 (proj2 Hv))].
  destruct Hv as (Htk & _). apply find_victim_victimized in Ev; [|done].
  destruct (update_page f p f s1) as [ru s2] eqn:Eu. pose proof (update_page_bytes s1 f p ru s2 Hs1 (proj1 Htk) Eu) as [Hn2 Hb2].
  unfold no_pages in Hb2. rewrite Ht, Hd in Hb2. rewrite Hd in Hn2. fold (no_pages s) in Hb2.
  destruct ru as [[]|e]; [|by injection E as <- <-].
  destruct (update_page_installed s f s1 p (Ret tt) s2) as (Hs2 & Ho2 & _); try done.
  destruct (read_into f p s2) as [rr s3] eqn:Er. assert (keeps_bytes s s3) as [Hn3 Hb3].
  { unfold read_into in Er. destruct (disk_read p (disk s2)) as [[bytes r0] d] eqn:Ed. injection Er as _ <-.
    apply disk_read_bytes in Ed as [Hn Hb]; [|apply Hs2|by apply Ho2].
    split; simpl; [intros g; by rewrite Hn|]. intros path Hp. rewrite Hb. by apply Hb2. }
  destruct rr as [[]|e]; by injection E as <- <-.
Qed.

Lemma new_page_bytes s fd r s' : bp_inv s → new_page fd s = (r, s') → keeps_bytes s s'.
Proof.
  intros Hs E. unfold new_page, mbind, st_bind in E.
  destruct (find_victim_page s) as [[v|e] s1] eqn:Ev; [|by unfold find_victim_page in Ev; repeat case_match].
  apply find_victim_spec in Ev as (Hs1 & _ & Ht & Hd & Hv); [|done].
  destruct v as [f|]; [|injection E as <- <-; by rewrite (proj2 (proj2 Hv))].
  destruct Hv as (Htk & _). unfold on_disk in E. destruct (disk_allocate fd (disk s1)) as [rn d] eqn:Ea. pose proof Ea as Ea'.
  apply disk_allocate_bytes in Ea' as [Hn Hb]. rewrite Hd in *.
  apply disk_allocate_ok in Ea as (Hwf & Ho & Hle); [|apply Hs].
  destruct rn as [n|e]; [|injection E as _ <-; split; [done|intros path _; apply Hb]].
  assert (bp_inv (set_disk d s1)) as Hs1'.
  { apply (set_disk_inv d s1 (mkPageId 0 INVALID_PAGE_ID)); try done; [by rewrite Hd|intros q c _; rewrite Hd; apply Hle|].
    intros g Hg E1. destruct (i_evict s1 Hs1 g Hg) as (_ & Hr & _). by apply Hr; rewrite E1. }
  destruct (update_page f _ f (set_disk d s1)) as [ru s2] eqn:Eu.
  apply update_page_bytes in Eu as [Hn2 Hb2]; [|done|exact (proj1 Htk)].
  assert (keeps_bytes s s2) as [Hn3 Hb3].
  { split; [intros g; by rewrite Hn2; simpl; rewrite Hn|]. intros path Hp. rewrite Hb2; [apply Hb|].
    intros q Hq. simpl in *. rewrite Ht in Hq. rewrite Hn. by apply Hp. }
  destruct ru as [[]|e]; by injection E as <- <-.
Qed.

Lemma bpm_init_inv n d r :
  disk_wf d → rep_inv r → rep_frames r = [] → rep_cap r = Z.of_nat n →
  bp_inv (bpm_init n d r) ∧ bp_full (bpm_init n d r).
Proof.
  intros Hd Hr Hrf Hc. assert (∀ f, frame f (bpm_init n d r) = page_init) as Hfr.
  { intros f. unfold frame, bpm_init. simpl. rewrite nth_lookup.
    destruct (replicate n page_init !! Z.to_nat f) as [x|] eqn:E; [|done].
    by apply lookup_replicate in E as [-> _]. }
  assert (∀ f, f ∈ free_list (bpm_init n d r) ↔ in_pool (bpm_init n d r) f) as Hfree.
  { intros f. unfold in_pool, bpm_init. simpl. rewrite length_replicate, list_elem_of_fmap. split.
    - intros (k & -> & Hk). apply elem_of_seq in Hk. lia.
    - intros Hf. exists (Z.to_nat f). split; [lia|]. apply elem_of_seq. lia. }
  split; [split|]; try done.
  - intros f _ Hres. rewrite Hfr in Hres. by exfalso; apply Hres.
  - apply NoDup_fmap_2; [apply _|apply NoDup_seq].
  - intros f Hf. rewrite Hfr. split; [by apply Hfree|]. intros Hx. by apply Hx.
  - intros f Hf. rewrite Hfr. split; [apply length_zero_page|]. simpl. lia.
  - simpl. by rewrite length_replicate.
  - simpl. rewrite Hrf. set_solver.
  - intros f Hf. left. by apply Hfree.
Qed.

End Invariant.

(* ------------------------------------------------------------------ *)
(** ** The interface to the record and index layers                     *)
(* ------------------------------------------------------------------ *)

(** The calls a client makes: the buffer pool's methods, and reads and writes
    through a Page* it has pinned. *)
Class PageStore (S : Type) := {
  ps_fetch : PageId → ST S (option Z);
  ps_unpin : PageId → bool → ST S bool;
  ps_new : Z → ST S (option (Z * PageId));
  ps_page_id : Z → S → PageId;
  ps_data : Z → S → list Z;
  ps_put : Z → list Z → S → S;
  ps_file_name : Z → S → outcome string   (** disk_manager_->get_file_name *)
}.

(** [ps_holds s f p]: the pointer [f] is pinned and holds page [p].
    [ps_clean s f]: the page behind [f] may be released without marking it
    dirty. *)
Class PageStoreLaws (S : Type) `{PageStore S} := {
  ps_ok : S → Prop;
  ps_open : S → Z → Prop;
  ps_view : S → PageId → option (list Z);
  ps_pins : S → PageId → Z;
  ps_next : S → Z → Z;
  ps_resident : S → PageId → Prop;
  ps_holds : S → Z → PageId → Prop;
  ps_clean : S → Z → Prop;
  ps_holds_ok s f p : ps_ok s → ps_holds s f p →
    ps_page_id f s = p ∧ ps_view s p = Some (ps_data f s) ∧
    Z.of_nat (length (ps_data f s)) = PAGE_SIZE ∧ 0 < ps_pins s p ∧ ps_open s (pid_fd p) ∧
    ps_resident s p;
  ps_fetch_ok s p o s' : ps_ok s → pid_no p ≠ INVALID_PAGE_ID → ps_open s (pid_fd p) →
    ps_fetch p s = (Ret o, s') →
    ps_ok s' ∧ (∀ fd, ps_open s' fd ↔ ps_open s fd) ∧ (∀ fd, ps_next s' fd = ps_next s fd) ∧
    match o with
    | None => s' = s
    | Some f =>
        ps_holds s' f p ∧ page_le (ps_view s) (ps_view s') ∧
        ps_pins s' p = ps_pins s p + 1 ∧ (∀ q, q ≠ p → ps_pins s' q = ps_pins s q) ∧
        (ps_pins s p = 0 → ps_clean s' f) ∧
        (∀ g q, ps_holds s g q → ps_holds s' g q ∧ (ps_clean s g → ps_clean s' g)) ∧
        (∀ q, ps_resident s' q → ps_resident s q ∨ q = p)
    end;
  ps_new_ok s fd o s' : ps_ok s → ps_open s fd → 0 ≤ ps_next s fd →
    ¬ ps_resident s (mkPageId fd (ps_next s fd)) → ps_new fd s = (Ret o, s') →
    ps_ok s' ∧ (∀ g, ps_open s' g ↔ ps_open s g) ∧
    match o with
    | None => s' = s
    | Some (f, p) =>
        p = mkPageId fd (ps_next s fd) ∧
        ps_holds s' f p ∧ ps_view s' p = Some zero_page ∧
        (∀ q c, q ≠ p → ps_view s q = Some c → ps_view s' q = Some c) ∧
        ps_pins s' p = 1 ∧ (∀ q, q ≠ p → ps_pins s' q = ps_pins s q) ∧
        (∀ g q, ps_holds s g q → ps_holds s' g q ∧ (ps_clean s g → ps_clean s' g)) ∧
        (ps_next s fd < int32_max → ps_next s' fd = ps_next s fd + 1) ∧
        (∀ g, g ≠ fd → ps_next s' g = ps_next s g) ∧
        (∀ q, ps_resident s' q → ps_resident s q ∨ q = p)
    end;
  ps_unpin_ok s p f dirty : ps_ok s → ps_holds s f p → (dirty = false → ps_clean s f) →
    ∃ s', ps_unpin p dirty s = (Ret true, s') ∧ ps_ok s' ∧
      (∀ fd, ps_open s' fd ↔ ps_open s fd) ∧ (∀ fd, ps_next s' fd = ps_next s fd) ∧
      (∀ q, ps_view s' q = ps_view s q) ∧
      ps_pins s' p = ps_pins s p - 1 ∧ (∀ q, q ≠ p → ps_pins s' q = ps_pins s q) ∧
      (∀ g q, q ≠ p → ps_holds s g q → ps_holds s' g q ∧ (ps_clean s g → ps_clean s' g)) ∧
      (∀ q, ps_resident s' q ↔ ps_resident s q);
  ps_put_ok s f p bs : ps_ok s → ps_holds s f p → Z.of_nat (length bs) = PAGE_SIZE →
    let s' := ps_put f bs s in
    ps_ok s' ∧ (∀ fd, ps_open s' fd ↔ ps_open s fd) ∧ (∀ fd, ps_next s' fd = ps_next s fd) ∧
    ps_view s' p = Some bs ∧ ps_data f s' = bs ∧ (∀ q, q ≠ p → ps_view s' q = ps_view s q) ∧
    (∀ q, ps_pins s' q = ps_pins s q) ∧
    (∀ g q, ps_holds s g q → ps_holds s' g q) ∧
    (∀ g q, q ≠ p → ps_holds s g q → ps_clean s g → ps_clean s' g) ∧
    (∀ q, ps_resident s' q ↔ ps_resident s q);
  (** [ps_live]: the disk below works; [ps_cap]: the number of frames.  Then a
      fetch or a new page succeeds while fewer pages are pinned than frames. *)
  ps_live : S → Prop;
  ps_cap : S → nat;
  ps_fetch_keeps s p r s' : ps_ok s → 0 ≤ pid_no p → ps_live s → ps_fetch p s = (r, s') →
    ps_live s' ∧ ps_cap s' = ps_cap s;
  ps_new_keeps s fd r s' : ps_ok s → 0 ≤ ps_next s fd → ps_open s fd → ps_live s → ps_new fd s = (r, s') →
    ps_live s' ∧ ps_cap s' = ps_cap s;
  ps_unpin_keeps s p dirty r s' : ps_live s → ps_unpin p dirty s = (r, s') → ps_live s' ∧ ps_cap s' = ps_cap s;
  ps_put_keeps s f bs : ps_live s → ps_live (ps_put f bs s) ∧ ps_cap (ps_put f bs s) = ps_cap s;
  ps_fetch_live s p (X : gset PageId) : ps_ok s → 0 ≤ pid_no p → ps_live s → ps_open s (pid_fd p) →
    is_Some (ps_view s p) → (∀ q, 0 < ps_pins s q → q ∈ X) → (size (X ∪ {[p]}) ≤ ps_cap s)%nat →
    ∃ f s', ps_fetch p s = (Ret (Some f), s');
  ps_new_live s fd (X : gset PageId) : ps_ok s → 0 ≤ ps_next s fd → ps_live s → ps_open s fd →
    (∀ q, 0 < ps_pins s q → q ∈ X) → (size X < ps_cap s)%nat →
    ∃ f p s', ps_new fd s = (Ret (Some (f, p)), s');
  (** the bytes of a file on disk; a file none of whose pages is in the pool
      keeps them *)
  ps_bytes : S → string → list Z;
  ps_fetch_bytes s p r s' : ps_ok s → pid_no p ≠ INVALID_PAGE_ID → ps_open s (pid_fd p) → ps_fetch p s = (r, s') →
    (∀ g, ps_file_name g s' = ps_file_name g s) ∧
    ∀ path, (∀ q, ps_resident s q → ps_file_name (pid_fd q) s ≠ Ret path) → ps_bytes s' path = ps_bytes s path;
  ps_new_bytes s fd r s' : ps_ok s → ps_new fd s = (r, s') →
    (∀ g, ps_file_name g s' = ps_file_name g s) ∧
    ∀ path, (∀ q, ps_resident s q → ps_file_name (pid_fd q) s ≠ Ret path) → ps_bytes s' path = ps_bytes s path;
  ps_unpin_bytes s p dirty r s' : ps_unpin p dirty s = (r, s') →
    (∀ g, ps_file_name g s' = ps_file_name g s) ∧ ∀ path, ps_bytes s' path = ps_bytes s path;
  ps_put_bytes s f bs :
    (∀ g, ps_file_name g (ps_put f bs s) = ps_file_name g s) ∧ ∀ path, ps_bytes (ps_put f bs s) path = ps_bytes s path
}.

Section PoolStore.
Context {R D : Type} `{ReplacerLaws R, DiskLaws D}.
Abbreviation bpm := (BPM R D).
Implicit Types s : bpm.

#[export] Instance BPM_store : PageStore bpm := {
  ps_fetch := fetch_page; ps_unpin := unpin_page; ps_new := new_page;
  ps_page_id := get_page_id; ps_data := get_data; ps_put := put_data;
  ps_file_name fd s := disk_file_name fd (disk s)
}.

Definition holds s (f : Z) (p : PageId) : Prop :=
  page_table s !! p = Some f ∧ 0 < pin_count (frame f s).

Lemma stable_holds s s' g q :
  bp_inv s → bp_inv s' → length (pages s') = length (pages s) → stable s s' → holds s g q →
  holds s' g q ∧ (droppable s g → droppable s' g).
Proof.
  intros Hs Hs' Hl Hst [Hq Hpin]. destruct (i_table s Hs q g Hq) as (Hg & Hid & Hno & _).
  destruct (Hst g Hg Hpin) as (E1 & E2 & E3 & E4). split; [|done]. split; [|done].
  rewrite <- Hid, <- E1. apply (i_ids s' Hs').
  - unfold in_pool in *. by rewrite Hl.
  - unfold resident. by rewrite E1, Hid.
Qed.

Lemma same_but_holds s s' f p :
  bp_inv s → page_table s !! p = Some f → page_table s' = page_table s → disk s' = disk s →
  same_but f s s' →
  ∀ g q, q ≠ p → holds s g q → holds s' g q ∧ (droppable s g → droppable s' g).
Proof.
  intros Hs Hp Ht Hd [Hl Hsame] g q Hne [Hq Hpin]. assert (g ≠ f).
  { intros ->. by apply Hne, (table_inj s q p f). }
  destruct (i_table s Hs q g Hq) as (Hg & _). unfold holds, droppable. rewrite Ht, Hd, Hsame by done. done.
Qed.

#[export] Instance BPM_store_laws : PageStoreLaws bpm.
Proof.
  refine {| ps_ok s := bp_inv s ∧ bp_full s; ps_open s fd := disk_open (disk s) fd; ps_view := view;
            ps_pins := pins; ps_next := next_no; ps_resident s p := is_Some (page_table s !! p);
            ps_holds := holds; ps_clean := droppable; ps_live := pool_live; ps_cap s := length (pages s);
            ps_bytes s path := disk_bytes (disk s) path |}.
  - intros s f p [Hs _] [Hp Hpin]. destruct (i_table s Hs p f Hp) as (Hf & Hid & _ & Ho).
    split_and!; [done|by apply view_frame|by apply (i_page s Hs)| |done|by rewrite Hp].
    unfold pins. by rewrite Hp.
  - intros s p o s' [Hs Hfull] Hno Ho E. pose proof (fetch_page_next _ _ _ _ E) as Hnext.
    apply fetch_page_spec in E as (Hs' & Ho' & Hm); [|done|done|done]. destruct o as [f|].
    + destruct Hm as (Hh & Hle & Hcl). pose proof Hh as [h1 h2 h3 h4 h5 h6 h7 h8 h9].
      split; [split; [done|by apply h7]|]. split; [done|]. split; [done|].
      assert (pins s' p = pins s p + 1) as Hpp by (unfold pins at 1; by rewrite h2).
      assert (0 ≤ pins s p) as Hge.
      { unfold pins. destruct (page_table s !! p) as [g|] eqn:Eg; [|done].
        apply (i_table s Hs) in Eg as (Hg & _). by apply (i_page s Hs). }
      split_and!; try done; [split; [done|lia]|by apply Hcl|].
      intros g q. by apply stable_holds.
    + destruct Hm as (-> & _). done.
  - intros s fd o s' [Hs Hfull] Ho Hge Hnr E. pose proof E as E0.
    apply new_page_spec in E as (Hs' & Ho' & Hm); [|done|done|].
    2:{ intros n d Ea. apply disk_allocate_next in Ea as (En & _). fold (next_no s fd) in En. subst n.
        split; [unfold INVALID_PAGE_ID; lia|]. by apply eq_None_not_Some. }
    destruct o as [[f p]|]; [|by destruct Hm as (-> & _)].
    destruct Hm as (Hh & Hv & Hfd & _). apply new_page_next in E0 as (En & Hnx & Hng).
    assert (p = mkPageId fd (next_no s fd)) as Ep by (destruct p; simpl in *; by subst).
    destruct Hh as [h1 h2 h3 h4 h5 h6 h7 h8 h9].
    assert (pins s p = 0) as Hz.
    { unfold pins. rewrite Ep. destruct (page_table s !! _) eqn:Eg; [|done]. exfalso. apply Hnr. eauto. }
    split; [split; [done|by apply h7]|]. split; [done|].
    split_and!; try done; [split; [done|lia]| | | ].
    + unfold pins. rewrite h2. lia.
    + intros g q. by apply stable_holds.
    + intros Hlt. rewrite En in Hnx. by apply Hnx.
  - intros s p f dirty [Hs Hfull] [Hp Hpin] Hcl.
    destruct (unpin_page_spec s p f dirty) as (s' & E & Hs' & Hd & Ht & Hsame & Hfr & Hfl); try done.
    exists s'. destruct (same_but_view s s' p f) as (Hv & Hpp & Hoth); try done.
    split_and!; try done; [by apply Hfl| | | | | | |].
    + intros fd. by rewrite Hd.
    + intros fd. unfold next_no. by rewrite Hd.
    + intros q. destruct (decide (q = p)) as [->|]; [|by apply Hoth].
      rewrite Hv, Hfr. simpl. by rewrite (view_frame s p f).
    + rewrite Hpp, Hfr. simpl. unfold pins. by rewrite Hp.
    + intros q Hq. by apply Hoth.
    + intros g q Hq Hh. by eapply same_but_holds.
    + intros q. by rewrite Ht.
  - intros s f p bs [Hs Hfull] [Hp Hpin] Hl. destruct (i_table s Hs p f Hp) as (Hf & _).
    destruct (put_data_spec s f bs) as (Hs' & Hsame & Hfr & Hfl); try done.
    set (s' := put_data f bs s) in *. destruct (same_but_view s s' p f) as (Hv & Hpp & Hoth); try done.
    assert (∀ g q, holds s g q → q ≠ p → holds s' g q ∧ (droppable s g → droppable s' g)) as Hh.
    { intros g q ??. by eapply same_but_holds. }
    intros s1. change s1 with s'. clear s1. split_and!; try done; [by apply Hfl| | | | | |].
    + by rewrite Hv, Hfr.
    + simpl. unfold get_data. fold s'. by rewrite Hfr.
    + intros q Hq. by apply Hoth.
    + intros q. destruct (decide (q = p)) as [->|]; [|by apply Hoth]. rewrite Hpp, Hfr. simpl.
      unfold pins. by rewrite Hp.
    + intros g q Hgq. destruct (decide (q = p)) as [->|]; [|by apply Hh].
      destruct Hgq as [Hgp Hgpin]. assert (g = f) as -> by congruence.
      split; [done|]. by rewrite Hfr.
    + intros g q Hq Hgq. by apply (Hh g q).
  - intros s p r s' [Hs _] Hno Hl E. by destruct (fetch_page_live s p r s' Hs Hno Hl E) as (? & ? & _).
  - intros s fd r s' [Hs _] Hno Ho Hl E. by destruct (new_page_live s fd r s' Hs Hno Hl Ho E) as (? & ? & _).
  - intros s p dirty r s' [Hd Hp] E. cbn [ps_unpin BPM_store] in E.
    unfold unpin_page, modify_st, get_st, mret, st_ret, mbind, st_bind in E.
    destruct (page_table s !! p) as [f|]; [|by injection E as _ <-]. destruct (_ <=? 0); [by injection E as _ <-|].
    destruct (_ =? 0); injection E as _ <-; split; (done || simpl; by rewrite length_insert).
  - intros s f bs Hl. split; [done|]. simpl. by rewrite length_insert.
  - intros s p X [Hs Hfull] Hno Hl Ho Hv HX Hsz. destruct (fetch_page p s) as [r s'] eqn:E.
    destruct (fetch_page_live s p r s' Hs Hno Hl E) as (_ & _ & Hx). destruct (Hx Ho Hv Hfull X HX Hsz) as [f ->].
    by exists f, s'.
  - intros s fd X [Hs Hfull] Hno Hl Ho HX Hsz. destruct (new_page fd s) as [r s'] eqn:E.
    destruct (new_page_live s fd r s' Hs Hno Hl Ho E) as (_ & _ & Hx). destruct (Hx Hfull X HX Hsz) as (f & p & ->).
    by exists f, p, s'.
  - intros s p r s' [Hs _] Hno Ho E. exact (fetch_page_bytes s p r s' Hs Hno Ho E).
  - intros s fd r s' [Hs _] E. exact (new_page_bytes s fd r s' Hs E).
  - intros s p dirty r s' E. cbn [ps_unpin BPM_store] in E.
    unfold unpin_page, modify_st, get_st, mret, st_ret, mbind, st_bind in E.
    destruct (page_table s !! p) as [f|]; [|by injection E as _ <-]. destruct (_ <=? 0); [by injection E as _ <-|].
    destruct (_ =? 0); by injection E as _ <-.
  - done.
Defined.

(** C14: fetch_page on an open file.  Whatever the outcome, the page table, the
    frames, the free list and the replacer stay consistent.  When a Page* is
    returned it holds the requested page with one more pin, every page still
    reads as before (evicted dirty pages were written back), all other pin
    counts are unchanged and frames that were pinned keep their page and bytes. *)
Theorem fetch_page_correct s p r s' (Hs : bp_inv s) (Hno : pid_no p ≠ INVALID_PAGE_ID)
    (Ho : disk_open (disk s) (pid_fd p)) (E : fetch_page p s = (r, s')) :
  bp_inv s' ∧
  ∀ f, r = Ret (Some f) →
    page_table s' !! p = Some f ∧ view s' p = Some (data_ (frame f s')) ∧
    (∀ q c, view s q = Some c → view s' q = Some c) ∧
    pins s' p = pins s p + 1 ∧ (∀ q, q ≠ p → pins s' q = pins s q) ∧
    (∀ g, in_pool s g → 0 < pin_count (frame g s) →
       id_ (frame g s') = id_ (frame g s) ∧ data_ (frame g s') = data_ (frame g s)).
Proof.
  apply fetch_page_spec in E as (Hs' & _ & Hm); [|done..]. split; [done|]. intros f ->.
  destruct Hm as ([h1 h2 h3 h4 h5 h6 h7 h8 h9] & Hle & _).
  split_and!; try done; [by apply view_frame|unfold pins at 1; by rewrite h2|].
  intros g Hg Hpin. destruct (h6 g Hg Hpin) as (? & ? & _). done.
Qed.

(** Fetch_page returns nullptr only when every frame of the pool is pinned,
    and then it changes nothing. *)
Theorem fetch_page_nullptr s p s' (Hs : bp_inv s) (Hfull : bp_full s)
    (Hno : pid_no p ≠ INVALID_PAGE_ID) (Ho : disk_open (disk s) (pid_fd p))
    (E : fetch_page p s = (Ret None, s')) :
  s' = s ∧ ∀ f, in_pool s f → 0 < pin_count (frame f s).
Proof.
  apply fetch_page_spec in E as (_ & _ & -> & _ & Hf & Hr); [|done..]. split; [done|].
  intros f Hp. destruct (Hfull f Hp) as [Hin|[Hin|?]]; [|..|done].
  - rewrite Hf in Hin. by apply elem_of_nil in Hin.
  - rewrite Hr in Hin. by apply elem_of_nil in Hin.
Qed.

(** C20: bytes stored through a pinned Page* survive eviction.  After the page is
    unpinned as dirty and another page is fetched (which may evict it) and
    released, fetching the page again gives the stored bytes. *)
Theorem write_evict_fetch s f p bs s1 q g s2 s3 h s4 (Hs : bp_inv s) (Hfull : bp_full s)
    (Hh : holds s f p) (Hlen : Z.of_nat (length bs) = PAGE_SIZE) (Hqp : q ≠ p)
    (Hno : pid_no q ≠ INVALID_PAGE_ID) (Ho : disk_open (disk s) (pid_fd q)) (Hq : pins s q = 0)
    (E1 : unpin_page p true (put_data f bs s) = (Ret true, s1))
    (E2 : fetch_page q s1 = (Ret (Some g), s2))
    (E3 : unpin_page q false s2 = (Ret true, s3))
    (E4 : fetch_page p s3 = (Ret (Some h), s4)) :
  get_data h s4 = bs ∧ bp_inv s4 ∧ bp_full s4.
Proof.
  destruct (ps_put_ok s f p bs) as (K0 & O0 & _ & V0 & _ & _ & P0 & H0' & _); try done.
  destruct (ps_unpin_ok (put_data f bs s) p f true) as (s1' & E1' & K1 & O1 & _ & V1 & P1 & Q1 & _);
    [done|by apply H0'|done|].
  assert (s1' = s1) as -> by (simpl in E1'; congruence). clear E1'.
  assert (ps_open s1 (pid_fd q)) as Hoq by by apply O1, O0.
  destruct (ps_fetch_ok s1 q (Some g) s2) as (K2 & O2 & _ & G2 & V2 & P2 & Q2 & C2 & _); [done..|].
  destruct (ps_unpin_ok s2 q g false) as (s3' & E3' & K3 & O3 & _ & V3 & _); [done|done| |].
  { intros _. apply C2. rewrite Q1 by done. by rewrite P0. }
  assert (s3' = s3) as -> by (simpl in E3'; congruence). clear E3'.
  assert (ps_view s3 p = Some bs) as Hv3 by (rewrite V3; apply V2; by rewrite V1).
  destruct Hh as [Hp Hpin]. destruct (i_table s Hs p f Hp) as (_ & _ & Hnp & Hop).
  destruct (ps_fetch_ok s3 p (Some h) s4) as (K4 & _ & _ & G4 & V4 & _); [done|done| |done|].
  { by apply O3, O2, O1, O0. }
  destruct (ps_holds_ok s4 h p K4 G4) as (_ & V4' & _).
  apply V4 in Hv3. rewrite V4' in Hv3. injection Hv3 as Hv3. split; [done|]. done.
Qed.

(** C21: the protocol of closing a file.  If flush_all_pages and then
    delete_all_pages succeed, every page of the file is on disk with the bytes
    clients saw, none is left in the pool, and pages of other files are kept. *)
Theorem flush_delete_all s fd s1 s2 (Hs : bp_inv s) (Hfull : bp_full s)
    (E1 : flush_all_pages fd s = (Ret tt, s1)) (E2 : delete_all_pages fd s1 = (Ret true, s2)) :
  (∀ p c, pid_fd p = fd → view s p = Some c → disk_page (disk s2) p = Some c) ∧
  (∀ p, pid_fd p = fd → page_table s2 !! p = None) ∧
  (∀ p c, view s p = Some c → view s2 p = Some c) ∧ bp_inv s2 ∧ bp_full s2.
Proof.
  apply flush_all_pages_spec in E1 as (Q1 & _ & D1); [|done].
  apply delete_all_pages_spec in E2 as (Q2 & _ & N2); [|by apply (q_inv _ _ Q1)|by apply (q_full _ _ Q1)].
  specialize (N2 eq_refl). assert (∀ p c, view s p = Some c → view s2 p = Some c) as Hv.
  { intros p c Hc. by apply (q_view _ _ Q2), (q_view _ _ Q1). }
  split_and!; try done; [|by apply (q_inv _ _ Q2)|by apply (q_full _ _ Q2), (q_full _ _ Q1)].
  intros p c Hfd Hc. apply Hv in Hc. unfold view in Hc. by rewrite N2 in Hc.
Qed.

End PoolStore.

(** A pool of two frames over the disk of [DiskWitness], after three pages of
    the data file were created: page 0 was evicted and is on disk. *)
Module PoolWitness.

Definition pool : Type := BPM LRU.LRUReplacer (DiskManager MemFS.fs).

Definition p (n : Z) : PageId := mkPageId 0 n.

Definition s0 : pool := bpm_init 2 DiskWitness.d4 (LRU.init 2).

Definition run {A} (m : ST pool A) (s : pool) : pool := snd (m s).

(** new_page, fill it with [b], unpin it dirty *)
Definition make (b : Z) : ST pool bool :=
  r ← new_page 0;
  match r with
  | Some (f, pid) =>
      modify_st (put_data f (replicate (Z.to_nat PAGE_SIZE) b)) ;; unpin_page pid true
  | None => mret false
  end.

Definition s1 : pool := run (make 1) s0.
Definition s2 : pool := run (make 2) s1.
Definition s3 : pool := run (make 3) s2.
Definition s4 : pool := run (fetch_page (p 1)) s3.
Definition s5 : pool := run (fetch_page (p 2)) s4.

Lemma d4_wf : disk_wf DiskWitness.d4.
Proof. apply dm_reachable_inv, DiskWitness.d4_reachable. Qed.

Lemma s0_ok : ps_ok s0 ∧ ps_open s0 0.
Proof. split; [|by exists "t"]. apply bpm_init_inv; [apply d4_wf|by apply LRU.init_inv|done|done]. Qed.

Lemma make_ok b (s s' : pool) :
  ps_ok s ∧ ps_open s 0 → 0 ≤ ps_next s 0 → page_table s !! p (ps_next s 0) = None →
  make b s = (Ret true, s') → ps_ok s' ∧ ps_open s' 0.
Proof.
  intros [Hs Ho] Hn Hr E. unfold make in E. apply st_bind_ret_inv in E as (o & t & E1 & E).
  destruct (ps_new_ok s 0 o t) as (Ht & Ot & Hm); [done|done|done| |done|].
  { intros [x Hx]. unfold p in Hr. simpl in Hr, Hx. congruence. }
  destruct o as [[f pid]|]; [|done]. destruct Hm as (-> & Hh & _).
  set (bs := replicate _ b) in E. assert (Z.of_nat (length bs) = PAGE_SIZE) by (unfold bs; by rewrite length_replicate).
  destruct (ps_put_ok t f _ bs Ht Hh) as (Hp & Op & _ & _ & _ & _ & _ & Hh' & _); [done|].
  destruct (ps_unpin_ok (put_data f bs t) _ f true Hp (Hh' _ _ Hh)) as (t' & E' & K & O & _); [done|].
  change (ps_unpin (mkPageId 0 (ps_next s 0)) true (put_data f bs t) = (Ret true, s')) in E.
  rewrite E' in E. injection E as <-.
  split; [done|]. by apply O, Op, Ot.
Qed.

Lemma s3_ok : ps_ok s3 ∧ ps_open s3 0.
Proof.
  apply (make_ok 3 s2); [|by vm_compute..]. apply (make_ok 2 s1); [|by vm_compute..].
  apply (make_ok 1 s0); [apply s0_ok|by vm_compute..].
Qed.

Lemma s4_ok : ps_ok s4 ∧ ps_open s4 0.
Proof.
  destruct s3_ok as [Hs Ho].
  destruct (ps_fetch_ok s3 (p 1) (Some 1) s4) as (? & Hop & _); [done|done|done|by vm_compute|].
  split; [done|by apply Hop].
Qed.

Lemma s5_ok : ps_ok s5 ∧ ps_open s5 0.
Proof.
  destruct s4_ok as [Hs Ho].
  destruct (ps_fetch_ok s4 (p 2) (Some 0) s5) as (? & Hop & _); [done|done|done|by vm_compute|].
  split; [done|by apply Hop].
Qed.

Lemma fetch_page_correct_witness : pins (run (fetch_page (p 0)) s3) (p 0) = 1.
Proof.
  destruct s3_ok as [[Hs _] Ho].
  destruct (fetch_page_correct s3 (p 0) (Ret (Some 1)) (run (fetch_page (p 0)) s3) Hs)
    as [_ Hf]; [done|done|by vm_compute|]. by destruct (Hf 1 eq_refl) as (_ & _ & _ & -> & _).
Defined.

Lemma fetch_page_nullptr_witness : 0 < pin_count (frame 0 s5).
Proof.
  destruct s5_ok as [[Hs Hf] Ho].
  apply (fetch_page_nullptr s5 (p 0) (run (fetch_page (p 0)) s5) Hs Hf); [done|done|by vm_compute|done].
Defined.

Definition w1 : pool := run (unpin_page (p 1) true) (put_data 1 DiskWitness.page s4).
Definition w2 : pool := run (fetch_page (p 0)) w1.
Definition w3 : pool := run (unpin_page (p 0) false) w2.
Definition w4 : pool := run (fetch_page (p 1)) w3.

Lemma write_evict_fetch_witness : get_data 1 w4 = DiskWitness.page.
Proof.
  destruct s4_ok as [[Hs Hf] Ho].
  refine (proj1 (write_evict_fetch s4 1 (p 1) DiskWitness.page w1 (p 0) 0 w2 w3 1 w4
                   Hs Hf _ _ _ _ Ho _ _ _ _ _));
    [split; by vm_compute|by vm_compute..].
Defined.

Definition f1 : pool := run (flush_all_pages 0) s3.
Definition f2 : pool := run (delete_all_pages 0) f1.

Lemma flush_delete_all_witness : page_table f2 !! p 2 = None.
Proof.
  destruct s3_ok as [[Hs Hf] Ho].
  refine (proj1 (proj2 (flush_delete_all s3 0 f1 f2 Hs Hf _ _)) (p 2) _); by vm_compute.
Defined.

End PoolWitness.
