(* ===== verification/RmFile.v ===== *)
(** * Record files (src/src/record/)

    RmFileHdr, RmPageHdr and the page layout of rm_defs.h, the operations of
    RmFileHandle (rm_file_handle.{h,cpp}) and the scan of rm_scan.{h,cpp}.  A
    page is its bytes; a page handle is the pinned pointer it wraps, and its
    three pointers into the page are the offsets below.  Everything runs over
    the [PageStore] interface of the buffer pool. *)

From S2P Require Import Prelude Defs Bitmap BufferPool.

Definition RM_NO_PAGE : Z := -1.
Definition RM_FILE_HDR_PAGE : Z := 0.
Definition RM_FIRST_RECORD_PAGE : Z := 1.
Definition RM_MAX_RECORD_SIZE : Z := 512.

Record RmFileHdr := mkRmFileHdr {
  record_size : Z;
  num_pages : Z;
  num_records_per_page : Z;
  first_free_page_no : Z;
  bitmap_size : Z
}.

Definition set_num_pages (n : Z) (h : RmFileHdr) : RmFileHdr :=
  mkRmFileHdr (record_size h) n (num_records_per_page h) (first_free_page_no h) (bitmap_size h).
Definition set_first_free (n : Z) (h : RmFileHdr) : RmFileHdr :=
  mkRmFileHdr (record_size h) (num_pages h) (num_records_per_page h) n (bitmap_size h).

(** The struct as it is written to page 0. *)
Definition rm_hdr_bytes (h : RmFileHdr) : list Z :=
  le_bytes 4 (record_size h) ++ le_bytes 4 (num_pages h) ++ le_bytes 4 (num_records_per_page h) ++
  le_bytes 4 (first_free_page_no h) ++ le_bytes 4 (bitmap_size h).
Definition rm_hdr_parse (bs : list Z) : RmFileHdr :=
  mkRmFileHdr (load_i32 0 bs) (load_i32 4 bs) (load_i32 8 bs) (load_i32 12 bs) (load_i32 16 bs).
Definition SIZEOF_RmFileHdr : Z := 20.

(* ------------------------------------------------------------------ *)
(** ** Page layout                                                      *)
(* ------------------------------------------------------------------ *)

(** page_hdr = data + OFFSET_PAGE_HDR; bitmap = page_hdr + sizeof(RmPageHdr);
    slots = bitmap + bitmap_size *)
Definition OFF_NEXT : nat := OFFSET_PAGE_HDR.
Definition OFF_NUM : nat := OFFSET_PAGE_HDR + 4.
Definition OFF_BITMAP : nat := OFFSET_PAGE_HDR + 8.
Definition slots_off (h : RmFileHdr) : Z := Z.of_nat OFF_BITMAP + bitmap_size h.

(** RmPageHandle::get_slot *)
Definition get_slot (h : RmFileHdr) (slot_no : Z) : nat :=
  Z.to_nat (slots_off h + slot_no * record_size h).

Definition next_free (d : list Z) : Z := load_i32 OFF_NEXT d.
Definition num_records (d : list Z) : Z := load_i32 OFF_NUM d.
Definition set_next_free (n : Z) (d : list Z) : list Z := store_i32 OFF_NEXT n d.
Definition set_num_records (n : Z) (d : list Z) : list Z := store_i32 OFF_NUM n d.

(** The bitmap functions get the pointer [bitmap]; what they write goes back
    to the page. *)
Definition bitmap_ptr (d : list Z) : list Z := drop OFF_BITMAP d.
Definition put_bitmap (bm d : list Z) : list Z := take OFF_BITMAP d ++ bm.

Definition read_slot (h : RmFileHdr) (slot_no : Z) (d : list Z) : list Z :=
  read_at (get_slot h slot_no) (Z.to_nat (record_size h)) d.
(** memcpy(get_slot(slot_no), buf, record_size) *)
Definition write_slot (h : RmFileHdr) (slot_no : Z) (buf d : list Z) : list Z :=
  splice (get_slot h slot_no) (take (Z.to_nat (record_size h)) buf) d.

(* ------------------------------------------------------------------ *)
(** ** RmFileHandle                                                     *)
(* ------------------------------------------------------------------ *)

Section RmFileHandle.
Context {S : Type} `{PageStore S}.
Variable fd : Z.   (* fd_ *)

Record RmFile := mkRmFile { store : S; file_hdr : RmFileHdr }.

Definition on_store {A} (m : ST S A) : ST RmFile A := λ st,
  let '(r, s) := m (store st) in (r, mkRmFile s (file_hdr st)).
Definition get_hdr : ST RmFile RmFileHdr := λ st, (Ret (file_hdr st), st).
Definition modify_hdr (f : RmFileHdr → RmFileHdr) : ST RmFile unit :=
  modify_st (λ st, mkRmFile (store st) (f (file_hdr st))).
Definition page_data (f : Z) : ST RmFile (list Z) := λ st, (Ret (ps_data f (store st)), st).
Definition put_page (f : Z) (d : list Z) : ST RmFile unit :=
  modify_st (λ st, mkRmFile (ps_put f d (store st)) (file_hdr st)).
Definition page_no_of (f : Z) : ST RmFile Z := λ st, (Ret (pid_no (ps_page_id f (store st))), st).
Definition unpin_no (n : Z) (dirty : bool) : ST RmFile bool :=
  on_store (ps_unpin (mkPageId fd n) dirty).

Definition fetch_page_handle (page_no : Z) : ST RmFile Z :=
  h ← get_hdr;
  if (page_no <? RM_FIRST_RECORD_PAGE) || (num_pages h <=? page_no) then
    st ← get_st;
    name ← lift_outcome (ps_file_name fd (store st));
    throw (PageNotExistError name page_no)
  else
    page ← on_store (ps_fetch (mkPageId fd page_no));
    match page with
    | None => throw (InternalError "RmFileHandle::fetch_page_handle Error")
    | Some f => mret f
    end.

Definition create_new_page_handle : ST RmFile Z :=
  page ← on_store (ps_new fd);
  match page with
  | None => throw (InternalError "RmFileHandle::create_new_page_handle Error")
  | Some (f, page_id) =>
      modify_hdr (set_num_pages (pid_no page_id + 1)) ;;
      h ← get_hdr;
      d ← page_data f;
      let d := set_next_free RM_NO_PAGE d in
      let d := set_num_records 0 d in
      let d := put_bitmap (Bitmap.init (bitmap_ptr d) (bitmap_size h)) d in
      put_page f d ;;
      modify_hdr (set_first_free (pid_no page_id)) ;;
      mret f
  end.

Definition create_page_handle : ST RmFile Z :=
  h ← get_hdr;
  if first_free_page_no h =? RM_NO_PAGE then create_new_page_handle
  else fetch_page_handle (first_free_page_no h).

Definition release_page_handle (f : Z) : ST RmFile unit :=
  h ← get_hdr;
  d ← page_data f;
  put_page f (set_next_free (first_free_page_no h) d) ;;
  n ← page_no_of f;
  modify_hdr (set_first_free n).

Definition is_record (rid : Rid) : ST RmFile bool :=
  f ← fetch_page_handle (page_no rid);
  d ← page_data f;
  let exists_ := Bitmap.is_set (bitmap_ptr d) (slot_no rid) in
  unpin_no (page_no rid) false ;;
  mret exists_.

Definition get_record (rid : Rid) : ST RmFile (list Z) :=
  f ← fetch_page_handle (page_no rid);
  d ← page_data f;
  h ← get_hdr;
  if negb (Bitmap.is_set (bitmap_ptr d) (slot_no rid)) then
    unpin_no (page_no rid) false ;;
    throw (RecordNotFoundError (page_no rid) (slot_no rid))
  else
    let record := read_slot h (slot_no rid) d in
    unpin_no (page_no rid) false ;;
    mret record.

Definition insert_record (buf : list Z) : ST RmFile Rid :=
  f ← create_page_handle;
  d ← page_data f;
  h ← get_hdr;
  let slot_no := Bitmap.first_bit false (bitmap_ptr d) (num_records_per_page h) in
  if slot_no =? num_records_per_page h then
    n ← page_no_of f;
    unpin_no n false ;;
    throw (InternalError "RmFileHandle::insert_record Error")
  else
    let d := write_slot h slot_no buf d in
    let d := put_bitmap (Bitmap.set (bitmap_ptr d) slot_no) d in
    let d := set_num_records (num_records d + 1) d in
    put_page f d ;;
    (if num_records d =? num_records_per_page h then
       modify_hdr (set_first_free (next_free d)) ;;
       put_page f (set_next_free RM_NO_PAGE d)
     else mret tt) ;;
    n ← page_no_of f;
    unpin_no n true ;;
    mret (mkRid n slot_no).

(** The loop that unlinks a page that became full from the free list; [fuel]
    bounds the walk. *)
Fixpoint unlink_loop (fuel : nat) (page f prev_page_no : Z) : ST RmFile unit :=
  if prev_page_no =? RM_NO_PAGE then mret tt else
  match fuel with
  | O => throw Diverge
  | Datatypes.S fuel' =>
      g ← fetch_page_handle prev_page_no;
      pd ← page_data g;
      if next_free pd =? page then
        d ← page_data f;
        put_page g (set_next_free (next_free d) pd) ;;
        unpin_no prev_page_no true ;;
        d ← page_data f;
        put_page f (set_next_free RM_NO_PAGE d)
      else
        let next_page_no := next_free pd in
        unpin_no prev_page_no false ;;
        unlink_loop fuel' page f next_page_no
  end.

(** insert_record(const Rid &, char * ) *)
Definition insert_record_at (rid : Rid) (buf : list Z) : ST RmFile unit :=
  f ← fetch_page_handle (page_no rid);
  d ← page_data f;
  h ← get_hdr;
  let slot_was_empty := negb (Bitmap.is_set (bitmap_ptr d) (slot_no rid)) in
  let d := if slot_was_empty then
             let d := put_bitmap (Bitmap.set (bitmap_ptr d) (slot_no rid)) d in
             set_num_records (num_records d + 1) d
           else d in
  let d := write_slot h (slot_no rid) buf d in
  put_page f d ;;
  (if num_records d =? num_records_per_page h then
     if first_free_page_no h =? page_no rid then
       modify_hdr (set_first_free (next_free d)) ;;
       put_page f (set_next_free RM_NO_PAGE d)
     else unlink_loop (Z.to_nat (num_pages h)) (page_no rid) f (first_free_page_no h)
   else mret tt) ;;
  unpin_no (page_no rid) true ;;
  mret tt.

Definition delete_record (rid : Rid) : ST RmFile unit :=
  f ← fetch_page_handle (page_no rid);
  d ← page_data f;
  h ← get_hdr;
  if negb (Bitmap.is_set (bitmap_ptr d) (slot_no rid)) then
    unpin_no (page_no rid) false ;;
    throw (RecordNotFoundError (page_no rid) (slot_no rid))
  else
    let was_full := num_records d =? num_records_per_page h in
    let d := put_bitmap (Bitmap.reset (bitmap_ptr d) (slot_no rid)) d in
    let d := write_slot h (slot_no rid) (replicate (Z.to_nat (record_size h)) 0) d in
    let d := set_num_records (num_records d - 1) d in
    put_page f d ;;
    (if was_full then release_page_handle f else mret tt) ;;
    unpin_no (page_no rid) true ;;
    mret tt.

Definition update_record (rid : Rid) (buf : list Z) : ST RmFile unit :=
  f ← fetch_page_handle (page_no rid);
  d ← page_data f;
  h ← get_hdr;
  if negb (Bitmap.is_set (bitmap_ptr d) (slot_no rid)) then
    unpin_no (page_no rid) false ;;
    throw (RecordNotFoundError (page_no rid) (slot_no rid))
  else
    put_page f (write_slot h (slot_no rid) buf d) ;;
    unpin_no (page_no rid) true ;;
    mret tt.

(* ------------------------------------------------------------------ *)
(** ** RmScan                                                           *)
(* ------------------------------------------------------------------ *)

(** The while loop of RmScan::next, by the number of pages left. *)
Fixpoint scan_loop (fuel : nat) (page slot : Z) : ST RmFile Rid :=
  h ← get_hdr;
  if page <? num_pages h then
    match fuel with
    | O => throw Diverge
    | Datatypes.S fuel' =>
        f ← fetch_page_handle page;
        d ← page_data f;
        let next_slot := Bitmap.next_bit true (bitmap_ptr d) (num_records_per_page h) slot in
        unpin_no page false ;;
        if next_slot <? num_records_per_page h then mret (mkRid page next_slot)
        else scan_loop fuel' (page + 1) (-1)
    end
  else mret (mkRid (num_pages h) (-1)).

Definition scan_is_end (rid : Rid) (h : RmFileHdr) : bool := num_pages h <=? page_no rid.

Definition scan_next (rid : Rid) : ST RmFile Rid :=
  h ← get_hdr;
  if scan_is_end rid h then mret rid
  else scan_loop (Z.to_nat (num_pages h - page_no rid)) (page_no rid) (slot_no rid).

(** RmScan::RmScan *)
Definition scan_begin : ST RmFile Rid :=
  h ← get_hdr;
  if num_pages h <=? RM_FIRST_RECORD_PAGE then mret (mkRid (num_pages h) (-1))
  else scan_next (mkRid RM_FIRST_RECORD_PAGE (-1)).

(** for (RmScan scan(fh); !scan.is_end(); scan.next()) collect scan.rid() *)
Fixpoint scan_collect (fuel : nat) (rid : Rid) : ST RmFile (list Rid) :=
  h ← get_hdr;
  if scan_is_end rid h then mret [] else
  match fuel with
  | O => throw Diverge
  | Datatypes.S fuel' =>
      rid' ← scan_next rid;
      l ← scan_collect fuel' rid';
      mret (rid :: l)
  end.

Definition scan_all : ST RmFile (list Rid) :=
  h ← get_hdr;
  rid ← scan_begin;
  scan_collect (Z.to_nat (num_pages h * num_records_per_page h)) rid.

End RmFileHandle.
Arguments RmFile : clear implicits.
