(* ===== verification/RmPage.v ===== *)
(** * Record pages: what the byte-level operations do

    The page layout of rm_defs.h as four kinds of field (next free page,
    number of records, bitmap, slots), and the effect of every write the record
    file makes on each of them. *)

From S2P Require Import Prelude Defs Bitmap BufferPool RmFile.

(** A header RmManager::create_file produces (see [RmManager]): the slots and
    the bitmap fit in a page. *)
Record layout_ok (h : RmFileHdr) : Prop := {
  l_size : 1 ≤ record_size h;
  l_npp : 1 ≤ num_records_per_page h;
  l_bitmap : num_records_per_page h ≤ 8 * bitmap_size h;
  l_fits : Z.of_nat OFF_BITMAP + bitmap_size h + num_records_per_page h * record_size h ≤ PAGE_SIZE
}.

Definition page_len (d : list Z) : Prop := length d = Z.to_nat PAGE_SIZE.

Section Layout.
Variable h : RmFileHdr.
Hypothesis Hl : layout_ok h.

Definition slot_in (i : Z) : Prop := 0 ≤ i < num_records_per_page h.

Definition used (d : list Z) (i : Z) : bool := Bitmap.is_set (bitmap_ptr d) i.

Definition rec_at (d : list Z) (i : Z) : option (list Z) :=
  if used d i then Some (read_slot h i d) else None.

Lemma slot_bounds i : slot_in i →
  (OFF_BITMAP ≤ get_slot h i)%nat ∧
  Z.of_nat (get_slot h i) = Z.of_nat OFF_BITMAP + bitmap_size h + i * record_size h ∧
  (get_slot h i + Z.to_nat (record_size h) ≤ Z.to_nat PAGE_SIZE)%nat.
Proof.
  intros [Hi Hn]. destruct Hl as [H1 H2 H3 H4]. unfold get_slot, slots_off.
  assert (0 ≤ i * record_size h) by nia.
  assert ((i + 1) * record_size h ≤ num_records_per_page h * record_size h) by nia. lia.
Qed.

Lemma slots_apart i j : slot_in i → slot_in j → i ≠ j →
  apart (get_slot h i) (Z.to_nat (record_size h)) (get_slot h j) (Z.to_nat (record_size h)).
Proof.
  intros Hi Hj Hne. destruct (slot_bounds i Hi) as (_ & Ei & _). destruct (slot_bounds j Hj) as (_ & Ej & _).
  destruct Hl as [H1 _ _ _]. unfold apart.
  destruct (Z.lt_total i j) as [?|[?|?]]; [|done|].
  - assert ((i + 1) * record_size h ≤ j * record_size h) by nia. lia.
  - assert ((j + 1) * record_size h ≤ i * record_size h) by nia. lia.
Qed.

(** The byte of the page that holds bit [i], and its bounds. *)
Definition bit_byte (i : Z) : nat := OFF_BITMAP + Z.to_nat (i / 8).

Lemma bit_byte_bounds i : slot_in i →
  (OFF_BITMAP ≤ bit_byte i)%nat ∧ (bit_byte i < Z.to_nat (slots_off h))%nat.
Proof.
  intros [Hi Hn]. destruct Hl as [_ _ H3 _]. unfold bit_byte, slots_off.
  pose proof (Z.div_lt_upper_bound i 8 (bitmap_size h)). pose proof (Z.div_pos i 8). lia.
Qed.

Lemma slots_off_bounds i : slot_in i → (Z.to_nat (slots_off h) ≤ get_slot h i)%nat.
Proof. intros Hi. destruct (slot_bounds i Hi) as (_ & E & _). destruct Hi, Hl. unfold slots_off. nia. Qed.

Lemma is_set_byte d i : 0 ≤ i →
  used d i = negb (Z.land (to_char (nth (bit_byte i) d 0)) (char_of_pos (i mod 8)) =? 0).
Proof.
  intros Hi. unfold used, Bitmap.is_set, Bitmap.bucket, bitmap_ptr.
  rewrite bucket_div, get_bit_mod by done. unfold bit_byte.
  by rewrite <- nth_skipn.
Qed.

(** *** Reading a field not touched by a write *)

Lemma used_splice off src d i :
  slot_in i → (off ≤ length d)%nat → ((bit_byte i < off) ∨ (off + length src ≤ bit_byte i))%nat →
  used (splice off src d) i = used d i.
Proof.
  intros Hi Hd Hap. rewrite !is_set_byte by apply Hi.
  by rewrite !nth_lookup, lookup_splice_out.
Qed.

Lemma next_free_splice off src d :
  (off ≤ length d)%nat → apart off (length src) OFF_NEXT 4 → next_free (splice off src d) = next_free d.
Proof. apply load_i32_splice_ne. Qed.

Lemma num_records_splice off src d :
  (off ≤ length d)%nat → apart off (length src) OFF_NUM 4 → num_records (splice off src d) = num_records d.
Proof. apply load_i32_splice_ne. Qed.

Lemma read_slot_splice off src d i :
  (off ≤ length d)%nat → apart off (length src) (get_slot h i) (Z.to_nat (record_size h)) →
  read_slot h i (splice off src d) = read_slot h i d.
Proof. apply read_splice_ne. Qed.

Lemma splice_bytes off (src d : list Z) :
  Forall is_byte src → Forall is_byte d → Forall is_byte (splice off src d).
Proof. intros. unfold splice. apply Forall_app; split; [by apply Forall_take|]. apply Forall_app; split; [done|by apply Forall_drop]. Qed.

(** A page seen through its fields. *)
Record page_view := mkView {
  v_next : Z; v_num : Z; v_used : Z → bool; v_slot : Z → list Z
}.
Definition fields (d : list Z) : page_view :=
  mkView (next_free d) (num_records d) (used d) (λ i, read_slot h i d).

(** [effect d d' v]: d' is a page of bytes whose fields are [v]. *)
Definition page_is (d : list Z) (v : page_view) : Prop :=
  page_len d ∧ Forall is_byte d ∧ next_free d = v_next v ∧ num_records d = v_num v ∧
  ∀ i, slot_in i → used d i = v_used v i ∧ read_slot h i d = v_slot v i.

Lemma page_is_fields d : page_len d → Forall is_byte d → page_is d (fields d).
Proof. by intros. Qed.

Ltac layout_solve :=
  repeat match goal with
  | H : slot_in _ |- _ =>
      pose proof (slot_bounds _ H); pose proof (bit_byte_bounds _ H); pose proof (slots_off_bounds _ H); clear H
  end;
  unfold page_len, apart, OFF_NEXT, OFF_NUM, OFF_BITMAP, OFFSET_PAGE_HDR, PAGE_SIZE in *;
  rewrite ?length_le_bytes, ?length_take in *; simpl in *; lia.

Lemma set_next_free_is d v n : page_is d v → is_int32 n →
  page_is (set_next_free n d) (mkView n (v_num v) (v_used v) (v_slot v)).
Proof.
  intros (Hlen & Hb & H1 & H2 & H3) Hn. unfold set_next_free, store_int. split_and!.
  - unfold page_len. rewrite length_splice by layout_solve. done.
  - by apply splice_bytes; [apply le_bytes_byte|].
  - apply load_store_i32; [layout_solve|done].
  - rewrite num_records_splice by layout_solve. done.
  - intros i Hi. rewrite used_splice, read_slot_splice by (done || layout_solve). by apply H3.
Qed.

Lemma set_num_records_is d v n : page_is d v → is_int32 n →
  page_is (set_num_records n d) (mkView (v_next v) n (v_used v) (v_slot v)).
Proof.
  intros (Hlen & Hb & H1 & H2 & H3) Hn. unfold set_num_records, store_int. split_and!.
  - unfold page_len. rewrite length_splice by layout_solve. done.
  - by apply splice_bytes; [apply le_bytes_byte|].
  - rewrite next_free_splice by layout_solve. done.
  - apply load_store_i32; [layout_solve|done].
  - intros i Hi. rewrite used_splice, read_slot_splice by (done || layout_solve). by apply H3.
Qed.

Lemma write_slot_is d v i buf : page_is d v → slot_in i →
  length buf = Z.to_nat (record_size h) → Forall is_byte buf →
  page_is (write_slot h i buf d)
    (mkView (v_next v) (v_num v) (v_used v) (λ j, if j =? i then buf else v_slot v j)).
Proof.
  intros (Hlen & Hb & H1 & H2 & H3) Hi Hlb Hbb. unfold write_slot.
  rewrite take_ge by lia. pose proof Hi as Hi'. split_and!.
  - unfold page_len. rewrite length_splice by layout_solve. done.
  - by apply splice_bytes.
  - rewrite next_free_splice by layout_solve. done.
  - rewrite num_records_splice by layout_solve. done.
  - intros j Hj. pose proof Hj as Hj'. simpl. rewrite used_splice by (done || layout_solve). split; [by apply H3|].
    destruct (Z.eqb_spec j i) as [->|Hne].
    + unfold read_slot. rewrite <- Hlb. apply read_splice_eq. layout_solve.
    + rewrite read_slot_splice; [by apply H3|layout_solve|]. rewrite Hlb. by apply slots_apart.
Qed.

Lemma put_bitmap_insert k x d : (OFF_BITMAP + k < length d)%nat →
  put_bitmap (<[k := x]> (bitmap_ptr d)) d = splice (OFF_BITMAP + k) [x] d.
Proof.
  intros Hk. apply list_eq. intros j. unfold put_bitmap, bitmap_ptr.
  destruct (decide (j < OFF_BITMAP)%nat) as [Hj|Hj].
  - rewrite lookup_app_l by (rewrite length_take; lia). rewrite lookup_take_lt by done.
    rewrite lookup_splice_out; [done|lia|]. left. lia.
  - rewrite lookup_app_r by (rewrite length_take; lia). rewrite length_take, Nat.min_l by lia.
    destruct (decide (j = OFF_BITMAP + k)%nat) as [->|Hne].
    + replace (OFF_BITMAP + k - OFF_BITMAP)%nat with k by lia.
      rewrite list_lookup_insert_eq by (rewrite length_drop; lia).
      pose proof (lookup_splice_in (OFF_BITMAP + k) [x] d 0) as E. rewrite Nat.add_0_r in E.
      symmetry. apply E; [lia|simpl; lia].
    + rewrite list_lookup_insert_ne, lookup_drop by lia.
      rewrite lookup_splice_out; [f_equal; lia|lia|]. change (length [x]) with 1%nat. lia.
Qed.

(** The effect of Bitmap::set or reset on one bit of the page. *)
Lemma bit_update_is d v i b (bm : list Z → Z → list Z) :
  page_is d v → slot_in i →
  (∀ l p, ∃ x, bm l p = <[Z.to_nat (Bitmap.get_bucket p) := x]> l) →
  (∀ l p, Forall is_byte l → 0 ≤ p → Forall is_byte (bm l p)) →
  (∀ l p q, Forall is_byte l → in_bitmap l p → 0 ≤ q →
     Bitmap.is_set (bm l p) q = if q =? p then b else Bitmap.is_set l q) →
  page_is (put_bitmap (bm (bitmap_ptr d) i) d)
    (mkView (v_next v) (v_num v) (λ j, if j =? i then b else v_used v j) (v_slot v)).
Proof.
  intros (Hlen & Hb & H1 & H2 & H3) Hi Hins Hbyte Hset. pose proof Hi as [Hi0 _].
  pose proof (bit_byte_bounds i Hi) as [Hb1 Hb2]. pose proof (slots_off_bounds i Hi) as Hs1.
  pose proof (slot_bounds i Hi) as (_ & _ & Hs2). destruct Hl as [Hr _ _ _].
  assert (Forall is_byte (bitmap_ptr d)) as Hbp by by apply Forall_drop.
  assert (in_bitmap (bitmap_ptr d) i) as Hin.
  { unfold in_bitmap, bitmap_ptr. rewrite length_drop. unfold page_len in Hlen. rewrite Hlen.
    unfold bit_byte in *. pose proof (Z.div_mod i 8 ltac:(lia)). pose proof (Z.mod_pos_bound i 8 ltac:(lia)).
    pose proof (Z.div_pos i 8). lia. }
  destruct (Hins (bitmap_ptr d) i) as [x Ex]. rewrite bucket_div in Ex by done.
  assert (put_bitmap (bm (bitmap_ptr d) i) d = splice (bit_byte i) [x] d) as Esp.
  { rewrite Ex. apply put_bitmap_insert. fold (bit_byte i). unfold page_len in Hlen. lia. }
  assert (bit_byte i + 1 ≤ length d)%nat as Hlt by (unfold page_len in Hlen; lia).
  split_and!.
  - rewrite Esp. unfold page_len. by rewrite length_splice by (cbn [length]; lia).
  - unfold put_bitmap. apply Forall_app. split; [by apply Forall_take|by apply Hbyte].
  - rewrite Esp, next_free_splice; [done|lia|]. unfold apart, OFF_NEXT, OFF_BITMAP in *. cbn [length]. lia.
  - rewrite Esp, num_records_splice; [done|lia|]. unfold apart, OFF_NUM, OFF_BITMAP in *. cbn [length]. lia.
  - intros j Hj. simpl. split.
    + destruct (H3 j Hj) as [<- _]. unfold used, bitmap_ptr at 1, put_bitmap.
      rewrite drop_app_length' by (rewrite length_take; unfold page_len, OFF_BITMAP in *; lia).
      apply Hset; [done|done|apply Hj].
    + rewrite Esp, read_slot_splice; [by apply H3|lia|].
      pose proof (slots_off_bounds j Hj). unfold apart. cbn [length]. lia.
Qed.

Lemma bitmap_set_is d v i : page_is d v → slot_in i →
  page_is (put_bitmap (Bitmap.set (bitmap_ptr d) i) d)
    (mkView (v_next v) (v_num v) (λ j, if j =? i then true else v_used v j) (v_slot v)).
Proof.
  intros Hd Hi. apply bit_update_is; [done|done|by eexists|by intros; apply set_bytes|].
  intros l p q Hb Hp Hq. assert (0 ≤ p) by apply Hp. rewrite !is_set_bit by auto using set_bytes.
  rewrite bit_at_set by done. by destruct (q =? p).
Qed.

Lemma bitmap_reset_is d v i : page_is d v → slot_in i →
  page_is (put_bitmap (Bitmap.reset (bitmap_ptr d) i) d)
    (mkView (v_next v) (v_num v) (λ j, if j =? i then false else v_used v j) (v_slot v)).
Proof.
  intros Hd Hi. apply bit_update_is; [done|done|by eexists|by intros; apply reset_bytes|].
  intros l p q Hb Hp Hq. assert (0 ≤ p) by apply Hp. rewrite !is_set_bit by auto using reset_bytes.
  rewrite bit_at_reset by done. by destruct (q =? p).
Qed.

Lemma init_bitmap_is d v : page_is d v →
  page_is (put_bitmap (Bitmap.init (bitmap_ptr d) (bitmap_size h)) d)
    (mkView (v_next v) (v_num v) (λ _, false) (v_slot v)).
Proof.
  intros (Hlen & Hb & H1 & H2 & H3). destruct Hl as [Hr Hn Hbm Hfit].
  assert (0 < bitmap_size h) by lia. assert (0 ≤ num_records_per_page h * record_size h) by nia.
  set (z := replicate (Z.to_nat (bitmap_size h)) 0).
  assert (length z = Z.to_nat (bitmap_size h)) as Hz by apply length_replicate.
  assert (put_bitmap (Bitmap.init (bitmap_ptr d) (bitmap_size h)) d = splice OFF_BITMAP z d) as Esp.
  { unfold put_bitmap, Bitmap.init, bitmap_ptr, splice. fold z. rewrite take_0, drop_drop. done. }
  assert (OFF_BITMAP + length z ≤ length d)%nat as Hle.
  { unfold page_len in Hlen. rewrite Hz, Hlen. lia. }
  rewrite Esp. split_and!.
  - unfold page_len. by rewrite length_splice.
  - apply splice_bytes; [|done]. by apply Forall_replicate.
  - rewrite next_free_splice; [done|lia|]. unfold apart, OFF_NEXT, OFF_BITMAP in *. lia.
  - rewrite num_records_splice; [done|lia|]. unfold apart, OFF_NUM, OFF_BITMAP in *. lia.
  - intros i Hi. simpl. split.
    + rewrite is_set_byte by apply Hi. pose proof (bit_byte_bounds i Hi) as [Hb1 Hb2].
      rewrite nth_lookup. unfold bit_byte in *. rewrite lookup_splice_in; [|lia|].
      2:{ rewrite Hz. unfold slots_off in Hb2. lia. }
      unfold z. rewrite lookup_replicate_2 by (unfold slots_off in Hb2; lia). done.
    + rewrite read_slot_splice; [by apply H3|lia|]. pose proof (slots_off_bounds i Hi).
      unfold apart. rewrite Hz. unfold slots_off in *. lia.
Qed.

(** The number of used slots. *)
Definition count (u : Z → bool) : Z :=
  Z.of_nat (length (filter (λ i, u i = true) (seqZ 0 (num_records_per_page h)))).

Lemma count_ext u u' : (∀ i, slot_in i → u i = u' i) → count u = count u'.
Proof.
  intros He. unfold count. do 2 f_equal. apply filter_ext_in. intros i Hi.
  apply elem_of_seqZ in Hi. rewrite He; [done|]. unfold slot_in. lia.
Qed.

Lemma count_le u : 0 ≤ count u ≤ num_records_per_page h.
Proof.
  unfold count. pose proof (length_filter (λ i, u i = true) (seqZ 0 (num_records_per_page h))) as Hf.
  rewrite length_seqZ in Hf. destruct Hl. lia.
Qed.

Lemma count_set u i : slot_in i → u i = false →
  count (λ j, if j =? i then true else u j) = count u + 1.
Proof.
  intros Hi Hu. unfold count.
  rewrite (length_filter_flip (λ j, u j = true) (λ j, (if j =? i then true else u j) = true) _ i); [lia|..].
  - apply NoDup_seqZ.
  - apply elem_of_seqZ. unfold slot_in in Hi. lia.
  - by rewrite Hu.
  - by rewrite Z.eqb_refl.
  - intros y Hy. by destruct (Z.eqb_spec y i).
Qed.

Lemma count_reset u i : slot_in i → u i = true →
  count (λ j, if j =? i then false else u j) = count u - 1.
Proof.
  intros Hi Hu. set (u' := λ j, if j =? i then false else u j).
  assert (count u = count u' + 1) as ->; [|lia].
  rewrite <- (count_set u' i) by (done || unfold u'; by rewrite Z.eqb_refl).
  apply count_ext. intros j _. unfold u'. destruct (Z.eqb_spec j i) as [->|]; done.
Qed.

(** A page with fewer records than slots has a free one, and first_bit finds it. *)
Lemma first_bit_free d : page_len d → Forall is_byte d → count (used d) < num_records_per_page h →
  let i := Bitmap.first_bit false (bitmap_ptr d) (num_records_per_page h) in
  slot_in i ∧ used d i = false.
Proof.
  intros Hlen Hb Hc i. assert (Forall is_byte (bitmap_ptr d)) as Hbp by by apply Forall_drop.
  destruct (next_bit_spec (bitmap_ptr d) Hbp false (num_records_per_page h) (-1)) as (H1 & H2 & H3);
    [destruct Hl; lia|].
  fold i in H1, H2, H3. change (Bitmap.next_bit _ _ _ _) with i in *.
  destruct (Z.lt_ge_cases i (num_records_per_page h)) as [Hlt|Hge].
  - split; [unfold slot_in; lia|]. unfold used. rewrite is_set_bit by (done || lia). by apply H3.
  - exfalso. assert (count (used d) = num_records_per_page h); [|lia]. unfold count.
    rewrite filter_all; [rewrite length_seqZ; destruct Hl; lia|].
    intros j Hj. apply elem_of_seqZ in Hj. unfold used. rewrite is_set_bit by (done || lia).
    apply not_false_iff_true, H2. lia.
Qed.

(** *** Inserting into a slot *)

(** Bitmap::set and num_records++ on an empty slot; the record is written
    before or after. *)
Definition mark_slot (i : Z) (d : list Z) : list Z :=
  let d := put_bitmap (Bitmap.set (bitmap_ptr d) i) d in
  set_num_records (num_records d + 1) d.

Definition page_ok (d : list Z) : Prop :=
  page_len d ∧ Forall is_byte d ∧ num_records d = count (used d).

Lemma page_ok_is d : page_ok d → page_is d (fields d).
Proof. intros (? & ? & _). by apply page_is_fields. Qed.

Lemma page_ok_view d v : page_is d v → v_num v = count (v_used v) → page_ok d.
Proof.
  intros (Hlen & Hb & _ & Hn & Hf) Hc. split_and!; try done. rewrite Hn, Hc. apply count_ext.
  intros i Hi. by destruct (Hf i Hi) as [-> _].
Qed.

Lemma rec_at_view d v i : page_is d v → slot_in i →
  rec_at d i = if v_used v i then Some (v_slot v i) else None.
Proof. intros (_ & _ & _ & _ & Hf) Hi. unfold rec_at. by destruct (Hf i Hi) as [-> ->]. Qed.

Lemma num_int32 d : page_ok d → is_int32 (num_records d + 1) ∧ is_int32 (num_records d - 1) ∧
  0 ≤ num_records d ≤ num_records_per_page h.
Proof.
  intros (_ & _ & ->). pose proof (count_le (used d)). destruct Hl as [? ? ? Hfit].
  unfold is_int32, int32_min, int32_max, PAGE_SIZE in *.
  assert (num_records_per_page h ≤ num_records_per_page h * record_size h) by nia. lia.
Qed.

Lemma mark_slot_is d v i : page_is d v → slot_in i → is_int32 (v_num v + 1) →
  page_is (mark_slot i d)
    (mkView (v_next v) (v_num v + 1) (λ j, if j =? i then true else v_used v j) (v_slot v)).
Proof.
  intros Hd Hi H32. pose proof (bitmap_set_is d v i Hd Hi) as Hd1. unfold mark_slot.
  assert (num_records (put_bitmap (Bitmap.set (bitmap_ptr d) i) d) = v_num v) as ->
    by by destruct Hd1 as (_ & _ & _ & -> & _).
  exact (set_num_records_is _ _ (v_num v + 1) Hd1 H32).
Qed.

(** A page after a record has been put into slot [i], which held [old]. *)
Record inserted (i : Z) (buf d d' : list Z) : Prop := {
  ins_ok : page_ok d';
  ins_next : next_free d' = next_free d;
  ins_num : num_records d' = if used d i then num_records d else num_records d + 1;
  ins_rec j : slot_in j → rec_at d' j = if j =? i then Some buf else rec_at d j
}.

Lemma inserted_view i buf d d' :
  page_ok d → slot_in i →
  page_is d' (mkView (next_free d) (if used d i then num_records d else num_records d + 1)
    (λ j, if j =? i then true else used d j) (λ j, if j =? i then buf else read_slot h j d)) →
  inserted i buf d d'.
Proof.
  intros Hok Hi Hv. pose proof Hok as (_ & _ & Hnum). split.
  - eapply page_ok_view; [exact Hv|]. simpl. destruct (used d i) eqn:Eu.
    + rewrite Hnum. apply count_ext. intros j _. by destruct (Z.eqb_spec j i) as [->|].
    + rewrite count_set by done. lia.
  - by destruct Hv as (_ & _ & -> & _).
  - by destruct Hv as (_ & _ & _ & -> & _).
  - intros j Hj. rewrite (rec_at_view d' _ j Hv Hj). simpl. unfold rec_at. by destruct (Z.eqb_spec j i).
Qed.

(** memcpy, Bitmap::set, num_records++ : insert_record(buf) *)
Lemma insert_free_slot d i buf :
  page_ok d → slot_in i → used d i = false →
  length buf = Z.to_nat (record_size h) → Forall is_byte buf →
  inserted i buf d (mark_slot i (write_slot h i buf d)).
Proof.
  intros Hok Hi Hu Hlb Hbb. apply inserted_view; [done|done|]. rewrite Hu.
  pose proof (write_slot_is d _ i buf (page_ok_is d Hok) Hi Hlb Hbb) as Hv.
  exact (mark_slot_is _ _ i Hv Hi (proj1 (num_int32 d Hok))).
Qed.

(** the same in the order of insert_record(rid, buf) *)
Lemma insert_given_slot d i buf :
  page_ok d → slot_in i → length buf = Z.to_nat (record_size h) → Forall is_byte buf →
  inserted i buf d (write_slot h i buf (if negb (used d i) then mark_slot i d else d)).
Proof.
  intros Hok Hi Hlb Hbb. apply inserted_view; [done|done|].
  pose proof (page_ok_is d Hok) as Hd. destruct (used d i) eqn:Eu; simpl negb; cbv iota.
  - pose proof (write_slot_is d _ i buf Hd Hi Hlb Hbb) as (A1 & A2 & A3 & A4 & A5).
    split_and!; try done. intros j Hj. destruct (A5 j Hj) as [B1 B2]. simpl in *. split; [|done].
    rewrite B1. by destruct (Z.eqb_spec j i) as [->|].
  - pose proof (mark_slot_is d _ i Hd Hi (proj1 (num_int32 d Hok))) as Hd1.
    exact (write_slot_is _ _ i buf Hd1 Hi Hlb Hbb).
Qed.

(** *** Deleting from a slot *)

Definition clear_slot (i : Z) (d : list Z) : list Z :=
  let d := put_bitmap (Bitmap.reset (bitmap_ptr d) i) d in
  let d := write_slot h i (replicate (Z.to_nat (record_size h)) 0) d in
  set_num_records (num_records d - 1) d.

Lemma clear_slot_is d i : page_ok d → slot_in i → used d i = true →
  page_ok (clear_slot i d) ∧ next_free (clear_slot i d) = next_free d ∧
  num_records (clear_slot i d) = num_records d - 1 ∧
  ∀ j, slot_in j → rec_at (clear_slot i d) j = if j =? i then None else rec_at d j.
Proof.
  intros Hok Hi Hu. pose proof (bitmap_reset_is d _ i (page_ok_is d Hok) Hi) as Hv1.
  set (d1 := put_bitmap (Bitmap.reset (bitmap_ptr d) i) d) in *.
  set (z := replicate (Z.to_nat (record_size h)) 0).
  pose proof (write_slot_is _ _ i z Hv1 Hi (length_replicate _ _) ltac:(by apply Forall_replicate)) as Hv2.
  assert (num_records (write_slot h i z d1) = num_records d) as E
    by by destruct Hv2 as (_ & _ & _ & -> & _).
  destruct (num_int32 d Hok) as (_ & H32 & _).
  pose proof (set_num_records_is _ _ (num_records d - 1) Hv2 H32) as Hv3.
  unfold clear_slot. cbv zeta. fold d1 z. rewrite E. pose proof Hok as (_ & _ & Hnum). split_and!.
  - eapply page_ok_view; [exact Hv3|]. simpl. rewrite count_reset by done. lia.
  - by destruct Hv3 as (_ & _ & -> & _).
  - by destruct Hv3 as (_ & _ & _ & -> & _).
  - intros j Hj. rewrite (rec_at_view _ _ j Hv3 Hj). simpl. unfold rec_at. by destruct (Z.eqb_spec j i).
Qed.

(** *** Relinking the free list *)

Lemma set_next_ok d x : page_ok d → is_int32 x →
  page_ok (set_next_free x d) ∧ next_free (set_next_free x d) = x ∧
  num_records (set_next_free x d) = num_records d ∧
  ∀ j, slot_in j → rec_at (set_next_free x d) j = rec_at d j.
Proof.
  intros Hok Hx. pose proof (set_next_free_is d _ x (page_ok_is d Hok) Hx) as Hv. pose proof Hok as (_ & _ & Hnum).
  split_and!.
  - by eapply page_ok_view.
  - by destruct Hv as (_ & _ & -> & _).
  - by destruct Hv as (_ & _ & _ & -> & _).
  - intros j Hj. by rewrite (rec_at_view _ _ j Hv Hj).
Qed.

End Layout.
