(* ===== verification/RmSpec.v ===== *)
(** * Record files: the file as a map from record ids to records

    The invariant of a record file (every page well formed, the free list
    threads exactly the pages with room, no page left pinned) and the theorems
    that insert, delete, update, get and scan act on [contents], the map from
    record ids to records, as their names say. *)

From S2P Require Import Prelude Defs Bitmap BufferPool RmFile RmPage.

(** [free_chain nx a l]: following [nx] from [a] visits the pages [l] and
    then ends in RM_NO_PAGE. *)
Fixpoint free_chain (nx : Z → Z) (a : Z) (l : list Z) : Prop :=
  match l with
  | [] => a = RM_NO_PAGE
  | n :: l' => a = n ∧ free_chain nx (nx n) l'
  end.

Lemma free_chain_ext nx nx' a l :
  (∀ n, n ∈ l → nx n = nx' n) → free_chain nx a l → free_chain nx' a l.
Proof.
  revert a. induction l as [|n l IH]; simpl; intros a He; [done|]. intros [-> Hc]. split; [done|].
  rewrite <- He by constructor. apply IH; [|done]. intros m Hm. apply He. by constructor.
Qed.

(** The part of the invariant that is about the bytes of the pages. *)
Definition page_in (h : RmFileHdr) (n : Z) : Prop := RM_FIRST_RECORD_PAGE ≤ n < num_pages h.

(** [exact]: the free list has every page with room, as all operations but
    recovery's ensure_page_exists keep it. *)
Record file_meta (exact : bool) (h : RmFileHdr) (pgs : Z → list Z) (l : list Z) : Prop := {
  m_layout : layout_ok h;
  m_num : 1 ≤ num_pages h ≤ int32_max;
  m_pages n : page_in h n → page_ok h (pgs n);
  m_chain : free_chain (λ n, next_free (pgs n)) (first_free_page_no h) l;
  m_nodup : NoDup l;
  m_free n : (n ∈ l → page_in h n ∧ num_records (pgs n) < num_records_per_page h) ∧
    (exact = true → page_in h n ∧ num_records (pgs n) < num_records_per_page h → n ∈ l)
}.

Definition same_shape (h h' : RmFileHdr) : Prop :=
  record_size h' = record_size h ∧ num_records_per_page h' = num_records_per_page h ∧
  bitmap_size h' = bitmap_size h.

Section RmSpec.
Context {S : Type} `{PageStoreLaws S}.
Variable fd : Z.
Variable exact : bool.
Variable before : S.   (* the store some time before, for what other files keep *)
Notation file := (RmFile S).
Abbreviation meta_ok := (file_meta exact).
Implicit Types st : file.

(** Between the two stores nothing changed outside file fd: open files, page
    counters, contents, pins; no foreign page became resident.  A disk that
    works still does, and other files without pages in the pool keep their bytes. *)
Definition frames (s s' : S) : Prop :=
  (∀ g, ps_open s' g ↔ ps_open s g) ∧ (∀ g, g ≠ fd → ps_next s' g = ps_next s g) ∧
  (∀ p, pid_fd p ≠ fd → (∀ d, ps_view s p = Some d → ps_view s' p = Some d) ∧ ps_pins s' p = ps_pins s p ∧
    (ps_resident s' p → ps_resident s p)) ∧
  (ps_live s → ps_live s' ∧ ps_cap s' = ps_cap s) ∧
  (∀ g, ps_file_name g s' = ps_file_name g s) ∧
  (∀ path, (∀ q, ps_resident s q → ps_file_name (pid_fd q) s ≠ Ret path) → ps_file_name fd s ≠ Ret path →
     ps_bytes s' path = ps_bytes s path).

Lemma frames_refl s : frames s s.
Proof. split_and!; try done. Qed.

Lemma frames_trans s1 s2 s3 : frames s1 s2 → frames s2 s3 → frames s1 s3.
Proof.
  intros (H1 & H2 & H3 & H7 & H9 & H11) (H4 & H5 & H6 & H8 & H10 & H12). split_and!.
  - intros g. by rewrite H4.
  - intros g Hg. by rewrite H5, H2.
  - intros p Hp. destruct (H3 p Hp) as (Hv & Hpn & Hr), (H6 p Hp) as (Hv' & Hpn' & Hr').
    split_and!; [intros d Hd; by apply Hv', Hv|congruence|intros Hx; by apply Hr, Hr'].
  - intros Hl. destruct (H7 Hl) as [Hl2 E2]. destruct (H8 Hl2) as [Hl3 E3]. split; [done|congruence].
  - intros g. by rewrite H10, H9.
  - intros path Hq Hf. rewrite H12; [by apply H11| |by rewrite H9]. intros q Hr. rewrite H9.
    destruct (decide (pid_fd q = fd)) as [->|Hne]; [done|]. by apply Hq, H3.
Qed.

Definition pid (n : Z) : PageId := mkPageId fd n.

(** The file is usable, its pages hold [pgs] and page n has [K n] pins; other
    files are as in [before]. *)
Record busy st (K : Z → Z) (pgs : Z → list Z) : Prop := {
  b_ok : ps_ok (store st);
  b_open : ps_open (store st) fd;
  b_next : ps_next (store st) fd = num_pages (file_hdr st);
  b_res n : ps_resident (store st) (pid n) → page_in (file_hdr st) n;
  b_pins n : ps_pins (store st) (pid n) = K n;
  b_view n : page_in (file_hdr st) n → ps_view (store st) (pid n) = Some (pgs n);
  b_frame : frames before (store st)
}.

Definition rm_inv st (pgs : Z → list Z) (l : list Z) : Prop :=
  busy st (λ _, 0) pgs ∧ meta_ok (file_hdr st) pgs l.

(** The abstract contents of the file. *)
Definition contents (h : RmFileHdr) (pgs : Z → list Z) (rid : Rid) : option (list Z) :=
  if bool_decide (page_in h (page_no rid)) && bool_decide (slot_in h (slot_no rid))
  then rec_at h (pgs (page_no rid)) (slot_no rid) else None.

Definition keeps st st' : Prop :=
  file_hdr st' = file_hdr st ∧
  ∀ g q, ps_holds (store st) g q → ps_holds (store st') g q ∧ (ps_clean (store st) g → ps_clean (store st') g).

(** *** The page-level steps of every operation *)

Lemma pid_inj n m : pid n = pid m → n = m.
Proof. by intros [= ->]. Qed.

Lemma fetch_page_handle_spec st K pgs n f st' :
  busy st K pgs → fetch_page_handle fd n st = (Ret f, st') →
  page_in (file_hdr st) n ∧ keeps st st' ∧ busy st' (upd n (K n + 1) K) pgs ∧
  ps_holds (store st') f (pid n) ∧ (K n = 0 → ps_clean (store st') f).
Proof.
  intros [Hok Hop Hnx Hrs Hpn Hvw Hfr] E. unfold fetch_page_handle in E. mstep E. inv E0.
  destruct ((n <? RM_FIRST_RECORD_PAGE) || (num_pages (file_hdr s) <=? n)) eqn:Eb.
  { mstep E. mstep E. done. }
  bool_prop. assert (page_in (file_hdr s) n) as Hin by (unfold page_in; lia).
  mstep E. unfold on_store in E0. destruct (ps_fetch _ _) as [[o|e] s1] eqn:Ef; [|done]. inv E0.
  destruct (ps_fetch_ok (store s) (pid n) a s1) as (Hok' & Hop' & Hnx' & Hm); [done| |done|done|].
  { unfold INVALID_PAGE_ID, page_in, RM_FIRST_RECORD_PAGE in *. simpl. lia. }
  pose proof (ps_fetch_bytes (store s) (pid n) (Ret a) s1 Hok ltac:(unfold INVALID_PAGE_ID, page_in, RM_FIRST_RECORD_PAGE in *; simpl; lia) Hop Ef) as Hbytes.
  destruct a as [g|]; [|done]. inv E. destruct Hm as (Hh & Hle & Hp & Hpo & Hcl & Hkeep & Hres).
  split; [done|]. split; [done|]. split; [|split; [done|]].
  - split; simpl; try done.
    + by apply Hop'.
    + by rewrite Hnx'.
    + intros m Hm. apply Hres in Hm as [Hm|Hm]; [by apply Hrs|]. by apply pid_inj in Hm as ->.
    + intros m. destruct (decide (m = n)) as [->|Hne]; [rewrite upd_eq; by rewrite Hp, Hpn|].
      rewrite upd_ne, Hpo by (done || intros ?%pid_inj; done). apply Hpn.
    + intros m Hm. by apply Hle, Hvw.
    + eapply frames_trans; [exact Hfr|]. split_and!; [done|done| | |apply Hbytes|intros path Hq _; by apply Hbytes].
      * intros q Hq. assert (q ≠ pid n) by (intros ->; by apply Hq). split_and!; [intros d; apply Hle|by apply Hpo|].
        intros Hr. by apply Hres in Hr as [Hr|Hr].
      * intros Hl. eapply ps_fetch_keeps; [done| |done|done]. unfold page_in, RM_FIRST_RECORD_PAGE in Hin. simpl. lia.
  - intros Hz. apply Hcl. by rewrite Hpn.
Qed.

(** The error of a fetch_page_handle on a page of the file that failed: the
    pool had no frame, or the disk refused. *)
Definition fetch_failed (e : exn) : Prop :=
  ∃ st K pgs n m st', busy st K pgs ∧ page_in (file_hdr st) n ∧ (∀ x, K x ≠ 0 → x = m) ∧
    fetch_page_handle fd n st = (Throw e, st').

(** Two frames are not pinned by other files, and the disk works. *)
Definition has_room (s : S) : Prop :=
  ps_live s ∧ ∃ X : gset PageId, (∀ q, pid_fd q ≠ fd → 0 < ps_pins s q → q ∈ X) ∧ (size X + 2 ≤ ps_cap s)%nat.

Lemma size_union_le (X Y : gset PageId) : (size (X ∪ Y) ≤ size X + size Y)%nat.
Proof. rewrite size_union_alt. pose proof (subseteq_size (Y ∖ X) Y ltac:(set_solver)). lia. Qed.

Lemma one_pin n x : upd n 1 (λ _, 0) x ≠ 0 → x = n.
Proof. destruct (decide (x = n)) as [->|Hne]; [done|]. by rewrite upd_ne. Qed.

Lemma fetch_live st K pgs n m : busy st K pgs → page_in (file_hdr st) n → (∀ x, K x ≠ 0 → x = m) → has_room before →
  ∃ f st', fetch_page_handle fd n st = (Ret f, st').
Proof.
  intros [Hok Hop Hnx Hrs Hpn Hvw (Ho & Hn & Hp & Hl & _)] Hin HK (Hlive & X & HX & Hsz).
  destruct (Hl Hlive) as [Hl2 Hcap].
  destruct (ps_fetch_live (store st) (pid n) (X ∪ {[pid m]})) as (f & s' & E); try done.
  - unfold page_in, RM_FIRST_RECORD_PAGE in Hin. simpl. lia.
  - rewrite Hvw by done. by eexists.
  - intros q Hq. apply elem_of_union. destruct (decide (pid_fd q = fd)) as [Ef|Ef].
    + right. apply elem_of_singleton. assert (q = pid (pid_no q)) as Eq by (unfold pid; rewrite <- Ef; by destruct q).
      rewrite Eq, Hpn in Hq. rewrite Eq. f_equal. apply HK. lia.
    + left. apply HX; [done|]. by rewrite <- (proj1 (proj2 (Hp q Ef))).
  - rewrite Hcap. pose proof (size_union_le (X ∪ {[pid m]}) {[pid n]}) as Hs1. pose proof (size_union_le X {[pid m]}) as Hs2.
    rewrite !size_singleton in *. lia.
  - unfold fetch_page_handle. rewrite (st_bind_ret get_hdr _ st (file_hdr st) st) by done.
    destruct ((n <? RM_FIRST_RECORD_PAGE) || (num_pages (file_hdr st) <=? n)) eqn:Eb.
    { exfalso. unfold page_in in Hin. bool_prop. lia. }
    unfold on_store, mbind, st_bind. fold (pid n). rewrite E. by eexists _, _.
Qed.

Lemma fetch_failed_room e : has_room before → ¬ fetch_failed e.
Proof.
  intros Hr (st & K & pgs & n & m & st' & Hb & Hin & HK & E). by destruct (fetch_live st K pgs n m Hb Hin HK Hr) as (f & s1 & E1); congruence.
Qed.

Lemma page_data_spec st K pgs f n :
  busy st K pgs → page_in (file_hdr st) n → ps_holds (store st) f (pid n) →
  page_data f st = (Ret (pgs n), st) ∧ page_no_of f st = (Ret n, st).
Proof.
  intros [Hok _ _ _ _ Hvw _] Hn Hh. destruct (ps_holds_ok _ _ _ Hok Hh) as (E1 & E2 & _).
  rewrite Hvw in E2 by done. injection E2 as E2. unfold page_data, page_no_of. by rewrite <- E2, E1.
Qed.

Lemma put_page_spec st K pgs f n d :
  busy st K pgs → page_in (file_hdr st) n → ps_holds (store st) f (pid n) → page_len d →
  ∃ st', put_page f d st = (Ret tt, st') ∧ file_hdr st' = file_hdr st ∧ busy st' K (upd n d pgs) ∧
    (∀ g q, ps_holds (store st) g q → ps_holds (store st') g q) ∧
    (∀ g q, q ≠ pid n → ps_holds (store st) g q → ps_clean (store st) g → ps_clean (store st') g).
Proof.
  intros [Hok Hop Hnx Hrs Hpn Hvw Hfr] Hn Hh Hd.
  destruct (ps_put_ok (store st) f (pid n) d Hok Hh) as (Hok' & Hop' & Hnx' & Hv & _ & Hvo & Hp & Hk & Hc & Hr).
  { unfold page_len in Hd. unfold PAGE_SIZE in *. lia. }
  eexists. split; [reflexivity|]. split; [done|]. split; [|done]. split; simpl; try done.
  - by apply Hop'.
  - by rewrite Hnx'.
  - intros m Hm. by apply Hrs, Hr.
  - intros m. by rewrite Hp.
  - intros m Hm. destruct (decide (m = n)) as [->|Hne]; [by rewrite upd_eq|].
    rewrite upd_ne, Hvo by (done || intros ?%pid_inj; done). by apply Hvw.
  - eapply frames_trans; [exact Hfr|]. pose proof (ps_put_bytes (store st) f d) as Hbytes.
    split_and!; [done|done| |by apply ps_put_keeps|apply Hbytes|intros path _ _; apply Hbytes]. intros q Hq.
    assert (q ≠ pid n) by (intros ->; by apply Hq). split_and!; [intros d'; by rewrite Hvo|by apply Hp|by apply Hr].
Qed.

Lemma unpin_no_spec st K pgs f n dirty :
  busy st K pgs → ps_holds (store st) f (pid n) → (dirty = false → ps_clean (store st) f) →
  ∃ st', unpin_no fd n dirty st = (Ret true, st') ∧ file_hdr st' = file_hdr st ∧
    busy st' (upd n (K n - 1) K) pgs ∧
    (∀ g q, q ≠ pid n → ps_holds (store st) g q →
       ps_holds (store st') g q ∧ (ps_clean (store st) g → ps_clean (store st') g)).
Proof.
  intros [Hok Hop Hnx Hrs Hpn Hvw Hfr] Hh Hcl.
  destruct (ps_unpin_ok (store st) (pid n) f dirty Hok Hh Hcl)
    as (s' & E & Hok' & Hop' & Hnx' & Hv & Hp & Hpo & Hk & Hr).
  exists (mkRmFile s' (file_hdr st)). unfold unpin_no, on_store. fold (pid n). rewrite E.
  split; [done|]. split; [done|]. split; [|done]. split; simpl; try done.
  - by apply Hop'.
  - by rewrite Hnx'.
  - intros m Hm. by apply Hrs, Hr.
  - intros m. destruct (decide (m = n)) as [->|Hne]; [rewrite upd_eq; by rewrite Hp, Hpn|].
    rewrite upd_ne, Hpo by (done || intros ?%pid_inj; done). apply Hpn.
  - intros m Hm. rewrite Hv. by apply Hvw.
  - eapply frames_trans; [exact Hfr|]. pose proof (ps_unpin_bytes _ _ _ _ _ E) as Hbytes.
    split_and!; [done|done| |intros Hl; by eapply ps_unpin_keeps|apply Hbytes|intros path _ _; apply Hbytes]. intros q Hq.
    assert (q ≠ pid n) by (intros ->; by apply Hq). split_and!; [intros d; by rewrite Hv|by apply Hpo|by apply Hr].
Qed.

Lemma busy_ext st K K' pgs pgs' :
  (∀ n, K n = K' n) → (∀ n, page_in (file_hdr st) n → pgs n = pgs' n) → busy st K pgs → busy st K' pgs'.
Proof.
  intros HK Hp [? ? ? ? Hpn Hv ?]. split; try done; [intros n; by rewrite Hpn|].
  intros n Hn. rewrite Hv by done. by rewrite Hp.
Qed.

Lemma busy_hdr st K pgs h' :
  num_pages h' = num_pages (file_hdr st) → busy st K pgs → busy (mkRmFile (store st) h') K pgs.
Proof.
  intros Hn [? ? Hnx Hrs Hpn Hv ?]. split; simpl; try done; [by rewrite Hn| |].
  - intros m Hm. apply Hrs in Hm. unfold page_in in *. simpl. by rewrite Hn.
  - intros m Hm. apply Hv. unfold page_in in *. by rewrite <- Hn.
Qed.

(** *** How a change of one page shows in the contents *)

Lemma contents_upd h pgs n i d x :
  page_in h n → slot_in h i →
  (∀ j, slot_in h j → rec_at h d j = if j =? i then x else rec_at h (pgs n) j) →
  ∀ r, contents h (upd n d pgs) r = if decide (r = mkRid n i) then x else contents h pgs r.
Proof.
  intros Hn Hi Hrec [m j]. unfold contents. simpl.
  destruct (decide (page_in h m)) as [Hm|Hm].
  2:{ rewrite bool_decide_eq_false_2 by done. simpl. case_decide as E; [|done]. by injection E as -> ->. }
  destruct (decide (slot_in h j)) as [Hj|Hj].
  2:{ rewrite (bool_decide_eq_false_2 (slot_in h j)) by done. rewrite andb_false_r.
      case_decide as E; [|done]. by injection E as -> ->. }
  rewrite !bool_decide_eq_true_2 by done. simpl.
  destruct (decide (m = n)) as [->|Hne].
  - rewrite upd_eq, Hrec by done. case_decide as E.
    + injection E as ->. by rewrite Z.eqb_refl.
    + destruct (Z.eqb_spec j i) as [->|]; [done|done].
  - rewrite upd_ne by done. case_decide as E; [|done]. by injection E as ->.
Qed.

Lemma contents_same h h' pgs pgs' :
  num_pages h' = num_pages h → record_size h' = record_size h →
  num_records_per_page h' = num_records_per_page h → bitmap_size h' = bitmap_size h →
  (∀ n, page_in h n → ∀ i, slot_in h i → rec_at h (pgs' n) i = rec_at h (pgs n) i) →
  ∀ r, contents h' pgs' r = contents h pgs r.
Proof.
  intros E1 E2 E3 E4 Hrec [n i]. unfold contents, page_in, slot_in, rec_at, read_slot, get_slot, slots_off in *.
  simpl. rewrite E1, E2, E3, E4.
  repeat case_bool_decide; simpl; try done. by apply Hrec.
Qed.

(** Changing a page but not its place in the free list. *)
Lemma meta_upd_same h pgs l n d :
  meta_ok h pgs l → page_in h n → page_ok h d → next_free d = next_free (pgs n) →
  (num_records d < num_records_per_page h ↔ num_records (pgs n) < num_records_per_page h) →
  meta_ok h (upd n d pgs) l.
Proof.
  intros [H1 H2 H3 H4 H5 H6] Hn Hd Hnx Hnum. split; try done.
  - intros m Hm. destruct (decide (m = n)) as [->|]; [by rewrite upd_eq|]. rewrite upd_ne by done. by apply H3.
  - eapply free_chain_ext; [|exact H4]. intros m _. simpl.
    destruct (decide (m = n)) as [->|]; [by rewrite upd_eq|]. by rewrite upd_ne.
  - intros m. destruct (decide (m = n)) as [->|]; [rewrite upd_eq, Hnum|rewrite upd_ne by done]; apply H6.
Qed.

Lemma contents_in h pgs n i :
  page_in h n → slot_in h i → contents h pgs (mkRid n i) = rec_at h (pgs n) i.
Proof. intros Hn Hi. unfold contents. simpl. by rewrite !bool_decide_eq_true_2. Qed.

(** Releasing a page that was only read. *)
Lemma release_clean st1 pgs l f n :
  busy st1 (upd n 1 (λ _, 0)) pgs → meta_ok (file_hdr st1) pgs l → ps_holds (store st1) f (pid n) →
  ps_clean (store st1) f →
  ∃ st2, unpin_no fd n false st1 = (Ret true, st2) ∧ rm_inv st2 pgs l ∧ file_hdr st2 = file_hdr st1.
Proof.
  intros Hb Hm Hh Hcl. destruct (unpin_no_spec st1 _ pgs f n false Hb Hh) as (st2 & E & Hh2 & Hb2 & _); [done|].
  exists st2. split; [done|]. split; [split; [|by rewrite Hh2]|done].
  eapply busy_ext; [|done|exact Hb2]. intros m. rewrite upd_eq.
  destruct (decide (m = n)) as [->|]; [by rewrite upd_eq|by rewrite !upd_ne].
Qed.

(** *** get_record, update_record *)

Lemma get_record_spec st pgs l rid f st1 :
  rm_inv st pgs l → slot_in (file_hdr st) (slot_no rid) →
  fetch_page_handle fd (page_no rid) st = (Ret f, st1) →
  ∃ st2, rm_inv st2 pgs l ∧ file_hdr st2 = file_hdr st ∧
    get_record fd rid st =
      (match contents (file_hdr st) pgs rid with
       | Some bs => Ret bs
       | None => Throw (RecordNotFoundError (page_no rid) (slot_no rid))
       end, st2).
Proof.
  intros [Hb Hm] Hi E. pose proof E as E'.
  apply fetch_page_handle_spec with (K := λ _, 0) (pgs := pgs) in E' as (Hn & [Hh _] & Hb1 & Hhold & Hcl); [|done].
  unfold get_record. rewrite (st_bind_ret _ _ _ _ _ E).
  rewrite (st_bind_ret _ _ _ _ _ (proj1 (page_data_spec _ _ _ _ _ Hb1 ltac:(by rewrite Hh) Hhold))).
  destruct (release_clean st1 pgs l f (page_no rid)) as (st2 & Eu & Hi2 & Hh2); [done|by rewrite Hh|done|auto|].
  exists st2. split; [done|]. split; [by rewrite Hh2|].
  rewrite (st_bind_ret get_hdr _ st1 (file_hdr st1) st1) by done.
  rewrite Hh. destruct rid as [n i]. simpl in *. rewrite contents_in by done. unfold rec_at, used.
  destruct (Bitmap.is_set (bitmap_ptr (pgs n)) i); simpl; by rewrite (st_bind_ret _ _ _ _ _ Eu).
Qed.

(** The steps after a page has been fetched by an operation that modifies it:
    store the new bytes, adjust the file header, release the page. *)
Lemma finish_page st1 pgs f n d h' l' :
  busy st1 (upd n 1 (λ _, 0)) pgs → page_in (file_hdr st1) n → ps_holds (store st1) f (pid n) →
  page_len d → num_pages h' = num_pages (file_hdr st1) → meta_ok h' (upd n d pgs) l' →
  ∃ st2 st3, put_page f d st1 = (Ret tt, st2) ∧ file_hdr st2 = file_hdr st1 ∧
    ps_holds (store st2) f (pid n) ∧ busy st2 (upd n 1 (λ _, 0)) (upd n d pgs) ∧
    unpin_no fd n true (mkRmFile (store st2) h') = (Ret true, st3) ∧
    rm_inv st3 (upd n d pgs) l' ∧ file_hdr st3 = h'.
Proof.
  intros Hb Hn Hh Hlen Hnum Hm.
  destruct (put_page_spec st1 _ pgs f n d Hb Hn Hh Hlen) as (st2 & E2 & Hh2 & Hb2 & Hk & _).
  assert (busy (mkRmFile (store st2) h') (upd n 1 (λ _, 0)) (upd n d pgs)) as Hb2'.
  { apply busy_hdr; [by rewrite Hh2|done]. }
  destruct (unpin_no_spec _ _ _ f n true Hb2' (Hk _ _ Hh)) as (st3 & E3 & Hh3 & Hb3 & _); [done|].
  exists st2, st3. split_and!; try done; [by apply Hk|]. split; [|by rewrite Hh3].
  eapply busy_ext; [|done|exact Hb3]. intros m. rewrite upd_eq.
  destruct (decide (m = n)) as [->|]; [by rewrite upd_eq|by rewrite !upd_ne].
Qed.

Lemma update_record_spec st pgs l rid buf f st1 :
  rm_inv st pgs l → slot_in (file_hdr st) (slot_no rid) →
  length buf = Z.to_nat (record_size (file_hdr st)) → Forall is_byte buf →
  fetch_page_handle fd (page_no rid) st = (Ret f, st1) →
  ∃ st2 pgs', rm_inv st2 pgs' l ∧ file_hdr st2 = file_hdr st ∧
    match contents (file_hdr st) pgs rid with
    | Some _ => update_record fd rid buf st = (Ret tt, st2) ∧
        ∀ r, contents (file_hdr st) pgs' r = if decide (r = rid) then Some buf else contents (file_hdr st) pgs r
    | None => update_record fd rid buf st =
                (Throw (RecordNotFoundError (page_no rid) (slot_no rid)), st2) ∧ pgs' = pgs
    end.
Proof.
  intros [Hb Hm] Hi Hlb Hbb E. pose proof E as E'. destruct rid as [n i]. simpl in *.
  apply fetch_page_handle_spec with (K := λ _, 0) (pgs := pgs) in E' as (Hn & [Hh _] & Hb1 & Hhold & Hcl); [|done].
  set (h := file_hdr st) in *.
  assert (page_in (file_hdr st1) n) as Hn1 by by rewrite Hh.
  pose proof (page_ok_is h _ (m_pages exact h pgs l Hm n Hn)) as Hv.
  rewrite contents_in by done. unfold update_record. cbn [page_no slot_no].
  rewrite (st_bind_ret _ _ _ _ _ E), (st_bind_ret _ _ _ _ _ (proj1 (page_data_spec _ _ _ _ _ Hb1 Hn1 Hhold))).
  rewrite (st_bind_ret get_hdr _ st1 h st1) by (unfold get_hdr; by rewrite Hh).
  unfold rec_at, used. destruct (Bitmap.is_set (bitmap_ptr (pgs n)) i) eqn:Eu; simpl.
  - pose proof (write_slot_is h (m_layout _ _ _ _ Hm) _ _ i buf Hv Hi Hlb Hbb) as Hv'.
    set (d := write_slot h i buf (pgs n)) in *. destruct (m_pages exact h pgs l Hm n Hn) as (_ & _ & Hnum).
    assert (meta_ok h (upd n d pgs) l) as Hm'.
    { apply meta_upd_same; try done.
      - by eapply page_ok_view.
      - destruct Hv' as (_ & _ & -> & _). done.
      - destruct Hv' as (_ & _ & _ & -> & _). done. }
    destruct (finish_page st1 pgs f n d h l) as (st2 & st3 & E2 & Hh2 & _ & _ & E3 & Hi3 & Hh3); try done.
    { apply Hv'. } { by rewrite Hh. }
    exists st3, (upd n d pgs). split; [done|]. split; [done|]. split.
    + rewrite (st_bind_ret _ _ _ _ _ E2).
      replace st2 with (mkRmFile (store st2) h) by (destruct st2; simpl in *; by rewrite Hh2, Hh).
      by rewrite (st_bind_ret _ _ _ _ _ E3).
    + apply contents_upd; [done|done|]. intros j Hj. rewrite (rec_at_view h d _ j Hv' Hj).
      rewrite (rec_at_view h _ _ j Hv Hj). simpl. destruct (Z.eqb_spec j i) as [->|]; [|done].
      unfold used. by rewrite Eu.
  - destruct (release_clean st1 pgs l f n) as (st2 & Eup & Hi2 & Hh2); [done|by rewrite Hh|done|auto|].
    exists st2, pgs. split; [done|]. split; [by rewrite Hh2, Hh|]. by rewrite (st_bind_ret _ _ _ _ _ Eup).
Qed.

(** *** delete_record *)

Lemma meta_ext h pgs pgs' l : (∀ n, pgs n = pgs' n) → meta_ok h pgs l → meta_ok h pgs' l.
Proof.
  intros He [H1 H2 H3 H4 H5 H6]. split; try done.
  - intros n. rewrite <- He. apply H3.
  - eapply free_chain_ext; [|exact H4]. intros n _. simpl. by rewrite He.
  - intros n. by rewrite <- He.
Qed.

Lemma contents_ext h pgs pgs' r : (∀ n, pgs n = pgs' n) → contents h pgs r = contents h pgs' r.
Proof. intros He. unfold contents. by rewrite He. Qed.

(** Every page number on the free list fits in an int. *)
Lemma first_free_int32 h pgs l : meta_ok h pgs l → is_int32 (first_free_page_no h).
Proof.
  intros [H1 H2 H3 H4 H5 H6]. unfold is_int32, int32_min, int32_max in *. destruct l as [|a l]; simpl in H4.
  - rewrite H4. unfold RM_NO_PAGE. lia.
  - destruct H4 as [-> _]. assert (page_in h a) as Ha by (apply (H6 a); constructor).
    unfold page_in, RM_FIRST_RECORD_PAGE in Ha. lia.
Qed.

(** Putting a page with room at the head of the free list. *)
Lemma meta_push h pgs l n d :
  meta_ok h pgs l → page_in h n → n ∉ l → page_ok h d → num_records d < num_records_per_page h →
  next_free d = first_free_page_no h → meta_ok (set_first_free n h) (upd n d pgs) (n :: l).
Proof.
  intros [H1 H2 H3 H4 H5 H6] Hn Hnl Hd Hroom Hnx. split; try done; simpl.
  - destruct H1. by split.
  - intros m Hm. destruct (decide (m = n)) as [->|]; [by rewrite upd_eq|]. rewrite upd_ne by done. by apply H3.
  - split; [done|]. rewrite upd_eq, Hnx. eapply free_chain_ext; [|exact H4].
    intros m Hm. simpl. rewrite upd_ne; [done|]. by intros ->.
  - by constructor.
  - intros m. rewrite elem_of_cons. specialize (H6 m).
    destruct (decide (m = n)) as [->|Hne]; [rewrite upd_eq; by split; [|left]|]. rewrite upd_ne by done.
    split; [intros [->|Hx]; [done|by apply H6]|intros Hx Hy; right; by apply H6].
Qed.

Lemma delete_record_spec st pgs l rid f st1 :
  rm_inv st pgs l → slot_in (file_hdr st) (slot_no rid) →
  fetch_page_handle fd (page_no rid) st = (Ret f, st1) →
  ∃ st2 pgs' l', rm_inv st2 pgs' l' ∧
    (same_shape (file_hdr st) (file_hdr st2) ∧ num_pages (file_hdr st2) = num_pages (file_hdr st)) ∧
    match contents (file_hdr st) pgs rid with
    | Some _ => delete_record fd rid st = (Ret tt, st2) ∧
        ∀ r, contents (file_hdr st2) pgs' r = if decide (r = rid) then None else contents (file_hdr st) pgs r
    | None => delete_record fd rid st =
                (Throw (RecordNotFoundError (page_no rid) (slot_no rid)), st2) ∧ pgs' = pgs
    end.
Proof.
  intros [Hb Hm] Hi E. pose proof E as E'. destruct rid as [n i]. simpl in *.
  apply fetch_page_handle_spec with (K := λ _, 0) (pgs := pgs) in E' as (Hn & [Hh _] & Hb1 & Hhold & Hcl); [|done].
  set (h := file_hdr st) in *. assert (page_in (file_hdr st1) n) as Hn1 by by rewrite Hh.
  pose proof (m_layout _ _ _ _ Hm) as Hl. pose proof (m_pages exact h pgs l Hm n Hn) as Hok.
  rewrite contents_in by done. unfold delete_record. cbn [page_no slot_no].
  rewrite (st_bind_ret _ _ _ _ _ E), (st_bind_ret _ _ _ _ _ (proj1 (page_data_spec _ _ _ _ _ Hb1 Hn1 Hhold))).
  rewrite (st_bind_ret get_hdr _ st1 h st1) by (unfold get_hdr; by rewrite Hh).
  unfold rec_at. fold (used (pgs n) i). destruct (used (pgs n) i) eqn:Eu; cbn [negb]; cbv iota beta zeta.
  2:{ destruct (release_clean st1 pgs l f n) as (st2 & Eup & Hi2 & Hh2); [done|by rewrite Hh|done|auto|].
      exists st2, pgs, l. split; [done|]. split; [rewrite Hh2, Hh; by repeat split|]. by rewrite (st_bind_ret _ _ _ _ _ Eup). }
  destruct (clear_slot_is h Hl _ i Hok Hi Eu) as (Hok3 & Hnx3 & Hn3 & Hrec).
  fold (clear_slot h i (pgs n)). set (d3 := clear_slot h i (pgs n)) in *.
  destruct (num_int32 h Hl _ Hok) as (_ & _ & Hcnt).
  destruct (put_page_spec st1 _ pgs f n d3 Hb1 Hn1 Hhold) as (st2 & E2 & Hh2 & Hb2 & Hk2 & _); [apply Hok3|].
  destruct (Z.eqb_spec (num_records (pgs n)) (num_records_per_page h)) as [Efull|Efull].
  - (* the page was full: it goes to the head of the free list *)
    destruct (set_next_ok h Hl d3 _ Hok3 (first_free_int32 _ _ _ Hm)) as (Hok4 & Hnx4 & Hn4 & Hrec4).
    set (d4 := set_next_free (first_free_page_no h) d3) in *.
    assert (meta_ok (set_first_free n h) (upd n d4 pgs) (n :: l)) as Hm4.
    { apply meta_push; try done; [|lia]. intros Hin. apply (m_free _ _ _ _ Hm) in Hin as [_ Hin]. lia. }
    assert (page_in (file_hdr st2) n) as Hnn2 by by rewrite Hh2.
    destruct (finish_page st2 (upd n d3 pgs) f n d4 (set_first_free n h) (n :: l))
      as (st3 & st4 & E3 & Hh3 & Hhold3 & Hb3 & E4 & Hi4 & Hh4); try done; [by apply Hk2|apply Hok4| | |].
    { by rewrite Hh2, Hh. }
    { eapply meta_ext; [|exact Hm4]. intros m. by rewrite upd_upd. }
    exists st4, (upd n d4 (upd n d3 pgs)), (n :: l). split; [done|]. split; [rewrite Hh4; by repeat split|]. split.
    + rewrite (st_bind_ret _ _ _ _ _ E2). unfold release_page_handle.
      pose proof (page_data_spec _ _ _ _ _ Hb2 Hnn2 (Hk2 _ _ Hhold)) as [Ed _]. rewrite upd_eq in Ed.
      pose proof (page_data_spec _ _ _ _ _ Hb3 ltac:(by rewrite Hh3) Hhold3) as [_ Ep].
      unfold mbind, st_bind in *. unfold get_hdr. rewrite Ed, Hh2, Hh. fold d4. rewrite E3, Ep.
      unfold modify_hdr, modify_st. rewrite Hh3, Hh2, Hh. by rewrite E4.
    + intros r. rewrite Hh4. rewrite <- (contents_upd h pgs n i d4 None Hn Hi).
      * rewrite <- (contents_ext (set_first_free n h) (upd n d4 pgs)) by (intros; by rewrite upd_upd).
        by apply contents_same.
      * intros j Hj. by rewrite Hrec4, Hrec.
  - assert (meta_ok h (upd n d3 pgs) l) as Hm3 by (apply meta_upd_same; try done; split; lia).
    destruct (finish_page st1 pgs f n d3 h l) as (st2' & st3 & E2' & Hh2' & _ & _ & E3 & Hi3 & Hh3); try done.
    { apply Hok3. } { by rewrite Hh. }
    exists st3, (upd n d3 pgs), l. split; [done|]. split; [rewrite Hh3; by repeat split|]. split.
    + rewrite (st_bind_ret _ _ _ _ _ E2').
      replace st2' with (mkRmFile (store st2') h) by (destruct st2'; simpl in *; by rewrite Hh2', Hh).
      unfold mbind, st_bind in *. simpl. by rewrite E3.
    + intros r. rewrite Hh3. by apply contents_upd.
Qed.

(** *** insert_record *)

Lemma layout_shape h h' : same_shape h h' → layout_ok h → layout_ok h'.
Proof. intros (E1 & E2 & E3) [? ? ? ?]. split; rewrite ?E1, ?E2, ?E3; done. Qed.

(** What new_page and the initialisation of the page header leave. *)
Definition fresh_page (h : RmFileHdr) : list Z :=
  let d := set_num_records 0 (set_next_free RM_NO_PAGE zero_page) in
  put_bitmap (Bitmap.init (bitmap_ptr d) (bitmap_size h)) d.

Lemma fresh_page_is h : layout_ok h →
  page_is h (fresh_page h) (mkView RM_NO_PAGE 0 (λ _, false) (λ i, read_slot h i (fresh_page h))).
Proof.
  intros Hl. assert (page_is h zero_page (fields h zero_page)) as H0'.
  { apply page_is_fields; [|by apply Forall_replicate].
    pose proof length_zero_page. unfold page_len, PAGE_SIZE in *. lia. }
  pose proof (set_next_free_is h Hl _ _ RM_NO_PAGE H0' ltac:(by unfold is_int32, int32_min, int32_max, RM_NO_PAGE)) as H1'.
  pose proof (set_num_records_is h Hl _ _ 0 H1' ltac:(by unfold is_int32, int32_min, int32_max)) as H2'.
  pose proof (init_bitmap_is h Hl _ _ H2') as (E1 & E2 & E3 & E4 & E5). fold (fresh_page h) in *.
  split_and!; try done. intros i Hi. split; [by apply E5|done].
Qed.

(** Adding a fresh page to a file without free pages; with free pages they drop
    out of the list. *)
Lemma meta_new h pgs l :
  meta_ok h pgs l → (exact = true → l = []) → num_pages h < int32_max →
  let n := num_pages h in
  let h' := set_first_free n (set_num_pages (n + 1) h) in
  meta_ok h' (upd n (fresh_page h) pgs) [n] ∧
  ∀ r, contents h' (upd n (fresh_page h) pgs) r = contents h pgs r.
Proof.
  intros [H1 H2 H3 H4 H5 H6] Hl Hlt n h'.
  assert (∀ m, page_in h' m ↔ page_in h m ∨ m = n) as Hin.
  { intros m. unfold page_in, h', n, RM_FIRST_RECORD_PAGE. simpl. lia. }
  assert (¬ page_in h n) as Hnn by (unfold page_in, n; lia).
  pose proof (fresh_page_is h H1) as Hf. destruct Hf as (F1 & F2 & F3 & F4 & F5).
  assert (∀ i, slot_in h i → used (fresh_page h) i = false) as Hu by (intros i Hi; by apply F5).
  assert (count h (used (fresh_page h)) = 0) as Hc.
  { rewrite (count_ext h _ (λ _, false)) by done. unfold count. by rewrite filter_none. }
  split; [split|].
  - by apply (layout_shape h).
  - unfold h', n. simpl. lia.
  - intros m Hm. apply Hin in Hm as [Hm| ->].
    + rewrite upd_ne by (intros ->; done). by apply H3.
    + rewrite upd_eq. split_and!; [done|done|]. simpl. rewrite F4. simpl. unfold count. simpl. by fold (count h (used (fresh_page h))).
  - simpl. rewrite upd_eq, F3. done.
  - apply NoDup_singleton.
  - intros m. rewrite list_elem_of_singleton, Hin. split.
    + intros ->. rewrite upd_eq, F4. simpl. destruct H1. split; [by right|lia].
    + intros Hx [[Hm| ->] Hr]; [|done]. rewrite upd_ne in Hr by (intros ->; done). exfalso. rewrite Hl in H6 by done.
      assert (m ∈ []) as Hn by by apply H6. by apply elem_of_nil in Hn.
  - intros [m i]. unfold contents. simpl. unfold slot_in at 1. simpl. fold (slot_in h i).
    destruct (decide (m = n)) as [->|Hne].
    + rewrite (bool_decide_eq_false_2 (page_in h n)) by done. simpl.
      case_bool_decide; [|done]. simpl. case_bool_decide as Hi; [|done].
      rewrite upd_eq. unfold rec_at. by rewrite Hu.
    + rewrite upd_ne by done. rewrite (bool_decide_ext (page_in h' m) (page_in h m)); [done|].
      rewrite Hin. naive_solver.
Qed.

Lemma create_new_page_spec st pgs l f st1 :
  rm_inv st pgs l → (exact = true → l = []) → num_pages (file_hdr st) < int32_max →
  create_new_page_handle fd st = (Ret f, st1) →
  let n := num_pages (file_hdr st) in
  ∃ pgs1, busy st1 (upd n 1 (λ _, 0)) pgs1 ∧ meta_ok (file_hdr st1) pgs1 [n] ∧
    ps_holds (store st1) f (pid n) ∧ same_shape (file_hdr st) (file_hdr st1) ∧
    num_pages (file_hdr st1) = n + 1 ∧
    ∀ r, contents (file_hdr st1) pgs1 r = contents (file_hdr st) pgs r.
Proof.
  intros [Hb Hm] Hl Hlt E n.
  unfold create_new_page_handle in E. mstep E. unfold on_store in E0.
  destruct (ps_new fd (store st)) as [[o|e] s1] eqn:En; [|done]. inv E0.
  destruct Hb as [Hok Hop Hnx Hrs Hpn Hvw Hfr]. 
  destruct (ps_new_ok (store st) fd a s1) as (Hok' & Hop' & Hmm); [done|done| | |done|].
  { rewrite Hnx. pose proof (m_num _ _ _ _ Hm). unfold n. lia. }
  { rewrite Hnx. intros Hr. apply Hrs in Hr as [_ Hr]. fold n in Hr. lia. }
  destruct a as [[g p]|]; [|done]. destruct Hmm as (-> & Hh & Hv & Hvo & Hp & Hpo & Hk & Hn1 & Hn2 & Hres).
  rewrite ?Hnx in Hh, Hv, Hvo, Hp, Hpo, Hn1, Hres, E. cbn [pid_no] in E.
  destruct (meta_new (file_hdr st) pgs l Hm Hl Hlt) as [Hm' Hcont]. fold n in Hm', Hcont.
  set (sta := mkRmFile s1 (set_num_pages (n + 1) (file_hdr st))).
  assert (busy sta (upd n 1 (λ _, 0)) (upd n zero_page pgs)) as Hba.
  { split; simpl; try done.
    - by apply Hop'.
    - by apply Hn1.
    - intros m Hr. unfold page_in. simpl. pose proof (m_num _ _ _ _ Hm).
      apply Hres in Hr as [Hr|Hr]; [apply Hrs in Hr as [? Hr]; fold n in Hr; lia|].
      apply pid_inj in Hr as ->. unfold RM_FIRST_RECORD_PAGE. lia.
    - intros m. destruct (decide (m = n)) as [->|]; [by rewrite upd_eq|].
      rewrite upd_ne, Hpo by (done || intros ?%pid_inj; done). apply Hpn.
    - intros m Hmin. destruct (decide (m = n)) as [->|]; [by rewrite upd_eq|].
      rewrite upd_ne by done. apply Hvo; [by intros ?%pid_inj|]. apply Hvw.
      unfold page_in in *. simpl in Hmin. fold n. lia.
    - eapply frames_trans; [exact Hfr|]. pose proof (ps_new_bytes (store st) fd _ _ Hok En) as Hbytes.
      split_and!; [done|done| | |apply Hbytes|intros path Hq _; by apply Hbytes].
      + intros q Hq. assert (q ≠ pid n) by (intros ->; by apply Hq). split_and!; [intros d; by apply Hvo|by apply Hpo|].
        intros Hr. by apply Hres in Hr as [Hr|Hr].
      + intros Hlv. eapply ps_new_keeps; [exact Hok| |exact Hop|exact Hlv|exact En].
        rewrite Hnx. pose proof (m_num _ _ _ _ Hm). unfold n. lia. }
  assert (page_in (file_hdr sta) n) as Hnin.
  { pose proof (m_num _ _ _ _ Hm). unfold page_in, sta, n, RM_FIRST_RECORD_PAGE. simpl. lia. }
  rewrite (st_bind_ret (modify_hdr _) _ _ tt sta) in E by done.
  rewrite (st_bind_ret get_hdr _ sta (file_hdr sta) sta) in E by done.
  rewrite (st_bind_ret _ _ _ _ _ (proj1 (page_data_spec _ _ _ _ _ Hba Hnin Hh))), upd_eq in E.
  destruct (put_page_spec sta _ _ g n (fresh_page (file_hdr st)) Hba Hnin Hh) as (stb & E2 & Hh2 & Hb2 & Hk2 & _).
  { apply (fresh_page_is _ (m_layout _ _ _ _ Hm)). }
  rewrite (st_bind_ret _ _ _ _ _ E2) in E. injection E as <- <-. rewrite Hh2.
  exists (upd n (fresh_page (file_hdr st)) pgs). split; [|split_and!; [done|by apply Hk2|done|done|done]].
  apply busy_hdr; [by rewrite Hh2|]. eapply busy_ext; [done| |exact Hb2]. intros m _. by rewrite upd_upd.
Qed.

Lemma create_page_handle_spec st pgs l f st1 :
  rm_inv st pgs l → num_pages (file_hdr st) < int32_max → create_page_handle fd st = (Ret f, st1) →
  ∃ n pgs1 l1, busy st1 (upd n 1 (λ _, 0)) pgs1 ∧ meta_ok (file_hdr st1) pgs1 (n :: l1) ∧
    ps_holds (store st1) f (pid n) ∧
    (same_shape (file_hdr st) (file_hdr st1) ∧ num_pages (file_hdr st) ≤ num_pages (file_hdr st1)) ∧
    ∀ r, contents (file_hdr st1) pgs1 r = contents (file_hdr st) pgs r.
Proof.
  intros [Hb Hm] Hlt E. unfold create_page_handle in E. mstep E. inv E0.
  pose proof (m_chain _ _ _ _ Hm) as Hc. destruct (Z.eqb_spec (first_free_page_no (file_hdr s)) RM_NO_PAGE) as [Ef|Ef].
  - assert (l = []) as ->.
    { destruct l as [|n l]; [done|]. destruct Hc as [Hc _].
      assert (page_in (file_hdr s) n) as Hn by (apply (m_free _ _ _ _ Hm); constructor).
      unfold page_in, RM_NO_PAGE, RM_FIRST_RECORD_PAGE in *. lia. }
    destruct (create_new_page_spec s pgs [] f st1) as (pgs1 & Hb1 & Hm1 & Hhold & Hsh & Hnp & Hc1); try done.
    exists (num_pages (file_hdr s)), pgs1, []. split_and!; try done. lia.
  - destruct l as [|n l1]; [by rewrite Hc in Ef|]. destruct Hc as [Hc _]. rewrite Hc in E.
    apply fetch_page_handle_spec with (K := λ _, 0) (pgs := pgs) in E as (Hn & [Hh _] & Hb1 & Hhold & _); [|done].
    exists n, pgs, l1. rewrite Hh. done.
Qed.

(** With room in the pool there is always a page to insert into. *)
Lemma create_new_live st pgs l : rm_inv st pgs l → has_room before → ∃ f st', create_new_page_handle fd st = (Ret f, st').
Proof.
  intros [[Hok Hop Hnx _ Hpn _ (_ & _ & Hp & Hl & _)] Hm] (Hlive & X & HX & Hsz). destruct (Hl Hlive) as [Hl2 Hcap].
  destruct (ps_new_live (store st) fd X) as (f & p & s' & En); try done.
  - rewrite Hnx. pose proof (m_num _ _ _ _ Hm). lia.
  - intros q Hq. destruct (decide (pid_fd q = fd)) as [Eq|Eq].
    + assert (q = pid (pid_no q)) as E by (unfold pid; rewrite <- Eq; by destruct q). rewrite E, Hpn in Hq. lia.
    + apply HX; [done|]. by rewrite <- (proj1 (proj2 (Hp q Eq))).
  - rewrite Hcap. lia.
  - unfold create_new_page_handle, on_store, mbind, st_bind. rewrite En. by eexists _, _.
Qed.

Lemma create_page_live st pgs l : rm_inv st pgs l → has_room before → ∃ f st', create_page_handle fd st = (Ret f, st').
Proof.
  intros Hi Hroom. unfold create_page_handle. rewrite (st_bind_ret get_hdr _ st (file_hdr st) st) by done.
  pose proof Hi as [Hb Hm]. pose proof (m_chain _ _ _ _ Hm) as Hc. destruct (Z.eqb_spec (first_free_page_no (file_hdr st)) RM_NO_PAGE) as [Ef|Ef].
  - by eapply create_new_live.
  - destruct l as [|n l1]; [by rewrite Hc in Ef|]. destruct Hc as [Hc _]. rewrite Hc.
    apply (fetch_live st (λ _, 0) pgs n n Hb); [|done|done]. apply (m_free _ _ _ _ Hm). constructor.
Qed.

(** Removing the head of the free list when its page becomes full. *)
Lemma meta_pop h pgs n l d :
  meta_ok h pgs (n :: l) → page_ok h d → num_records d = num_records_per_page h →
  meta_ok (set_first_free (next_free (pgs n)) h) (upd n d pgs) l.
Proof.
  intros [H1 H2 H3 [H4 H4'] H5 H6] Hd Hfull. apply NoDup_cons in H5 as [Hnl H5]. split; try done; simpl.
  - by apply (layout_shape h).
  - intros m Hm. destruct (decide (m = n)) as [->|]; [by rewrite upd_eq|]. rewrite upd_ne by done. by apply H3.
  - eapply free_chain_ext; [|exact H4']. intros m Hm. simpl. rewrite upd_ne; [done|]. by intros ->.
  - intros m. destruct (decide (m = n)) as [->|Hne].
    + rewrite upd_eq. split; [done|]. intros _ [_ Hr]. lia.
    + rewrite upd_ne by done. change (page_in (set_first_free _ h) m) with (page_in h m). destruct (H6 m) as [Hf Ha].
      split; [intros Hx; apply Hf; by right|]. intros Hx Hy. destruct (proj1 (elem_of_cons _ _ _) (Ha Hx Hy)); done.
Qed.

Lemma insert_record_spec st pgs l buf f st1 :
  rm_inv st pgs l → num_pages (file_hdr st) < int32_max →
  length buf = Z.to_nat (record_size (file_hdr st)) → Forall is_byte buf →
  create_page_handle fd st = (Ret f, st1) →
  ∃ rid st2 pgs' l', insert_record fd buf st = (Ret rid, st2) ∧ rm_inv st2 pgs' l' ∧
    (same_shape (file_hdr st) (file_hdr st2) ∧ num_pages (file_hdr st) ≤ num_pages (file_hdr st2)) ∧ contents (file_hdr st) pgs rid = None ∧
    ∀ r, contents (file_hdr st2) pgs' r =
         if decide (r = rid) then Some buf else contents (file_hdr st) pgs r.
Proof.
  intros Hinv Hlt Hlb Hbb E. pose proof E as E'.
  apply create_page_handle_spec with (pgs := pgs) (l := l) in E' as (n & pgs1 & l1 & Hb1 & Hm & Hhold & [Hsh Hnp] & Hcont); [|done..].
  set (h := file_hdr st1) in *. pose proof (m_layout _ _ _ _ Hm) as Hl.
  assert (page_in h n ∧ num_records (pgs1 n) < num_records_per_page h) as [Hn Hroom].
  { apply (m_free _ _ _ _ Hm). constructor. }
  pose proof (m_pages exact h pgs1 _ Hm n Hn) as Hok. destruct (num_int32 h Hl _ Hok) as (_ & _ & Hcnt).
  destruct (first_bit_free h Hl (pgs1 n)) as [Hi Hfree]; [apply Hok|apply Hok|destruct Hok as (_ & _ & <-); lia|].
  set (i := Bitmap.first_bit false (bitmap_ptr (pgs1 n)) (num_records_per_page h)) in *.
  destruct (insert_free_slot h Hl _ i buf Hok Hi Hfree ltac:(destruct Hsh as [-> _]; done) Hbb) as [Hok3 Hx3 Hn3 Hrec].
  set (d3 := mark_slot i (write_slot h i buf (pgs1 n))) in *. rewrite Hfree in Hn3.
  assert (contents (file_hdr st) pgs (mkRid n i) = None) as Hnone.
  { rewrite <- Hcont, contents_in by done. unfold rec_at. by rewrite Hfree. }
  unfold insert_record. rewrite (st_bind_ret _ _ _ _ _ E).
  rewrite (st_bind_ret _ _ _ _ _ (proj1 (page_data_spec _ _ _ _ _ Hb1 Hn Hhold))).
  rewrite (st_bind_ret get_hdr _ st1 h st1) by done. cbv zeta. fold i.
  destruct (Z.eqb_spec i (num_records_per_page h)) as [Ei|_]; [unfold slot_in in Hi; lia|].
  fold (mark_slot i (write_slot h i buf (pgs1 n))). fold d3.
  destruct (put_page_spec st1 _ pgs1 f n d3 Hb1 Hn Hhold) as (st2 & E2 & Hh2 & Hb2 & Hk2 & _); [apply Hok3|].
  rewrite (st_bind_ret _ _ _ _ _ E2).
  destruct (Z.eqb_spec (num_records d3) (num_records_per_page h)) as [Efull|Efull].
  - destruct (set_next_ok h Hl d3 RM_NO_PAGE Hok3) as (Hok4 & Hnx4 & Hn4 & Hrec4);
      [by unfold is_int32, int32_min, int32_max, RM_NO_PAGE|].
    set (d4 := set_next_free RM_NO_PAGE d3) in *. set (h' := set_first_free (next_free d3) h).
    assert (meta_ok h' (upd n d4 pgs1) l1) as Hm4 by (unfold h'; rewrite Hx3; apply meta_pop; [done|done|lia]).
    assert (busy (mkRmFile (store st2) h') (upd n 1 (λ _, 0)) (upd n d3 pgs1)) as Hb2'.
    { apply busy_hdr; [by rewrite Hh2|done]. }
    destruct (finish_page (mkRmFile (store st2) h') (upd n d3 pgs1) f n d4 h' l1)
      as (st3 & st4 & E3 & Hh3 & Hhold3 & Hb3 & E4 & Hi4 & Hh4); try done; [by apply Hk2|apply Hok4| |].
    { eapply meta_ext; [|exact Hm4]. intros m. by rewrite upd_upd. }
    exists (mkRid n i), st4, (upd n d4 (upd n d3 pgs1)), l1.
    split; [|split; [done|split; [by rewrite Hh4; split|split; [done|]]]].
    + pose proof (page_data_spec _ _ _ _ _ Hb3 ltac:(by rewrite Hh3) Hhold3) as [_ Ep].
      replace st3 with (mkRmFile (store st3) h') in Ep, E3 by (destruct st3; simpl in *; by rewrite Hh3).
      unfold mbind, st_bind, modify_hdr, modify_st in *. rewrite Hh2. fold h h' d4. rewrite E3, Ep, E4. done.
    + intros r. rewrite Hh4, <- Hcont. rewrite <- (contents_upd h pgs1 n i d4 (Some buf) Hn Hi).
      * rewrite <- (contents_ext h' (upd n d4 pgs1)) by (intros; by rewrite upd_upd). by apply contents_same.
      * intros j Hj. by rewrite Hrec4, Hrec.
  - assert (meta_ok h (upd n d3 pgs1) (n :: l1)) as Hm3 by (apply meta_upd_same; try done; split; lia).
    destruct (finish_page st1 pgs1 f n d3 h (n :: l1)) as (st2' & st3 & E2' & Hh2' & Hhold2 & Hb2' & E3 & Hi3 & Hh3);
      try done; [apply Hok3|]. assert (st2' = st2) as -> by congruence.
    pose proof (page_data_spec _ _ _ _ _ Hb2 ltac:(by rewrite Hh2) (Hk2 _ _ Hhold)) as [_ Ep].
    replace st2 with (mkRmFile (store st2) h) in Ep by (destruct st2; simpl in *; by rewrite Hh2).
    replace st2 with (mkRmFile (store st2) h) by (destruct st2; simpl in *; by rewrite Hh2).
    exists (mkRid n i), st3, (upd n d3 pgs1), (n :: l1).
    split; [|split; [done|split; [by rewrite Hh3; split|split; [done|]]]].
    + unfold mbind, st_bind in *. cbn [mret st_ret]. rewrite Ep, E3. done.
    + intros r. rewrite Hh3, <- Hcont. by apply contents_upd.
Qed.

(** *** insert_record at a given place *)

(** Two assignments of bytes to pages that agree except for next_free. *)
Definition relinked (h : RmFileHdr) (pgs pgs' : Z → list Z) : Prop :=
  ∀ m, page_in h m → page_ok h (pgs m) → page_ok h (pgs' m) ∧ num_records (pgs' m) = num_records (pgs m) ∧
    ∀ i, slot_in h i → rec_at h (pgs' m) i = rec_at h (pgs m) i.

Lemma relinked_refl h pgs : relinked h pgs pgs.
Proof. by intros m Hm Hok. Qed.

Lemma relink h pgs n x : layout_ok h → page_in h n → page_ok h (pgs n) → is_int32 x →
  relinked h pgs (upd n (set_next_free x (pgs n)) pgs) ∧ next_free (set_next_free x (pgs n)) = x ∧
  page_len (set_next_free x (pgs n)).
Proof.
  intros Hl Hn Hok Hx. destruct (set_next_ok h Hl _ x Hok Hx) as (A1 & A2 & A3 & A4).
  split; [|split; [done|apply A1]]. intros m Hm Hokm.
  destruct (decide (m = n)) as [->|]; [by rewrite upd_eq|by rewrite upd_ne].
Qed.

Lemma relinked_trans h p1 p2 p3 : relinked h p1 p2 → relinked h p2 p3 → relinked h p1 p3.
Proof.
  intros H12 H23 m Hm Hok. destruct (H12 m Hm Hok) as (A1 & A2 & A3).
  destruct (H23 m Hm A1) as (B1 & B2 & B3). split_and!; [done|congruence|].
  intros i Hi. rewrite B3, A3 by done. done.
Qed.

(** The predecessor [p] of page [n] takes over its successor, which [n] loses. *)
Lemma unlink_pred n p f g s pgs (h := file_hdr s) :
  busy s (upd p (0 + 1) (upd n 1 (λ _, 0))) pgs → layout_ok h → page_in h n → page_in h p → p ≠ n → page_ok h (pgs n) → page_ok h (pgs p) →
  ps_holds (store s) f (pid n) → ps_holds (store s) g (pid p) → is_int32 (next_free (pgs n)) →
  ∃ s' pgs', (d ← page_data f; put_page g (set_next_free (next_free d) (pgs p)) ;; unpin_no fd p true ;;
              d ← page_data f; put_page f (set_next_free RM_NO_PAGE d)) s = (Ret tt, s') ∧
    busy s' (upd n 1 (λ _, 0)) pgs' ∧ file_hdr s' = h ∧ ps_holds (store s') f (pid n) ∧ relinked h pgs pgs' ∧
    next_free (pgs' p) = next_free (pgs n) ∧ ∀ m, m ≠ p → m ≠ n → pgs' m = pgs m.
Proof.
  intros Hb Hl Hn Hp Hpn Hokn Hokp Hf Hg Hx32. rewrite (st_bind_ret _ _ _ _ _ (proj1 (page_data_spec _ _ _ f n Hb Hn Hf))).
  destruct (relink h pgs p (next_free (pgs n)) Hl Hp Hokp Hx32) as (Hr1 & Hnx1 & Hlen1). set (pgs1 := upd p (set_next_free (next_free (pgs n)) (pgs p)) pgs) in *.
  destruct (put_page_spec _ _ _ g p _ Hb Hp Hg Hlen1) as (s2 & E2 & Hh2 & Hb2 & Hk2 & _). rewrite (st_bind_ret _ _ _ _ _ E2).
  destruct (unpin_no_spec _ _ _ g p true Hb2 (Hk2 _ _ Hg)) as (s3 & E3 & Hh3 & Hb3 & Hk3); [done|]. rewrite (st_bind_ret _ _ _ _ _ E3).
  destruct (Hk3 f (pid n)) as [Hf3 _]; [by intros ?%pid_inj|by apply Hk2|]. assert (file_hdr s3 = h) as Hhs by by rewrite Hh3, Hh2.
  assert (page_in (file_hdr s3) n) as Hn3 by by rewrite Hhs. rewrite (st_bind_ret _ _ _ _ _ (proj1 (page_data_spec _ _ _ _ _ Hb3 Hn3 Hf3))).
  assert (pgs1 n = pgs n) as Epn by (unfold pgs1; by rewrite upd_ne). fold pgs1. rewrite Epn.
  assert (is_int32 RM_NO_PAGE) as Hno by by unfold is_int32, int32_min, int32_max, RM_NO_PAGE.
  destruct (relink h pgs1 n RM_NO_PAGE Hl Hn ltac:(by rewrite Epn) Hno) as (Hr2 & _ & Hlen2). rewrite Epn in Hr2, Hlen2.
  destruct (put_page_spec _ _ _ f n _ Hb3 Hn3 Hf3 Hlen2) as (s4 & E4 & Hh4 & Hb4 & Hk4 & _). exists s4. eexists. split; [exact E4|].
  split; [eapply busy_ext; [|done|exact Hb4]|].
  { intros m. rewrite upd_upd, upd_eq. destruct (decide (m = p)) as [->|]; [by rewrite upd_eq, upd_ne|by rewrite upd_ne]. }
  split; [by rewrite Hh4|]. split; [by apply Hk4|]. split; [by eapply relinked_trans|]. split.
  - rewrite upd_ne by done. unfold pgs1. by rewrite upd_eq.
  - intros m Hmp Hmn. rewrite upd_ne by done. unfold pgs1. by rewrite upd_ne.
Qed.

(** Page numbers in a free list are ints. *)
Lemma chain_int32 h nx n l : free_chain nx n l → (∀ m, m ∈ l → page_in h m) → num_pages h ≤ int32_max → is_int32 n.
Proof.
  intros Hc Hin Hmax. destruct l as [|q l]; simpl in Hc; [rewrite Hc; unfold is_int32, int32_min, int32_max, RM_NO_PAGE; lia|].
  destruct Hc as [-> _]. assert (page_in h q) as Hq by (apply Hin; constructor). unfold page_in, is_int32, int32_min, int32_max, RM_FIRST_RECORD_PAGE in *. lia.
Qed.

(** The walk down the free list takes page [n] out of it and gives every other
    page its old successor.  [n] is full; it is the page being inserted into. *)
Lemma unlink_loop_spec fuel n f a l2 st pgs r st' :
  busy st (upd n 1 (λ _, 0)) pgs → layout_ok (file_hdr st) → page_in (file_hdr st) n →
  (∀ m, page_in (file_hdr st) m → page_ok (file_hdr st) (pgs m)) →
  ps_holds (store st) f (pid n) →
  free_chain (λ m, next_free (pgs m)) a l2 → NoDup l2 → (∀ m, m ∈ l2 → page_in (file_hdr st) m) →
  a ≠ n → num_pages (file_hdr st) ≤ int32_max → (length l2 ≤ fuel)%nat →
  unlink_loop fd fuel n f a st = (r, st') →
  (∃ e, r = Throw e ∧ fetch_failed e) ∨ r = Ret tt ∧ ∃ pgs', busy st' (upd n 1 (λ _, 0)) pgs' ∧ file_hdr st' = file_hdr st ∧
    ps_holds (store st') f (pid n) ∧ relinked (file_hdr st) pgs pgs' ∧
    (∀ m, m ∉ l2 → pgs' m = pgs m) ∧
    free_chain (λ m, next_free (pgs' m)) a (filter (λ m, m ≠ n) l2).
Proof.
  revert a l2 st. induction fuel as [|fuel IH]; intros a l2 st Hb Hl Hn Hoks Hh Hc Hnd Hin Han Hmax Hfu E.
  { destruct l2; [|simpl in Hfu; lia]. simpl in Hc. subst a. injection E as <- <-. right. split; [done|]. exists pgs. by split_and!. }
  simpl in E. destruct l2 as [|p l2].
  { simpl in Hc. subst a. simpl in E. injection E as <- <-. right. split; [done|]. exists pgs. by split_and!. }
  destruct Hc as [-> Hc]. apply NoDup_cons in Hnd as [Hpl Hnd].
  assert (page_in (file_hdr st) p) as Hp by (apply Hin; constructor).
  destruct (Z.eqb_spec p RM_NO_PAGE) as [->|_]; [unfold page_in, RM_NO_PAGE, RM_FIRST_RECORD_PAGE in Hp; lia|].
  apply st_bind_inv in E as [(g & s & E0 & E)|(e & E0 & ->)]; [|left; exists e; split; [done|]; exists st, (upd n 1 (λ _, 0)), pgs, p, n, st'; split_and!; [done|done|apply one_pin|done]].
  apply fetch_page_handle_spec with (K := upd n 1 (λ _, 0)) (pgs := pgs) in E0
    as (_ & [Hhd Hkeep] & Hb1 & Hg & Hcl); [|done].
  rewrite upd_ne in Hb1, Hcl by done. destruct (Hkeep _ _ Hh) as [Hh1 _].
  rewrite (st_bind_ret _ _ _ _ _ (proj1 (page_data_spec _ _ _ g p Hb1 ltac:(by rewrite Hhd) Hg))) in E.
  assert (∀ m, upd p (upd p (0 + 1) (upd n 1 (λ _, 0)) p - 1) (upd p (0 + 1) (upd n 1 (λ _, 0))) m =
               upd n 1 (λ _, 0) m) as HK.
  { intros m. rewrite upd_upd, upd_eq. destruct (decide (m = p)) as [->|]; [by rewrite upd_eq, upd_ne|].
    by rewrite upd_ne. }
  destruct (Z.eqb_spec (next_free (pgs p)) n) as [Enx|Enx].
  - (* p is the predecessor of n *)
    destruct l2 as [|q l2]; [simpl in Hc; rewrite Hc in Enx; subst n;
      unfold page_in, RM_NO_PAGE, RM_FIRST_RECORD_PAGE in Hn; lia|].
    destruct Hc as [Eq Hc]. rewrite Enx in Eq. subst q. apply NoDup_cons in Hnd as [Hnl Hnd].
    destruct (unlink_pred n p f g s pgs) as (s4 & pgs' & E4 & Hb4 & Hh4 & Hf4 & Hrl & Hnx & Hsame); rewrite ?Hhd; try done; try (by apply Hoks).
    { eapply chain_int32; [exact Hc| |exact Hmax]. intros m Hm. apply Hin. by do 2 apply list_elem_of_further. }
    rewrite E4 in E. injection E as <- <-. right. split; [done|]. exists pgs'. rewrite Hhd in *. split_and!; try done.
    + intros m Hm. rewrite !not_elem_of_cons in Hm. destruct Hm as (? & ? & _). by apply Hsame.
    + rewrite filter_cons_True by done. rewrite filter_cons_False by naive_solver.
      rewrite (filter_all _ l2) by (intros m Hm ->; done). split; [done|]. rewrite Hnx. eapply free_chain_ext; [|exact Hc].
      intros m Hm. simpl. rewrite Hsame; [done| |by intros ->]. intros ->. apply Hpl. by constructor.
  - destruct (unpin_no_spec _ _ _ g p false Hb1 Hg) as (s2 & E2 & Hh2 & Hb2 & Hk2); [auto|].
    rewrite (st_bind_ret _ _ _ _ _ E2) in E.
    destruct (Hk2 f (pid n)) as [Hh2' _]; [by intros ?%pid_inj|done|].
    assert (file_hdr s2 = file_hdr st) as Hhs by by rewrite Hh2, Hhd.
    apply (IH (next_free (pgs p)) l2) in E as [?|(-> & pgs' & Hb' & Hh' & Hhold' & Hr' & Hsame & Hc')];
      rewrite ?Hhs in *; try done.
    + by left.
    + right. split; [done|]. exists pgs'. split_and!; try done.
      * intros m Hm. apply Hsame. by apply not_elem_of_cons in Hm as [_ ?].
      * rewrite filter_cons_True by done. split; [done|]. by rewrite Hsame.
    + eapply busy_ext; [exact HK|done|exact Hb2].
    + intros m Hm. apply Hin. by constructor.
    + simpl in Hfu. lia.
Qed.

Lemma free_length h pgs l : meta_ok h pgs l → (length l ≤ Z.to_nat (num_pages h))%nat.
Proof.
  intros [H1 H2 H3 H4 H5 H6].
  assert (l ⊆+ seqZ 0 (num_pages h)) as Hs.
  { apply NoDup_submseteq; [done|]. intros m Hm. apply (proj1 (H6 m)) in Hm as [[? ?] _]. apply elem_of_seqZ.
    unfold RM_FIRST_RECORD_PAGE in *. lia. }
  apply submseteq_length in Hs. by rewrite length_seqZ in Hs.
Qed.

(** The file [st'] holds what [h] and [pgs] held and [buf] at the given place. *)
Definition inserted_at (h : RmFileHdr) (pgs : Z → list Z) (rid : Rid) (buf : list Z) st' : Prop :=
  ∃ pgs' l', rm_inv st' pgs' l' ∧ same_shape h (file_hdr st') ∧ num_pages (file_hdr st') = num_pages h ∧
    ∀ x, contents (file_hdr st') pgs' x = if decide (x = rid) then Some buf else contents h pgs x.

Lemma finish_insert h pgs n i buf a s3 pgs3 l3 : busy s3 (upd n 1 (λ _, 0)) pgs3 → ps_holds (store s3) a (pid n) →
  meta_ok (file_hdr s3) pgs3 l3 → same_shape h (file_hdr s3) → num_pages (file_hdr s3) = num_pages h →
  (∀ x, contents (file_hdr s3) pgs3 x = if decide (x = mkRid n i) then Some buf else contents h pgs x) →
  ∃ s4, (unpin_no fd n true ;; mret tt) s3 = (Ret tt, s4) ∧ inserted_at h pgs (mkRid n i) buf s4.
Proof.
  intros Hb3 Hh3 Hm3 Hsh3 Hnp3 Hc3. destruct (unpin_no_spec _ _ _ a n true Hb3 Hh3) as (s4 & E4 & Hh4 & Hb4 & _); [done|].
  exists s4. rewrite (st_bind_ret _ _ _ _ _ E4). split; [done|]. exists pgs3, l3. rewrite Hh4. split; [split; [|by rewrite Hh4]|done].
  eapply busy_ext; [|done|exact Hb4]. intros m. rewrite upd_eq. destruct (decide (m = n)) as [->|]; [by rewrite upd_eq|by rewrite !upd_ne].
Qed.

(** A full page taken from the free list *)
Lemma meta_unlinked h pgs pgs' n d l : meta_ok h pgs l → page_in h n → page_ok h d → num_records d = num_records_per_page h →
  relinked h (upd n d pgs) pgs' → free_chain (λ m, next_free (pgs' m)) (first_free_page_no h) (filter (λ m, m ≠ n) l) →
  meta_ok h pgs' (filter (λ m, m ≠ n) l).
Proof.
  intros Hm Hn Hd Hfull Hrl Hc. assert (∀ m, page_in h m → page_ok h (upd n d pgs m)) as Hoks.
  { intros m Hmm. destruct (decide (m = n)) as [->|]; [by rewrite upd_eq|]. rewrite upd_ne by done. by apply (m_pages _ _ _ _ Hm). }
  split; try done; try apply Hm.
  - intros m Hmm. by apply Hrl, Hoks.
  - apply NoDup_filter, Hm.
  - intros m. rewrite list_elem_of_filter. pose proof (m_free _ _ _ _ Hm m) as Hfree.
    destruct (decide (page_in h m)) as [Hmm|Hmm]; [|split; [intros [_ Hx]; by apply Hfree in Hx as [? _]|by intros _ [? _]]].
    destruct (Hrl m Hmm (Hoks m Hmm)) as (_ & -> & _).
    destruct (decide (m = n)) as [->|Hne]; [rewrite upd_eq; split; [by intros [? _]|intros _ [_ ?]; lia]|].
    rewrite upd_ne by done. split; [intros [_ Hx]; by apply Hfree|intros Hx Hy; split; [done|by apply Hfree]].
Qed.

(** What insert_record_at does when the page has become full *)
Definition leave_list (h : RmFileHdr) (n a : Z) (d : list Z) : ST (RmFile S) unit :=
  if first_free_page_no h =? n then modify_hdr (set_first_free (next_free d)) ;; put_page a (set_next_free RM_NO_PAGE d)
  else unlink_loop fd (Z.to_nat (num_pages h)) n a (first_free_page_no h).

Lemma leave_list_spec s pgs l n i a d buf r s' (h := file_hdr s) : meta_ok h pgs l → page_in h n → slot_in h i →
  busy s (upd n 1 (λ _, 0)) (upd n d pgs) → ps_holds (store s) a (pid n) → page_ok h d → num_records d = num_records_per_page h →
  next_free d = next_free (pgs n) → (∀ j, slot_in h j → rec_at h d j = if j =? i then Some buf else rec_at h (pgs n) j) →
  leave_list h n a d s = (r, s') →
  (∃ e, r = Throw e ∧ fetch_failed e) ∨ r = Ret tt ∧ ∃ pgs3 l3, busy s' (upd n 1 (λ _, 0)) pgs3 ∧ ps_holds (store s') a (pid n) ∧
    meta_ok (file_hdr s') pgs3 l3 ∧ same_shape h (file_hdr s') ∧ num_pages (file_hdr s') = num_pages h ∧
    ∀ x, contents (file_hdr s') pgs3 x = if decide (x = mkRid n i) then Some buf else contents h pgs x.
Proof.
  subst h. set (h := file_hdr s). intros Hm Hn Hi Hb2 Hhold Hok3 Hfull Hx3 Hrec E. pose proof (m_layout _ _ _ _ Hm) as Hl.
  unfold leave_list in E. destruct (Z.eqb_spec (first_free_page_no h) n) as [Eff|Eff].
  - right. destruct l as [|m l]; pose proof (m_chain _ _ _ _ Hm) as Hc; simpl in Hc.
    { unfold page_in, RM_NO_PAGE, RM_FIRST_RECORD_PAGE in *. lia. }
    destruct Hc as [Hc _]. assert (m = n) as -> by congruence.
    destruct (set_next_ok h Hl d RM_NO_PAGE Hok3) as (Hok4 & Hnx4 & Hn4 & Hrec4);
      [by unfold is_int32, int32_min, int32_max, RM_NO_PAGE|].
    set (h' := set_first_free (next_free d) h) in *. set (d4 := set_next_free RM_NO_PAGE d) in *.
    assert (busy (mkRmFile (store s) h') (upd n 1 (λ _, 0)) (upd n d pgs)) as Hb2' by by apply busy_hdr.
    destruct (put_page_spec (mkRmFile (store s) h') _ _ a n d4 Hb2' Hn Hhold) as (st3 & E3 & Hh3 & Hb3 & Hk3 & _); [apply Hok4|].
    rewrite (st_bind_ret _ _ s tt (mkRmFile (store s) h')), E3 in E by done. injection E as <- <-. split; [done|].
    exists (upd n d4 (upd n d pgs)), l. rewrite Hh3. split; [done|]. split; [by apply Hk3|]. split; [|split; [done|split; [done|]]].
    + eapply meta_ext; [intros m; symmetry; apply upd_upd|]. simpl. unfold h'. rewrite Hx3. apply meta_pop; [done|done|lia].
    + intros x. simpl. rewrite <- (contents_upd h pgs n i d4 (Some buf) Hn Hi).
      * rewrite <- (contents_ext h' (upd n d4 pgs)) by (intros; by rewrite upd_upd). by apply contents_same.
      * intros j Hj. by rewrite Hrec4, Hrec.
  - assert (∀ m, page_in h m → page_ok h (upd n d pgs m)) as Hoks.
    { intros m Hmm. destruct (decide (m = n)) as [->|]; [by rewrite upd_eq|]. rewrite upd_ne by done. by apply (m_pages _ _ _ _ Hm). }
    apply (unlink_loop_spec _ _ _ _ l s (upd n d pgs)) in E as [(e & -> & He)|(-> & pgs' & Hb' & Hh' & Hhold' & Hrl & Hsame & Hc')]; try done.
    + left. by exists e.
    + right. split; [done|]. exists pgs', (filter (λ m, m ≠ n) l). rewrite Hh'. do 2 (split; [done|]). split; [by eapply meta_unlinked|].
      do 2 (split; [done|]). intros x. rewrite <- (contents_upd h pgs n i d (Some buf) Hn Hi Hrec).
      apply contents_same; try done. intros m Hmm j Hj. by apply Hrl; [|apply Hoks|].
    + eapply free_chain_ext; [|apply Hm]. intros m _. simpl. destruct (decide (m = n)) as [->|]; [by rewrite upd_eq|]. by rewrite upd_ne.
    + apply Hm.
    + intros m Hmm. by apply (proj1 (m_free _ _ _ _ Hm m)) in Hmm as [? _].
    + apply Hm.
    + by eapply free_length.
Qed.

Lemma insert_record_at_spec st pgs l rid buf r st' :
  rm_inv st pgs l → slot_in (file_hdr st) (slot_no rid) →
  length buf = Z.to_nat (record_size (file_hdr st)) → Forall is_byte buf →
  insert_record_at fd rid buf st = (r, st') →
  (∃ e, r = Throw e ∧ (page_in (file_hdr st) (page_no rid) → fetch_failed e)) ∨ r = Ret tt ∧ inserted_at (file_hdr st) pgs rid buf st'.
Proof.
  intros [Hb Hm] Hi Hlb Hbb E. destruct rid as [n i]. unfold insert_record_at in E. cbn [page_no slot_no] in *.
  apply st_bind_inv in E as [(a & s & E0 & E)|(e & E0 & ->)]; [|left; exists e; split; [done|]; intros; by exists st, (λ _, 0), pgs, n, n, st'].
  apply fetch_page_handle_spec with (K := λ _, 0) (pgs := pgs) in E0 as (Hn & [Hh _] & Hb1 & Hhold & _); [|done].
  set (h := file_hdr st) in *. pose proof (m_layout _ _ _ _ Hm) as Hl. pose proof (m_pages exact h pgs l Hm n Hn) as Hok.
  assert (page_in (file_hdr s) n) as Hn1 by by rewrite Hh.
  rewrite (st_bind_ret _ _ _ _ _ (proj1 (page_data_spec _ _ _ _ _ Hb1 Hn1 Hhold))) in E.
  rewrite (st_bind_ret get_hdr _ s h s) in E by (unfold get_hdr; by rewrite Hh). cbv zeta in E.
  fold (used (pgs n) i) in E. fold (mark_slot i (pgs n)) in E.
  destruct (insert_given_slot h Hl _ i buf Hok Hi Hlb Hbb) as [Hok3 Hx3 Hn3 Hrec].
  set (d3 := write_slot h i buf _) in *. destruct (num_int32 h Hl _ Hok) as (_ & _ & Hcnt).
  destruct (put_page_spec s _ pgs a n d3 Hb1 Hn1 Hhold) as (st2 & E2 & Hh2 & Hb2 & Hk2 & _); [apply Hok3|].
  rewrite (st_bind_ret _ _ _ _ _ E2) in E. assert (file_hdr st2 = h) as Hhh by by rewrite Hh2.
  destruct (Z.eqb_spec (num_records d3) (num_records_per_page h)) as [Efull|Efull].
  - fold (leave_list h n a d3) in E. destruct (leave_list h n a d3 st2) as [r3 s3] eqn:E3. rewrite <- Hhh in E3.
    eapply (leave_list_spec st2 pgs l n i a d3 buf) in E3 as E3'; rewrite ?Hhh; try done; [|by apply Hk2].
    rewrite Hhh in E3, E3'. destruct E3' as [(e & -> & He)|(-> & pgs3 & l3 & Hb3 & Hf3 & Hm3 & Hsh & Hnp & Hc)].
    + left. exists e. split; [|done]. unfold mbind, st_bind in E. rewrite E3 in E. by injection E as <- _.
    + right. rewrite (st_bind_ret _ _ _ _ _ E3) in E. destruct (finish_insert h pgs n i buf a s3 pgs3 l3) as (s4 & E4 & Hins); try done.
      rewrite E4 in E. by injection E as <- <-.
  - right. rewrite (st_bind_ret (mret tt) _ _ _ _ eq_refl) in E.
    destruct (finish_insert h pgs n i buf a st2 (upd n d3 pgs) l) as (s4 & E4 & Hins); rewrite ?Hhh; try done.
    + by apply Hk2.
    + apply meta_upd_same; try done. destruct (used (pgs n) i); split; lia.
    + by apply contents_upd.
    + rewrite E4 in E. by injection E as <- <-.
Qed.

(** *** RmScan *)

(** The used slots of a page after slot [s], and the record ids of [k] pages
    from page [n] on, in file order. *)
Definition slots_after (h : RmFileHdr) (d : list Z) (s : Z) : list Z :=
  filter (λ i, used d i = true) (seqZ (s + 1) (num_records_per_page h - (s + 1))).

Fixpoint rids_from (h : RmFileHdr) (pgs : Z → list Z) (n : Z) (k : nat) (s : Z) : list Rid :=
  match k with
  | O => []
  | Datatypes.S k' => (mkRid n <$> slots_after h (pgs n) s) ++ rids_from h pgs (n + 1) k' (-1)
  end.

Definition all_rids (h : RmFileHdr) (pgs : Z → list Z) : list Rid :=
  rids_from h pgs RM_FIRST_RECORD_PAGE (Z.to_nat (num_pages h - RM_FIRST_RECORD_PAGE)) (-1).

Lemma next_used h d s : layout_ok h → page_len d → Forall is_byte d → -1 ≤ s < num_records_per_page h →
  let i := Bitmap.next_bit true (bitmap_ptr d) (num_records_per_page h) s in
  if i <? num_records_per_page h then slots_after h d s = i :: slots_after h d i ∧ slot_in h i
  else slots_after h d s = [].
Proof.
  intros Hl Hlen Hb Hs i. assert (Forall is_byte (bitmap_ptr d)) as Hbp by by apply Forall_drop.
  destruct (next_bit_spec (bitmap_ptr d) Hbp true (num_records_per_page h) s Hs) as (H1 & H2 & H3).
  fold i in H1, H2, H3. assert (∀ j, 0 ≤ j → used d j = bit_at (bitmap_ptr d) j) as Hu.
  { intros j Hj. unfold used. by apply is_set_bit. }
  unfold slots_after. destruct (Z.ltb_spec i (num_records_per_page h)) as [Hlt|Hge].
  - split; [|unfold slot_in; lia].
    replace (num_records_per_page h - (s + 1)) with ((i - (s + 1)) + Z.succ (num_records_per_page h - (i + 1))) by lia.
    rewrite seqZ_app by lia. replace (s + 1 + (i - (s + 1))) with i by lia.
    rewrite (seqZ_cons i) by lia. rewrite Z.pred_succ, filter_app, filter_none; [simpl|].
    + rewrite filter_cons_True; [done|]. rewrite Hu by lia. by apply H3.
    + intros j Hj. apply elem_of_seqZ in Hj. rewrite Hu by lia. apply H2. lia.
  - apply filter_none. intros j Hj. apply elem_of_seqZ in Hj. rewrite Hu by lia. apply H2. lia.
Qed.

(** An operation that only reads: on an error a page fetch has failed. *)
Definition reads_or_fails {A} (r : outcome A) st st' pgs l (P : A → Prop) : Prop :=
  match r with
  | Ret a => rm_inv st' pgs l ∧ file_hdr st' = file_hdr st ∧ P a
  | Throw e => fetch_failed e
  end.

(** Where a scan stands: at the first of [rids], or behind the last page. *)
Definition scan_at (h : RmFileHdr) (pgs : Z → list Z) (rids : list Rid) (rid : Rid) : Prop :=
  match rids with
  | [] => rid = mkRid (num_pages h) (-1)
  | r :: rest => rid = r ∧ page_in h (page_no r) ∧ slot_in h (slot_no r) ∧
      rids_from h pgs (page_no r) (Z.to_nat (num_pages h - page_no r)) (slot_no r) = rest
  end.

Lemma scan_loop_spec k n s st pgs l r st' :
  rm_inv st pgs l → RM_FIRST_RECORD_PAGE ≤ n → k = Z.to_nat (num_pages (file_hdr st) - n) →
  -1 ≤ s < num_records_per_page (file_hdr st) → scan_loop fd k n s st = (r, st') →
  reads_or_fails r st st' pgs l (scan_at (file_hdr st) pgs (rids_from (file_hdr st) pgs n k s)).
Proof.
  revert n s st. induction k as [|k IH]; intros n s st Hinv Hn Hk Hs E;
    cbn [scan_loop] in E; rewrite (st_bind_ret get_hdr _ st (file_hdr st) st) in E by done;
    destruct (Z.ltb_spec n (num_pages (file_hdr st))) as [Hlt|]; [lia| | |lia].
  { by injection E as <- <-. }
  pose proof Hinv as [Hb Hm]. assert (page_in (file_hdr st) n) as Hin by by split.
  apply st_bind_inv in E as [(a & s0 & E0 & E)|(e & E0 & ->)]; [|by exists st, (λ _, 0), pgs, n, n, st'].
  apply fetch_page_handle_spec with (K := λ _, 0) (pgs := pgs) in E0 as (_ & [Hh _] & Hb1 & Hhold & Hcl); [|done].
  assert (page_in (file_hdr s0) n) as Hn1 by by rewrite Hh.
  rewrite (st_bind_ret _ _ _ _ _ (proj1 (page_data_spec _ _ _ _ _ Hb1 Hn1 Hhold))) in E.
  destruct (release_clean s0 pgs l a n) as (s1 & E1 & Hi1 & Hh1); [done|by rewrite Hh|done|auto|].
  cbv zeta in E. rewrite (st_bind_ret _ _ _ _ _ E1) in E. rewrite Hh in Hh1.
  destruct (m_pages _ _ _ _ Hm n Hin) as (Hlen & Hbts & _).
  pose proof (next_used _ (pgs n) s (m_layout _ _ _ _ Hm) Hlen Hbts Hs) as Hnu. cbv zeta in Hnu.
  set (i := Bitmap.next_bit true (bitmap_ptr (pgs n)) (num_records_per_page (file_hdr st)) s) in *.
  cbn [rids_from]. destruct (i <? num_records_per_page (file_hdr st)).
  - injection E as <- <-. destruct Hnu as [-> Hsl]. split; [done|]. split; [done|]. rewrite fmap_cons. simpl.
    split_and!; try done. replace (Z.to_nat (num_pages (file_hdr st) - n)) with (Datatypes.S k) by lia. done.
  - rewrite Hnu. simpl. apply IH in E; [|done|lia|rewrite Hh1; lia|].
    + unfold reads_or_fails in *. by rewrite Hh1 in E.
    + rewrite Hh1. pose proof (l_npp _ (m_layout _ _ _ _ Hm)). lia.
Qed.

Lemma scan_collect_spec fuel rid rids st pgs l r st' :
  rm_inv st pgs l → (length rids ≤ fuel)%nat → scan_at (file_hdr st) pgs rids rid →
  scan_collect fd fuel rid st = (r, st') → reads_or_fails r st st' pgs l (λ res, res = rids).
Proof.
  revert rid rids st r st'. induction fuel as [|fuel IH]; intros rid rids st r st' Hinv Hf Hr E; cbn [scan_collect] in E;
    rewrite (st_bind_ret get_hdr _ st (file_hdr st) st) in E by done; unfold scan_is_end in E.
  - destruct rids as [|r0 rids]; [|simpl in Hf; lia]. rewrite Hr, Z.leb_refl in E. by injection E as <- <-.
  - destruct rids as [|r0 rids].
    { rewrite Hr, Z.leb_refl in E. by injection E as <- <-. }
    destruct Hr as (-> & Hp & Hs & Hrest). destruct (Z.leb_spec (num_pages (file_hdr st)) (page_no r0)) as [Hx|Hx];
      [unfold page_in in Hp; lia|].
    destruct (scan_next fd r0 st) as [r1 s1] eqn:E0. pose proof E0 as En. unfold scan_next in En.
    rewrite (st_bind_ret get_hdr _ st (file_hdr st) st) in En by done. unfold scan_is_end in En.
    destruct (Z.leb_spec (num_pages (file_hdr st)) (page_no r0)) as [|_]; [lia|].
    apply (scan_loop_spec _ _ _ _ pgs l) in En; [|done|apply Hp|done|unfold slot_in in Hs; lia].
    unfold mbind, st_bind in E. rewrite E0 in E. destruct r1 as [r1|e]; [|by injection E as <- <-].
    destruct En as (Hi1 & Hh1 & Hm1). rewrite Hrest in Hm1.
    destruct (scan_collect fd fuel r1 s1) as [r2 s2] eqn:E1.
    apply (IH _ rids) in E1; [|done|simpl in Hf; lia|by rewrite Hh1].
    destruct r2 as [res|e]; injection E as <- <-; [|done]. destruct E1 as (Hi2 & Hh2 & ->).
    split; [done|]. by rewrite Hh2, Hh1.
Qed.

Lemma length_rids h pgs n k s : layout_ok h → -1 ≤ s →
  (length (rids_from h pgs n k s) ≤ k * Z.to_nat (num_records_per_page h))%nat.
Proof.
  intros Hl. revert n s. induction k as [|k IH]; intros n s Hs; simpl; [lia|].
  rewrite length_app, length_fmap. specialize (IH (n + 1) (-1) ltac:(lia)).
  pose proof (length_filter (λ i, used (pgs n) i = true) (seqZ (s + 1) (num_records_per_page h - (s + 1)))) as Hf.
  rewrite length_seqZ in Hf. unfold slots_after. lia.
Qed.

(** RmScan(fh) starts at the first record. *)
Lemma scan_begin_spec st pgs l r st' : rm_inv st pgs l → scan_begin fd st = (r, st') →
  reads_or_fails r st st' pgs l (scan_at (file_hdr st) pgs (all_rids (file_hdr st) pgs)).
Proof.
  intros Hinv E. pose proof Hinv as [_ Hm]. unfold scan_begin in E.
  rewrite (st_bind_ret get_hdr _ st (file_hdr st) st) in E by done. unfold all_rids.
  destruct (Z.leb_spec (num_pages (file_hdr st)) RM_FIRST_RECORD_PAGE) as [Hle|Hgt].
  - injection E as <- <-. by replace (Z.to_nat (num_pages (file_hdr st) - RM_FIRST_RECORD_PAGE)) with 0%nat by lia.
  - unfold scan_next in E. rewrite (st_bind_ret get_hdr _ st (file_hdr st) st) in E by done.
    unfold scan_is_end in E. cbn [page_no slot_no] in E.
    destruct (Z.leb_spec (num_pages (file_hdr st)) RM_FIRST_RECORD_PAGE) as [|_]; [lia|].
    pose proof (l_npp _ (m_layout _ _ _ _ Hm)).
    by apply (scan_loop_spec _ _ _ _ pgs l) in E; [|done|done|done|lia].
Qed.

(** The fuel of the scan loops covers every slot of the file. *)
Lemma all_rids_length h pgs : layout_ok h → 1 ≤ num_pages h →
  (length (all_rids h pgs) ≤ Z.to_nat (num_pages h * num_records_per_page h))%nat.
Proof.
  intros Hl Hnum. unfold all_rids. pose proof (l_npp _ Hl) as Hnpp.
  etransitivity; [apply length_rids; [done|lia]|]. unfold RM_FIRST_RECORD_PAGE.
  generalize dependent (num_records_per_page h). generalize dependent (num_pages h). intros x ? y ?.
  rewrite <- Z2Nat.inj_mul by lia. apply Z2Nat.inj_le; nia.
Qed.

Lemma scan_all_spec st pgs l r st' :
  rm_inv st pgs l → scan_all fd st = (r, st') →
  reads_or_fails r st st' pgs l (λ res, res = all_rids (file_hdr st) pgs).
Proof.
  intros Hinv E. pose proof Hinv as [_ Hm]. unfold scan_all in E.
  rewrite (st_bind_ret get_hdr _ st (file_hdr st) st) in E by done.
  destruct (scan_begin fd st) as [r1 s1] eqn:E1. unfold mbind, st_bind in E. rewrite E1 in E.
  apply (scan_begin_spec _ pgs l) in E1; [|done]. destruct r1 as [rid|e]; [|by injection E as <- <-].
  destruct E1 as (Hi1 & Hh1 & Hat). apply (scan_collect_spec _ _ (all_rids (file_hdr st) pgs) _ pgs l) in E.
  - unfold reads_or_fails in *. by rewrite Hh1 in E.
  - done.
  - apply all_rids_length; apply Hm.
  - by rewrite Hh1.
Qed.

Lemma elem_rids_from h pgs n k s r : -1 ≤ s →
  r ∈ rids_from h pgs n k s ↔
  n ≤ page_no r < n + Z.of_nat k ∧ slot_in h (slot_no r) ∧ used (pgs (page_no r)) (slot_no r) = true ∧
  (page_no r = n → s < slot_no r).
Proof.
  revert n s. induction k as [|k IH]; intros n s Hs; simpl; [rewrite elem_of_nil; lia|].
  rewrite elem_of_app, list_elem_of_fmap, IH by lia. unfold slots_after, slot_in. destruct r as [p i]. simpl. split.
  - intros [(j & [= -> ->] & Hj)|(? & ? & ? & ?)]; [|split_and!; try done; lia].
    apply list_elem_of_filter in Hj as [Hu Hj]. apply elem_of_seqZ in Hj. split_and!; try done; lia.
  - intros (Hp & Hi & Hu & Hlt). destruct (decide (p = n)) as [->|Hne].
    + left. exists i. split; [done|]. apply list_elem_of_filter. split; [done|]. apply elem_of_seqZ. lia.
    + right. split_and!; try done; lia.
Qed.

Lemma elem_all_rids h pgs r : r ∈ all_rids h pgs ↔ is_Some (contents h pgs r).
Proof.
  unfold all_rids. rewrite elem_rids_from by lia. unfold contents, page_in, rec_at. destruct r as [p i]. simpl.
  destruct (decide (RM_FIRST_RECORD_PAGE ≤ p < num_pages h)) as [Hp|Hp].
  - rewrite bool_decide_eq_true_2 by done. destruct (decide (slot_in h i)) as [Hi|Hi].
    + rewrite bool_decide_eq_true_2 by done. simpl. unfold slot_in in Hi.
      destruct (used (pgs p) i); split; try done; [intros _; split_and!; try done; lia|naive_solver].
    + rewrite (bool_decide_eq_false_2 (slot_in h i)) by done. simpl. split; [naive_solver|by intros [? ?]].
  - rewrite bool_decide_eq_false_2 by done. simpl. split; [lia|by intros [? ?]].
Qed.

Lemma NoDup_rids_from h pgs n k s : -1 ≤ s → NoDup (rids_from h pgs n k s).
Proof.
  revert n s. induction k as [|k IH]; intros n s Hs; simpl; [constructor|]. apply NoDup_app. split_and!.
  - apply NoDup_fmap_2; [by intros ?? [= ->]|]. apply NoDup_filter, NoDup_seqZ.
  - intros r (j & -> & _)%list_elem_of_fmap Hr. apply elem_rids_from in Hr; [simpl in Hr; lia|lia].
  - apply IH. lia.
Qed.

(* ------------------------------------------------------------------ *)
(** ** The record file as a map                                         *)
(* ------------------------------------------------------------------ *)

(** C15: insert_record.  Once a page with room is at hand it always returns a
    record id (the error for a page without a free slot is never thrown); the
    id was unused, the file maps it to the new record and keeps every other
    record, and the invariant holds again: free list, no page left pinned, other
    files untouched. *)
Theorem insert_record_correct st pgs l buf f st1 (Hinv : rm_inv st pgs l)
    (Hmax : num_pages (file_hdr st) < int32_max)
    (Hlen : length buf = Z.to_nat (record_size (file_hdr st))) (Hb : Forall is_byte buf)
    (E : create_page_handle fd st = (Ret f, st1)) :
  ∃ rid st2 pgs' l', insert_record fd buf st = (Ret rid, st2) ∧ rm_inv st2 pgs' l' ∧
    contents (file_hdr st) pgs rid = None ∧
    ∀ r, contents (file_hdr st2) pgs' r =
         if decide (r = rid) then Some buf else contents (file_hdr st) pgs r.
Proof.
  destruct (insert_record_spec st pgs l buf f st1) as (rid & st2 & pgs' & l' & ? & ? & _ & ? & ?); try done.
  exists rid, st2, pgs', l'. done.
Qed.

(** C25: delete_record on a fetched page.  It throws RecordNotFoundError exactly
    when the slot is empty, and otherwise removes that record and no other; a
    page that was full is put back on the free list (the invariant). *)
Theorem delete_record_correct st pgs l rid f st1 (Hinv : rm_inv st pgs l)
    (Hslot : slot_in (file_hdr st) (slot_no rid))
    (E : fetch_page_handle fd (page_no rid) st = (Ret f, st1)) :
  ∃ st2 pgs' l', rm_inv st2 pgs' l' ∧
    delete_record fd rid st =
      (match contents (file_hdr st) pgs rid with
       | Some _ => Ret tt
       | None => Throw (RecordNotFoundError (page_no rid) (slot_no rid))
       end, st2) ∧
    (is_Some (contents (file_hdr st) pgs rid) →
     ∀ r, contents (file_hdr st2) pgs' r = if decide (r = rid) then None else contents (file_hdr st) pgs r).
Proof.
  destruct (delete_record_spec st pgs l rid f st1) as (st2 & pgs' & l' & Hi & _ & Hm); try done.
  exists st2, pgs', l'. split; [done|]. destruct (contents (file_hdr st) pgs rid).
  - destruct Hm as [-> Hc]. done.
  - destruct Hm as [-> _]. split; [done|]. by intros [? ?].
Qed.

(** C26: update_record then get_record on the same record returns the new bytes,
    and update_record changes no other record. *)
Theorem update_get_record st pgs l rid buf old f st1 st2 g st3 (Hinv : rm_inv st pgs l)
    (Hslot : slot_in (file_hdr st) (slot_no rid))
    (Hlen : length buf = Z.to_nat (record_size (file_hdr st))) (Hb : Forall is_byte buf)
    (Hold : contents (file_hdr st) pgs rid = Some old)
    (E1 : fetch_page_handle fd (page_no rid) st = (Ret f, st1))
    (E2 : update_record fd rid buf st = (Ret tt, st2))
    (E3 : fetch_page_handle fd (page_no rid) st2 = (Ret g, st3)) :
  (∃ st4, get_record fd rid st2 = (Ret buf, st4)) ∧
  ∃ pgs', rm_inv st2 pgs' l ∧
    ∀ r, contents (file_hdr st2) pgs' r = if decide (r = rid) then Some buf else contents (file_hdr st) pgs r.
Proof.
  destruct (update_record_spec st pgs l rid buf f st1) as (st2' & pgs' & Hi & Hh & Hm); try done.
  rewrite Hold in Hm. destruct Hm as [Eu Hc]. assert (st2' = st2) as -> by congruence.
  split; [|exists pgs'; split; [done|]; intros r; rewrite Hh; apply Hc].
  destruct (get_record_spec st2 pgs' l rid g st3) as (st4 & _ & _ & Eg); [done|by rewrite Hh|done|].
  exists st4. rewrite Eg, Hh, Hc. by rewrite decide_True.
Qed.

(** C27: insert_record at a given place, as rollback and recovery use it.  The
    file then maps the id to the record, keeps all others, and the walk down the
    free list has removed the page from it exactly when it became full; on a page
    of the file the call fails only where a page fetch fails, so the walk ends. *)
Theorem insert_record_at_correct st pgs l rid buf r st' (Hinv : rm_inv st pgs l)
    (Hpage : page_in (file_hdr st) (page_no rid)) (Hslot : slot_in (file_hdr st) (slot_no rid))
    (Hlen : length buf = Z.to_nat (record_size (file_hdr st))) (Hb : Forall is_byte buf)
    (E : insert_record_at fd rid buf st = (r, st')) :
  match r with
  | Ret _ => ∃ pgs' l', rm_inv st' pgs' l' ∧
      ∀ x, contents (file_hdr st') pgs' x = if decide (x = rid) then Some buf else contents (file_hdr st) pgs x
  | Throw e => fetch_failed e
  end.
Proof.
  destruct (insert_record_at_spec st pgs l rid buf r st') as [(e & -> & He)|(-> & pgs' & l' & ? & _ & _ & ?)]; try done.
  - by apply He.
  - by exists pgs', l'.
Qed.

(** C28: a full RmScan returns every record of the file exactly once and nothing
    else, and leaves the file unchanged; it fails only where a page fetch fails. *)
Theorem scan_complete st pgs l r st' (Hinv : rm_inv st pgs l) (E : scan_all fd st = (r, st')) :
  match r with
  | Ret res => NoDup res ∧ (∀ x, x ∈ res ↔ is_Some (contents (file_hdr st) pgs x)) ∧
      rm_inv st' pgs l ∧ file_hdr st' = file_hdr st
  | Throw e => fetch_failed e
  end.
Proof.
  apply (scan_all_spec _ pgs l) in E; [|done]. destruct r as [res|e]; [|done]. destruct E as (Hi & Hh & ->).
  split; [apply NoDup_rids_from; lia|]. split; [apply elem_all_rids|done].
Qed.

End RmSpec.
