(* ===== verification/RmManager.v ===== *)
(** * Record manager (src/src/record/rm_manager.h)

    Creation, opening and closing of a table's data file, over the buffer pool
    and the disk manager, and the theorem that the layout create_file computes
    fits in a page. *)

From S2P Require Import Prelude Defs Bitmap Replacer Posix DiskManager BufferPool RmFile RmPage RmSpec.

(** The header create_file writes. *)
Definition init_hdr (rs : Z) : RmFileHdr :=
  let npp := Z.quot (BITMAP_WIDTH * (PAGE_SIZE - 1 - SIZEOF_RmFileHdr) + 1) (1 + rs * BITMAP_WIDTH) in
  mkRmFileHdr rs 1 npp RM_NO_PAGE (Z.quot (npp + BITMAP_WIDTH - 1) BITMAP_WIDTH).

Section RmManager.
Context {R OS : Type} `{Replacer R, Posix OS}.
Abbreviation pool := (BPM R (DiskManager OS)).

Definition rm_create_file (filename : string) (record_size : Z) : ST pool unit :=
  if (record_size <? 1) || (RM_MAX_RECORD_SIZE <? record_size)
  then throw (InvalidRecordSizeError record_size) else
  on_disk (create_file filename) ;;
  fd ← on_disk (open_file filename);
  on_disk (write_page fd RM_FILE_HDR_PAGE (rm_hdr_bytes (init_hdr record_size))) ;;
  on_disk (close_file fd).

Definition rm_destroy_file (filename : string) : ST pool unit := on_disk (destroy_file filename).

(** disk_manager_->read_page into a struct *)
Definition read_bytes (fd page_no n : Z) : ST pool (list Z) := λ s,
  let '((bytes, r), d) := read_page fd page_no n (disk s) in
  match r with
  | Ret _ => (Ret bytes, set_disk d s)
  | Throw e => (Throw e, set_disk d s)
  end.

(** RmFileHandle::RmFileHandle *)
Definition rm_file_handle (fd : Z) : ST pool RmFileHdr :=
  bytes ← read_bytes fd RM_FILE_HDR_PAGE SIZEOF_RmFileHdr;
  let file_hdr := rm_hdr_parse bytes in
  on_disk (set_fd2pageno fd (num_pages file_hdr)) ;;
  mret file_hdr.

Definition rm_open_file (filename : string) : ST pool (Z * RmFileHdr) :=
  fd ← on_disk (open_file filename);
  h ← rm_file_handle fd;
  mret (fd, h).

Definition rm_close_file (fd : Z) (h : RmFileHdr) : ST pool unit :=
  on_disk (write_page fd RM_FILE_HDR_PAGE (rm_hdr_bytes h)) ;;
  flush_all_pages fd ;;
  ok ← delete_all_pages fd;
  if negb ok then throw (InternalError "RmManager::close_file Error") else
  on_disk (close_file fd).

End RmManager.

(* ------------------------------------------------------------------ *)
(** ** The layout fits                                                  *)
(* ------------------------------------------------------------------ *)

Definition layout_check (h : RmFileHdr) : bool :=
  (1 <=? record_size h) && (1 <=? num_records_per_page h) &&
  (num_records_per_page h <=? 8 * bitmap_size h) &&
  (Z.of_nat OFF_BITMAP + bitmap_size h + num_records_per_page h * record_size h <=? PAGE_SIZE).

Lemma layout_check_ok h : layout_check h = true → layout_ok h.
Proof. unfold layout_check. intros E. bool_prop. by split. Qed.

Lemma init_hdr_layout rs : 1 ≤ rs ≤ RM_MAX_RECORD_SIZE → layout_ok (init_hdr rs).
Proof.
  intros Hrs. apply layout_check_ok.
  assert (forallb (λ r, layout_check (init_hdr r)) (seqZ 1 RM_MAX_RECORD_SIZE) = true) as Hall by by vm_compute.
  rewrite forallb_forall in Hall. apply Hall, list_elem_of_In, elem_of_seqZ.
  unfold RM_MAX_RECORD_SIZE in *. lia.
Qed.

Definition hdr_int32 (h : RmFileHdr) : Prop :=
  is_int32 (record_size h) ∧ is_int32 (num_pages h) ∧ is_int32 (num_records_per_page h) ∧
  is_int32 (first_free_page_no h) ∧ is_int32 (bitmap_size h).

Lemma le_int4_skip z bs : is_int32 z → le_int 4 (le_bytes 4 z ++ bs) = z.
Proof. intros. apply le_int_bytes; [lia|]. unfold is_int32, int32_min, int32_max in *. simpl. lia. Qed.

Lemma rm_hdr_roundtrip h : hdr_int32 h → rm_hdr_parse (rm_hdr_bytes h) = h.
Proof.
  intros (H1 & H2 & H3 & H4 & H5). destruct h as [a b c d e]. simpl in *.
  unfold rm_hdr_parse, rm_hdr_bytes, load_i32. simpl record_size. simpl num_pages.
  simpl num_records_per_page. simpl first_free_page_no. simpl bitmap_size. f_equal.
  - by apply le_int4_skip.
  - rewrite (drop_app_length' (le_bytes 4 a)) by by rewrite length_le_bytes. by apply le_int4_skip.
  - rewrite app_assoc, (drop_app_length' (le_bytes 4 a ++ le_bytes 4 b)) by by rewrite length_app, !length_le_bytes.
    by apply le_int4_skip.
  - rewrite 2!app_assoc, (drop_app_length' ((le_bytes 4 a ++ le_bytes 4 b) ++ le_bytes 4 c))
      by by rewrite !length_app, !length_le_bytes. by apply le_int4_skip.
  - rewrite 3!app_assoc, (drop_app_length' (((le_bytes 4 a ++ le_bytes 4 b) ++ le_bytes 4 c) ++ le_bytes 4 d))
      by by rewrite !length_app, !length_le_bytes.
    rewrite <- (app_nil_r (le_bytes 4 e)). by apply le_int4_skip.
Qed.

(** C29: for every record size create_file accepts, the header it writes describes
    a page in which page header, bitmap and all slots fit and the bitmap has a
    bit per slot; reading the header back gives the same header. *)
Theorem create_file_layout rs (Hrs : 1 ≤ rs ≤ RM_MAX_RECORD_SIZE) :
  layout_ok (init_hdr rs) ∧ rm_hdr_parse (rm_hdr_bytes (init_hdr rs)) = init_hdr rs.
Proof.
  pose proof (init_hdr_layout rs Hrs) as Hl. split; [done|]. apply rm_hdr_roundtrip.
  destruct Hl as [H1 H2 H3 H4]. simpl in *. unfold hdr_int32, is_int32, int32_min, int32_max, PAGE_SIZE in *.
  simpl. set (npp := Z.quot _ (1 + _)) in *. set (bm := Z.quot _ _) in *.
  assert (npp ≤ npp * rs) by nia. assert (0 ≤ bm) by lia. unfold RM_NO_PAGE, RM_MAX_RECORD_SIZE in *. lia.
Qed.

Lemma create_file_layout_witness : layout_ok (init_hdr 512).
Proof. apply (create_file_layout 512). unfold RM_MAX_RECORD_SIZE. lia. Defined.

(** A record file with records of 400 bytes (ten to a page) over a pool of two
    frames, for the witnesses: empty, with one record, and with eleven. *)
Module RmWitness.

Definition fd : Z := 0.
Definition pool : Type := BPM LRU.LRUReplacer (DiskManager MemFS.fs).
Definition file : Type := RmFile pool.

Definition st0 : file :=
  mkRmFile (bpm_init 2 (snd (set_fd2pageno fd 1 DiskWitness.d4)) (LRU.init 2)) (init_hdr 400).

Definition sb : pool := store st0.

Definition rec (b : Z) : list Z := replicate 400 b.
Definition st_of {A} (x : outcome A * file) : file := snd x.
Definition st1 : file := st_of (insert_record fd (rec 1) st0).

Lemma st0_inv : rm_inv fd true sb st0 (λ _, []) [].
Proof.
  split; [split|split]; try done.
  - apply bpm_init_inv; [|by apply LRU.init_inv|done|done].
    eapply dm_step_inv; [by eapply step_setno|]. apply dm_reachable_inv, DiskWitness.d4_reachable.
  - by exists "t".
  - by intros n [? ?].
  - intros n [H1 H2]. unfold RM_FIRST_RECORD_PAGE in H1. simpl in H2. lia.
  - intros n [H1 H2]. unfold RM_FIRST_RECORD_PAGE in H1. simpl in H2. lia.
  - constructor.
  - intros n. split; [by intros ?%elem_of_nil|]. intros _ [[H1 H2] _]. unfold RM_FIRST_RECORD_PAGE in H1. simpl in H2. lia.
Qed.

Lemma rec_bytes b : is_byte b → Forall is_byte (rec b).
Proof. intros. by apply Forall_replicate. Qed.

(** Discharge a hypothesis of a theorem at a concrete state. *)
Ltac concrete := first [apply rec_bytes; unfold is_byte; lia | by vm_compute].

(** One record: page 1 exists, with the record in slot 0. *)
Lemma st1_all : ∃ pgs l, rm_inv fd true sb st1 pgs l ∧
  ∀ r, contents (file_hdr st1) pgs r = if decide (r = mkRid 1 0) then Some (rec 1) else None.
Proof.
  destruct (insert_record_spec fd true sb st0 (λ _, []) [] (rec 1) 0 (st_of (create_page_handle fd st0)) st0_inv)
    as (rid & st2 & pgs & l & E & Hi & _ & _ & Hc); [concrete..|].
  assert (rid = mkRid 1 0 ∧ st2 = st1) as [-> ->].
  { split; [|unfold st1; by rewrite E]. apply (f_equal fst) in E. vm_compute in E. by injection E as <-. }
  exists pgs, l. split; [done|]. intros r. rewrite Hc. case_decide; [done|]. unfold contents.
  rewrite bool_decide_eq_false_2; [done|]. intros [H1 H2]. unfold RM_FIRST_RECORD_PAGE in H1. simpl in H2. lia.
Qed.

Lemma st1_inv : ∃ pgs l, rm_inv fd true sb st1 pgs l ∧
  contents (file_hdr st1) pgs (mkRid 1 0) = Some (rec 1).
Proof. destruct st1_all as (pgs & l & Hi & Hc). exists pgs, l. split; [done|]. by rewrite Hc. Qed.

Lemma insert_record_correct_witness :
  ∃ rid st2 pgs' l', insert_record fd (rec 1) st0 = (Ret rid, st2) ∧ rm_inv fd true sb st2 pgs' l' ∧
    contents (file_hdr st2) pgs' rid = Some (rec 1).
Proof.
  destruct (insert_record_correct fd true sb st0 (λ _, []) [] (rec 1) 0 (st_of (create_page_handle fd st0)) st0_inv)
    as (rid & st2 & pgs & l & E & Hi & _ & Hc); [concrete..|].
  exists rid, st2, pgs, l. split; [done|]. split; [done|]. rewrite Hc. by rewrite decide_True.
Defined.

Lemma delete_record_correct_witness : fst (delete_record fd (mkRid 1 0) st1) = Ret tt.
Proof.
  destruct st1_inv as (pgs & l & Hi & Hc).
  destruct (delete_record_correct fd true sb st1 pgs l (mkRid 1 0) 0 (st_of (fetch_page_handle fd 1 st1)) Hi)
    as (st2 & pgs' & l' & _ & E & _); [concrete..|].
  rewrite E, Hc. done.
Defined.

Lemma update_get_record_witness :
  ∃ st4, get_record fd (mkRid 1 0) (st_of (update_record fd (mkRid 1 0) (rec 7) st1)) = (Ret (rec 7), st4).
Proof.
  destruct st1_inv as (pgs & l & Hi & Hc).
  refine (proj1 (update_get_record fd true sb st1 pgs l (mkRid 1 0) (rec 7) (rec 1) 0
    (st_of (fetch_page_handle fd 1 st1)) _ 0
    (st_of (fetch_page_handle fd 1 (st_of (update_record fd (mkRid 1 0) (rec 7) st1)))) Hi _ _ _ Hc _ _ _));
    concrete.
Defined.

Lemma insert_record_at_correct_witness :
  ∃ pgs' l', rm_inv fd true sb (st_of (insert_record_at fd (mkRid 1 3) (rec 9) st1)) pgs' l'.
Proof.
  destruct st1_inv as (pgs & l & Hi & Hc).
  destruct (insert_record_at_correct fd true sb st1 pgs l (mkRid 1 3) (rec 9) (Ret tt)
    (st_of (insert_record_at fd (mkRid 1 3) (rec 9) st1)) Hi) as (pgs' & l' & Hi' & _); [concrete..|].
  by exists pgs', l'.
Defined.

Lemma scan_complete_witness : fst (scan_all fd st1) = Ret [mkRid 1 0] ∧ NoDup [mkRid 1 0].
Proof.
  split; [by vm_compute|]. destruct st1_inv as (pgs & l & Hi & Hc).
  refine (proj1 (scan_complete fd true sb st1 pgs l (Ret [mkRid 1 0]) (st_of (scan_all fd st1)) Hi _)). by vm_compute.
Defined.

End RmWitness.
