(* ===== verification/Txn.v ===== *)
(** * Transactions (src/src/transaction/txn_defs.h, transaction.h)

    The enumerations of txn_defs.h, WriteRecord, LockDataId with its hash key,
    and the Transaction object with the fields the managers use. *)

From S2P Require Import Prelude Defs.

Inductive TransactionState := DEFAULT | GROWING | SHRINKING | COMMITTED | ABORTED.
#[export] Instance TransactionState_eq_dec : EqDecision TransactionState.
Proof. solve_decision. Defined.

Inductive IsolationLevel := READ_UNCOMMITTED | REPEATABLE_READ | READ_COMMITTED | SERIALIZABLE.

Inductive WType := INSERT_TUPLE | DELETE_TUPLE | UPDATE_TUPLE.
#[export] Instance WType_eq_dec : EqDecision WType.
Proof. solve_decision. Defined.

(** class WriteRecord: an INSERT_TUPLE record has no tuple value; RmRecord is
    its bytes. *)
Record WriteRecord := mkWriteRecord {
  wtype : WType;
  wr_tab_name : string;
  wr_rid : Rid;
  wr_record : list Z
}.

Definition write_record_insert (tab : string) (rid : Rid) : WriteRecord :=
  mkWriteRecord INSERT_TUPLE tab rid [].

(** class LockDataId: the table constructor sets rid to (-1, -1). *)
Inductive LockDataType := TABLE | RECORD.
#[export] Instance LockDataType_eq_dec : EqDecision LockDataType.
Proof. solve_decision. Defined.
#[export] Instance LockDataType_countable : Countable LockDataType.
Proof.
  refine (inj_countable' (λ t, match t with TABLE => true | RECORD => false end)
            (λ b, if b : bool then TABLE else RECORD) _). by intros [].
Defined.

Record LockDataId := mkLockDataId { ld_fd : Z; ld_rid : Rid; ld_type : LockDataType }.
#[export] Instance LockDataId_eq_dec : EqDecision LockDataId.
Proof. solve_decision. Defined.
#[export] Instance LockDataId_countable : Countable LockDataId.
Proof.
  refine (inj_countable' (λ l, (ld_fd l, ld_rid l, ld_type l)) (λ p, mkLockDataId p.1.1 p.1.2 p.2) _).
  by intros [].
Defined.

Definition lock_table_id (fd : Z) : LockDataId := mkLockDataId fd (mkRid (-1) (-1)) TABLE.
Definition lock_record_id (fd : Z) (rid : Rid) : LockDataId := mkLockDataId fd rid RECORD.

(** LockDataId::Get: the hash key, in 64-bit arithmetic. *)
Definition lock_data_get (l : LockDataId) : Z :=
  match ld_type l with
  | TABLE => ld_fd l
  | RECORD =>
      wrap_s 64 (Z.lor (Z.lor (Z.lor (Z.shiftl 1 63) (Z.shiftl (ld_fd l) 31))
                              (Z.shiftl (page_no (ld_rid l)) 16)) (slot_no (ld_rid l)))
  end.

Definition lock_data_eqb (x y : LockDataId) : bool :=
  bool_decide (ld_type x = ld_type y) && (ld_fd x =? ld_fd y) && rid_eqb (ld_rid x) (ld_rid y).

Lemma lock_data_eqb_eq x y : lock_data_eqb x y = true ↔ x = y.
Proof.
  destruct x as [f r t], y as [f' r' t']. unfold lock_data_eqb. simpl.
  rewrite !andb_true_iff, bool_decide_eq_true, Z.eqb_eq, rid_eqb_eq. split; [by intros [[-> ->] ->]|].
  by intros [= -> -> ->].
Qed.

(** class Transaction.  The two page sets of the index are cleared by the
    managers and never filled; thread ids are not modelled. *)
Record Transaction := mkTxn {
  txn_id : Z;
  txn_mode : bool;
  txn_state : TransactionState;
  isolation_level : IsolationLevel;
  prev_lsn : Z;
  start_ts : Z;
  write_set : list WriteRecord;
  lock_set : gset LockDataId
}.

Definition new_transaction (id : Z) : Transaction :=
  mkTxn id false DEFAULT SERIALIZABLE INVALID_LSN 0 [] ∅.

Definition set_txn_mode (m : bool) (t : Transaction) : Transaction :=
  mkTxn (txn_id t) m (txn_state t) (isolation_level t) (prev_lsn t) (start_ts t) (write_set t) (lock_set t).
Definition set_state (s : TransactionState) (t : Transaction) : Transaction :=
  mkTxn (txn_id t) (txn_mode t) s (isolation_level t) (prev_lsn t) (start_ts t) (write_set t) (lock_set t).
Definition set_prev_lsn (l : Z) (t : Transaction) : Transaction :=
  mkTxn (txn_id t) (txn_mode t) (txn_state t) (isolation_level t) l (start_ts t) (write_set t) (lock_set t).
Definition set_start_ts (ts : Z) (t : Transaction) : Transaction :=
  mkTxn (txn_id t) (txn_mode t) (txn_state t) (isolation_level t) (prev_lsn t) ts (write_set t) (lock_set t).
Definition set_write_set (w : list WriteRecord) (t : Transaction) : Transaction :=
  mkTxn (txn_id t) (txn_mode t) (txn_state t) (isolation_level t) (prev_lsn t) (start_ts t) w (lock_set t).
Definition set_lock_set (l : gset LockDataId) (t : Transaction) : Transaction :=
  mkTxn (txn_id t) (txn_mode t) (txn_state t) (isolation_level t) (prev_lsn t) (start_ts t) (write_set t) l.

Definition append_write_record (w : WriteRecord) (t : Transaction) : Transaction :=
  set_write_set (write_set t ++ [w]) t.

(** TransactionAbortException::GetInfo; [str] is std::to_string. *)
Definition abort_info (str : Z → string) (id : Z) (r : abort_reason) : string :=
  ("Transaction " +:+ str id +:+
  match r with
  | LOCK_ON_SHIRINKING => " aborted because it cannot request locks on SHRINKING phase"
  | UPGRADE_CONFLICT => " aborted because another transaction is waiting for upgrading"
  | DEADLOCK_PREVENTION => " aborted for deadlock prevention"
  end +:+ String (Ascii.ascii_of_nat 10) EmptyString)%string.
