(* ===== verification/LockManager.v ===== *)
(** * Lock manager (src/src/transaction/concurrency/lock_manager.{h,cpp})

    The global lock table with a request queue per locked object, the no-wait
    policy (an incompatible request aborts the requester), and two-phase
    locking.  Calls run under latch_, so each is one transition; [lm_step]
    interleaves the calls of any number of transactions. *)

From S2P Require Import Prelude Defs Txn.

Inductive LockMode := SHARED | EXLUCSIVE | INTENTION_SHARED | INTENTION_EXCLUSIVE | S_IX.
#[export] Instance LockMode_eq_dec : EqDecision LockMode.
Proof. solve_decision. Defined.

Inductive GroupLockMode := NON_LOCK | IS | IX | S | X | SIX.
#[export] Instance GroupLockMode_eq_dec : EqDecision GroupLockMode.
Proof. solve_decision. Defined.

Record LockRequest := mkReq { req_txn : Z; req_mode : LockMode; granted : bool }.
Record LockRequestQueue := mkQueue { request_queue : list LockRequest; group_lock_mode : GroupLockMode }.

Abbreviation lock_table := (gmap LockDataId LockRequestQueue).

Definition group_mode_for (m : LockMode) : GroupLockMode :=
  match m with
  | SHARED => S | EXLUCSIVE => X | INTENTION_SHARED => IS | INTENTION_EXCLUSIVE => IX | S_IX => SIX
  end.

Definition group_mode_rank (g : GroupLockMode) : Z :=
  match g with NON_LOCK => 0 | IS => 1 | IX => 2 | S => 3 | SIX => 4 | X => 5 end.

Definition mode_eqb (a b : LockMode) : bool := bool_decide (a = b).

Definition is_compatible (held_mode request_mode : LockMode) : bool :=
  if mode_eqb held_mode EXLUCSIVE || mode_eqb request_mode EXLUCSIVE then false
  else if mode_eqb held_mode S_IX || mode_eqb request_mode S_IX then
    mode_eqb held_mode INTENTION_SHARED || mode_eqb request_mode INTENTION_SHARED
  else if mode_eqb held_mode SHARED then
    mode_eqb request_mode SHARED || mode_eqb request_mode INTENTION_SHARED
  else if mode_eqb request_mode SHARED then
    mode_eqb held_mode SHARED || mode_eqb held_mode INTENTION_SHARED
  else true.

Definition refresh_step (g : GroupLockMode) (r : LockRequest) : GroupLockMode :=
  if negb (granted r) then g else
  let rg := group_mode_for (req_mode r) in
  if group_mode_rank g <? group_mode_rank rg then rg else g.

Definition refresh_group_lock_mode (l : list LockRequest) : LockRequestQueue :=
  mkQueue l (fold_left refresh_step l NON_LOCK).

(** The first request of a transaction in a queue. *)
Definition find_request (t : Z) (l : list LockRequest) : option LockRequest :=
  head (filter (λ r, req_txn r = t) l).

(** *existing_request = r, for the first request of the transaction *)
Fixpoint replace_request (t : Z) (r : LockRequest) (l : list LockRequest) : list LockRequest :=
  match l with
  | [] => []
  | q :: l' => if req_txn q =? t then r :: l' else q :: replace_request t r l'
  end.

Fixpoint erase_request (t : Z) (l : list LockRequest) : list LockRequest :=
  match l with
  | [] => []
  | q :: l' => if req_txn q =? t then l' else q :: erase_request t l'
  end.

(** The held mode already includes the requested one. *)
Definition covers (held request : LockMode) : bool :=
  mode_eqb held request || mode_eqb held EXLUCSIVE ||
  (mode_eqb held SHARED && mode_eqb request INTENTION_SHARED) ||
  (mode_eqb held S_IX && negb (mode_eqb request EXLUCSIVE)).

Definition queue_of (id : LockDataId) (lt : lock_table) : list LockRequest :=
  match lt !! id with Some q => request_queue q | None => [] end.

(** LockManager::lock.  [lock_table_[id]] creates an empty queue when there is
    none. *)
Definition lock (txn : option Transaction) (id : LockDataId) (mode : LockMode) (lt : lock_table)
    : outcome bool * (option Transaction * lock_table) :=
  match txn with
  | None => (Ret true, (None, lt))
  | Some t =>
      if bool_decide (txn_state t = SHRINKING)
      then (Throw (TransactionAbort (txn_id t) LOCK_ON_SHIRINKING), (Some t, lt)) else
      let lt := match lt !! id with Some _ => lt | None => <[id := mkQueue [] NON_LOCK]> lt end in
      let q := queue_of id lt in
      let t' := set_lock_set ({[id]} ∪ lock_set t) t in
      let existing := find_request (txn_id t) q in
      if match existing with
         | Some r => granted r && covers (req_mode r) mode
         | None => false
         end
      then (Ret true, (Some t', lt)) else
      if existsb (λ r, granted r && negb (req_txn r =? txn_id t) &&
                       negb (is_compatible (req_mode r) mode)) q
      then (Throw (TransactionAbort (txn_id t) DEADLOCK_PREVENTION), (Some t, lt)) else
      let r := mkReq (txn_id t) mode true in
      let q' := match existing with
                | Some _ => replace_request (txn_id t) r q
                | None => q ++ [r]
                end in
      (Ret true, (Some t', <[id := refresh_group_lock_mode q']> lt))
  end.

Definition lock_shared_on_record (txn : option Transaction) (rid : Rid) (tab_fd : Z) :=
  lock txn (lock_record_id tab_fd rid) SHARED.
Definition lock_exclusive_on_record (txn : option Transaction) (rid : Rid) (tab_fd : Z) :=
  lock txn (lock_record_id tab_fd rid) EXLUCSIVE.
Definition lock_shared_on_table (txn : option Transaction) (tab_fd : Z) :=
  lock txn (lock_table_id tab_fd) SHARED.
Definition lock_exclusive_on_table (txn : option Transaction) (tab_fd : Z) :=
  lock txn (lock_table_id tab_fd) EXLUCSIVE.
Definition lock_IS_on_table (txn : option Transaction) (tab_fd : Z) :=
  lock txn (lock_table_id tab_fd) INTENTION_SHARED.
Definition lock_IX_on_table (txn : option Transaction) (tab_fd : Z) :=
  lock txn (lock_table_id tab_fd) INTENTION_EXCLUSIVE.

Definition unlock (txn : option Transaction) (id : LockDataId) (lt : lock_table)
    : bool * (option Transaction * lock_table) :=
  match txn with
  | None => (true, (None, lt))
  | Some t =>
      match lt !! id with
      | None => (false, (Some t, lt))
      | Some q =>
          match find_request (txn_id t) (request_queue q) with
          | None => (true, (Some t, lt))
          | Some _ =>
              let l := erase_request (txn_id t) (request_queue q) in
              let t := set_lock_set (lock_set t ∖ {[id]}) t in
              let lt := match l with
                        | [] => delete id lt
                        | _ => <[id := refresh_group_lock_mode l]> lt
                        end in
              let t := if bool_decide (txn_state t = GROWING) then set_state SHRINKING t else t in
              (true, (Some t, lt))
          end
      end
  end.

(** for (const auto &lock_data_id : locks) lock_manager_->unlock(txn, id), the
    loop of commit and abort over a copy of the lock set *)
Fixpoint unlock_all (ids : list LockDataId) (t : Transaction) (lt : lock_table) : Transaction * lock_table :=
  match ids with
  | [] => (t, lt)
  | id :: ids' =>
      match unlock (Some t) id lt with
      | (_, (Some t', lt')) => unlock_all ids' t' lt'
      | (_, (None, lt')) => unlock_all ids' t lt'
      end
  end.

Definition release_locks (t : Transaction) (lt : lock_table) : Transaction * lock_table :=
  let '(t', lt') := unlock_all (elements (lock_set t)) t lt in (set_lock_set ∅ t', lt').

(* ------------------------------------------------------------------ *)
(** ** Compatibility                                                    *)
(* ------------------------------------------------------------------ *)

(** The standard matrix of multi-granularity locking. *)
Definition compat_matrix (a b : LockMode) : bool :=
  match a, b with
  | INTENTION_SHARED, EXLUCSIVE | EXLUCSIVE, INTENTION_SHARED => false
  | INTENTION_SHARED, _ | _, INTENTION_SHARED => true
  | INTENTION_EXCLUSIVE, INTENTION_EXCLUSIVE => true
  | SHARED, SHARED => true
  | _, _ => false
  end.

Lemma is_compatible_matrix a b : is_compatible a b = compat_matrix a b.
Proof. by destruct a, b. Qed.

Lemma is_compatible_sym a b : is_compatible a b = is_compatible b a.
Proof. rewrite !is_compatible_matrix. by destruct a, b. Qed.

(* ------------------------------------------------------------------ *)
(** ** Queues                                                           *)
(* ------------------------------------------------------------------ *)

Record queue_ok (l : list LockRequest) : Prop := {
  q_nodup : NoDup (req_txn <$> l);
  q_granted r : r ∈ l → granted r = true;
  q_compat r1 r2 : r1 ∈ l → r2 ∈ l → req_txn r1 ≠ req_txn r2 →
    is_compatible (req_mode r1) (req_mode r2) = true
}.

Lemma req_txn_inj l r1 r2 : NoDup (req_txn <$> l) → r1 ∈ l → r2 ∈ l → req_txn r1 = req_txn r2 → r1 = r2.
Proof.
  intros Hnd (i & Hi)%list_elem_of_lookup (j & Hj)%list_elem_of_lookup E.
  assert (i = j) as ->; [|congruence].
  eapply (NoDup_lookup (req_txn <$> l)); [done| |]; rewrite list_lookup_fmap; [by rewrite Hi|by rewrite Hj, E].
Qed.

Lemma find_request_Some t l r : find_request t l = Some r → r ∈ l ∧ req_txn r = t.
Proof.
  unfold find_request. destruct (filter _ l) as [|x k] eqn:E; [done|]. intros [= ->].
  assert (r ∈ filter (λ r, req_txn r = t) l) as Hin by (rewrite E; constructor).
  apply list_elem_of_filter in Hin. naive_solver.
Qed.

Lemma find_request_None t l : find_request t l = None → ∀ r, r ∈ l → req_txn r ≠ t.
Proof.
  unfold find_request. destruct (filter _ l) as [|x k] eqn:E; [|done]. intros _ r Hr Ht.
  assert (r ∈ filter (λ r, req_txn r = t) l) as Hin by (by apply list_elem_of_filter).
  rewrite E in Hin. by apply elem_of_nil in Hin.
Qed.

Lemma erase_request_filter t l : NoDup (req_txn <$> l) → erase_request t l = filter (λ r, req_txn r ≠ t) l.
Proof.
  induction l as [|q l IH]; intros Hnd; [done|]. rewrite fmap_cons in Hnd. apply NoDup_cons in Hnd as [Hq Hnd].
  simpl. rewrite filter_cons. destruct (Z.eqb_spec (req_txn q) t) as [E|E].
  - rewrite decide_False by naive_solver. symmetry. apply filter_all. intros r Hr Ht. apply Hq.
    rewrite E, <- Ht. by apply list_elem_of_fmap_2.
  - rewrite decide_True by done. by rewrite IH.
Qed.

Lemma replace_request_elem t r l x : NoDup (req_txn <$> l) → req_txn r = t →
  (∃ y, y ∈ l ∧ req_txn y = t) →
  x ∈ replace_request t r l ↔ x = r ∨ (x ∈ l ∧ req_txn x ≠ t).
Proof.
  intros Hnd Hr. induction l as [|q l IH]; intros (y & Hy & Hyt); [by apply elem_of_nil in Hy|].
  rewrite fmap_cons in Hnd. apply NoDup_cons in Hnd as [Hq Hnd]. simpl.
  destruct (Z.eqb_spec (req_txn q) t) as [E|E].
  - rewrite !elem_of_cons. split; [|naive_solver]. intros [->|Hx]; [by left|]. right. split; [by right|].
    intros Hxt. apply Hq. rewrite E, <- Hxt. by apply list_elem_of_fmap_2.
  - rewrite !elem_of_cons. apply elem_of_cons in Hy as [->|Hy]; [done|]. rewrite IH by eauto. naive_solver.
Qed.

Lemma replace_request_txns t r l : req_txn r = t → req_txn <$> replace_request t r l = req_txn <$> l.
Proof.
  intros Hr. induction l as [|q l IH]; [done|]. cbn [replace_request].
  destruct (Z.eqb_spec (req_txn q) t) as [E|E]; rewrite !fmap_cons; [by rewrite Hr, E|by rewrite IH].
Qed.

(** Adding or replacing the request of a transaction that is compatible with
    every other one. *)
Definition place (t : Z) (m : LockMode) (l : list LockRequest) : list LockRequest :=
  match find_request t l with
  | Some _ => replace_request t (mkReq t m true) l
  | None => l ++ [mkReq t m true]
  end.

Lemma place_elem t m l x : NoDup (req_txn <$> l) →
  x ∈ place t m l ↔ x = mkReq t m true ∨ (x ∈ l ∧ req_txn x ≠ t).
Proof.
  intros Hnd. unfold place. destruct (find_request t l) as [r|] eqn:E.
  - apply find_request_Some in E. apply replace_request_elem; naive_solver.
  - rewrite elem_of_app, list_elem_of_singleton. pose proof (find_request_None t l E). naive_solver.
Qed.

Lemma place_ok t m l : queue_ok l →
  (∀ r, r ∈ l → req_txn r ≠ t → is_compatible (req_mode r) m = true) → queue_ok (place t m l).
Proof.
  intros [Hnd Hg Hc] Hm. split.
  - unfold place. destruct (find_request t l) as [r|] eqn:E; [by rewrite replace_request_txns|].
    rewrite fmap_app. apply NoDup_app. split_and!; [done| |apply NoDup_singleton].
    intros x (r & -> & Hr)%list_elem_of_fmap. simpl. rewrite list_elem_of_singleton.
    by apply (find_request_None t l).
  - intros r Hr. apply place_elem in Hr; [|done]. destruct Hr as [->|[Hr _]]; [done|by apply Hg].
  - intros r1 r2 H1 H2 Hne. apply place_elem in H1; [|done]. apply place_elem in H2; [|done].
    destruct H1 as [->|[H1 H1t]], H2 as [->|[H2 H2t]]; simpl in *; [done| |by apply Hm|by apply Hc].
    rewrite is_compatible_sym. by apply Hm.
Qed.

Lemma filter_ok t l : queue_ok l → queue_ok (filter (λ r, req_txn r ≠ t) l).
Proof.
  intros [Hnd Hg Hc]. split.
  - clear Hg Hc. induction l as [|q l IH]; [done|]. rewrite fmap_cons in Hnd. apply NoDup_cons in Hnd as [Hq Hnd].
    rewrite filter_cons. case_decide; [|auto]. rewrite fmap_cons. apply NoDup_cons. split; [|auto].
    intros (r & E & Hr)%list_elem_of_fmap. apply list_elem_of_filter in Hr as [_ Hr].
    apply Hq. rewrite E. by apply list_elem_of_fmap_2.
  - intros r Hr. apply list_elem_of_filter in Hr as [_ Hr]. auto.
  - intros r1 r2 [_ H1]%list_elem_of_filter [_ H2]%list_elem_of_filter. auto.
Qed.

(* ------------------------------------------------------------------ *)
(** ** Invariant of the lock table and the transactions                 *)
(* ------------------------------------------------------------------ *)

Record lt_inv (lt : lock_table) : Prop := {
  lt_queue id q : lt !! id = Some q → queue_ok (request_queue q);
  lt_nonempty id q : lt !! id = Some q → request_queue q ≠ [];
  lt_group id q : lt !! id = Some q → q = refresh_group_lock_mode (request_queue q)
}.

Definition holds_lock (lt : lock_table) (id : LockDataId) (t : Z) (m : LockMode) : Prop :=
  mkReq t m true ∈ queue_of id lt.

Lemma queue_of_ok lt id : lt_inv lt → queue_ok (queue_of id lt).
Proof.
  intros Hi. unfold queue_of. destruct (lt !! id) as [q|] eqn:E; [by eapply lt_queue|].
  split; [constructor|set_solver..].
Qed.

Lemma holds_in lt id r : lt_inv lt → r ∈ queue_of id lt → holds_lock lt id (req_txn r) (req_mode r).
Proof.
  intros Hi Hr. unfold holds_lock. replace (mkReq _ _ _) with r; [done|].
  destruct r as [t m g]. simpl. f_equal. by apply (q_granted _ (queue_of_ok lt id Hi) (mkReq t m g)).
Qed.

Lemma put_queue_inv lt id l : lt_inv lt → queue_ok l → l ≠ [] →
  lt_inv (<[id := refresh_group_lock_mode l]> lt).
Proof.
  intros Hi Hl Hne. split; intros id' q; rewrite lookup_insert_Some; intros [[<- <-]|[Hid Hq]]; try done;
    by eapply Hi.
Qed.

Lemma queue_of_put lt id l id' :
  queue_of id' (<[id := refresh_group_lock_mode l]> lt) = if decide (id' = id) then l else queue_of id' lt.
Proof. unfold queue_of. rewrite lookup_insert. repeat case_decide; naive_solver. Qed.

Lemma queue_of_delete (lt : lock_table) id id' :
  queue_of id' (delete id lt) = if decide (id' = id) then [] else queue_of id' lt.
Proof. unfold queue_of. rewrite lookup_delete. repeat case_decide; naive_solver. Qed.

(** What lock does, on every branch. *)
Lemma lock_spec t id m lt r t' lt' :
  lt_inv lt → lock (Some t) id m lt = (r, (Some t', lt')) →
  match r with
  | Ret b => b = true ∧ txn_state t ≠ SHRINKING ∧ lt_inv lt' ∧
      t' = set_lock_set ({[id]} ∪ lock_set t) t ∧
      (∃ m', holds_lock lt' id (txn_id t) m' ∧ covers m' m = true) ∧
      (∀ id' t1 m1, t1 ≠ txn_id t ∨ id' ≠ id → holds_lock lt' id' t1 m1 ↔ holds_lock lt id' t1 m1) ∧
      (∀ t1 m1, t1 ≠ txn_id t → holds_lock lt id t1 m1 →
         ∃ m', holds_lock lt' id (txn_id t) m' ∧ is_compatible m1 m' = true)
  | Throw e => t' = t ∧ lt' = lt ∧
      ((txn_state t = SHRINKING ∧ e = TransactionAbort (txn_id t) LOCK_ON_SHIRINKING) ∨
       (e = TransactionAbort (txn_id t) DEADLOCK_PREVENTION ∧
        ∃ t1 m1, t1 ≠ txn_id t ∧ holds_lock lt id t1 m1 ∧ is_compatible m1 m = false))
  end.
Proof.
  intros Hi E. unfold lock in E. case_bool_decide as Hs; [inv E; auto|].
  pose proof (queue_of_ok lt id Hi) as Hq.
  assert (queue_of id (match lt !! id with Some _ => lt | None => <[id := mkQueue [] NON_LOCK]> lt end) =
          queue_of id lt) as Equ.
  { destruct (lt !! id) eqn:El; [done|]. unfold queue_of. by rewrite lookup_insert_eq, El. }
  rewrite Equ in E. set (l := queue_of id lt) in *. set (tid := txn_id t) in *.
  destruct (match find_request tid l with Some r => granted r && covers (req_mode r) m | None => false end) eqn:Ex.
  { (* already covered *)
    destruct (find_request tid l) as [q|] eqn:Ef; [|done]. bool_prop. apply find_request_Some in Ef as [Hq1 Hq2].
    assert (is_Some (lt !! id)) as [q0 El].
    { unfold l, queue_of in Hq1. destruct (lt !! id); [eauto|]. by apply elem_of_nil in Hq1. }
    rewrite El in E. injection E as <- <- <-. pose proof (holds_in lt id q Hi Hq1) as Hh. rewrite Hq2 in Hh.
    split_and!; try done; [by exists (req_mode q)|].
    intros t1 m1 Ht1 H1. exists (req_mode q). split; [done|].
    apply (q_compat _ Hq (mkReq t1 m1 true) q H1 Hq1). simpl. congruence. }
  destruct (existsb _ l) eqn:Eb.
  { injection E as <- <- <-. apply existsb_exists in Eb as (q & Hq1 & Hb). bool_prop. apply list_elem_of_In in Hq1.
    pose proof (holds_in lt id q Hi Hq1) as Hh.
    assert (is_Some (lt !! id)) as [q0 El].
    { unfold l, queue_of in Hq1. destruct (lt !! id); [eauto|]. by apply elem_of_nil in Hq1. }
    rewrite El. split_and!; [done|done|]. right. split; [done|]. exists (req_txn q), (req_mode q). done. }
  change (match find_request tid l with
          | Some _ => replace_request tid {| req_txn := tid; req_mode := m; granted := true |} l
          | None => l ++ [{| req_txn := tid; req_mode := m; granted := true |}] end) with (place tid m l) in E.
  assert (∀ r, r ∈ l → req_txn r ≠ tid → is_compatible (req_mode r) m = true) as Hc.
  { intros q Hq1 Hq2. destruct (is_compatible (req_mode q) m) eqn:Ec; [done|]. exfalso.
    apply not_true_iff_false in Eb. apply Eb, existsb_exists. exists q. split; [by apply list_elem_of_In|].
    rewrite (q_granted _ Hq q Hq1), Ec. destruct (Z.eqb_spec (req_txn q) tid); done. }
  assert (lt' = <[id := refresh_group_lock_mode (place tid m l)]> lt) as ->.
  { injection E as _ _ <-. destruct (lt !! id); [done|]. by rewrite insert_insert_eq. }
  assert (mkReq tid m true ∈ place tid m l) as Hin by (apply place_elem; [apply Hq|by left]).
  assert (place tid m l ≠ []) as Hne by (intros En; rewrite En in Hin; by apply elem_of_nil in Hin).
  injection E as <- <- _. unfold holds_lock. split_and!; try done.
  - apply put_queue_inv; [done|by apply place_ok|done].
  - exists m. rewrite queue_of_put, decide_True by done. split; [done|]. unfold covers, mode_eqb.
    by rewrite bool_decide_eq_true_2.
  - intros id' t1 m1 Hor. rewrite queue_of_put. case_decide as Eid; [|done]. subst id'.
    fold l. rewrite place_elem by apply Hq. simpl. naive_solver.
  - intros t1 m1 Ht1 H1. exists m. rewrite queue_of_put, decide_True by done. split; [done|].
    by apply (Hc (mkReq t1 m1 true)).
Qed.

Lemma unlock_spec t id lt b t' lt' :
  lt_inv lt → unlock (Some t) id lt = (b, (Some t', lt')) →
  lt_inv lt' ∧ txn_id t' = txn_id t ∧
  (∀ id' t1 m1, holds_lock lt' id' t1 m1 ↔ holds_lock lt id' t1 m1 ∧ ¬ (id' = id ∧ t1 = txn_id t)) ∧
  ((t' = t ∧ lt' = lt) ∨
   (lock_set t' = lock_set t ∖ {[id]} ∧ write_set t' = write_set t ∧
    txn_state t' = if bool_decide (txn_state t = GROWING) then SHRINKING else txn_state t)).
Proof.
  intros Hi E. unfold unlock in E. unfold holds_lock. destruct (lt !! id) as [q|] eqn:El.
  2:{ injection E as <- <- <-. split_and!; try done; [|by left]. intros id' t1 m1. split; [|naive_solver].
      intros Hh. split; [done|]. intros [-> _]. unfold queue_of in Hh. rewrite El in Hh. by apply elem_of_nil in Hh. }
  assert (queue_of id lt = request_queue q) as Eq by (unfold queue_of; by rewrite El).
  pose proof (queue_of_ok lt id Hi) as Hq. rewrite Eq in Hq.
  destruct (find_request (txn_id t) (request_queue q)) as [r|] eqn:Ef.
  2:{ injection E as <- <- <-. split_and!; try done; [|by left]. intros id' t1 m1. split; [|naive_solver].
      intros Hh. split; [done|]. intros [-> ->]. rewrite Eq in Hh. by apply (find_request_None _ _ Ef) in Hh. }
  rewrite erase_request_filter in E by apply Hq. set (l := filter _ (request_queue q)) in *.
  pose proof (filter_ok (txn_id t) _ Hq) as Hl. fold l in Hl.
  assert (lt_inv lt' ∧ ∀ id', queue_of id' lt' = if decide (id' = id) then l else queue_of id' lt) as [Hi' Hqs].
  { destruct l as [|x k] eqn:Ell; injection E as _ _ <-.
    - split; [|intros; by rewrite queue_of_delete].
      split; intros id' q'; rewrite lookup_delete_Some; intros [Hne Hq']; by eapply Hi.
    - split; [by apply put_queue_inv|]. intros. by rewrite queue_of_put. }
  split; [done|]. split; [destruct l; injection E as _ <- _; by destruct (bool_decide _)|]. split.
  - intros id' t1 m1. rewrite Hqs. destruct (decide (id' = id)) as [->|Hne].
    2:{ split; [|by intros [? _]]. intros Hx. split; [done|]. by intros [? _]. }
    rewrite Eq. unfold l.
    rewrite list_elem_of_filter. simpl. split; [intros [Ha Hb]|intros [Ha Hb]].
    + split; [done|]. by intros [_ ?].
    + split; [|done]. intros ->. by apply Hb.
  - right. destruct l; injection E as _ <- _; by destruct (bool_decide _).
Qed.

Lemma unlock_some t id lt : ∃ b t' lt', unlock (Some t) id lt = (b, (Some t', lt')).
Proof. unfold unlock. repeat case_match; eauto. Qed.

Lemma unlock_all_spec ids t lt t' lt' :
  lt_inv lt → unlock_all ids t lt = (t', lt') →
  lt_inv lt' ∧ txn_id t' = txn_id t ∧ (txn_state t' = txn_state t ∨ txn_state t' = SHRINKING) ∧
  (∀ id t1 m1, holds_lock lt' id t1 m1 ↔ holds_lock lt id t1 m1 ∧ ¬ (id ∈ ids ∧ t1 = txn_id t)).
Proof.
  revert t lt. induction ids as [|id ids IH]; intros t lt Hi E; cbn [unlock_all] in E.
  { injection E as <- <-. split_and!; [done|done|by left|]. intros. rewrite elem_of_nil. naive_solver. }
  destruct (unlock_some t id lt) as (b & t1 & lt1 & Eu). rewrite Eu in E.
  apply unlock_spec in Eu as (Hi1 & Ht1 & Hh1 & Hst); [|done].
  apply IH in E as (Hi2 & Ht2 & Hs2 & Hh2); [|done]. split; [done|]. split; [congruence|]. split.
  - destruct Hst as [[-> _]|(_ & _ & Hst)]; [done|]. rewrite Hst in Hs2. case_bool_decide; naive_solver.
  - intros id' t2 m2. rewrite Hh2, Hh1, elem_of_cons, Ht1. naive_solver.
Qed.

(* ------------------------------------------------------------------ *)
(** ** Interleavings of transactions                                    *)
(* ------------------------------------------------------------------ *)

Record lm_sys := mkSys { txns : gmap Z Transaction; locks : lock_table }.

Definition finish (s : TransactionState) (t : Transaction) (lt : lock_table) : Transaction * lock_table :=
  let '(t', lt') := release_locks t lt in (set_state s t', lt').

(** One call by one transaction: begin, a lock request (granted or refused),
    an unlock, or the release of all locks at commit or abort. *)
Inductive lm_step : lm_sys → lm_sys → Prop :=
  | lm_begin ts lt i :
      ts !! i = None →
      lm_step (mkSys ts lt) (mkSys (<[i := set_state GROWING (new_transaction i)]> ts) lt)
  | lm_lock ts lt i t id m r t' lt' :
      ts !! i = Some t → lock (Some t) id m lt = (r, (Some t', lt')) →
      lm_step (mkSys ts lt) (mkSys (<[i := t']> ts) lt')
  | lm_unlock ts lt i t id b t' lt' :
      ts !! i = Some t → unlock (Some t) id lt = (b, (Some t', lt')) →
      lm_step (mkSys ts lt) (mkSys (<[i := t']> ts) lt')
  | lm_end ts lt i t s t' lt' :
      ts !! i = Some t → s = COMMITTED ∨ s = ABORTED → finish s t lt = (t', lt') →
      lm_step (mkSys ts lt) (mkSys (<[i := t']> ts) lt').

Record sys_inv (s : lm_sys) : Prop := {
  s_table : lt_inv (locks s);
  s_id i t : txns s !! i = Some t → txn_id t = i;
  s_held i m id : holds_lock (locks s) id i m → ∃ t, txns s !! i = Some t ∧ id ∈ lock_set t
}.

Definition sys_init : lm_sys := mkSys ∅ ∅.

Lemma sys_init_inv : sys_inv sys_init.
Proof.
  split; [split|..]; try done. intros i m id Hh. unfold holds_lock, queue_of in Hh. simpl in Hh.
  by apply elem_of_nil in Hh.
Qed.

Lemma lock_some t id m lt : ∃ r t' lt', lock (Some t) id m lt = (r, (Some t', lt')).
Proof. unfold lock. repeat case_match; eauto. Qed.

Lemma lm_step_inv s s' : lm_step s s' → sys_inv s → sys_inv s'.
Proof.
  intros Hs [Hi Hid Hh]. destruct Hs as [ts lt i Hi0|ts lt i t id m r t' lt' Ht E|ts lt i t id b t' lt' Ht E|
    ts lt i t st t' lt' Ht Hst E]; simpl in *.
  - split; simpl; [done| |].
    + intros j x. rewrite lookup_insert_Some. intros [[<- <-]|[_ Hx]]; [done|by apply Hid].
    + intros j m id Hj. destruct (Hh j m id Hj) as (x & Hx & Hin). exists x. split; [|done].
      rewrite lookup_insert_ne; [done|]. intros ->. congruence.
  - pose proof (Hid i t Ht) as Htid. apply lock_spec in E; [|done]. destruct r as [b|e].
    + destruct E as (_ & _ & Hi' & -> & _ & Hoth & _). split; simpl; [done| |].
      * intros j x. rewrite lookup_insert_Some. intros [[<- <-]|[_ Hx]]; [done|by apply Hid].
      * intros j m' id' Hj. destruct (decide (j = i)) as [->|Hne].
        -- eexists. split; [by rewrite lookup_insert_eq|]. simpl.
           destruct (decide (id' = id)) as [->|]; [set_solver|]. apply Hoth in Hj; [|by right].
           destruct (Hh i m' id' Hj) as (x & Hx & Hin). assert (x = t) as -> by congruence. set_solver.
        -- apply Hoth in Hj; [|left; by rewrite Htid]. rewrite lookup_insert_ne by done. by eapply Hh.
    + destruct E as (-> & -> & _). split; simpl; [done| |].
      * intros j x. rewrite lookup_insert_Some. intros [[<- <-]|[_ Hx]]; [done|by apply Hid].
      * intros j m' id' Hj. rewrite insert_id by done. by eapply Hh.
  - pose proof (Hid i t Ht) as Htid. apply unlock_spec in E as (Hi' & Ht' & Hoth & Hor); [|done].
    split; simpl; [done| |].
    + intros j x. rewrite lookup_insert_Some. intros [[<- <-]|[_ Hx]]; [by rewrite Ht'|by apply Hid].
    + intros j m' id' Hj. apply Hoth in Hj as [Hj Hnot]. destruct (Hh j m' id' Hj) as (x & Hx & Hin).
      destruct (decide (j = i)) as [->|Hne]; [|rewrite lookup_insert_ne by done; eauto].
      assert (x = t) as -> by congruence. exists t'. split; [by rewrite lookup_insert_eq|].
      destruct Hor as [[-> _]|(-> & _)]; [done|]. apply elem_of_difference. split; [done|].
      rewrite elem_of_singleton. rewrite Htid in Hnot. naive_solver.
  - pose proof (Hid i t Ht) as Htid. unfold finish, release_locks in E.
    destruct (unlock_all _ t lt) as [t1 lt1] eqn:Eu. injection E as <- <-.
    apply unlock_all_spec in Eu as (Hi' & Ht' & _ & Hoth); [|done].
    split; simpl; [done| |].
    + intros j x. rewrite lookup_insert_Some. intros [[<- <-]|[_ Hx]]; [by rewrite <- Htid|by apply Hid].
    + intros j m' id' Hj. apply Hoth in Hj as [Hj Hnot]. destruct (Hh j m' id' Hj) as (x & Hx & Hin).
      destruct (decide (j = i)) as [->|Hne]; [|rewrite lookup_insert_ne by done; eauto].
      assert (x = t) as -> by congruence. exfalso. apply Hnot. rewrite elem_of_elements. by rewrite Htid.
Qed.

Definition reachable (s : lm_sys) : Prop := rtc lm_step sys_init s.

Lemma reachable_inv s : reachable s → sys_inv s.
Proof.
  intros Hr. unfold reachable in Hr. pose proof sys_init_inv as Hi. remember sys_init as s0. clear Heqs0.
  induction Hr; eauto using lm_step_inv.
Qed.

(* ------------------------------------------------------------------ *)
(** ** Properties                                                       *)
(* ------------------------------------------------------------------ *)

(** C13: in every reachable state, two different transactions that hold locks on
    the same table or record hold compatible modes; in particular a holder of
    an exclusive lock is alone. *)
Theorem lock_mutual_exclusion s id t1 m1 t2 m2 (Hr : reachable s) (Hne : t1 ≠ t2)
    (H1 : holds_lock (locks s) id t1 m1) (H2 : holds_lock (locks s) id t2 m2) :
  compat_matrix m1 m2 = true ∧ m1 ≠ EXLUCSIVE ∧ m2 ≠ EXLUCSIVE.
Proof.
  apply reachable_inv in Hr as [Hi _ _]. pose proof (queue_of_ok _ id Hi) as Hq.
  rewrite <- is_compatible_matrix. pose proof (q_compat _ Hq _ _ H1 H2 Hne) as Hc. simpl in Hc.
  split; [done|]. rewrite is_compatible_matrix in Hc. by destruct m1, m2.
Qed.

(** C30: two-phase locking.  Once a transaction is SHRINKING, no step gives it a
    lock: until it ends its lock set can only lose elements, and every lock
    request it makes is refused without changing anything. *)
Theorem two_phase s s' i t t' (Hr : reachable s) (Hs : lm_step s s') (Ht : txns s !! i = Some t)
    (Hsh : txn_state t = SHRINKING) (Ht' : txns s' !! i = Some t') :
  lock_set t' ⊆ lock_set t ∧
  (txn_state t' = SHRINKING ∨ (txn_state t' ∈ [COMMITTED; ABORTED] ∧ lock_set t' = ∅)) ∧
  ∀ id m, lock (Some t) id m (locks s) =
    (Throw (TransactionAbort i LOCK_ON_SHIRINKING), (Some t, locks s)).
Proof.
  apply reachable_inv in Hr as [Hi Hid _]. pose proof (Hid i t Ht) as Htid. apply (proj1 (Logic.and_assoc _ _ _)). split.
  2:{ intros id m. unfold lock. by rewrite bool_decide_eq_true_2, Htid. }
  destruct Hs as [ts lt j Hj|ts lt j x id m r x' lt' Hx E|ts lt j x id b x' lt' Hx E|
    ts lt j x st x' lt' Hx Hst E]; simpl in *; apply lookup_insert_Some in Ht' as [[<- <-]|[_ Ht']];
    try (assert (t' = t) as -> by congruence; by split; [|left]); [congruence|..];
    assert (x = t) as -> by congruence.
  - apply lock_spec in E; [|done]. destruct r as [b|e]; [naive_solver|].
    destruct E as (-> & _). by split; [|left].
  - apply unlock_spec in E as (_ & _ & _ & [[-> _]|(-> & _ & ->)]); [by split; [|left]| |done].
    rewrite Hsh. simpl. split; [set_solver|by left].
  - unfold finish, release_locks in E. destruct (unlock_all _ t lt) as [t1 lt1]. injection E as <- <-. simpl.
    split; [set_solver|]. right. split; [|done]. destruct Hst as [-> | ->]; set_solver.
Qed.

(** C31: after a transaction commits or aborts, it holds no lock on anything and
    the locks of all other transactions are untouched. *)
Theorem finish_releases_all s i t st t' lt' (Hr : reachable s) (Ht : txns s !! i = Some t)
    (E : finish st t (locks s) = (t', lt')) :
  txn_state t' = st ∧ lock_set t' = ∅ ∧
  ∀ id j m, holds_lock lt' id j m ↔ holds_lock (locks s) id j m ∧ j ≠ i.
Proof.
  apply reachable_inv in Hr as [Hi Hid Hh]. pose proof (Hid i t Ht) as Htid. unfold finish, release_locks in E.
  destruct (unlock_all _ t (locks s)) as [t1 lt1] eqn:Eu. injection E as <- <-.
  apply unlock_all_spec in Eu as (_ & _ & _ & Hoth); [|done]. split_and!; [done|done|].
  intros id j m. rewrite Hoth, elem_of_elements, Htid. split; [|naive_solver].
  intros [Hj Hn]. split; [done|]. intros ->. apply Hn. split; [|done].
  destruct (Hh i m id Hj) as (x & Hx & Hin). by assert (x = t) as <- by congruence.
Qed.

(** Lock under the no-wait policy.  It returns only after granting a lock that
    covers the request, refuses with DEADLOCK_PREVENTION only when another
    transaction holds an incompatible mode, and a refusal changes nothing. *)
Theorem lock_no_wait s i t id m r t' lt' (Hr : reachable s) (Ht : txns s !! i = Some t)
    (E : lock (Some t) id m (locks s) = (r, (Some t', lt'))) :
  match r with
  | Ret b => b = true ∧ id ∈ lock_set t' ∧ ∃ m', holds_lock lt' id i m' ∧ covers m' m = true
  | Throw e => t' = t ∧ lt' = locks s ∧
      (e = TransactionAbort i DEADLOCK_PREVENTION →
       ∃ j m', j ≠ i ∧ holds_lock (locks s) id j m' ∧ compat_matrix m' m = false)
  end.
Proof.
  apply reachable_inv in Hr as [Hi Hid _]. pose proof (Hid i t Ht) as Htid. apply lock_spec in E; [|done].
  rewrite Htid in E. destruct r as [b|e].
  - destruct E as (-> & _ & _ & -> & Hm & _). split_and!; [done|set_solver|done].
  - destruct E as (-> & -> & [(_ & ->)|(-> & j & m' & Hj & Hh & Hc)]); split_and!; try done.
    intros _. exists j, m'. by rewrite <- is_compatible_matrix.
Qed.

(** The mode a transaction holds is replaced, not joined, when it asks for
    another one: a transaction with IX that asks for S holds S afterwards, and
    another transaction can then take S on the same table. *)
Lemma conversion_loses_intent :
  let t1 := set_state GROWING (new_transaction 1) in
  let t2 := set_state GROWING (new_transaction 2) in
  let tab := lock_table_id 5 in
  match lock (Some t1) tab INTENTION_EXCLUSIVE ∅ with
  | (_, (Some t1', lt1)) =>
      match lock (Some t1') tab SHARED lt1 with
      | (r2, (_, lt2)) => r2 = Ret true ∧ holds_lock lt2 tab 1 SHARED ∧
          ¬ holds_lock lt2 tab 1 INTENTION_EXCLUSIVE ∧ ¬ holds_lock lt2 tab 1 S_IX ∧
          fst (lock (Some t2) tab SHARED lt2) = Ret true
      end
  | _ => False
  end.
Proof.
  vm_compute. split_and!; try done; [constructor| |];
    intros Hin; apply elem_of_cons in Hin as [Hin|Hin]; try done; by apply elem_of_nil in Hin.
Qed.

(* ------------------------------------------------------------------ *)
(** ** Witnesses                                                        *)
(* ------------------------------------------------------------------ *)

Module LockWitness.

Definition do_begin (i : Z) (s : lm_sys) : lm_sys :=
  mkSys (<[i := set_state GROWING (new_transaction i)]> (txns s)) (locks s).

Definition do_lock (i : Z) (id : LockDataId) (m : LockMode) (s : lm_sys) : lm_sys :=
  match txns s !! i with
  | Some t => match lock (Some t) id m (locks s) with
              | (_, (Some t', lt')) => mkSys (<[i := t']> (txns s)) lt'
              | _ => s
              end
  | None => s
  end.

Definition do_unlock (i : Z) (id : LockDataId) (s : lm_sys) : lm_sys :=
  match txns s !! i with
  | Some t => match unlock (Some t) id (locks s) with
              | (_, (Some t', lt')) => mkSys (<[i := t']> (txns s)) lt'
              | _ => s
              end
  | None => s
  end.

Lemma do_begin_reachable i s : txns s !! i = None → reachable s → reachable (do_begin i s).
Proof. intros Hi Hr. eapply rtc_r; [exact Hr|]. destruct s. by constructor. Qed.

Lemma do_lock_reachable i id m s : reachable s → reachable (do_lock i id m s).
Proof.
  intros Hr. unfold do_lock. destruct (txns s !! i) as [t|] eqn:Ht; [|done].
  destruct (lock_some t id m (locks s)) as (r & t' & lt' & E). rewrite E. eapply rtc_r; [exact Hr|].
  destruct s. by eapply lm_lock.
Qed.

Lemma do_unlock_step i id s t : txns s !! i = Some t → lm_step s (do_unlock i id s).
Proof.
  intros Ht. unfold do_unlock. rewrite Ht. destruct (unlock_some t id (locks s)) as (r & t' & lt' & E). rewrite E.
  destruct s. by eapply lm_unlock.
Qed.

Definition tab : LockDataId := lock_table_id 5.
Definition row : LockDataId := lock_record_id 5 (mkRid 1 2).

(** Transaction 1 holds S on the table and X on a row of another one,
    transaction 2 holds IS on the table. *)
Definition s1 : lm_sys := do_begin 2 (do_begin 1 sys_init).
Definition s2 : lm_sys := do_lock 2 tab INTENTION_SHARED (do_lock 1 row EXLUCSIVE (do_lock 1 tab SHARED s1)).
Definition s3 : lm_sys := do_unlock 1 row s2.
Definition txn_of (i : Z) (s : lm_sys) : Transaction := default (new_transaction i) (txns s !! i).

Lemma s2_reachable : reachable s2.
Proof.
  unfold s2, s1. do 3 apply do_lock_reachable. apply do_begin_reachable; [by vm_compute|].
  apply do_begin_reachable; [by vm_compute|]. apply rtc_refl.
Qed.

Lemma s3_reachable : reachable s3.
Proof. eapply rtc_r; [exact s2_reachable|]. apply (do_unlock_step 1 row s2 (txn_of 1 s2)). by vm_compute. Qed.

Lemma lock_mutual_exclusion_witness :
  holds_lock (locks s2) tab 1 SHARED ∧ holds_lock (locks s2) tab 2 INTENTION_SHARED ∧
  compat_matrix SHARED INTENTION_SHARED = true.
Proof.
  assert (holds_lock (locks s2) tab 1 SHARED) as H1 by (vm_compute; constructor).
  assert (holds_lock (locks s2) tab 2 INTENTION_SHARED) as H2 by (vm_compute; constructor; constructor).
  split; [exact H1|]. split; [exact H2|].
  refine (proj1 (lock_mutual_exclusion s2 tab 1 SHARED 2 INTENTION_SHARED s2_reachable _ H1 H2)). lia.
Defined.

Lemma two_phase_witness :
  txn_state (txn_of 1 s3) = SHRINKING ∧ lock_set (txn_of 1 (do_unlock 1 tab s3)) ⊆ lock_set (txn_of 1 s3).
Proof.
  split; [by vm_compute|].
  refine (proj1 (two_phase s3 (do_unlock 1 tab s3) 1 (txn_of 1 s3) (txn_of 1 (do_unlock 1 tab s3)) s3_reachable
    _ _ _ _)); [|by vm_compute..].
  apply (do_unlock_step 1 tab s3 (txn_of 1 s3)). by vm_compute.
Defined.

Lemma finish_releases_all_witness :
  lock_set (fst (finish COMMITTED (txn_of 1 s2) (locks s2))) = ∅ ∧
  lock_set (txn_of 1 s2) ≠ ∅.
Proof.
  split; [|intros E; assert (tab ∈ lock_set (txn_of 1 s2)) as Hin
            by (apply elem_of_elements; vm_compute; repeat constructor);
          rewrite E in Hin; by apply elem_of_empty in Hin].
  refine (proj1 (proj2 (finish_releases_all s2 1 (txn_of 1 s2) COMMITTED _
    (snd (finish COMMITTED (txn_of 1 s2) (locks s2))) s2_reachable _ _))); [by vm_compute|].
  apply surjective_pairing.
Defined.

Lemma lock_no_wait_witness :
  fst (lock (Some (txn_of 2 s2)) tab INTENTION_EXCLUSIVE (locks s2)) =
    Throw (TransactionAbort 2 DEADLOCK_PREVENTION) ∧
  ∃ j m', j ≠ 2 ∧ holds_lock (locks s2) tab j m' ∧ compat_matrix m' INTENTION_EXCLUSIVE = false.
Proof.
  split; [by vm_compute|].
  refine (proj2 (proj2 (lock_no_wait s2 2 (txn_of 2 s2) tab INTENTION_EXCLUSIVE
    (Throw (TransactionAbort 2 DEADLOCK_PREVENTION)) (txn_of 2 s2) (locks s2) s2_reachable _ _)) eq_refl);
    by vm_compute.
Defined.

End LockWitness.
