(* ===== verification/LogRecord.v ===== *)
(** * Log records (src/src/recovery/log_defs.h, log_manager.h, and
      parse_log_record and read_all_logs of log_recovery.cpp)

    The record classes, their binary form and its parser.  The common header is
    the record [LogRecord]; the subclass is [log_body], from which log_type_
    follows.  Records of the record manager are their bytes, so
    RmRecord::size is a length. *)

From S2P Require Import Prelude Defs.

Inductive LogType := UPDATE | INSERT | DELETE | begin | commit | ABORT.
#[export] Instance LogType_eq_dec : EqDecision LogType.
Proof. solve_decision. Defined.

Definition logtype_code (t : LogType) : Z :=
  match t with UPDATE => 0 | INSERT => 1 | DELETE => 2 | begin => 3 | commit => 4 | ABORT => 5 end.

(** log_defs.h *)
Definition OFFSET_LOG_TYPE : nat := 0.
Definition OFFSET_LSN : nat := 4.
Definition OFFSET_LOG_TOT_LEN : nat := OFFSET_LSN + 4.
Definition OFFSET_LOG_TID : nat := OFFSET_LOG_TOT_LEN + 4.
Definition OFFSET_PREV_LSN : nat := OFFSET_LOG_TID + 4.
Definition OFFSET_LOG_DATA : nat := OFFSET_PREV_LSN + 4.
Definition LOG_HEADER_SIZE : Z := Z.of_nat OFFSET_LOG_DATA.

Inductive log_body :=
  | UpdateLogRecord (old_value new_value : list Z) (rid : Rid) (table_name : list Z)
  | InsertLogRecord (insert_value : list Z) (rid : Rid) (table_name : list Z)
  | DeleteLogRecord (delete_value : list Z) (rid : Rid) (table_name : list Z)
  | BeginLogRecord
  | CommitLogRecord
  | AbortLogRecord.

Record LogRecord := mkLog {
  lsn : Z;
  log_tot_len : Z;
  log_tid : Z;
  log_prev_lsn : Z;
  body : log_body
}.

Definition log_type (r : LogRecord) : LogType :=
  match body r with
  | UpdateLogRecord _ _ _ _ => UPDATE | InsertLogRecord _ _ _ => INSERT | DeleteLogRecord _ _ _ => DELETE
  | BeginLogRecord => begin | CommitLogRecord => commit | AbortLogRecord => ABORT
  end.

Definition set_lsn (l : Z) (r : LogRecord) : LogRecord :=
  mkLog l (log_tot_len r) (log_tid r) (log_prev_lsn r) (body r).
Definition set_log_prev (l : Z) (r : LogRecord) : LogRecord :=
  mkLog (lsn r) (log_tot_len r) (log_tid r) l (body r).

(** ** Constructors: log_tot_len_ is uint32_t *)

Definition new_begin (tid : Z) : LogRecord := mkLog INVALID_LSN LOG_HEADER_SIZE tid INVALID_LSN BeginLogRecord.
Definition new_commit (tid : Z) : LogRecord := mkLog INVALID_LSN LOG_HEADER_SIZE tid INVALID_LSN CommitLogRecord.
Definition new_abort (tid : Z) : LogRecord := mkLog INVALID_LSN LOG_HEADER_SIZE tid INVALID_LSN AbortLogRecord.

Definition size_of (l : list Z) : Z := Z.of_nat (length l).

Definition new_insert (tid : Z) (insert_value : list Z) (rid : Rid) (table_name : string) : LogRecord :=
  let name := bytes_of_string table_name in
  mkLog INVALID_LSN (wrap_u 32 (LOG_HEADER_SIZE + 4 + size_of insert_value + 8 + (8 + size_of name)))
        tid INVALID_LSN (InsertLogRecord insert_value rid name).
Definition new_delete (tid : Z) (delete_value : list Z) (rid : Rid) (table_name : string) : LogRecord :=
  let name := bytes_of_string table_name in
  mkLog INVALID_LSN (wrap_u 32 (LOG_HEADER_SIZE + (4 + size_of delete_value + 8) + (8 + size_of name)))
        tid INVALID_LSN (DeleteLogRecord delete_value rid name).
Definition new_update (tid : Z) (old_value new_value : list Z) (rid : Rid) (table_name : string) : LogRecord :=
  let name := bytes_of_string table_name in
  mkLog INVALID_LSN
        (wrap_u 32 (LOG_HEADER_SIZE + (4 + size_of old_value) + (4 + size_of new_value) + 8 + (8 + size_of name)))
        tid INVALID_LSN (UpdateLogRecord old_value new_value rid name).

(** ** serialize: the memcpy calls into dest, in their order *)

(** memcpy(dest + offset, src, n); offset += n *)
Definition emit (src : list Z) (p : nat * list Z) : nat * list Z :=
  (p.1 + length src, splice p.1 src p.2)%nat.
Definition emit_record (v : list Z) (p : nat * list Z) : nat * list Z := emit v (emit (le_bytes 4 (size_of v)) p).
Definition emit_tail (rid : Rid) (name : list Z) (p : nat * list Z) : nat * list Z :=
  emit name (emit (le_bytes 8 (size_of name)) (emit (rid_bytes rid) p)).

(** LogRecord::serialize at dest + base *)
Definition serialize_header (r : LogRecord) (base : nat) (dest : list Z) : list Z :=
  let dest := store_int 4 (base + OFFSET_LOG_TYPE) (logtype_code (log_type r)) dest in
  let dest := store_int 4 (base + OFFSET_LSN) (lsn r) dest in
  let dest := store_int 4 (base + OFFSET_LOG_TOT_LEN) (log_tot_len r) dest in
  let dest := store_int 4 (base + OFFSET_LOG_TID) (log_tid r) dest in
  store_int 4 (base + OFFSET_PREV_LSN) (log_prev_lsn r) dest.

(** The overrides: what follows the header, from offset OFFSET_LOG_DATA. *)
Definition serialize_insert (v : list Z) (rid : Rid) (name : list Z) (p : nat * list Z) : list Z :=
  (emit_tail rid name (emit_record v p)).2.
Definition serialize_delete (v : list Z) (rid : Rid) (name : list Z) (p : nat * list Z) : list Z :=
  (emit_tail rid name (emit_record v p)).2.
Definition serialize_update (old new : list Z) (rid : Rid) (name : list Z) (p : nat * list Z) : list Z :=
  (emit_tail rid name (emit_record new (emit_record old p))).2.

Definition serialize (r : LogRecord) (base : nat) (dest : list Z) : list Z :=
  let dest := serialize_header r base dest in
  let p := ((base + OFFSET_LOG_DATA)%nat, dest) in
  match body r with
  | InsertLogRecord v rid name => serialize_insert v rid name p
  | DeleteLogRecord v rid name => serialize_delete v rid name p
  | UpdateLogRecord old new rid name => serialize_update old new rid name p
  | BeginLogRecord | CommitLogRecord | AbortLogRecord => dest
  end.

(** ** deserialize *)

(** RmRecord::Deserialize; [off] moves past the record *)
Definition take_record (off : nat) (src : list Z) : list Z * nat :=
  let size := Z.to_nat (load_i32 off src) in (read_at (off + 4) size src, off + 4 + size)%nat.
Definition take_rid (off : nat) (src : list Z) : Rid := mkRid (load_i32 off src) (load_i32 (off + 4) src).
Definition take_tail (off : nat) (src : list Z) : Rid * list Z :=
  (take_rid off src, read_at (off + 8 + 8) (Z.to_nat (load_u64 (off + 8) src)) src).

Definition deserialize_header (src : list Z) (b : log_body) : LogRecord :=
  mkLog (load_i32 OFFSET_LSN src) (load_u32 OFFSET_LOG_TOT_LEN src) (load_i32 OFFSET_LOG_TID src)
        (load_i32 OFFSET_PREV_LSN src) b.

Definition deserialize_insert (src : list Z) : log_body :=
  let '(v, off) := take_record OFFSET_LOG_DATA src in
  let '(rid, name) := take_tail off src in InsertLogRecord v rid name.
Definition deserialize_delete (src : list Z) : log_body :=
  let '(v, off) := take_record OFFSET_LOG_DATA src in
  let '(rid, name) := take_tail off src in DeleteLogRecord v rid name.
Definition deserialize_update (src : list Z) : log_body :=
  let '(old, off) := take_record OFFSET_LOG_DATA src in
  let '(new, off) := take_record off src in
  let '(rid, name) := take_tail off src in UpdateLogRecord old new rid name.

Definition deserialize (t : LogType) (src : list Z) : LogRecord :=
  deserialize_header src
    match t with
    | INSERT => deserialize_insert src
    | DELETE => deserialize_delete src
    | UPDATE => deserialize_update src
    | begin => BeginLogRecord
    | commit => CommitLogRecord
    | ABORT => AbortLogRecord
    end.

(** parse_log_record: nullptr for an unknown type *)
Definition parse_log_record (data : list Z) : option LogRecord :=
  let t := load_i32 OFFSET_LOG_TYPE data in
  if t =? 0 then Some (deserialize UPDATE data) else
  if t =? 1 then Some (deserialize INSERT data) else
  if t =? 2 then Some (deserialize DELETE data) else
  if t =? 3 then Some (deserialize begin data) else
  if t =? 4 then Some (deserialize commit data) else
  if t =? 5 then Some (deserialize ABORT data) else None.

(** The while loop of read_all_logs over the bytes read; an iteration
    moves offset by the record's length, at least the header size when it is
    below 2^31, so the number of bytes is enough [fuel]. *)
Fixpoint parse_loop (fuel : nat) (offset read_size : Z) (data : list Z) : list LogRecord :=
  match fuel with
  | O => []
  | S fuel' =>
      if negb (0 <? read_size) || negb (offset + LOG_HEADER_SIZE <=? read_size) then [] else
      let log_len := load_u32 (Z.to_nat offset + OFFSET_LOG_TOT_LEN) data in
      if (log_len <? LOG_HEADER_SIZE) || (read_size <? offset + wrap_s 32 log_len) then [] else
      match parse_log_record (drop (Z.to_nat offset) data) with
      | None => []
      | Some r => r :: parse_loop fuel' (offset + wrap_s 32 log_len) read_size data
      end
  end.

Definition parse_logs (read_size : Z) (data : list Z) : list LogRecord :=
  parse_loop (length data) 0 read_size data.

(* ------------------------------------------------------------------ *)
(** ** The wire format                                                  *)
(* ------------------------------------------------------------------ *)

Definition field (v : list Z) : list Z := le_bytes 4 (size_of v) ++ v.
Definition tail_bytes (rid : Rid) (name : list Z) : list Z :=
  rid_bytes rid ++ le_bytes 8 (size_of name) ++ name.
Definition header_bytes (r : LogRecord) : list Z :=
  le_bytes 4 (logtype_code (log_type r)) ++ le_bytes 4 (lsn r) ++ le_bytes 4 (log_tot_len r) ++
  le_bytes 4 (log_tid r) ++ le_bytes 4 (log_prev_lsn r).
Definition payload (b : log_body) : list Z :=
  match b with
  | InsertLogRecord v rid name | DeleteLogRecord v rid name => field v ++ tail_bytes rid name
  | UpdateLogRecord old new rid name => field old ++ field new ++ tail_bytes rid name
  | _ => []
  end.
Definition record_bytes (r : LogRecord) : list Z := header_bytes r ++ payload (body r).

Lemma length_header_bytes r : length (header_bytes r) = 20%nat.
Proof. unfold header_bytes. len. Qed.
#[export] Hint Rewrite length_header_bytes : len.

Lemma length_record_bytes r : length (record_bytes r) = (20 + length (payload (body r)))%nat.
Proof. unfold record_bytes. len. Qed.

Lemma emit_splice base a src mem : (base + length a + length src ≤ length mem)%nat →
  emit src (base + length a, splice base a mem)%nat =
  (base + length (a ++ src), splice base (a ++ src) mem)%nat.
Proof. intros Hl. unfold emit. simpl. f_equal; [len|]. by rewrite splice_app by lia. Qed.

Lemma emit_record_splice base a v mem : (base + length a + length (field v) ≤ length mem)%nat →
  emit_record v (base + length a, splice base a mem)%nat =
  (base + length (a ++ field v), splice base (a ++ field v) mem)%nat.
Proof.
  unfold field. intros Hl. rewrite length_app, length_le_bytes in Hl. unfold emit_record.
  rewrite emit_splice by len. rewrite emit_splice by len. by rewrite <- app_assoc.
Qed.

Lemma emit_tail_splice base a rid name mem : (base + length a + length (tail_bytes rid name) ≤ length mem)%nat →
  emit_tail rid name (base + length a, splice base a mem)%nat =
  (base + length (a ++ tail_bytes rid name), splice base (a ++ tail_bytes rid name) mem)%nat.
Proof.
  unfold tail_bytes. intros Hl. rewrite !length_app, length_le_bytes in Hl. unfold emit_tail.
  rewrite emit_splice by len. rewrite emit_splice by len. rewrite emit_splice by len. by rewrite <- !app_assoc.
Qed.

Lemma store_splice n off base a z mem : off = (base + length a)%nat → (base + length a ≤ length mem)%nat →
  store_int n off z (splice base a mem) = splice base (a ++ le_bytes n z) mem.
Proof. intros -> Hl. unfold store_int. by rewrite splice_app. Qed.

Lemma serialize_header_splice r base dest : (base + 20 ≤ length dest)%nat →
  serialize_header r base dest = splice base (header_bytes r) dest.
Proof.
  intros Hl. unfold serialize_header, header_bytes. cbv zeta.
  unfold OFFSET_PREV_LSN, OFFSET_LOG_TID, OFFSET_LOG_TOT_LEN, OFFSET_LSN, OFFSET_LOG_TYPE.
  rewrite Nat.add_0_r. unfold store_int at 5.
  rewrite !store_splice by (rewrite ?length_app, ?length_le_bytes; lia). by rewrite <- !app_assoc.
Qed.

(** serialize writes the record's wire format at dest and nothing else. *)
Lemma serialize_splice r base dest : (base + length (record_bytes r) ≤ length dest)%nat →
  serialize r base dest = splice base (record_bytes r) dest.
Proof.
  rewrite length_record_bytes. intros Hl. unfold serialize, serialize_insert, serialize_delete, serialize_update.
  rewrite serialize_header_splice by lia.
  change OFFSET_LOG_DATA with 20%nat. rewrite <- (length_header_bytes r).
  unfold record_bytes. destruct (body r) as [old new rid name|v rid name|v rid name| | |]; cbn [payload] in *;
    autorewrite with len in Hl; try (by rewrite app_nil_r).
  - rewrite !emit_record_splice, emit_tail_splice by len. by rewrite <- !app_assoc.
  - rewrite emit_record_splice, emit_tail_splice by len. by rewrite <- !app_assoc.
  - rewrite emit_record_splice, emit_tail_splice by len. by rewrite <- !app_assoc.
Qed.

(* ------------------------------------------------------------------ *)
(** ** Parsing                                                          *)
(* ------------------------------------------------------------------ *)

Definition body_rid (b : log_body) : option Rid :=
  match b with
  | UpdateLogRecord _ _ rid _ | InsertLogRecord _ rid _ | DeleteLogRecord _ rid _ => Some rid
  | _ => None
  end.

(** The fields fit their C++ types and log_tot_len_ is the length. *)
Record log_wf (r : LogRecord) : Prop := {
  wf_lsn : is_int32 (lsn r);
  wf_tid : is_int32 (log_tid r);
  wf_prev : is_int32 (log_prev_lsn r);
  wf_len : log_tot_len r = Z.of_nat (length (record_bytes r));
  wf_size : Z.of_nat (length (record_bytes r)) ≤ int32_max;
  wf_rid rid : body_rid (body r) = Some rid → rid_wf rid
}.

Lemma cur_record off v k src : Z.of_nat (length v) ≤ int32_max → drop off src = field v ++ k →
  take_record off src = (v, off + length (field v))%nat ∧ drop (off + length (field v)) src = k.
Proof.
  intros Hv E. unfold field in *. rewrite <- app_assoc in E. unfold size_of in *.
  apply cur_i32 in E as [E1 E]; [|unfold is_int32, int32_min; lia]. apply cur_read in E as [E2 E].
  unfold take_record. rewrite E1, Nat2Z.id, E2. rewrite length_app, length_le_bytes, Nat.add_assoc. done.
Qed.

Lemma cur_tail off rid name k src : rid_wf rid → Z.of_nat (length name) ≤ int32_max →
  drop off src = tail_bytes rid name ++ k → take_tail off src = (rid, name).
Proof.
  intros [Hp Hs] Hn E. unfold tail_bytes, rid_bytes in E. rewrite <- !app_assoc in E. unfold take_tail, take_rid.
  apply cur_i32 in E as [-> E]; [|done]. apply cur_i32 in E as [-> E]; [|done].
  rewrite <- Nat.add_assoc in E. change (4 + 4)%nat with 8%nat in E. unfold size_of in E. unfold int32_max in Hn.
  apply cur_u64 in E as [-> E]; [|lia]. rewrite Nat2Z.id. apply cur_read in E as [-> _]. by destruct rid.
Qed.

Lemma parse_header r k : log_wf r →
  let src := record_bytes r ++ k in
  load_i32 OFFSET_LOG_TYPE src = logtype_code (log_type r) ∧ deserialize_header src (body r) = r ∧
  load_u32 OFFSET_LOG_TOT_LEN src = log_tot_len r ∧ drop OFFSET_LOG_DATA src = payload (body r) ++ k.
Proof.
  intros [Hl Ht Hp Hlen Hsz _] src. unfold deserialize_header.
  assert (drop 0 src = src) as E by done. unfold src at 2, record_bytes, header_bytes in E.
  rewrite <- !app_assoc in E.
  apply cur_i32 in E as [E1 E]; [|destruct r as [? ? ? ? []]; done].
  apply cur_i32 in E as [E2 E]; [|done]. unfold int32_max in Hsz. apply cur_u32 in E as [E3 E]; [|lia].
  apply cur_i32 in E as [E4 E]; [|done]. apply cur_i32 in E as [E5 E]; [|done]. simpl in *.
  unfold OFFSET_LSN, OFFSET_LOG_TOT_LEN, OFFSET_LOG_TID, OFFSET_PREV_LSN, OFFSET_LOG_DATA. simpl.
  rewrite E2, E3, E4, E5. by destruct r.
Qed.

(** A record parses back from its wire format, whatever follows it. *)
Lemma parse_record_bytes r k : log_wf r → parse_log_record (record_bytes r ++ k) = Some r.
Proof.
  intros Hw. destruct (parse_header r k Hw) as (Et & Eh & _ & Ed). unfold parse_log_record. rewrite Et.
  pose proof (wf_size r Hw) as Hsz. rewrite length_record_bytes in Hsz. pose proof (wf_rid r Hw) as Hrid.
  unfold log_type, deserialize, deserialize_insert, deserialize_delete, deserialize_update in *. 
  assert (Some r = Some (deserialize_header (record_bytes r ++ k) (body r))) as -> by congruence. clear Eh Et Hw.
  destruct (body r) as [old new rid name|v rid name|v rid name| | |]; simpl logtype_code; simpl Z.eqb; cbv iota;
    try done; unfold payload in *; rewrite <- !app_assoc in Ed; specialize (Hrid rid eq_refl);
    unfold tail_bytes, field in Hsz; autorewrite with len in Hsz.
  - apply cur_record in Ed as [-> Ed]; [|lia]. apply cur_record in Ed as [-> Ed]; [|lia].
    apply cur_tail in Ed as ->; [done..|lia].
  - apply cur_record in Ed as [-> Ed]; [|lia]. apply cur_tail in Ed as ->; [done..|lia].
  - apply cur_record in Ed as [-> Ed]; [|lia]. apply cur_tail in Ed as ->; [done..|lia].
Qed.

(** The end of a log that a crash cut: a proper prefix of a record. *)
Definition torn (t : list Z) : Prop := ∃ r k, log_wf r ∧ k ≠ [] ∧ record_bytes r = t ++ k.

Lemma torn_nil : torn [].
Proof.
  exists (new_begin 0), (record_bytes (new_begin 0)). split; [|split; [discriminate|done]].
  split; cbn; unfold is_int32, int32_min, int32_max, INVALID_LSN; [lia|lia|lia|reflexivity|lia|discriminate].
Qed.

Definition log_image (rs : list LogRecord) : list Z := concat (record_bytes <$> rs).

Lemma log_image_snoc rs r : log_image (rs ++ [r]) = log_image rs ++ record_bytes r.
Proof. unfold log_image. rewrite fmap_app, concat_app. simpl. by rewrite app_nil_r. Qed.

Lemma log_image_app rs rs' : log_image (rs ++ rs') = log_image rs ++ log_image rs'.
Proof. unfold log_image. by rewrite fmap_app, concat_app. Qed.

Lemma log_image_length rs : (20 * length rs ≤ length (log_image rs))%nat.
Proof.
  induction rs as [|r rs IH]; [simpl; lia|]. change (log_image (r :: rs)) with (record_bytes r ++ log_image rs).
  rewrite length_app, length_record_bytes. cbn [length]. lia.
Qed.

Lemma parse_loop_torn fuel pre t : torn t → Z.of_nat (length (pre ++ t)) ≤ int32_max →
  parse_loop fuel (Z.of_nat (length pre)) (Z.of_nat (length (pre ++ t))) (pre ++ t) = [].
Proof.
  intros (r & k & Hw & Hk & E) Hfit. destruct fuel as [|fuel]; [done|]. cbn [parse_loop]. case_if; [done|].
  rewrite length_app in *. unfold LOG_HEADER_SIZE in *. change (Z.of_nat OFFSET_LOG_DATA) with 20 in *. bool_prop.
  rewrite Nat2Z.id. pose proof (length_record_bytes r) as Hlen. rewrite E, length_app in Hlen.
  assert (load_u32 (length pre + OFFSET_LOG_TOT_LEN) (pre ++ t) = log_tot_len r) as ->.
  { destruct (parse_header r [] Hw) as (_ & _ & <- & _). rewrite app_nil_r, E. unfold load_u32, le_uint.
    rewrite drop_app_add, !drop_app_le by (unfold OFFSET_LOG_TOT_LEN, OFFSET_LSN; lia).
    rewrite take_app_le; [done|]. rewrite length_drop. unfold OFFSET_LOG_TOT_LEN, OFFSET_LSN. lia. }
  assert (wrap_s 32 (log_tot_len r) = log_tot_len r) as ->.
  { apply wrap_s_small; [lia|]. pose proof (wf_len r Hw). pose proof (wf_size r Hw) as Hs.
    unfold int32_max in *. lia. }
  case_if; [done|]. exfalso. rewrite (wf_len r Hw), E, length_app in *. destruct k; [done|]. simpl in *. lia.
Qed.

Lemma parse_loop_image rs : ∀ fuel pre t, Forall log_wf rs → torn t → (length rs ≤ fuel)%nat →
  let data := pre ++ log_image rs ++ t in
  Z.of_nat (length data) ≤ int32_max →
  parse_loop fuel (Z.of_nat (length pre)) (Z.of_nat (length data)) data = rs.
Proof.
  induction rs as [|r rs IH]; intros fuel pre t Hrs Ht Hf; cbv zeta.
  { unfold log_image. cbn [fmap list_fmap concat]. rewrite app_nil_l. by apply parse_loop_torn. }
  intros Hfit. apply Forall_cons in Hrs as [Hr Hrs]. destruct fuel as [|fuel]; [simpl in Hf; lia|].
  assert (log_image (r :: rs) = record_bytes r ++ log_image rs) as Ei by done. rewrite Ei in *.
  rewrite <- app_assoc in *. pose proof (length_record_bytes r) as Hlen.
  destruct (parse_header r (log_image rs ++ t) Hr) as (_ & _ & El & _).
  assert (load_u32 (length pre + OFFSET_LOG_TOT_LEN) (pre ++ record_bytes r ++ log_image rs ++ t) = log_tot_len r)
    as El'. { rewrite <- El. unfold load_u32. by rewrite drop_app_add. }
  assert (wrap_s 32 (log_tot_len r) = Z.of_nat (length (record_bytes r))) as Ew.
  { rewrite (wf_len r Hr). apply wrap_s_small; [lia|]. pose proof (wf_size r Hr). unfold int32_max in *. lia. }
  cbn [parse_loop]. rewrite Nat2Z.id, El', Ew, drop_app_length, parse_record_bytes by done.
  unfold LOG_HEADER_SIZE. change (Z.of_nat OFFSET_LOG_DATA) with 20. rewrite (wf_len r Hr).
  rewrite (proj2 (orb_false_iff _ _)) by (rewrite !negb_false_iff, Z.ltb_lt, Z.leb_le; len).
  rewrite (proj2 (orb_false_iff _ _)) by (rewrite !Z.ltb_ge; len).
  f_equal. replace (Z.of_nat (length pre) + Z.of_nat (length (record_bytes r)))
    with (Z.of_nat (length (pre ++ record_bytes r))) by len.
  specialize (IH fuel (pre ++ record_bytes r) t Hrs Ht ltac:(simpl in Hf; lia)). cbv zeta in IH.
  rewrite <- app_assoc in IH. by apply IH.
Qed.

(** What read_all_logs parses from a log of whole records, possibly followed by
    a torn one. *)
Lemma parse_logs_image rs t : Forall log_wf rs → torn t →
  Z.of_nat (length (log_image rs ++ t)) ≤ int32_max →
  parse_logs (Z.of_nat (length (log_image rs ++ t))) (log_image rs ++ t) = rs.
Proof.
  intros Hrs Ht Hfit. unfold parse_logs. apply (parse_loop_image rs _ []); [done|done| |done].
  pose proof (log_image_length rs). rewrite length_app. lia.
Qed.
