(* ===== verification/LogManager.v ===== *)
(** * Log manager (src/src/recovery/log_manager.{h,cpp}) and the log reader of
      recovery (read_all_logs, RecoveryManager::analyze)

    The log buffer, lsn allocation and flushing, over the interface [LogDisk]
    that the disk manager implements.  Both methods hold latch_, so a call is
    one transition.  The size of the buffer is a parameter; the program uses
    LOG_BUFFER_SIZE. *)

From S2P Require Import Prelude Defs Posix DiskManager LogRecord.

(* ------------------------------------------------------------------ *)
(** ** The log file as the disk manager offers it                       *)
(* ------------------------------------------------------------------ *)

Class LogDisk (D : Type) := {
  ld_write : list Z → ST D unit;
  ld_read : Z → Z → ST D (Z * list Z);
  ld_size : D → Z
}.

(** A successful write appends; the size and a read at 0 give the whole log
    while it is smaller than 2 GiB. *)
Class LogDiskLaws (D : Type) `{LogDisk D} := {
  ld_wf : D → Prop;
  ld_bytes : D → list Z;
  ld_write_ok d bs r d' : ld_wf d → ld_write bs d = (r, d') →
    ld_wf d' ∧ (r = Ret tt → ld_bytes d' = ld_bytes d ++ bs);
  ld_size_ok d : ld_wf d → Z.of_nat (length (ld_bytes d)) ≤ int32_max →
    ld_size d = Z.of_nat (length (ld_bytes d));
  ld_read_ok d : ld_wf d → 0 < Z.of_nat (length (ld_bytes d)) ≤ int32_max →
    ∃ d', ld_wf d' ∧ ld_bytes d' = ld_bytes d ∧
      ld_read (Z.of_nat (length (ld_bytes d))) 0 d =
        (Ret (Z.of_nat (length (ld_bytes d)), ld_bytes d), d')
}.

#[export] Instance DM_log {OS} `{Posix OS} : LogDisk (DiskManager OS) := {
  ld_write := write_log;
  ld_read := read_log;
  ld_size := get_file_size LOG_FILE_NAME
}.

(** The disk manager keeps the laws once the log file is open. *)
#[export] Program Instance DM_log_laws {OS} `{PosixLaws OS} : LogDiskLaws (DiskManager OS) := {
  ld_wf d := dm_inv d ∧ log_fd d ≠ -1;
  ld_bytes d := log_bytes d
}.
Next Obligation.
  intros OS ?? d bs r d' [Hd Hl] E. pose proof E as E'. apply write_log_spec in E as [Hd' Hr]; [|done].
  split; [split; [done|]|intros ->; by apply Hr].
  destruct r as [[]|e]; [destruct (Hr eq_refl Hl) as [_ Hf]; congruence|].
  assert (log_fd d' = log_fd d) as ->; [|done]. revert E'. cbn [ld_write DM_log].
  unfold write_log, ensure_log, sys, mbind, st_bind, get_st.
  destruct (Z.eqb_spec (log_fd d) (-1)); [done|]. cbn [mret st_ret].
  destruct (os_lseek_end _ _) as [b o1]. cbn [os set_os log_fd]. destruct (os_write _ _ _) as [k o2].
  case_if; intros E1; by injection E1 as _ <-.
Qed.
Next Obligation.
  intros OS ?? d [Hd Hl] Hfit. pose proof (inv_log d Hd Hl) as Hp.
  destruct (inv_ino d Hd _ _ Hp) as (_ & [i Hi] & _). cbn [ld_size DM_log]. unfold get_file_size.
  rewrite (os_size_name _ _ _ Hi). unfold log_bytes, file_bytes in *. rewrite Hi in *. apply wrap_s_small; unfold int32_max in *; lia.
Qed.
Next Obligation.
  intros OS ?? d [Hd Hl] [Hpos Hfit].
  destruct (read_log_spec d (Z.of_nat (length (log_bytes d))) 0 Hd Hl Hfit Hpos) as (d' & Hd' & Eb & El & Er); [lia|].
  exists d'. split; [split; congruence|]. split; [done|]. cbn [ld_read DM_log]. rewrite Er. unfold read_at.
  rewrite drop_0, Nat2Z.id, firstn_all. case_if; [lia|done].
Qed.

(* ------------------------------------------------------------------ *)
(** ** LogBuffer and LogManager                                         *)
(* ------------------------------------------------------------------ *)

Record LogBuffer := mkLogBuffer { buffer_ : list Z; offset_ : Z }.

Section LogManager.
Context {D : Type} `{LogDisk D}.
Variable buffer_size : Z.   (* LOG_BUFFER_SIZE *)

Record LogManager := mkLogManager {
  global_lsn : Z;
  log_buffer : LogBuffer;
  persist_lsn : Z;
  ldisk : D
}.

(** LogBuffer::LogBuffer; also memset and offset_ = 0 after a write *)
Definition empty_buffer : LogBuffer := mkLogBuffer (replicate (Z.to_nat (buffer_size + 1)) 0) 0.
Definition is_full (b : LogBuffer) (append_size : Z) : bool := buffer_size <? offset_ b + append_size.

Definition new_log_manager (d : D) : LogManager := mkLogManager 0 empty_buffer INVALID_LSN d.

(** disk_manager_->write_log(log_buffer_.buffer_, log_buffer_.offset_) *)
Definition write_buffer : ST LogManager unit := λ s,
  let '(r, d) := ld_write (take (Z.to_nat (offset_ (log_buffer s))) (buffer_ (log_buffer s))) (ldisk s) in
  (r, mkLogManager (global_lsn s) (log_buffer s) (persist_lsn s) d).

Definition set_buffer (b : LogBuffer) : ST LogManager unit :=
  modify_st (λ s, mkLogManager (global_lsn s) b (persist_lsn s) (ldisk s)).
Definition set_persist (l : Z) : ST LogManager unit :=
  modify_st (λ s, mkLogManager (global_lsn s) (log_buffer s) l (ldisk s)).
(** global_lsn_++ *)
Definition next_lsn : ST LogManager Z := λ s,
  (Ret (global_lsn s), mkLogManager (wrap_s 32 (global_lsn s + 1)) (log_buffer s) (persist_lsn s) (ldisk s)).

Definition add_log_to_buffer (log_record : option LogRecord) : ST LogManager Z :=
  match log_record with
  | None => mret INVALID_LSN
  | Some r =>
      s ← get_st;
      (if is_full (log_buffer s) (wrap_s 32 (log_tot_len r)) then
         write_buffer ;;
         (if negb (lsn r =? INVALID_LSN) then set_persist (lsn r - 1) else mret tt) ;;
         set_buffer empty_buffer
       else mret tt) ;;
      l ← next_lsn;
      s ← get_st;
      let b := log_buffer s in
      set_buffer (mkLogBuffer (serialize (set_lsn l r) (Z.to_nat (offset_ b)) (buffer_ b))
                              (offset_ b + log_tot_len r)) ;;
      mret l
  end.

(** The loop that finds the lsn of the last record in the buffer. *)
Fixpoint last_lsn_loop (fuel : nat) (offset last_lsn : Z) (b : LogBuffer) : Z :=
  match fuel with
  | O => last_lsn
  | S fuel' =>
      if offset + LOG_HEADER_SIZE <=? offset_ b then
        let log_len := load_u32 (Z.to_nat offset + OFFSET_LOG_TOT_LEN) (buffer_ b) in
        if (log_len =? 0) || (offset_ b <? offset + wrap_s 32 log_len) then last_lsn
        else last_lsn_loop fuel' (offset + wrap_s 32 log_len)
               (load_i32 (Z.to_nat offset + OFFSET_LSN) (buffer_ b)) b
      else last_lsn
  end.

Definition flush_log_to_disk : ST LogManager unit :=
  s ← get_st;
  let b := log_buffer s in
  if offset_ b =? 0 then mret tt else
  let last_lsn := last_lsn_loop (Z.to_nat (offset_ b)) 0 (load_i32 OFFSET_LSN (buffer_ b)) b in
  write_buffer ;;
  set_persist last_lsn ;;
  set_buffer empty_buffer.

(** read_all_logs: the vector has file_size bytes, the read fills its front. *)
Definition read_all_logs : ST D (list LogRecord) :=
  d ← get_st;
  let file_size := ld_size d in
  if file_size <=? 0 then mret [] else
  p ← ld_read file_size 0;
  let '(read_size, bytes) := p in
  mret (parse_logs read_size (bytes ++ replicate (Z.to_nat file_size - length bytes) 0)).

(** RecoveryManager::analyze: reads the front of the log into its buffer. *)
Definition analyze (b : LogBuffer) : ST D LogBuffer :=
  d ← get_st;
  let file_size := ld_size d in
  if file_size <=? 0 then mret b else
  p ← ld_read (Z.min file_size buffer_size) 0;
  let '(read_size, bytes) := p in
  mret (mkLogBuffer (splice 0 bytes (buffer_ b)) (Z.max 0 read_size)).

End LogManager.
Arguments LogManager : clear implicits.

(* ------------------------------------------------------------------ *)
(** ** Invariant                                                        *)
(* ------------------------------------------------------------------ *)

Lemma record_bytes_set_lsn l r : length (record_bytes (set_lsn l r)) = length (record_bytes r).
Proof. by rewrite !length_record_bytes. Qed.

Lemma log_wf_set_lsn l r : is_int32 l → log_wf r → log_wf (set_lsn l r).
Proof. intros Hl [? ? ? ? ? ?]. split; try done; by rewrite record_bytes_set_lsn. Qed.

Section LogLaws.
Context {D : Type} `{LogDiskLaws D}.
Variable buffer_size : Z.
Hypothesis buffer_size_ok : 0 ≤ buffer_size.
Abbreviation LM := (LogManager D).
Implicit Types s : LM.

(** [base] is the log an earlier run left; of the records of this run,
    [flushed] are in the file and [pending] are the contents of the buffer. *)
Record log_inv (base flushed pending : list LogRecord) s : Prop := {
  li_wf : ld_wf (ldisk s);
  li_disk : ld_bytes (ldisk s) = log_image (base ++ flushed);
  li_buf : take (length (log_image pending)) (buffer_ (log_buffer s)) = log_image pending;
  li_off : offset_ (log_buffer s) = Z.of_nat (length (log_image pending));
  li_len : length (buffer_ (log_buffer s)) = Z.to_nat (buffer_size + 1);
  li_fit : offset_ (log_buffer s) ≤ buffer_size;
  li_ok : Forall log_wf (base ++ flushed ++ pending);
  li_lsn : lsn <$> (flushed ++ pending) = seqZ 0 (global_lsn s);
  li_glsn : 0 ≤ global_lsn s ≤ int32_max
}.

Lemma write_buffer_ok base fl pe s s' :
  log_inv base fl pe s → write_buffer s = (Ret tt, s') →
  ld_wf (ldisk s') ∧ ld_bytes (ldisk s') = log_image (base ++ fl ++ pe) ∧
  global_lsn s' = global_lsn s ∧ persist_lsn s' = persist_lsn s ∧ log_buffer s' = log_buffer s.
Proof.
  intros Hi E. unfold write_buffer in E. rewrite (li_off _ _ _ _ Hi), Nat2Z.id, (li_buf _ _ _ _ Hi) in E.
  destruct (ld_write _ _) as [r d] eqn:Ew. injection E as -> <-. simpl.
  apply ld_write_ok in Ew as [Hw Hb]; [|apply Hi]. split_and!; try done.
  rewrite (Hb eq_refl), (li_disk _ _ _ _ Hi), <- log_image_app. by rewrite app_assoc.
Qed.

Lemma empty_buffer_inv base fl pe s s' :
  log_inv base fl pe s → ld_wf (ldisk s') → ld_bytes (ldisk s') = log_image (base ++ fl ++ pe) →
  global_lsn s' = global_lsn s → log_buffer s' = empty_buffer buffer_size →
  log_inv base (fl ++ pe) [] s'.
Proof.
  intros [? ? ? ? ? ? Hok Hlsn Hg] Hw Hb Eg El. split; rewrite ?El, ?Eg, ?app_nil_r; simpl; try done.
  by rewrite length_replicate.
Qed.

(** The record goes to the end of the pending ones when it fits. *)
Lemma append_inv base fl pe s r s' :
  log_inv base fl pe s → log_wf r → offset_ (log_buffer s) + log_tot_len r ≤ buffer_size →
  global_lsn s < int32_max →
  let b := log_buffer s in
  let r' := set_lsn (global_lsn s) r in
  log_buffer s' = mkLogBuffer (serialize r' (Z.to_nat (offset_ b)) (buffer_ b)) (offset_ b + log_tot_len r) →
  ldisk s' = ldisk s → global_lsn s' = wrap_s 32 (global_lsn s + 1) →
  log_inv base fl (pe ++ [r']) s'.
Proof.
  intros Hi Hr Hfit Hg b r' Eb Ed Eg. pose proof (wf_len r Hr) as Hlen.
  assert (log_wf r') as Hr'.
  { apply log_wf_set_lsn; [|done]. pose proof (li_glsn _ _ _ _ Hi). unfold is_int32, int32_min, int32_max in *. lia. }
  pose proof (li_off _ _ _ _ Hi) as Ho. pose proof (li_len _ _ _ _ Hi) as Hl. fold b in Ho, Hl, Hfit.
  assert (length (record_bytes r') = length (record_bytes r)) as Elen by apply record_bytes_set_lsn.
  assert (wrap_s 32 (global_lsn s + 1) = global_lsn s + 1) as Ew.
  { apply wrap_s_small; [lia|]. pose proof (li_glsn _ _ _ _ Hi). unfold int32_max in *. lia. }
  rewrite Ho, Nat2Z.id, serialize_splice in Eb by lia.
  split; rewrite ?Eb, ?Ed, ?Eg, ?Ew; simpl.
  - apply Hi.
  - apply Hi.
  - rewrite log_image_snoc, length_app. unfold splice, b. rewrite (li_buf _ _ _ _ Hi), app_assoc.
    apply take_app_length'. by rewrite length_app.
  - rewrite log_image_snoc, length_app. lia.
  - rewrite length_splice by lia. done.
  - lia.
  - pose proof (li_ok _ _ _ _ Hi) as Hok. rewrite !app_assoc in *. by apply Forall_app; split; [|constructor].
  - rewrite app_assoc, fmap_app, (li_lsn _ _ _ _ Hi). rewrite (seqZ_app 0 (global_lsn s) 1) by apply Hi || lia.
    simpl. by rewrite Z.add_0_l.
  - pose proof (li_glsn _ _ _ _ Hi). lia.
Qed.

(** add_log_to_buffer, on both branches. *)
Lemma add_log_spec base fl pe s r l s' :
  log_inv base fl pe s → log_wf r → log_tot_len r ≤ buffer_size → global_lsn s < int32_max →
  add_log_to_buffer buffer_size (Some r) s = (Ret l, s') →
  l = global_lsn s ∧
  ∃ fl' pe', fl' ++ pe' = fl ++ pe ∧ fl `prefix_of` fl' ∧ log_inv base fl' (pe' ++ [set_lsn l r]) s'.
Proof.
  intros Hi Hr Hsz Hg E. unfold add_log_to_buffer in E. mstep E. unfold get_st in E0. injection E0 as <- <-.
  assert (wrap_s 32 (log_tot_len r) = log_tot_len r) as Ew.
  { apply wrap_s_small; [lia|]. rewrite (wf_len r Hr). pose proof (wf_size r Hr). unfold int32_max in *. lia. }
  rewrite Ew in E. mstep E. destruct (is_full buffer_size (log_buffer s) (log_tot_len r)) eqn:Ef.
  - mstep E0. mstep E0. injection E0 as _ <-. destruct a0. pose proof E1 as E1'.
    eapply write_buffer_ok in E1' as (Hw & Hb & Hgl & _ & _); [|done].
    assert (∃ p, s2 = mkLogManager (global_lsn s1) (log_buffer s1) p (ldisk s1)) as [p ->].
    { destruct (negb _); injection E2 as <- <-; [by eexists|exists (persist_lsn s1); by destruct s1]. }
    assert (log_inv base (fl ++ pe) [] (mkLogManager (global_lsn s1) (empty_buffer buffer_size) p (ldisk s1))) as Hi'
      by (by eapply empty_buffer_inv).
    injection E as <- <-. simpl. split; [congruence|]. exists (fl ++ pe), []. split; [by rewrite app_nil_r|].
    split; [by exists pe|]. rewrite app_nil_l.
    eapply (append_inv _ _ [] _ _ _ Hi' Hr); simpl; first [done|lia].
  - injection E0 as <- <-. injection E as <- <-. simpl. split; [done|]. exists fl, pe. split; [done|].
    split; [done|]. unfold is_full in Ef. bool_prop. by eapply (append_inv _ _ _ _ _ _ Hi Hr).
Qed.

Lemma last_lsn_loop_image pe : ∀ fuel pre l rest, Forall log_wf pe → (length pe ≤ fuel)%nat →
  let buf := pre ++ log_image pe in
  last_lsn_loop fuel (Z.of_nat (length pre)) l (mkLogBuffer (buf ++ rest) (Z.of_nat (length buf))) =
  default l (lsn <$> last pe).
Proof.
  induction pe as [|r pe IH]; intros fuel pre l rest Hpe Hf; cbv zeta.
  { unfold log_image. cbn [fmap list_fmap concat]. rewrite app_nil_r. destruct fuel as [|fuel]; [done|].
    cbn [last_lsn_loop offset_]. unfold LOG_HEADER_SIZE. change (Z.of_nat OFFSET_LOG_DATA) with 20.
    destruct (Z.leb_spec (Z.of_nat (length pre) + 20) (Z.of_nat (length pre))); [lia|done]. }
  apply Forall_cons in Hpe as [Hr Hpe]. destruct fuel as [|fuel]; [simpl in Hf; lia|].
  change (log_image (r :: pe)) with (record_bytes r ++ log_image pe). pose proof (length_record_bytes r) as Hlen.
  pose proof (wf_len r Hr) as Hwl. pose proof (wf_size r Hr) as Hws.
  destruct (parse_header r (log_image pe ++ rest) Hr) as (_ & Eh & El & _).
  assert (load_i32 OFFSET_LSN (record_bytes r ++ log_image pe ++ rest) = lsn r) as Es by by rewrite <- Eh at 2.
  cbn [last_lsn_loop offset_ buffer_]. rewrite Nat2Z.id.
  assert (load_u32 (length pre + OFFSET_LOG_TOT_LEN) ((pre ++ record_bytes r ++ log_image pe) ++ rest) = log_tot_len r)
    as -> by (rewrite <- El, <- !app_assoc; unfold load_u32; by rewrite drop_app_add).
  assert (load_i32 (length pre + OFFSET_LSN) ((pre ++ record_bytes r ++ log_image pe) ++ rest) = lsn r)
    as -> by (rewrite <- Es, <- !app_assoc; unfold load_i32; by rewrite drop_app_add).
  assert (wrap_s 32 (log_tot_len r) = Z.of_nat (length (record_bytes r))) as ->.
  { rewrite Hwl. apply wrap_s_small; [lia|]. unfold int32_max in *. lia. }
  unfold LOG_HEADER_SIZE. change (Z.of_nat OFFSET_LOG_DATA) with 20.
  rewrite (proj2 (Z.leb_le _ _)) by len. rewrite (proj2 (orb_false_iff _ _)) by (rewrite Z.eqb_neq, Z.ltb_ge; len).
  replace (Z.of_nat (length pre) + Z.of_nat (length (record_bytes r)))
    with (Z.of_nat (length (pre ++ record_bytes r))) by len.
  rewrite app_assoc. rewrite (IH fuel (pre ++ record_bytes r) (lsn r) rest Hpe) by (simpl in Hf; lia).
  rewrite last_cons. by destruct (last pe).
Qed.

(** flush_log_to_disk: everything pending is on disk afterwards, and
    persist_lsn_ is the lsn of the last record. *)
Lemma flush_spec base fl pe s s' :
  log_inv base fl pe s → flush_log_to_disk buffer_size s = (Ret tt, s') →
  log_inv base (fl ++ pe) [] s' ∧ persist_lsn s' = default (persist_lsn s) (lsn <$> last pe).
Proof.
  intros Hi E. unfold flush_log_to_disk in E. mstep E. unfold get_st in E0. injection E0 as <- <-.
  pose proof (li_off _ _ _ _ Hi) as Ho. pose proof (log_image_length pe) as Hpl.
  destruct (Z.eqb_spec (offset_ (log_buffer s)) 0) as [E0|E0].
  { injection E as <-. assert (pe = []) as -> by (destruct pe; [done|cbn [length] in Hpl; lia]).
    by rewrite app_nil_r. }
  mstep E. destruct a. pose proof E1 as E1'. eapply write_buffer_ok in E1' as (Hw & Hb & Hg & _ & Hlb); [|done].
  injection E as <-. split; [by eapply empty_buffer_inv|]. cbn [persist_lsn].
  pose proof (li_buf _ _ _ _ Hi) as Hbuf. pose proof (li_ok _ _ _ _ Hi) as Hok.
  apply Forall_app in Hok as [_ Hok]. apply Forall_app in Hok as [_ Hok].
  destruct (log_buffer s) as [buf off] eqn:Elb. cbn [buffer_ offset_] in *.
  rewrite <- (take_drop (length (log_image pe)) buf), Hbuf. subst off.
  rewrite (last_lsn_loop_image pe (Z.to_nat (Z.of_nat (length (log_image pe)))) [] _ _ Hok) by lia.
  destruct pe as [|r pe]; [by simpl in *|]. rewrite last_cons. by destruct (last pe).
Qed.

(** read_all_logs on a log of whole records and possibly a torn one. *)
Lemma read_all_logs_spec d rs t :
  ld_wf d → ld_bytes d = log_image rs ++ t → torn t → Forall log_wf rs →
  Z.of_nat (length (ld_bytes d)) ≤ int32_max →
  ∃ d', read_all_logs d = (Ret rs, d') ∧ ld_wf d' ∧ ld_bytes d' = ld_bytes d.
Proof.
  intros Hw Hb Ht Hrs Hfit. unfold read_all_logs, mbind, st_bind, get_st. rewrite ld_size_ok by done.
  destruct (Z.leb_spec (Z.of_nat (length (ld_bytes d))) 0) as [Hz|Hz].
  - exists d. split; [|done]. pose proof (log_image_length rs). rewrite Hb, length_app in Hz.
    destruct rs as [|r rs]; [done|]. simpl in *. lia.
  - destruct (ld_read_ok d Hw) as (d' & Hw' & Hb' & Er); [lia|]. rewrite Er. exists d'. split; [|done].
    rewrite Nat2Z.id, Nat.sub_diag. cbn [replicate]. rewrite app_nil_r, Hb, parse_logs_image; try done. by rewrite <- Hb.
Qed.

(** A cut of a sequence of whole records. *)
Lemma prefix_image pe p : Forall log_wf pe → p `prefix_of` log_image pe →
  ∃ k t, k `prefix_of` pe ∧ torn t ∧ p = log_image k ++ t.
Proof.
  revert p. induction pe as [|r pe IH]; intros p Hpe Hp.
  { apply prefix_nil_inv in Hp as ->. exists [], []. split_and!; [done|apply torn_nil|done]. }
  apply Forall_cons in Hpe as [Hr Hpe]. change (log_image (r :: pe)) with (record_bytes r ++ log_image pe) in Hp.
  destruct Hp as [q Hq]. symmetry in Hq. apply app_eq_app in Hq as (m & [[-> E]|[E _]]).
  - destruct (IH m Hpe) as (k & t & Hk & Ht & ->); [by exists q|]. exists (r :: k), t. split; [by apply prefix_cons|].
    split; [done|]. change (log_image (r :: k)) with (record_bytes r ++ log_image k). by rewrite <- app_assoc.
  - destruct m as [|x m].
    + exists [r], []. split_and!; [apply prefix_cons, prefix_nil|apply torn_nil|].
      change (log_image [r]) with (record_bytes r ++ []). by rewrite E, !app_nil_r.
    + exists [], p. split_and!; [apply prefix_nil| |done]. exists r, (x :: m). done.
Qed.

(* ------------------------------------------------------------------ *)
(** ** Runs of the log manager                                          *)
(* ------------------------------------------------------------------ *)

(** [log_run base rs s]: started on the log [base] of earlier runs, the manager
    has appended the records [rs] (with the lsn each got) by successful calls. *)
Inductive log_run (base : list LogRecord) : list LogRecord → LM → Prop :=
  | run_start d :
      ld_wf d → ld_bytes d = log_image base → Forall log_wf base →
      log_run base [] (new_log_manager buffer_size d)
  | run_add rs s r l s' :
      log_run base rs s → log_wf r → log_tot_len r ≤ buffer_size → global_lsn s < int32_max →
      add_log_to_buffer buffer_size (Some r) s = (Ret l, s') →
      log_run base (rs ++ [set_lsn l r]) s'
  | run_flush rs s s' :
      log_run base rs s → flush_log_to_disk buffer_size s = (Ret tt, s') → log_run base rs s'.

Lemma log_run_inv base rs s : log_run base rs s → ∃ fl pe, rs = fl ++ pe ∧ log_inv base fl pe s.
Proof.
  induction 1 as [d Hw Hb Hok|rs s r l s' _ (fl & pe & -> & Hi) Hr Hsz Hg E|rs s s' _ (fl & pe & -> & Hi) E].
  - exists [], []. split; [done|]. split; cbn [new_log_manager ldisk log_buffer global_lsn empty_buffer buffer_ offset_];
      rewrite ?app_nil_r; try done. by rewrite length_replicate.
  - eapply add_log_spec in E as (-> & fl' & pe' & Ea & _ & Hi'); try done.
    exists fl', (pe' ++ [set_lsn (global_lsn s) r]). split; [|done]. by rewrite app_assoc, Ea.
  - eapply flush_spec in E as [Hi' _]; [|done]. exists (fl ++ pe), []. by rewrite app_nil_r.
Qed.

(** C12: once flush_log_to_disk returns, recovery's read_all_logs returns every
    record appended so far, complete and in the order of the calls, after those
    of earlier runs; the lsns of this run are 0, 1, 2, ... in that order. *)
Theorem log_durable base rs s s' (Hr : log_run base rs s)
    (Ef : flush_log_to_disk buffer_size s = (Ret tt, s'))
    (Hfit : Z.of_nat (length (log_image (base ++ rs))) ≤ int32_max) :
  (∃ d', read_all_logs (ldisk s') = (Ret (base ++ rs), d')) ∧
  lsn <$> rs = seqZ 0 (Z.of_nat (length rs)).
Proof.
  apply log_run_inv in Hr as (fl & pe & -> & Hi). eapply flush_spec in Ef as [Hi' _]; [|done].
  pose proof (li_disk _ _ _ _ Hi') as Hb. pose proof (li_ok _ _ _ _ Hi') as Hok. rewrite app_nil_r in Hok. split.
  - destruct (read_all_logs_spec (ldisk s') (base ++ fl ++ pe) []) as (d' & E & _); try done.
    + apply Hi'.
    + by rewrite app_nil_r.
    + apply torn_nil.
    + by rewrite Hb.
    + by exists d'.
  - pose proof (li_lsn _ _ _ _ Hi) as Hl. rewrite Hl. f_equal. apply (f_equal length) in Hl.
    rewrite length_fmap, length_seqZ in Hl. rewrite Hl, Z2Nat.id; [done|apply Hi].
Qed.

(** C11: a crash during or between log writes loses no flushed record: whatever
    prefix of the buffer reached the file, recovery reads a prefix of the
    records that were appended, and it contains all records that were
    persistent before. *)
Theorem crash_reads_prefix base rs s cut d' (Hr : log_run base rs s)
    (Hcut : cut `prefix_of` take (Z.to_nat (offset_ (log_buffer s))) (buffer_ (log_buffer s)))
    (Hw : ld_wf d') (Hd : ld_bytes d' = ld_bytes (ldisk s) ++ cut)
    (Hfit : Z.of_nat (length (ld_bytes d')) ≤ int32_max) :
  ∃ seen d'', read_all_logs d' = (Ret (base ++ seen), d'') ∧ seen `prefix_of` rs ∧
    ∃ fl, ld_bytes (ldisk s) = log_image (base ++ fl) ∧ fl `prefix_of` seen.
Proof.
  apply log_run_inv in Hr as (fl & pe & -> & Hi). pose proof (li_ok _ _ _ _ Hi) as Hok.
  rewrite (li_off _ _ _ _ Hi), Nat2Z.id, (li_buf _ _ _ _ Hi) in Hcut.
  apply Forall_app in Hok as [Hb Hok]. apply Forall_app in Hok as [Hf Hp].
  destruct (prefix_image pe cut Hp Hcut) as (k & t & [k' ->] & Ht & ->).
  rewrite (li_disk _ _ _ _ Hi), app_assoc, <- log_image_app, <- app_assoc in Hd.
  destruct (read_all_logs_spec d' (base ++ fl ++ k) t) as (d'' & E & _); try done.
  { apply Forall_app in Hp as [Hp _]. by repeat (apply Forall_app; split). }
  exists (fl ++ k), d''. split; [done|]. split; [exists k'; by rewrite app_assoc|].
  exists fl. split; [apply Hi|by exists k].
Qed.

End LogLaws.

(** A run on the in-memory file system with a buffer of 50 bytes: the second
    record does not fit beside the first. *)
Module LogWitness.

Abbreviation lm := (LogManager (DiskManager MemFS.fs)).
Definition m0 : lm := new_log_manager 50 DiskWitness.d4.
Definition r1 : LogRecord := set_log_prev 5 (new_begin 1).
Definition r2 : LogRecord := new_insert 1 [1; 2; 3] (mkRid 1 0) "t".
Definition m1 : lm := snd (add_log_to_buffer 50 (Some r1) m0).
Definition m2 : lm := snd (add_log_to_buffer 50 (Some r2) m1).
Definition m3 : lm := snd (flush_log_to_disk 50 m2).
Definition rs : list LogRecord := [set_lsn 0 r1; set_lsn 1 r2].

Lemma r1_wf : log_wf r1.
Proof. split; cbn; unfold is_int32, int32_min, int32_max, INVALID_LSN; [lia|lia|lia|reflexivity|lia|discriminate]. Qed.

Lemma r2_wf : log_wf r2.
Proof.
  split; cbn; unfold is_int32, int32_min, int32_max, INVALID_LSN; [lia|lia|lia|reflexivity|lia|].
  intros rid [= <-]. unfold rid_wf, is_int32, int32_min, int32_max. simpl. lia.
Qed.

Lemma d4_log_wf : ld_wf DiskWitness.d4.
Proof. split; [apply dm_reachable_inv, DiskWitness.d4_reachable|by vm_compute]. Qed.

Lemma m2_run : log_run 50 [] rs m2.
Proof.
  apply (run_add 50 [] [set_lsn 0 r1] m1 r2 1 m2); [|exact r2_wf|by vm_compute..].
  apply (run_add 50 [] [] m0 r1 0 m1); [|exact r1_wf|by vm_compute..].
  apply run_start; [exact d4_log_wf|by vm_compute|constructor].
Qed.

Lemma log_durable_witness : ∃ d', read_all_logs (ldisk m3) = (Ret rs, d').
Proof. refine (proj1 (log_durable 50 _ [] rs m2 m3 m2_run _ _)); [lia|by vm_compute|by vm_compute]. Defined.

(** Only the first ten bytes of the second record reach the file. *)
Definition cut : list Z := take 10 (record_bytes (set_lsn 1 r2)).
Definition dcrash : DiskManager MemFS.fs := snd (write_log cut (ldisk m2)).

Lemma crash_reads_prefix_witness :
  ld_bytes (ldisk m2) ≠ [] ∧
  ∃ seen d'', read_all_logs dcrash = (Ret ([] ++ seen), d'') ∧ seen `prefix_of` rs ∧
    ∃ fl, ld_bytes (ldisk m2) = log_image ([] ++ fl) ∧ fl `prefix_of` seen.
Proof.
  split; [by vm_compute|].
  refine (crash_reads_prefix 50 _ [] rs m2 cut dcrash m2_run _ _ _ _); [lia| | |by vm_compute|by vm_compute].
  - exists (drop 10 (record_bytes (set_lsn 1 r2))). by vm_compute.
  - destruct (ld_write_ok (ldisk m2) cut (Ret tt) dcrash) as [Hw _]; [|by vm_compute|exact Hw].
    destruct (log_run_inv 50 ltac:(lia) [] rs m2 m2_run) as (fl & pe & _ & Hi). apply (li_wf _ _ _ _ _ Hi).
Defined.

End LogWitness.
