(* ===== verification/IxNode.v ===== *)
(** * B+ tree nodes (src/src/index/ix_defs.h and IxNodeHandle of
      ix_index_handle.{h,cpp})

    The index file header and its binary form, the layout of a node page, the
    comparison of keys, and the operations of IxNodeHandle on the bytes of a
    page.  The pointers [keys] and [rids] of the handle are the offsets below. *)

From S2P Require Import Prelude Defs SmMeta Values.

Definition IX_NO_PAGE : Z := -1.
Definition IX_FILE_HDR_PAGE : Z := 0.
Definition IX_LEAF_HEADER_PAGE : Z := 1.
Definition IX_INIT_ROOT_PAGE : Z := 2.
Definition IX_INIT_NUM_PAGES : Z := 3.
Definition IX_MAX_COL_LEN : Z := 512.

Record IxFileHdr := mkIxFileHdr {
  ix_first_free_page_no : Z;
  ix_num_pages : Z;
  root_page : Z;
  col_num : Z;
  col_types : list ColType;
  col_lens : list Z;
  col_tot_len : Z;
  btree_order : Z;
  keys_size : Z;
  first_leaf : Z;
  last_leaf : Z;
  tot_len : Z
}.

Definition set_root_page (r : Z) (h : IxFileHdr) : IxFileHdr :=
  mkIxFileHdr (ix_first_free_page_no h) (ix_num_pages h) r (col_num h) (col_types h) (col_lens h) (col_tot_len h)
    (btree_order h) (keys_size h) (first_leaf h) (last_leaf h) (tot_len h).
Definition set_ix_num_pages (n : Z) (h : IxFileHdr) : IxFileHdr :=
  mkIxFileHdr (ix_first_free_page_no h) n (root_page h) (col_num h) (col_types h) (col_lens h) (col_tot_len h)
    (btree_order h) (keys_size h) (first_leaf h) (last_leaf h) (tot_len h).
Definition set_first_leaf (n : Z) (h : IxFileHdr) : IxFileHdr :=
  mkIxFileHdr (ix_first_free_page_no h) (ix_num_pages h) (root_page h) (col_num h) (col_types h) (col_lens h)
    (col_tot_len h) (btree_order h) (keys_size h) n (last_leaf h) (tot_len h).
Definition set_last_leaf (n : Z) (h : IxFileHdr) : IxFileHdr :=
  mkIxFileHdr (ix_first_free_page_no h) (ix_num_pages h) (root_page h) (col_num h) (col_types h) (col_lens h)
    (col_tot_len h) (btree_order h) (keys_size h) (first_leaf h) n (tot_len h).

Definition update_tot_len (h : IxFileHdr) : IxFileHdr :=
  mkIxFileHdr (ix_first_free_page_no h) (ix_num_pages h) (root_page h) (col_num h) (col_types h) (col_lens h)
    (col_tot_len h) (btree_order h) (keys_size h) (first_leaf h) (last_leaf h)
    (4 * 4 + 4 * 6 + (4 * col_num h + 4 * col_num h)).

(** IxFileHdr::serialize: the copies to dest in their order; the assert at the
    end compares the bytes written with tot_len_. *)
Definition ix_hdr_bytes (h : IxFileHdr) : list Z :=
  le_bytes 4 (tot_len h) ++ le_bytes 4 (ix_first_free_page_no h) ++ le_bytes 4 (ix_num_pages h) ++
  le_bytes 4 (root_page h) ++ le_bytes 4 (col_num h) ++
  concat ((λ t, le_bytes 4 (coltype_code t)) <$> take (Z.to_nat (col_num h)) (col_types h)) ++
  concat (le_bytes 4 <$> take (Z.to_nat (col_num h)) (col_lens h)) ++
  le_bytes 4 (col_tot_len h) ++ le_bytes 4 (btree_order h) ++ le_bytes 4 (keys_size h) ++
  le_bytes 4 (first_leaf h) ++ le_bytes 4 (last_leaf h).
Definition ix_hdr_serialize (h : IxFileHdr) : outcome (list Z) :=
  let bs := ix_hdr_bytes h in
  if Z.of_nat (length bs) =? tot_len h then Ret bs else Throw AssertFail.

(** The loops that read col_types_ and col_lens_; a code that is no ColType
    has no value. *)
Fixpoint read_types (n : nat) (off : nat) (src : list Z) : option (list ColType) :=
  match n with
  | O => Some []
  | S n' => t ← coltype_of_code (load_i32 off src); ts ← read_types n' (off + 4) src; Some (t :: ts)
  end.
Fixpoint read_ints (n : nat) (off : nat) (src : list Z) : list Z :=
  match n with
  | O => []
  | S n' => load_i32 off src :: read_ints n' (off + 4) src
  end.

Definition ix_hdr_deserialize (src : list Z) : outcome IxFileHdr :=
  let n := Z.to_nat (load_i32 16 src) in
  let o := (20 + 4 * n + 4 * n)%nat in
  match read_types n 20 src with
  | None => Throw AssertFail
  | Some types =>
      let h := mkIxFileHdr (load_i32 4 src) (load_i32 8 src) (load_i32 12 src) (load_i32 16 src) types
                 (read_ints n (20 + 4 * n) src) (load_i32 o src) (load_i32 (o + 4) src) (load_i32 (o + 8) src)
                 (load_i32 (o + 12) src) (load_i32 (o + 16) src) (load_i32 0 src) in
      if Z.of_nat (o + 20) =? tot_len h then Ret h else Throw AssertFail
  end.

Record Iid := mkIid { iid_page : Z; iid_slot : Z }.
#[export] Instance Iid_eq_dec : EqDecision Iid.
Proof. solve_decision. Defined.

(* ------------------------------------------------------------------ *)
(** ** ix_compare                                                       *)
(* ------------------------------------------------------------------ *)

Definition ix_compare1 (a b : list Z) (t : ColType) (len : Z) : Z :=
  match t with
  | TYPE_INT => cmp3 (load_i32 0 a) (load_i32 0 b)
  | TYPE_BIGINT | TYPE_DATETIME => cmp3 (load_i64 0 a) (load_i64 0 b)
  | TYPE_FLOAT => ld_cmp3 (float_to_ld (load_u32 0 a)) (float_to_ld (load_u32 0 b))
  | TYPE_STRING => memcmp (Z.to_nat len) a b
  end.

Fixpoint ix_compare (a b : list Z) (types : list ColType) (lens : list Z) : Z :=
  match types, lens with
  | t :: types', len :: lens' =>
      let res := ix_compare1 a b t len in
      if negb (res =? 0) then res
      else ix_compare (drop (Z.to_nat len) a) (drop (Z.to_nat len) b) types' lens'
  | _, _ => 0
  end.

(* ------------------------------------------------------------------ *)
(** ** The node page                                                    *)
(* ------------------------------------------------------------------ *)

(** IxPageHdr: next_free_page_no 0, parent 4, num_key 8, is_leaf 12 (one byte,
    then padding), prev_leaf 16, next_leaf 20; sizeof 24. *)
Definition SIZEOF_IxPageHdr : Z := 24.

Definition get_size (d : list Z) : Z := load_i32 8 d.
Definition set_size (n : Z) (d : list Z) : list Z := store_i32 8 n d.
Definition get_parent_page_no (d : list Z) : Z := load_i32 4 d.
Definition set_parent_page_no (n : Z) (d : list Z) : list Z := store_i32 4 n d.
Definition is_leaf_page (d : list Z) : bool := negb (nth 12 d 0 =? 0).
Definition set_is_leaf (b : bool) (d : list Z) : list Z := splice 12 [if b then 1 else 0] d.
Definition get_prev_leaf (d : list Z) : Z := load_i32 16 d.
Definition set_prev_leaf (n : Z) (d : list Z) : list Z := store_i32 16 n d.
Definition get_next_leaf (d : list Z) : Z := load_i32 20 d.
Definition set_next_leaf (n : Z) (d : list Z) : list Z := store_i32 20 n d.
Definition set_ix_next_free (n : Z) (d : list Z) : list Z := store_i32 0 n d.
Definition is_root_page (d : list Z) : bool := get_parent_page_no d =? INVALID_PAGE_ID.

(** The page header fields that split and insert_into_parent assign, in order. *)
Definition init_page_hdr (parent : Z) (leaf : bool) (d : list Z) : list Z :=
  let d := set_ix_next_free IX_NO_PAGE d in
  let d := set_parent_page_no parent d in
  let d := set_size 0 d in
  let d := set_is_leaf leaf d in
  let d := set_prev_leaf IX_NO_PAGE d in
  set_next_leaf IX_NO_PAGE d.

Section Node.
Variable h : IxFileHdr.   (* file_hdr *)

Definition get_max_size : Z := btree_order h + 1.
Definition get_min_size : Z := Z.quot get_max_size 2.

Definition key_off (i : Z) : nat := Z.to_nat (SIZEOF_IxPageHdr + i * col_tot_len h).
Definition rid_off (i : Z) : nat := Z.to_nat (SIZEOF_IxPageHdr + keys_size h + i * 8).
Definition key_len : nat := Z.to_nat (col_tot_len h).

Definition get_key (i : Z) (d : list Z) : list Z := read_at (key_off i) key_len d.
Definition get_rid (i : Z) (d : list Z) : Rid := mkRid (load_i32 (rid_off i) d) (load_i32 (rid_off i + 4) d).
Definition set_key (i : Z) (key d : list Z) : list Z := splice (key_off i) (take key_len key) d.
Definition set_rid (i : Z) (r : Rid) (d : list Z) : list Z := splice (rid_off i) (rid_bytes r) d.
Definition value_at (i : Z) (d : list Z) : Z := page_no (get_rid i d).
(** n consecutive keys or rids from position i, as the bytes at get_key(i) and
    get_rid(i) *)
Definition keys_from (i n : Z) (d : list Z) : list Z := read_at (key_off i) (Z.to_nat (n * col_tot_len h)) d.
Definition rids_from (i n : Z) (d : list Z) : list Z := read_at (rid_off i) (Z.to_nat (n * 8)) d.

(** key_at: the first column as a number *)
Definition key_at (i : Z) (d : list Z) : Z :=
  match col_types h with
  | TYPE_BIGINT :: _ | TYPE_DATETIME :: _ => load_i64 0 (get_key i d)
  | _ => load_i32 0 (get_key i d)
  end.

Definition cmp_key (a b : list Z) : Z := ix_compare a b (col_types h) (col_lens h).

(** The while loop of lower_bound and upper_bound: [go_right cmp] is the test
    that moves left; the distance halves, so right - left is enough fuel. *)
Fixpoint search_loop (fuel : nat) (go_right : Z → bool) (target d : list Z) (left right : Z) : Z :=
  match fuel with
  | O => left
  | S fuel' =>
      if left <? right then
        let mid := left + Z.quot (right - left) 2 in
        if go_right (cmp_key (get_key mid d) target)
        then search_loop fuel' go_right target d (mid + 1) right
        else search_loop fuel' go_right target d left mid
      else left
  end.

Definition lower_bound (target d : list Z) : Z :=
  search_loop (Z.to_nat (get_size d)) (λ cmp, cmp <? 0) target d 0 (get_size d).
Definition upper_bound (target d : list Z) : Z :=
  search_loop (Z.to_nat (get_size d)) (λ cmp, cmp <=? 0) target d 1 (get_size d).

Definition leaf_lookup (key d : list Z) : option Rid :=
  let key_idx := lower_bound key d in
  if get_size d <=? key_idx then None
  else if negb (cmp_key (get_key key_idx d) key =? 0) then None
  else Some (get_rid key_idx d).

Definition internal_lookup (key d : list Z) : Z := value_at (upper_bound key d - 1) d.

(** insert_pairs: [key] and [rid] are the n keys and rids at the two pointers. *)
Definition insert_pairs (pos : Z) (key rid : list Z) (n : Z) (d : list Z) : outcome (list Z) :=
  if negb ((0 <=? pos) && (pos <=? get_size d)) then Throw AssertFail else
  if negb (0 <=? n) then Throw AssertFail else
  if negb (get_size d + n <=? get_max_size) then Throw AssertFail else
  let tail_num := get_size d - pos in
  let d := if 0 <? tail_num then
             let d := splice (key_off (pos + n)) (keys_from pos tail_num d) d in
             splice (rid_off (pos + n)) (rids_from pos tail_num d) d
           else d in
  let d := splice (key_off pos) (take (Z.to_nat (n * col_tot_len h)) key) d in
  let d := splice (rid_off pos) (take (Z.to_nat (n * 8)) rid) d in
  Ret (set_size (get_size d + n) d).

Definition insert_pair (pos : Z) (key : list Z) (r : Rid) (d : list Z) : outcome (list Z) :=
  insert_pairs pos key (rid_bytes r) 1 d.

(** insert: the resulting number of pairs is get_size afterwards. *)
Definition node_insert (key : list Z) (value : Rid) (d : list Z) : outcome (list Z) :=
  let pos := lower_bound key d in
  if (pos <? get_size d) && (cmp_key (get_key pos d) key =? 0) then Ret d
  else insert_pair pos key value d.

Definition erase_pair (pos : Z) (d : list Z) : outcome (list Z) :=
  if negb ((0 <=? pos) && (pos <? get_size d)) then Throw AssertFail else
  let tail_num := get_size d - pos - 1 in
  let d := if 0 <? tail_num then
             let d := splice (key_off pos) (keys_from (pos + 1) tail_num d) d in
             splice (rid_off pos) (rids_from (pos + 1) tail_num d) d
           else d in
  Ret (set_size (get_size d - 1) d).

Definition node_remove (key d : list Z) : outcome (list Z) :=
  let pos := lower_bound key d in
  if (pos <? get_size d) && (cmp_key (get_key pos d) key =? 0) then erase_pair pos d else Ret d.

Definition remove_and_return_only_child (d : list Z) : outcome (Z * list Z) :=
  if negb (get_size d =? 1) then Throw AssertFail else
  let child := value_at 0 d in
  d ← erase_pair 0 d;
  if negb (get_size d =? 0) then Throw AssertFail else Ret (child, d).

(** find_child: the first slot whose rid names the child's page *)
Fixpoint find_child_loop (fuel : nat) (child i : Z) (d : list Z) : Z :=
  match fuel with
  | O => i
  | S fuel' =>
      if i <? get_size d then
        if value_at i d =? child then i else find_child_loop fuel' child (i + 1) d
      else i
  end.
Definition find_child (child : Z) (d : list Z) : outcome Z :=
  let rid_idx := find_child_loop (Z.to_nat (get_size d)) child 0 d in
  if negb (rid_idx <? get_size d) then Throw AssertFail else Ret rid_idx.

End Node.
