(* ===== verification/IxIndex.v ===== *)
(** * The B+ tree (IxIndexHandle of src/src/index/ix_index_handle.{h,cpp} and
      src/src/index/ix_scan.{h,cpp})

    All operations of the index over the [PageStore] interface.  A node handle
    is the pinned frame it points to; its page is read and written through the
    frame, so that two handles of one page share it.  Loops that follow page
    numbers get the number of pages as fuel. *)

From S2P Require Import Prelude Defs Values BufferPool IxNode.

Section IxIndexHandle.
Context {S : Type} `{PageStore S}.
Variable fd : Z.   (* fd_ *)

Record IxIndex := mkIxIndex { ix_store : S; ix_hdr : IxFileHdr }.

Definition on_ix {A} (m : ST S A) : ST IxIndex A := λ st,
  let '(r, s) := m (ix_store st) in (r, mkIxIndex s (ix_hdr st)).
Definition get_ixhdr : ST IxIndex IxFileHdr := λ st, (Ret (ix_hdr st), st).
Definition modify_ixhdr (f : IxFileHdr → IxFileHdr) : ST IxIndex unit :=
  modify_st (λ st, mkIxIndex (ix_store st) (f (ix_hdr st))).
Definition node_data (n : Z) : ST IxIndex (list Z) := λ st, (Ret (ps_data n (ix_store st)), st).
Definition put_node (n : Z) (d : list Z) : ST IxIndex unit :=
  modify_st (λ st, mkIxIndex (ps_put n d (ix_store st)) (ix_hdr st)).
(** node->get_page_no() and node->get_page_id() *)
Definition node_page_id (n : Z) : ST IxIndex PageId := λ st, (Ret (ps_page_id n (ix_store st)), st).
Definition node_page_no (n : Z) : ST IxIndex Z := p ← node_page_id n; mret (pid_no p).
(** buffer_pool_manager_->unpin_page(node->get_page_id(), dirty) *)
Definition unpin_node (n : Z) (dirty : bool) : ST IxIndex bool :=
  p ← node_page_id n; on_ix (ps_unpin p dirty).
(** An update of the page through the handle. *)
Definition modify_node (n : Z) (f : list Z → list Z) : ST IxIndex unit :=
  d ← node_data n; put_node n (f d).
Definition update_node (n : Z) (f : list Z → outcome (list Z)) : ST IxIndex unit :=
  d ← node_data n; d' ← lift_outcome (f d); put_node n d'.
Definition fuel_of (h : IxFileHdr) : nat := Z.to_nat (ix_num_pages h + 1).

Definition fetch_node (page_no : Z) : ST IxIndex Z :=
  page ← on_ix (ps_fetch (mkPageId fd page_no));
  match page with None => throw NullDeref | Some n => mret n end.

Definition create_node : ST IxIndex Z :=
  modify_ixhdr (λ h, set_ix_num_pages (ix_num_pages h + 1) h) ;;
  page ← on_ix (ps_new fd);
  match page with None => throw NullDeref | Some (n, _) => mret n end.

Definition release_node_handle : ST IxIndex unit :=
  modify_ixhdr (λ h, set_ix_num_pages (ix_num_pages h - 1) h).

(* ------------------------------------------------------------------ *)
(** ** Search                                                           *)
(* ------------------------------------------------------------------ *)

Fixpoint find_leaf_loop (fuel : nat) (key : list Z) (find_first : bool) (node : Z) : ST IxIndex Z :=
  d ← node_data node;
  if is_leaf_page d then mret node else
  match fuel with
  | O => throw Diverge
  | Datatypes.S fuel' =>
      h ← get_ixhdr;
      let child_page_no := if find_first then value_at h 0 d else internal_lookup h key d in
      child ← fetch_node child_page_no;
      unpin_node node false ;;
      find_leaf_loop fuel' key find_first child
  end.

Definition find_leaf_page (key : list Z) (find_first : bool) : ST IxIndex Z :=
  h ← get_ixhdr;
  node ← fetch_node (root_page h);
  find_leaf_loop (fuel_of h) key find_first node.

(** The found rid is what get_value pushes to result. *)
Definition get_value (key : list Z) : ST IxIndex (option Rid) :=
  leaf ← find_leaf_page key false;
  h ← get_ixhdr;
  d ← node_data leaf;
  let value := leaf_lookup h key d in
  unpin_node leaf false ;;
  mret value.

Definition leaf_end : ST IxIndex Iid :=
  h ← get_ixhdr;
  node ← fetch_node (last_leaf h);
  d ← node_data node;
  let iid := mkIid (last_leaf h) (get_size d) in
  unpin_node node false ;;
  mret iid.

Definition leaf_begin : ST IxIndex Iid := h ← get_ixhdr; mret (mkIid (first_leaf h) 0).

(** The end of lower_bound and upper_bound: the slot as an Iid. *)
Definition slot_iid (leaf slot_no : Z) : ST IxIndex Iid :=
  d ← node_data leaf;
  n ← node_page_no leaf;
  h ← get_ixhdr;
  iid ← (if slot_no <? get_size d then mret (mkIid n slot_no)
         else if negb (n =? last_leaf h) then mret (mkIid (get_next_leaf d) 0)
         else leaf_end);
  unpin_node leaf false ;;
  mret iid.

Definition ix_lower_bound (key : list Z) : ST IxIndex Iid :=
  leaf ← find_leaf_page key false;
  h ← get_ixhdr;
  d ← node_data leaf;
  slot_iid leaf (lower_bound h key d).

Definition ix_upper_bound (key : list Z) : ST IxIndex Iid :=
  leaf ← find_leaf_page key false;
  h ← get_ixhdr;
  d ← node_data leaf;
  let slot_no := lower_bound h key d in
  let slot_no := if (slot_no <? get_size d) && (cmp_key h (get_key h slot_no d) key =? 0)
                 then slot_no + 1 else slot_no in
  slot_iid leaf slot_no.

(** get_rid throws with the node still pinned. *)
Definition ix_get_rid (iid : Iid) : ST IxIndex Rid :=
  node ← fetch_node (iid_page iid);
  d ← node_data node;
  h ← get_ixhdr;
  if get_size d <=? iid_slot iid then throw IndexEntryNotFoundError else
  unpin_node node false ;;
  d ← node_data node;
  mret (get_rid h (iid_slot iid) d).

(** IxScan::next, is_end and rid *)
Definition ix_scan_is_end (iid end_ : Iid) : bool := bool_decide (iid = end_).
Definition ix_scan_next (iid end_ : Iid) : ST IxIndex Iid :=
  assert_that (negb (ix_scan_is_end iid end_)) ;;
  node ← fetch_node (iid_page iid);
  d ← node_data node;
  h ← get_ixhdr;
  assert_that (is_leaf_page d) ;;
  assert_that (iid_slot iid <? get_size d) ;;
  let slot := iid_slot iid + 1 in
  let iid' := if negb (iid_page iid =? last_leaf h) && (slot =? get_size d)
              then mkIid (get_next_leaf d) 0 else mkIid (iid_page iid) slot in
  unpin_node node false ;;
  mret iid'.
Definition ix_scan_rid (iid : Iid) : ST IxIndex Rid := ix_get_rid iid.

(* ------------------------------------------------------------------ *)
(** ** Maintenance                                                      *)
(* ------------------------------------------------------------------ *)

Definition maintain_child (node child_idx : Z) : ST IxIndex unit :=
  d ← node_data node;
  if is_leaf_page d then mret tt else
  h ← get_ixhdr;
  child ← fetch_node (value_at h child_idx d);
  n ← node_page_no node;
  modify_node child (set_parent_page_no n) ;;
  unpin_node child true ;;
  mret tt.

(** for (i = from; i < node->get_size(); ++i) maintain_child(node, i), where the
    size does not change *)
Definition maintain_children (node from : Z) : ST IxIndex unit :=
  d ← node_data node;
  for_each (maintain_child node) (seqZ from (get_size d - from)).

(** After the unpin inside the assert, curr is the parent's handle, unpinned. *)
Fixpoint maintain_parent_loop (fuel : nat) (curr : Z) : ST IxIndex unit :=
  d ← node_data curr;
  if get_parent_page_no d =? IX_NO_PAGE then mret tt else
  match fuel with
  | O => throw Diverge
  | Datatypes.S fuel' =>
      parent ← fetch_node (get_parent_page_no d);
      pd ← node_data parent;
      n ← node_page_no curr;
      h ← get_ixhdr;
      rank ← lift_outcome (find_child h n pd);
      d ← node_data curr;
      if bool_decide (get_key h rank pd = get_key h 0 d) then
        ok ← unpin_node parent true; assert_that ok
      else
        put_node parent (set_key h rank (get_key h 0 d) pd) ;;
        ok ← unpin_node parent true;
        assert_that ok ;;
        maintain_parent_loop fuel' parent
  end.
Definition maintain_parent (node : Z) : ST IxIndex unit :=
  h ← get_ixhdr; maintain_parent_loop (fuel_of h) node.

Definition erase_leaf (leaf : Z) : ST IxIndex unit :=
  d ← node_data leaf;
  assert_that (is_leaf_page d) ;;
  prev ← fetch_node (get_prev_leaf d);
  d ← node_data leaf;
  modify_node prev (set_next_leaf (get_next_leaf d)) ;;
  unpin_node prev true ;;
  d ← node_data leaf;
  next ← fetch_node (get_next_leaf d);
  d ← node_data leaf;
  modify_node next (set_prev_leaf (get_prev_leaf d)) ;;
  unpin_node next true ;;
  mret tt.

(* ------------------------------------------------------------------ *)
(** ** Insertion                                                        *)
(* ------------------------------------------------------------------ *)

Definition split (node : Z) : ST IxIndex Z :=
  new_node ← create_node;
  d ← node_data node;
  modify_node new_node (init_page_hdr (get_parent_page_no d) (is_leaf_page d)) ;;
  h ← get_ixhdr;
  d ← node_data node;
  let total_size := get_size d in
  let split_pos := Z.quot total_size 2 in
  let move_count := total_size - split_pos in
  update_node new_node (insert_pairs h 0 (keys_from h split_pos move_count d) (rids_from h split_pos move_count d)
                                     move_count) ;;
  modify_node node (set_size split_pos) ;;
  d ← node_data node;
  n ← node_page_no node;
  n' ← node_page_no new_node;
  (if is_leaf_page d then
     modify_node new_node (set_prev_leaf n) ;;
     modify_node new_node (set_next_leaf (get_next_leaf d)) ;;
     next_leaf ← fetch_node (get_next_leaf d);
     modify_node next_leaf (set_prev_leaf n') ;;
     unpin_node next_leaf true ;;
     modify_node node (set_next_leaf n') ;;
     h ← get_ixhdr;
     if last_leaf h =? n then modify_ixhdr (set_last_leaf n') else mret tt
   else maintain_children new_node 0) ;;
  mret new_node.

Fixpoint insert_into_parent (fuel : nat) (old_node : Z) (key : list Z) (new_node : Z) : ST IxIndex unit :=
  od ← node_data old_node;
  old_no ← node_page_no old_node;
  new_no ← node_page_no new_node;
  if is_root_page od then
    root ← create_node;
    modify_node root (init_page_hdr IX_NO_PAGE false) ;;
    h ← get_ixhdr;
    od ← node_data old_node;
    update_node root (insert_pair h 0 (get_key h 0 od) (mkRid old_no (-1))) ;;
    update_node root (insert_pair h 1 key (mkRid new_no (-1))) ;;
    root_no ← node_page_no root;
    modify_node old_node (set_parent_page_no root_no) ;;
    modify_node new_node (set_parent_page_no root_no) ;;
    modify_ixhdr (set_root_page root_no) ;;
    unpin_node root true ;;
    mret tt
  else
    parent ← fetch_node (get_parent_page_no od);
    h ← get_ixhdr;
    pd ← node_data parent;
    old_idx ← lift_outcome (find_child h old_no pd);
    update_node parent (insert_pair h (old_idx + 1) key (mkRid new_no (-1))) ;;
    parent_no ← node_page_no parent;
    modify_node new_node (set_parent_page_no parent_no) ;;
    pd ← node_data parent;
    (if get_max_size h <=? get_size pd then
       match fuel with
       | O => throw Diverge
       | Datatypes.S fuel' =>
           new_parent ← split parent;
           npd ← node_data new_parent;
           insert_into_parent fuel' parent (get_key h 0 npd) new_parent ;;
           unpin_node new_parent true ;;
           mret tt
       end
     else mret tt) ;;
    unpin_node parent true ;;
    mret tt.

Definition insert_entry (key : list Z) (value : Rid) : ST IxIndex Z :=
  found ← get_value key;
  match found with
  | Some _ => throw (RMDBError "Unique index constraint violated")
  | None =>
      leaf ← find_leaf_page key false;
      h ← get_ixhdr;
      update_node leaf (node_insert h key value) ;;
      insert_page_no ← node_page_no leaf;
      d ← node_data leaf;
      insert_page_no ←
        (if get_max_size h <=? get_size d then
           new_leaf ← split leaf;
           nd ← node_data new_leaf;
           n' ← node_page_no new_leaf;
           let insert_page_no := if 0 <=? cmp_key h key (get_key h 0 nd) then n' else insert_page_no in
           h' ← get_ixhdr;
           insert_into_parent (fuel_of h') leaf (get_key h 0 nd) new_leaf ;;
           unpin_node new_leaf true ;;
           mret insert_page_no
         else mret insert_page_no);
      unpin_node leaf true ;;
      mret insert_page_no
  end.

(* ------------------------------------------------------------------ *)
(** ** Deletion                                                         *)
(* ------------------------------------------------------------------ *)

Definition adjust_root (old_root_node : Z) : ST IxIndex bool :=
  d ← node_data old_root_node;
  h ← get_ixhdr;
  if negb (is_leaf_page d) && (get_size d =? 1) then
    child ← fetch_node (value_at h 0 d);
    modify_node child (set_parent_page_no IX_NO_PAGE) ;;
    child_no ← node_page_no child;
    modify_ixhdr (set_root_page child_no) ;;
    unpin_node child true ;;
    mret true
  else if is_leaf_page d && (get_size d =? 0) then
    n ← node_page_no old_root_node;
    modify_ixhdr (λ h, set_last_leaf n (set_first_leaf n (set_root_page n h))) ;;
    mret false
  else mret false.

Definition redistribute (neighbor_node node parent index : Z) : ST IxIndex unit :=
  h ← get_ixhdr;
  (if index =? 0 then
     nd ← node_data neighbor_node;
     update_node node (λ d, insert_pair h (get_size d) (get_key h 0 nd) (get_rid h 0 nd) d) ;;
     update_node neighbor_node (erase_pair h 0) ;;
     d ← node_data node;
     if negb (is_leaf_page d) then maintain_child node (get_size d - 1) else mret tt
   else
     nd ← node_data neighbor_node;
     let last := get_size nd - 1 in
     update_node node (insert_pair h 0 (get_key h last nd) (get_rid h last nd)) ;;
     update_node neighbor_node (erase_pair h last) ;;
     d ← node_data node;
     if negb (is_leaf_page d) then maintain_child node 0 else mret tt) ;;
  n ← node_page_no node;
  pd ← node_data parent;
  node_idx ← lift_outcome (find_child h n pd);
  d ← node_data node;
  modify_node parent (set_key h node_idx (get_key h 0 d)) ;;
  m ← node_page_no neighbor_node;
  pd ← node_data parent;
  neighbor_idx ← lift_outcome (find_child h m pd);
  nd ← node_data neighbor_node;
  modify_node parent (set_key h neighbor_idx (get_key h 0 nd)) ;;
  maintain_parent parent.

(** coalesce; [rec] is the recursive call on the parent.  The swap is visible
    to the caller: the second result is what its variable neighbor names
    afterwards. *)
Definition coalesce (rec : Z → ST IxIndex bool) (neighbor_node node parent index : Z) : ST IxIndex (bool * Z) :=
  let '(neighbor_node, node, index) :=
    if index =? 0 then (node, neighbor_node, 1) else (neighbor_node, node, index) in
  h ← get_ixhdr;
  nd ← node_data neighbor_node;
  let old_size := get_size nd in
  d ← node_data node;
  update_node neighbor_node
    (insert_pairs h old_size (keys_from h 0 (get_size d) d) (rids_from h 0 (get_size d) d) (get_size d)) ;;
  nd ← node_data neighbor_node;
  n ← node_page_no node;
  m ← node_page_no neighbor_node;
  (if is_leaf_page nd then
     (if last_leaf h =? n then modify_ixhdr (set_last_leaf m) else mret tt) ;;
     erase_leaf node
   else maintain_children neighbor_node old_size) ;;
  update_node parent (erase_pair h index) ;;
  pd ← node_data parent;
  (if 0 <? get_size pd then
     left_idx ← lift_outcome (find_child h m pd);
     nd ← node_data neighbor_node;
     modify_node parent (set_key h left_idx (get_key h 0 nd)) ;;
     maintain_parent parent
   else mret tt) ;;
  r ← rec parent;
  mret (r, neighbor_node).

Fixpoint coalesce_or_redistribute (fuel : nat) (node : Z) : ST IxIndex bool :=
  d ← node_data node;
  h ← get_ixhdr;
  if is_root_page d then adjust_root node else
  if get_min_size h <=? get_size d then mret false else
  match fuel with
  | O => throw Diverge
  | Datatypes.S fuel' =>
      parent ← fetch_node (get_parent_page_no d);
      n ← node_page_no node;
      pd ← node_data parent;
      index ← lift_outcome (find_child h n pd);
      neighbor ← fetch_node (if index =? 0 then value_at h 1 pd else value_at h (index - 1) pd);
      nd ← node_data neighbor;
      d ← node_data node;
      if 2 * get_min_size h <=? get_size nd + get_size d then
        redistribute neighbor node parent index ;;
        unpin_node neighbor true ;;
        unpin_node parent true ;;
        mret false
      else
        p ← coalesce (coalesce_or_redistribute fuel') neighbor node parent index;
        let '(parent_should_delete, neighbor) := p in
        unpin_node neighbor true ;;
        unpin_node parent true ;;
        mret parent_should_delete
  end.

Definition delete_entry (key : list Z) : ST IxIndex bool :=
  leaf ← find_leaf_page key false;
  h ← get_ixhdr;
  d ← node_data leaf;
  let old_size := get_size d in
  update_node leaf (node_remove h key) ;;
  d ← node_data leaf;
  if get_size d =? old_size then unpin_node leaf false ;; mret false
  else
    (if negb (is_root_page d) && (0 <? get_size d) then maintain_parent leaf else mret tt) ;;
    coalesce_or_redistribute (fuel_of h) leaf ;;
    unpin_node leaf true ;;
    mret true.

End IxIndexHandle.
Arguments IxIndex : clear implicits.
