(* ===== verification/IxManager.v ===== *)
(** * Index manager (src/src/index/ix_manager.h, IxIndexHandle's constructor)

    Naming, creation, opening and closing of index files over the buffer pool
    and the disk manager. *)

From S2P Require Import Prelude Defs SmMeta Values Replacer Posix DiskManager BufferPool RmManager IxNode IxIndex.

(** get_index_name on column names; the overload on ColMeta takes their names *)
Definition get_index_name (filename : string) (index_cols : list string) : string :=
  (fold_left (λ n c, n +:+ "_" +:+ c) index_cols filename +:+ ".idx")%string.
Definition get_index_name_cols (filename : string) (index_cols : list ColMeta) : string :=
  get_index_name filename (cm_name <$> index_cols).

Definition btree_order_for (col_tot_len : Z) : Z := (PAGE_SIZE - SIZEOF_IxPageHdr) / (col_tot_len + 8) - 1.

(** The header create_index writes. *)
Definition ix_init_hdr (index_cols : list ColMeta) : IxFileHdr :=
  let len := foldr Z.add 0 (cm_len <$> index_cols) in
  let order := btree_order_for len in
  update_tot_len
    (mkIxFileHdr IX_NO_PAGE IX_INIT_NUM_PAGES IX_INIT_ROOT_PAGE (Z.of_nat (length index_cols))
       (cm_type <$> index_cols) (cm_len <$> index_cols) len order ((order + 1) * len)
       IX_INIT_ROOT_PAGE IX_INIT_ROOT_PAGE 0).

(** The two node pages create_index writes: an empty leaf with both links to
    one page. *)
Definition empty_leaf (link : Z) : list Z :=
  let d := zero_page in
  let d := set_ix_next_free IX_NO_PAGE d in
  let d := set_parent_page_no IX_NO_PAGE d in
  let d := set_size 0 d in
  let d := set_is_leaf true d in
  let d := set_prev_leaf link d in
  set_next_leaf link d.

Section IxManager.
Context {R OS : Type} `{Replacer R, Posix OS}.
Abbreviation pool := (BPM R (DiskManager OS)).

Definition ix_exists (filename : string) (index_cols : list string) (s : pool) : bool :=
  is_file (get_index_name filename index_cols) (disk s).

Definition create_index (filename : string) (index_cols : list ColMeta) : ST pool unit :=
  let ix_name := get_index_name_cols filename index_cols in
  on_disk (create_file ix_name) ;;
  fd ← on_disk (open_file ix_name);
  let h := ix_init_hdr index_cols in
  if IX_MAX_COL_LEN <? col_tot_len h then throw (InvalidColLengthError (col_tot_len h)) else
  assert_that (2 <? btree_order h) ;;
  data ← lift_outcome (ix_hdr_serialize h);
  on_disk (write_page fd IX_FILE_HDR_PAGE data) ;;
  on_disk (write_page fd IX_LEAF_HEADER_PAGE (empty_leaf IX_INIT_ROOT_PAGE)) ;;
  on_disk (write_page fd IX_INIT_ROOT_PAGE (empty_leaf IX_LEAF_HEADER_PAGE)) ;;
  on_disk (set_fd2pageno fd (IX_INIT_NUM_PAGES - 1)) ;;
  on_disk (close_file fd).

Definition destroy_index (filename : string) (index_cols : list string) : ST pool unit :=
  on_disk (destroy_file (get_index_name filename index_cols)).

(** IxIndexHandle::IxIndexHandle: the first read fills the pointer variable
    itself, which is then replaced; it also moves the page counter by one. *)
Definition ix_index_handle (fd : Z) : ST pool IxFileHdr :=
  read_bytes fd IX_FILE_HDR_PAGE 8 ;;
  buf ← read_bytes fd IX_FILE_HDR_PAGE PAGE_SIZE;
  h ← lift_outcome (ix_hdr_deserialize buf);
  s ← get_st;
  on_disk (set_fd2pageno fd (get_fd2pageno fd (disk s) + 1)) ;;
  mret h.

Definition open_index (filename : string) (index_cols : list string) : ST pool (Z * IxFileHdr) :=
  fd ← on_disk (open_file (get_index_name filename index_cols));
  h ← ix_index_handle fd;
  mret (fd, h).

Definition close_index (fd : Z) (h : IxFileHdr) : ST pool unit :=
  data ← lift_outcome (ix_hdr_serialize h);
  on_disk (write_page fd IX_FILE_HDR_PAGE data) ;;
  flush_all_pages fd ;;
  s ← get_st;
  for_each (λ page_no, delete_page (mkPageId fd page_no) ;; mret tt) (seqZ 0 (get_fd2pageno fd (disk s))) ;;
  on_disk (close_file fd).

End IxManager.
