(* ===== verification/IxNodeSpec.v ===== *)
(** * Correctness of B+ tree nodes

    A node page as a list of (key, rid) pairs: what the byte-level operations of
    [IxNode] do to that list, and that binary search and the sorted insertions
    and removals are right on sorted nodes. *)

From S2P Require Import Prelude Defs SmMeta Values IxNode.

(* ------------------------------------------------------------------ *)
(** ** Arrays in memory                                                 *)
(* ------------------------------------------------------------------ *)

(** Element i of an array of w-byte elements that starts at B. *)
Definition slot (B w i : nat) (d : list Z) : list Z := read_at (B + i * w) w d.

Lemma read_at_read_at {A} o n o' n' (d : list A) : (o' + n' ≤ n)%nat →
  read_at o' n' (read_at o n d) = read_at (o + o') n' d.
Proof.
  intros Hl. unfold read_at. rewrite skipn_firstn_comm, take_take, drop_drop.
  f_equal. lia.
Qed.

Lemma slot_read B w p m j d : (j < m)%nat → slot 0 w j (read_at (B + p * w) (m * w) d) = slot B w (p + j) d.
Proof.
  intros Hj. unfold slot. rewrite read_at_read_at by nia. f_equal. lia.
Qed.

Lemma slot_splice_in B w p m i src d : (p ≤ i < p + m)%nat → length src = (m * w)%nat →
  (B + p * w + m * w ≤ length d)%nat → slot B w i (splice (B + p * w) src d) = slot 0 w (i - p) src.
Proof.
  intros Hi Hs Hd. unfold slot.
  assert (read_at (B + p * w) (length src) (splice (B + p * w) src d) = src) as E by (apply read_splice_eq; lia).
  rewrite <- E at 2. rewrite read_at_read_at by (rewrite Hs; nia). f_equal. nia.
Qed.

Lemma slot_splice_out B w p m i src d : ((i < p)%nat ∨ (p + m ≤ i)%nat) → length src = (m * w)%nat →
  (B + p * w + m * w ≤ length d)%nat → slot B w i (splice (B + p * w) src d) = slot B w i d.
Proof.
  intros Hi Hs Hd. unfold slot. apply read_splice_ne; [lia|]. unfold apart. rewrite Hs.
  destruct Hi; [right|left]; nia.
Qed.

(** A write elsewhere. *)
Lemma slot_splice_ne B w i off src d : (off ≤ length d)%nat → apart off (length src) (B + i * w) w →
  slot B w i (splice off src d) = slot B w i d.
Proof. intros Hl Ha. by apply read_splice_ne. Qed.

(* ------------------------------------------------------------------ *)
(** ** The order of keys                                                *)
(* ------------------------------------------------------------------ *)

(** No float column of the key is a NaN. *)
Fixpoint key_no_nan (types : list ColType) (lens : list Z) (k : list Z) : Prop :=
  match types, lens with
  | t :: types', len :: lens' => not_nan t k ∧ key_no_nan types' lens' (drop (Z.to_nat len) k)
  | _, _ => True
  end.

Lemma ix_compare1_field a b t len : ix_compare1 a b t len = field_cmp t len a b.
Proof. by destruct t. Qed.

Lemma ix_compare_antisym types lens a b : ix_compare b a types lens = - ix_compare a b types lens.
Proof.
  revert lens a b. induction types as [|t types IH]; intros [|len lens] a b; try done. cbn [ix_compare].
  rewrite !ix_compare1_field, (field_cmp_antisym t len a b), IH.
  destruct (Z.eqb_spec (field_cmp t len a b) 0) as [->|Hn]; [done|].
  destruct (Z.eqb_spec (- field_cmp t len a b) 0); [lia|done].
Qed.

Lemma ix_compare_trans types lens a b c :
  key_no_nan types lens a → key_no_nan types lens b → key_no_nan types lens c →
  ix_compare a b types lens ≤ 0 → ix_compare b c types lens ≤ 0 → ix_compare a c types lens ≤ 0.
Proof.
  revert lens a b c. induction types as [|t types IH]; intros [|len lens] a b c; try done. cbn [ix_compare key_no_nan].
  intros [Ha Ha'] [Hb Hb'] [Hc Hc']. rewrite !ix_compare1_field.
  pose proof (field_cmp_trans t len a b c Ha Hb Hc) as T1. pose proof (field_cmp_trans t len b c a Hb Hc Ha) as T2.
  pose proof (field_cmp_trans t len c a b Hc Ha Hb) as T3.
  rewrite (field_cmp_antisym t len a c), (field_cmp_antisym t len a b) in T2.
  rewrite (field_cmp_antisym t len a c), (field_cmp_antisym t len b c) in T3.
  specialize (IH lens (drop (Z.to_nat len) a) (drop (Z.to_nat len) b) (drop (Z.to_nat len) c) Ha' Hb' Hc').
  destruct (Z.eqb_spec (field_cmp t len a b) 0), (Z.eqb_spec (field_cmp t len b c) 0),
    (Z.eqb_spec (field_cmp t len a c) 0); simpl; intros; try lia; auto.
Qed.

(* ------------------------------------------------------------------ *)
(** ** Layout                                                           *)
(* ------------------------------------------------------------------ *)

(** The header values create_index computes. *)
Record ix_layout (h : IxFileHdr) : Prop := {
  il_len : 0 < col_tot_len h;
  il_order : 2 < btree_order h;
  il_keys : keys_size h = (btree_order h + 1) * col_tot_len h;
  il_fit : SIZEOF_IxPageHdr + keys_size h + (btree_order h + 1) * 8 ≤ PAGE_SIZE;
  il_types : length (col_types h) = length (col_lens h);
  il_pos : Forall (λ l, 0 < l) (col_lens h);
  il_sum : col_tot_len h = foldr Z.add 0 (col_lens h)
}.

Section NodeSpec.
Context (h : IxFileHdr) (Hlay : ix_layout h).

(** A page that holds a node of at most get_max_size pairs. *)
Definition node_ok (d : list Z) : Prop :=
  Z.of_nat (length d) = PAGE_SIZE ∧ 0 ≤ get_size d ≤ get_max_size h.

Definition max_pairs : nat := Z.to_nat (btree_order h + 1).
Definition rid_base : nat := Z.to_nat (SIZEOF_IxPageHdr + keys_size h).

Lemma key_off_slot i : 0 ≤ i → key_off h i = (24 + Z.to_nat i * key_len h)%nat.
Proof. intros Hi. unfold key_off, key_len, SIZEOF_IxPageHdr. pose proof (il_len h Hlay). lia. Qed.

Lemma rid_off_slot i : 0 ≤ i → rid_off h i = (rid_base + Z.to_nat i * 8)%nat.
Proof.
  intros Hi. unfold rid_off, rid_base, SIZEOF_IxPageHdr. pose proof (il_keys h Hlay). pose proof (il_len h Hlay).
  pose proof (il_order h Hlay). nia.
Qed.

Lemma layout_nat : (0 < key_len h)%nat ∧ rid_base = (24 + max_pairs * key_len h)%nat ∧
  (rid_base + max_pairs * 8 ≤ Z.to_nat PAGE_SIZE)%nat.
Proof.
  pose proof (il_keys h Hlay) as Hk. pose proof (il_len h Hlay). pose proof (il_order h Hlay).
  pose proof (il_fit h Hlay) as Hf. unfold rid_base, max_pairs, key_len, SIZEOF_IxPageHdr, PAGE_SIZE in *.
  rewrite Hk in *. split_and!; [lia| |].
  - rewrite Z2Nat.inj_add, Z2Nat.inj_mul by nia. lia.
  - rewrite Z2Nat.inj_add, Z2Nat.inj_mul by nia. rewrite <- (Z2Nat.id (btree_order h + 1)) in Hf by lia.
    rewrite <- (Z2Nat.id (col_tot_len h)) in Hf by lia. lia.
Qed.

Definition key_slot (i : nat) (d : list Z) : list Z := slot 24 (key_len h) i d.
Definition rid_slot (i : nat) (d : list Z) : list Z := slot rid_base 8 i d.
Definition rid_parse (bs : list Z) : Rid := mkRid (load_i32 0 bs) (load_i32 4 bs).

Lemma get_key_slot i d : 0 ≤ i → get_key h i d = key_slot (Z.to_nat i) d.
Proof. intros Hi. unfold get_key, key_slot, slot. by rewrite key_off_slot. Qed.

Lemma get_rid_slot i d : 0 ≤ i → get_rid h i d = rid_parse (rid_slot (Z.to_nat i) d).
Proof.
  intros Hi. unfold get_rid, rid_parse, rid_slot, slot. rewrite rid_off_slot by done.
  set (o := (rid_base + _)%nat). rewrite !load_i32_read, !read_at_read_at by lia. by rewrite Nat.add_0_r.
Qed.

Lemma rid_parse_bytes r k : rid_wf r → rid_parse (rid_bytes r ++ k) = r.
Proof.
  intros [Hp Hs]. unfold rid_parse, rid_bytes. rewrite <- app_assoc.
  assert (drop 0 (le_bytes 4 (page_no r) ++ le_bytes 4 (slot_no r) ++ k) =
          le_bytes 4 (page_no r) ++ le_bytes 4 (slot_no r) ++ k) as E by done.
  apply cur_i32 in E as [-> E]; [|done]. change (0 + 4)%nat with 4%nat in E.
  apply cur_i32 in E as [-> _]; [|done]. by destruct r.
Qed.

(** The pairs of a node. *)
Definition node_pairs (d : list Z) : list (list Z * Rid) :=
  (λ i, (key_slot i d, rid_parse (rid_slot i d))) <$> seq 0 (Z.to_nat (get_size d)).

Lemma length_node_pairs d : length (node_pairs d) = Z.to_nat (get_size d).
Proof. unfold node_pairs. by rewrite length_fmap, length_seq. Qed.

Lemma node_pairs_lookup d i : (i < Z.to_nat (get_size d))%nat →
  node_pairs d !! i = Some (key_slot i d, rid_parse (rid_slot i d)).
Proof.
  intros Hi. unfold node_pairs. rewrite list_lookup_fmap, lookup_seq_lt by done. done.
Qed.

(* ------------------------------------------------------------------ *)
(** ** Writes to the arrays and to the size                             *)
(* ------------------------------------------------------------------ *)

(** The parts of the page header that node operations keep. *)
Definition hdr_same (d d' : list Z) : Prop :=
  read_at 0 8 d' = read_at 0 8 d ∧ read_at 12 12 d' = read_at 12 12 d.

Lemma hdr_same_trans d1 d2 d3 : hdr_same d1 d2 → hdr_same d2 d3 → hdr_same d1 d3.
Proof. intros [? ?] [? ?]. split; congruence. Qed.

Lemma hdr_same_fields d d' : hdr_same d d' →
  get_parent_page_no d' = get_parent_page_no d ∧ is_leaf_page d' = is_leaf_page d ∧
  get_prev_leaf d' = get_prev_leaf d ∧ get_next_leaf d' = get_next_leaf d.
Proof.
  intros [H1 H2].
  assert (∀ o, (o + 4 ≤ 12)%nat → read_at (12 + o) 4 d' = read_at (12 + o) 4 d) as H3.
  { intros o Ho. rewrite <- !(read_at_read_at 12 12 o 4) by done. by rewrite H2. }
  unfold get_parent_page_no, get_prev_leaf, get_next_leaf, is_leaf_page. rewrite !load_i32_read.
  pose proof (H3 4%nat ltac:(lia)) as H16. pose proof (H3 8%nat ltac:(lia)) as H20.
  change (12 + 4)%nat with 16%nat in H16. change (12 + 8)%nat with 20%nat in H20. rewrite H16, H20.
  assert (read_at 4 4 d' = read_at 4 4 d) as ->.
  { etransitivity; [symmetry; apply (read_at_read_at 0 8 4 4); lia|]. rewrite H1.
    apply (read_at_read_at 0 8 4 4). lia. }
  split_and!; try done. do 2 f_equal.
  assert (∀ (l : list Z), nth 12 l 0 = nth 0 (read_at 12 12 l) 0) as Hn.
  { intros l. unfold read_at. do 12 (destruct l as [|? l]; [done|]). by destruct l. }
  by rewrite !Hn, H2.
Qed.

(** Writing m elements at position p of one array. *)
Record array_write (d d' : list Z) : Prop := {
  aw_len : length d' = length d;
  aw_hdr : hdr_same d d';
  aw_size : get_size d' = get_size d
}.

Lemma hdr_write off src d : (24 ≤ off)%nat → (off + length src ≤ length d)%nat →
  array_write d (splice off src d).
Proof.
  intros Ho Hl. split.
  - by apply length_splice.
  - split; apply read_splice_ne; [lia| |lia|]; unfold apart; lia.
  - unfold get_size. apply load_i32_splice_ne; [lia|]. unfold apart. lia.
Qed.

Lemma key_write p m src d : Z.of_nat (length d) = PAGE_SIZE → length src = (m * key_len h)%nat →
  (p + m ≤ max_pairs)%nat →
  let d' := splice (24 + p * key_len h) src d in
  array_write d d' ∧ (∀ j, rid_slot j d' = rid_slot j d) ∧
  ∀ i, key_slot i d' = if decide (p ≤ i < p + m)%nat then slot 0 (key_len h) (i - p) src else key_slot i d.
Proof.
  intros Hd Hs Hp d'. destruct layout_nat as (Hk & Hb & Hf). unfold PAGE_SIZE in *.
  assert (24 + p * key_len h + m * key_len h ≤ rid_base)%nat as Hfit by nia.
  split; [apply hdr_write; [lia|rewrite Hs; lia]|]. split.
  - intros j. apply slot_splice_ne; [lia|]. unfold apart. rewrite Hs. lia.
  - intros i. unfold key_slot, d'. case_decide; [apply (slot_splice_in _ _ _ m); [lia|done|lia]|].
    apply (slot_splice_out _ _ _ m); [lia|done|lia].
Qed.

Lemma rid_write p m src d : Z.of_nat (length d) = PAGE_SIZE → length src = (m * 8)%nat →
  (p + m ≤ max_pairs)%nat →
  let d' := splice (rid_base + p * 8) src d in
  array_write d d' ∧ (∀ j, (j < max_pairs)%nat → key_slot j d' = key_slot j d) ∧
  ∀ i, rid_slot i d' = if decide (p ≤ i < p + m)%nat then slot 0 8 (i - p) src else rid_slot i d.
Proof.
  intros Hd Hs Hp d'. destruct layout_nat as (Hk & Hb & Hf). unfold PAGE_SIZE in *.
  split; [apply hdr_write; [lia|rewrite Hs; lia]|]. split.
  - intros j Hj. apply slot_splice_ne; [lia|]. unfold apart. rewrite Hs. right. nia.
  - intros i. unfold rid_slot, d'. case_decide; [apply (slot_splice_in _ _ _ m); [lia|done|lia]|].
    apply (slot_splice_out _ _ _ m); [lia|done|lia].
Qed.

Lemma size_write n d : Z.of_nat (length d) = PAGE_SIZE → is_int32 n →
  let d' := set_size n d in
  length d' = length d ∧ hdr_same d d' ∧ get_size d' = n ∧
  (∀ i, key_slot i d' = key_slot i d) ∧ (∀ i, rid_slot i d' = rid_slot i d).
Proof.
  intros Hd Hn d'. unfold PAGE_SIZE in Hd. unfold d', set_size, store_int.
  destruct layout_nat as (Hk & Hb & Hf).
  split_and!.
  - apply length_splice. rewrite length_le_bytes. lia.
  - split; apply read_splice_ne; [lia| |lia|]; unfold apart; rewrite length_le_bytes; lia.
  - apply load_store_i32; [lia|done].
  - intros i. apply slot_splice_ne; [lia|]. unfold apart. rewrite length_le_bytes. lia.
  - intros i. apply slot_splice_ne; [lia|]. unfold apart. rewrite length_le_bytes. lia.
Qed.

(* ------------------------------------------------------------------ *)
(** ** insert_pairs and erase_pair on the list of pairs                  *)
(* ------------------------------------------------------------------ *)

(** The pairs that n keys and n rids in memory denote. *)
Definition pairs_of (n : nat) (keys rids : list Z) : list (list Z * Rid) :=
  (λ i, (slot 0 (key_len h) i keys, rid_parse (slot 0 8 i rids))) <$> seq 0 n.

(** What a node operation keeps: the page size, the links and the layout. *)
Definition same_page (d d' : list Z) : Prop := node_ok d' ∧ hdr_same d d'.

Lemma max_size_nat : get_max_size h = Z.of_nat max_pairs.
Proof. unfold get_max_size, max_pairs. pose proof (il_order h Hlay). lia. Qed.

Lemma size_int32 d : node_ok d → is_int32 (get_size d).
Proof.
  intros [_ Hs]. pose proof max_size_nat as Hm. destruct layout_nat as (? & ? & Hf).
  unfold is_int32, int32_min, int32_max, PAGE_SIZE in *. lia.
Qed.

Lemma length_keys_from i n d : 0 ≤ i → 0 ≤ n → i + n ≤ get_max_size h → Z.of_nat (length d) = PAGE_SIZE →
  length (keys_from h i n d) = (Z.to_nat n * key_len h)%nat ∧ length (rids_from h i n d) = (Z.to_nat n * 8)%nat.
Proof.
  intros Hi Hn Hin Hd. rewrite max_size_nat in Hin. destruct layout_nat as (Hk & Hb & Hf). unfold PAGE_SIZE in *.
  unfold keys_from, rids_from. rewrite key_off_slot, rid_off_slot by done. unfold key_len in *.
  pose proof (il_len h Hlay). rewrite !Z2Nat.inj_mul by lia.
  assert ((Z.to_nat i + Z.to_nat n) * Z.to_nat (col_tot_len h) ≤ max_pairs * Z.to_nat (col_tot_len h))%nat
    by (apply Nat.mul_le_mono_r; lia).
  rewrite !length_read_at by lia. done.
Qed.

Lemma keys_from_slot i n j d : 0 ≤ i → 0 ≤ n → (j < Z.to_nat n)%nat →
  slot 0 (key_len h) j (keys_from h i n d) = key_slot (Z.to_nat i + j) d ∧
  slot 0 8 j (rids_from h i n d) = rid_slot (Z.to_nat i + j) d.
Proof.
  intros Hi Hn Hj. unfold keys_from, rids_from. rewrite key_off_slot, rid_off_slot by done.
  unfold key_len in *. pose proof (il_len h Hlay). rewrite !Z2Nat.inj_mul by lia. split; by apply slot_read.
Qed.

(** The pairs named by keys_from and rids_from are a segment of the node's. *)
Lemma pairs_of_from i n d : 0 ≤ i → 0 ≤ n → i + n ≤ get_size d →
  pairs_of (Z.to_nat n) (keys_from h i n d) (rids_from h i n d) =
  take (Z.to_nat n) (drop (Z.to_nat i) (node_pairs d)).
Proof.
  intros Hi Hn Hin. apply list_eq. intros j. unfold pairs_of. rewrite list_lookup_fmap.
  destruct (decide (j < Z.to_nat n)%nat) as [Hj|Hj].
  - rewrite lookup_seq_lt by done. rewrite lookup_take_lt, lookup_drop, node_pairs_lookup by lia. simpl.
    destruct (keys_from_slot i n j d) as [-> ->]; done.
  - rewrite lookup_seq_ge by lia. rewrite lookup_take_ge by lia. done.
Qed.

(** Reading a list of pairs off its slots. *)
Lemma node_pairs_eq d (l : list (list Z * Rid)) : Z.to_nat (get_size d) = length l →
  (∀ i, (i < length l)%nat → l !! i = Some (key_slot i d, rid_parse (rid_slot i d))) → node_pairs d = l.
Proof.
  intros Hs Hl. apply list_eq. intros i. destruct (decide (i < length l)%nat) as [Hi|Hi].
  - rewrite node_pairs_lookup by lia. by rewrite Hl.
  - rewrite !lookup_ge_None_2; [done|lia|rewrite length_node_pairs; lia].
Qed.

(** Moving t pairs from position a to position b, as the two memmoves do. *)
Definition move_pairs (a b t : Z) (d : list Z) : list Z :=
  if 0 <? t then
    let d := splice (key_off h b) (keys_from h a t d) d in
    splice (rid_off h b) (rids_from h a t d) d
  else d.

Lemma move_pairs_spec a b t d : Z.of_nat (length d) = PAGE_SIZE → 0 ≤ a → 0 ≤ b →
  a + t ≤ get_max_size h → b + t ≤ get_max_size h →
  let d' := move_pairs a b t d in
  length d' = length d ∧ hdr_same d d' ∧ get_size d' = get_size d ∧
  ∀ i, (i < max_pairs)%nat →
    (key_slot i d', rid_slot i d') =
    let j := if decide (Z.to_nat b ≤ i < Z.to_nat b + Z.to_nat t)%nat then (Z.to_nat a + (i - Z.to_nat b))%nat else i in
    (key_slot j d, rid_slot j d).
Proof.
  intros Hd Ha Hb Hat Hbt. pose proof max_size_nat as Hmax. unfold move_pairs.
  destruct (Z.ltb_spec 0 t) as [Ht|Ht]; cbv zeta.
  2:{ split_and!; try done. intros i Hi. by rewrite decide_False by lia. }
  rewrite key_off_slot, rid_off_slot by lia.
  destruct (length_keys_from a t d) as [Lk Lr]; [lia..|done|].
  destruct (key_write (Z.to_nat b) (Z.to_nat t) (keys_from h a t d) d Hd Lk) as ([La Hha Hsa] & Hra & Hka); [lia|].
  set (d1 := splice (24 + _) _ d) in *. assert (Z.of_nat (length d1) = PAGE_SIZE) as Hd1 by lia.
  destruct (length_keys_from a t d1) as [_ Lr1]; [lia..|done|].
  destruct (rid_write (Z.to_nat b) (Z.to_nat t) (rids_from h a t d1) d1 Hd1 Lr1) as ([Lb Hhb Hsb] & Hkb & Hrb); [lia|].
  split; [lia|]. split; [by eapply hdr_same_trans|]. split; [lia|]. intros i Hi.
  rewrite Hkb, Hrb, Hka by lia. case_decide as Hin; [|by rewrite Hra].
  destruct (keys_from_slot a t (i - Z.to_nat b) d) as [-> _]; [lia..|].
  destruct (keys_from_slot a t (i - Z.to_nat b) d1) as [_ ->]; [lia..|]. by rewrite Hra.
Qed.

(** Writing n given pairs at a position and setting the size. *)
Lemma write_pairs_spec pos keys rids n sz d : Z.of_nat (length d) = PAGE_SIZE → 0 ≤ pos → 0 ≤ n →
  pos + n ≤ get_max_size h → 0 ≤ sz ≤ get_max_size h →
  length keys = (Z.to_nat n * key_len h)%nat → length rids = (Z.to_nat n * 8)%nat →
  let d' := set_size sz (splice (rid_off h pos) rids (splice (key_off h pos) keys d)) in
  length d' = length d ∧ hdr_same d d' ∧ get_size d' = sz ∧
  ∀ i, (i < max_pairs)%nat →
    (key_slot i d', rid_slot i d') =
    if decide (Z.to_nat pos ≤ i < Z.to_nat pos + Z.to_nat n)%nat
    then (slot 0 (key_len h) (i - Z.to_nat pos) keys, slot 0 8 (i - Z.to_nat pos) rids)
    else (key_slot i d, rid_slot i d).
Proof.
  intros Hd Hpos Hn Hfit Hsz Hk Hr. pose proof max_size_nat as Hmax. rewrite key_off_slot, rid_off_slot by lia.
  destruct (key_write (Z.to_nat pos) (Z.to_nat n) keys d Hd Hk) as ([L3 H3 S3] & R3 & K3); [lia|].
  set (d3 := splice (24 + _) _ d) in *.
  destruct (rid_write (Z.to_nat pos) (Z.to_nat n) rids d3 ltac:(lia) Hr) as ([L4 H4 S4] & K4 & R4); [lia|].
  set (d4 := splice (rid_base + _) _ d3) in *.
  assert (is_int32 sz) as Hint.
  { destruct layout_nat as (? & ? & Hf). unfold is_int32, int32_min, int32_max, PAGE_SIZE in *. lia. }
  destruct (size_write sz d4 ltac:(lia) Hint) as (L5 & H5 & S5 & K5 & R5). cbv zeta.
  split; [lia|]. split; [by repeat (eapply hdr_same_trans; [|eassumption])|]. split; [done|].
  intros i Hi. rewrite K5, R5, K4, R4, K3, R3 by done. by case_decide.
Qed.

Lemma insert_pairs_spec pos keys rids n d : node_ok d → 0 ≤ pos ≤ get_size d → 0 ≤ n →
  get_size d + n ≤ get_max_size h →
  length keys = (Z.to_nat n * key_len h)%nat → length rids = (Z.to_nat n * 8)%nat →
  ∃ d', insert_pairs h pos keys rids n d = Ret d' ∧ same_page d d' ∧ get_size d' = get_size d + n ∧
    node_pairs d' = take (Z.to_nat pos) (node_pairs d) ++ pairs_of (Z.to_nat n) keys rids ++
                    drop (Z.to_nat pos) (node_pairs d).
Proof.
  intros [Hd Hsz] Hpos Hn Hfit Hk Hr. pose proof max_size_nat as Hmax.
  assert (insert_pairs h pos keys rids n d =
    let d2 := move_pairs pos (pos + n) (get_size d - pos) d in
    Ret (set_size (get_size (splice (rid_off h pos) rids (splice (key_off h pos) keys d2)) + n)
           (splice (rid_off h pos) rids (splice (key_off h pos) keys d2)))) as E.
  { unfold insert_pairs. rewrite (proj2 (Z.leb_le 0 pos)), (proj2 (Z.leb_le pos (get_size d))),
      (proj2 (Z.leb_le 0 n)), (proj2 (Z.leb_le (get_size d + n) _)) by lia. cbn [andb negb].
    rewrite (take_ge keys), (take_ge rids); [done|lia|].
    rewrite Hk. unfold key_len. pose proof (il_len h Hlay). rewrite Z2Nat.inj_mul by lia. lia. }
  destruct (move_pairs_spec pos (pos + n) (get_size d - pos) d Hd) as (L2 & H2 & S2 & M2); [lia..|].
  rewrite E. cbv zeta. set (d2 := move_pairs _ _ _ d) in *. clear E.
  assert (get_size (splice (rid_off h pos) rids (splice (key_off h pos) keys d2)) = get_size d) as Es.
  { rewrite key_off_slot, rid_off_slot by lia.
    destruct (key_write (Z.to_nat pos) (Z.to_nat n) keys d2 ltac:(lia) Hk) as ([L3 _ S3] & _ & _); [lia|].
    edestruct (rid_write (Z.to_nat pos) (Z.to_nat n) rids (splice (24 + Z.to_nat pos * key_len h) keys d2))
      as ([_ _ S4] & _ & _); [lia|done|lia|]. lia. }
  rewrite Es. edestruct (write_pairs_spec pos keys rids n (get_size d + n) d2) as (L5 & H5 & S5 & W5); [lia..|done|done|].
  eexists. split; [done|]. split; [split; [split; lia|by eapply hdr_same_trans]|]. split; [done|].
  assert (length (pairs_of (Z.to_nat n) keys rids) = Z.to_nat n) as Lp by (unfold pairs_of; by rewrite length_fmap, length_seq).
  apply node_pairs_eq; rewrite !length_app, length_take, length_drop, length_node_pairs, Lp; [lia|].
  intros i Hi. specialize (M2 i ltac:(lia)). specialize (W5 i ltac:(lia)). 
  pose proof (f_equal fst W5) as Wk. pose proof (f_equal snd W5) as Wr. cbn [fst snd] in Wk, Wr. rewrite Wk, Wr.
  destruct (decide (i < Z.to_nat pos)%nat) as [Hlt|Hge].
  - rewrite lookup_app_l by (rewrite length_take, length_node_pairs; lia). rewrite lookup_take_lt by done.
    rewrite node_pairs_lookup by lia. rewrite decide_False in M2 by lia. injection M2 as M2k M2r.
    rewrite !decide_False by lia. simpl. by rewrite M2k, M2r.
  - rewrite lookup_app_r by (rewrite length_take, length_node_pairs; lia).
    rewrite length_take, length_node_pairs, Nat.min_l by lia. destruct (decide (i < Z.to_nat pos + Z.to_nat n)%nat).
    + rewrite lookup_app_l by lia. unfold pairs_of. rewrite list_lookup_fmap, lookup_seq_lt by lia. simpl.
      by rewrite !decide_True by lia.
    + rewrite lookup_app_r, Lp, lookup_drop, node_pairs_lookup by lia. rewrite decide_True in M2 by lia.
      injection M2 as M2k M2r. rewrite !decide_False by lia. simpl. rewrite M2k, M2r.
      replace (Z.to_nat pos + (i - Z.to_nat pos - Z.to_nat n))%nat
        with (Z.to_nat pos + (i - Z.to_nat (pos + n)))%nat by lia. done.
Qed.

Lemma erase_pair_spec pos d : node_ok d → 0 ≤ pos < get_size d →
  ∃ d', erase_pair h pos d = Ret d' ∧ same_page d d' ∧ get_size d' = get_size d - 1 ∧
    node_pairs d' = delete (Z.to_nat pos) (node_pairs d).
Proof.
  intros Hok Hpos. pose proof Hok as [Hd Hsz]. pose proof max_size_nat as Hmax.
  assert (erase_pair h pos d =
    Ret (set_size (get_size (move_pairs (pos + 1) pos (get_size d - pos - 1) d) - 1)
           (move_pairs (pos + 1) pos (get_size d - pos - 1) d))) as E.
  { unfold erase_pair. rewrite (proj2 (Z.leb_le 0 pos)), (proj2 (Z.ltb_lt pos (get_size d))) by lia. done. }
  destruct (move_pairs_spec (pos + 1) pos (get_size d - pos - 1) d Hd) as (L2 & H2 & S2 & M2); [lia..|].
  rewrite E. clear E. set (d2 := move_pairs _ _ _ d) in *. rewrite S2.
  destruct (size_write (get_size d - 1) d2) as (L5 & H5 & S5 & K5 & R5); [lia| |].
  { pose proof (size_int32 d Hok). unfold is_int32, int32_min, int32_max in *. lia. }
  eexists. split; [done|]. split; [split; [split; lia|by eapply hdr_same_trans]|]. split; [done|].
  assert (is_Some (node_pairs d !! Z.to_nat pos)) as Hs by (apply lookup_lt_is_Some; rewrite length_node_pairs; lia).
  apply node_pairs_eq; rewrite (length_delete _ _ Hs), length_node_pairs; [lia|].
  intros i Hi. specialize (M2 i ltac:(lia)). rewrite K5, R5.
  pose proof (f_equal fst M2) as Mk. pose proof (f_equal snd M2) as Mr. cbn [fst snd] in Mk, Mr. rewrite Mk, Mr.
  case_decide as Hin.
  - rewrite list_lookup_delete_ge by lia. rewrite node_pairs_lookup by lia.
    replace (Z.to_nat (pos + 1) + (i - Z.to_nat pos))%nat with (S i) by lia. done.
  - rewrite list_lookup_delete_lt by lia. by rewrite node_pairs_lookup by lia.
Qed.

Lemma pairs_of_one key r : length key = key_len h → rid_wf r → pairs_of 1 key (rid_bytes r) = [(key, r)].
Proof.
  intros Hk Hr. unfold pairs_of. cbn [seq fmap list_fmap]. unfold slot, read_at. rewrite !Nat.mul_0_l. cbn [Nat.add].
  rewrite !drop_0, !take_ge by (unfold rid_bytes; len). rewrite <- (app_nil_r (rid_bytes r)), rid_parse_bytes; done.
Qed.

Lemma insert_pair_spec pos key r d : node_ok d → 0 ≤ pos ≤ get_size d → get_size d < get_max_size h →
  length key = key_len h → rid_wf r →
  ∃ d', insert_pair h pos key r d = Ret d' ∧ same_page d d' ∧ get_size d' = get_size d + 1 ∧
    node_pairs d' = take (Z.to_nat pos) (node_pairs d) ++ (key, r) :: drop (Z.to_nat pos) (node_pairs d).
Proof.
  intros Hok Hpos Hlt Hk Hr. unfold insert_pair.
  destruct (insert_pairs_spec pos key (rid_bytes r) 1 d Hok Hpos) as (d' & E & Hp & Hs & Hl);
    [lia|lia|rewrite Hk; simpl; lia|done|].
  exists d'. change (Z.to_nat 1) with 1%nat in Hl. rewrite pairs_of_one in Hl by done. done.
Qed.

(* ------------------------------------------------------------------ *)
(** ** Search in sorted nodes                                           *)
(* ------------------------------------------------------------------ *)

Abbreviation cmp := (cmp_key h).
Definition key_ok (k : list Z) : Prop := length k = key_len h ∧ key_no_nan (col_types h) (col_lens h) k.

Lemma cmp_antisym a b : cmp b a = - cmp a b.
Proof. apply ix_compare_antisym. Qed.
Lemma cmp_trans a b c : key_ok a → key_ok b → key_ok c → cmp a b ≤ 0 → cmp b c ≤ 0 → cmp a c ≤ 0.
Proof. intros [_ ?] [_ ?] [_ ?]. by apply ix_compare_trans. Qed.
Lemma cmp_refl a : cmp a a = 0.
Proof. pose proof (cmp_antisym a a). lia. Qed.
Lemma cmp_lt_trans a b c : key_ok a → key_ok b → key_ok c → cmp a b < 0 → cmp b c ≤ 0 → cmp a c < 0.
Proof.
  intros Ha Hb Hc H1 H2. pose proof (cmp_trans a b c Ha Hb Hc ltac:(lia) H2).
  destruct (Z.eq_dec (cmp a c) 0) as [E|]; [|lia]. pose proof (cmp_antisym a c). pose proof (cmp_antisym a b).
  pose proof (cmp_trans b c a Hb Hc Ha). lia.
Qed.
Lemma cmp_eq_trans a b c : key_ok a → key_ok b → key_ok c → cmp a b = 0 → cmp b c = 0 → cmp a c = 0.
Proof.
  intros Ha Hb Hc H1 H2. pose proof (cmp_trans a b c Ha Hb Hc ltac:(lia) ltac:(lia)).
  pose proof (cmp_antisym a b). pose proof (cmp_antisym b c). pose proof (cmp_antisym a c).
  pose proof (cmp_trans c b a Hc Hb Ha ltac:(lia) ltac:(lia)). lia.
Qed.
Lemma cmp_le_lt_trans a b c : key_ok a → key_ok b → key_ok c → cmp a b ≤ 0 → cmp b c < 0 → cmp a c < 0.
Proof.
  intros Ha Hb Hc H1 H2. pose proof (cmp_trans a b c Ha Hb Hc H1 ltac:(lia)).
  destruct (Z.eq_dec (cmp a c) 0) as [E|]; [|lia]. pose proof (cmp_antisym a c). pose proof (cmp_antisym b c).
  pose proof (cmp_trans c a b Hc Ha Hb). lia.
Qed.

(** Strictly increasing keys without NaN, by position. *)
Definition keys_sorted (l : list (list Z * Rid)) : Prop :=
  (∀ p, p ∈ l → key_ok p.1) ∧
  ∀ i j p q, (i < j)%nat → l !! i = Some p → l !! j = Some q → cmp p.1 q.1 < 0.

(** Binary search: [f] holds up to the result and fails from there on, when it
    is monotone on [lo, hi). *)
Lemma search_loop_spec (go : Z → bool) target d lo hi :
  let f i := go (cmp (get_key h i d) target) in
  (∀ i j, lo ≤ i ≤ j → j < hi → f j = true → f i = true) →
  ∀ fuel left right, lo ≤ left ≤ right → right ≤ hi → right - left ≤ Z.of_nat fuel →
  (∀ i, lo ≤ i < left → f i = true) → (∀ i, right ≤ i < hi → f i = false) →
  let r := search_loop h fuel go target d left right in
  left ≤ r ≤ right ∧ (∀ i, lo ≤ i < r → f i = true) ∧ (∀ i, r ≤ i < hi → f i = false).
Proof.
  intros f Hmono. induction fuel as [|fuel IH]; intros left right Hl Hr Hf Hlo Hhi; cbn [search_loop].
  { assert (left = right) as -> by lia. split_and!; [lia|lia|done|done]. }
  destruct (Z.ltb_spec left right) as [Hlt|Hge].
  2:{ assert (left = right) as -> by lia. split_and!; [lia|lia|done|done]. }
  set (mid := left + Z.quot (right - left) 2). cbv zeta.
  assert (left ≤ mid < right) as Hmid.
  { unfold mid. rewrite Z.quot_div_nonneg by lia.
    pose proof (Z.div_pos (right - left) 2). pose proof (Z.div_lt (right - left) 2). lia. }
  change (go (cmp (get_key h mid d) target)) with (f mid). destruct (f mid) eqn:Em.
  - destruct (IH (mid + 1) right) as (H1 & H2 & H3); [lia|lia|lia| |done|].
    + intros i Hi. destruct (decide (i < left)); [apply Hlo; lia|]. apply (Hmono i mid); [lia|lia|done].
    + split_and!; [lia|lia|done|done].
  - destruct (IH left mid) as (H1 & H2 & H3); [lia|lia|lia|done| |].
    + intros i Hi. destruct (decide (right ≤ i)); [apply Hhi; lia|]. destruct (f i) eqn:Ei; [|done].
      rewrite (Hmono mid i) in Em; [done|lia|lia|done].
    + split_and!; [lia|lia|done|done].
Qed.

Lemma node_key_lookup d i p : 0 ≤ i → node_pairs d !! Z.to_nat i = Some p →
  i < get_size d ∧ get_key h i d = p.1 ∧ get_rid h i d = p.2.
Proof.
  intros Hi Hp. pose proof (lookup_lt_Some _ _ _ Hp) as Hlt. rewrite length_node_pairs in Hlt.
  rewrite node_pairs_lookup in Hp by done. injection Hp as <-. rewrite get_key_slot, get_rid_slot by done.
  split; [lia|done].
Qed.

Lemma node_key_get d i : 0 ≤ i < get_size d → node_pairs d !! Z.to_nat i = Some (get_key h i d, get_rid h i d).
Proof. intros Hi. rewrite node_pairs_lookup by lia. by rewrite get_key_slot, get_rid_slot by lia. Qed.

Lemma keys_sorted_nil : keys_sorted [].
Proof. split; [by intros p ?%elem_of_nil|by intros i j p q _ [=]]. Qed.

Lemma keys_sorted_cons p l : key_ok p.1 → (∀ q, q ∈ l → cmp p.1 q.1 < 0) → keys_sorted l → keys_sorted (p :: l).
Proof.
  intros Hp Hl [Hko Hso]. split; [intros q [->|Hq]%elem_of_cons; [done|by apply Hko]|].
  intros [|i] [|j] a b Hij Ha Hb; simpl in *; simplify_eq; try lia; [by eapply Hl, list_elem_of_lookup_2|].
  eapply (Hso i j); [lia|done|done].
Qed.

(** lower_bound: the keys before the result are smaller than the target, the
    others are not. *)
Lemma lower_bound_spec target d : node_ok d → keys_sorted (node_pairs d) → key_ok target →
  let r := lower_bound h target d in
  0 ≤ r ≤ get_size d ∧ (∀ i, 0 ≤ i < r → cmp (get_key h i d) target < 0) ∧
  (∀ i, r ≤ i < get_size d → 0 ≤ cmp (get_key h i d) target).
Proof.
  intros [Hd Hsz] [Hok Hs] Ht. unfold lower_bound.
  destruct (search_loop_spec (λ c, c <? 0) target d 0 (get_size d)) with
    (fuel := Z.to_nat (get_size d)) (left := 0) (right := get_size d) as (H1 & H2 & H3); try lia.
  - intros i j Hij Hj Hlt. bool_prop. apply Z.ltb_lt. destruct (decide (i = j)) as [->|]; [done|].
    pose proof (node_key_get d i ltac:(lia)) as Hi'. pose proof (node_key_get d j ltac:(lia)) as Hj'.
    pose proof (Hs (Z.to_nat i) (Z.to_nat j) _ _ ltac:(lia) Hi' Hj') as Hc. simpl in Hc.
    apply (cmp_lt_trans _ (get_key h j d)); [|by apply (Hok _ (list_elem_of_lookup_2 _ _ _ Hj'))|done|done|lia].
    by apply (Hok _ (list_elem_of_lookup_2 _ _ _ Hi')).
  - split; [lia|]. split; intros i Hi; [apply Z.ltb_lt, H2; lia|apply Z.ltb_ge, H3; lia].
Qed.

(** upper_bound, which never looks at the key at 0: the keys from 1 up to the
    result are not greater than the target, the others are. *)
Lemma upper_bound_spec target d : node_ok d → 1 ≤ get_size d →
  keys_sorted (drop 1 (node_pairs d)) → key_ok target →
  let r := upper_bound h target d in
  1 ≤ r ≤ get_size d ∧ (∀ i, 1 ≤ i < r → cmp (get_key h i d) target ≤ 0) ∧
  (∀ i, r ≤ i < get_size d → 0 < cmp (get_key h i d) target).
Proof.
  intros [Hd Hsz] Hone [Hok Hs] Ht. unfold upper_bound.
  assert (∀ i, 1 ≤ i < get_size d → drop 1 (node_pairs d) !! Z.to_nat (i - 1) = Some (get_key h i d, get_rid h i d)) as Hget.
  { intros i Hi. rewrite lookup_drop. replace (1 + Z.to_nat (i - 1))%nat with (Z.to_nat i) by lia. apply node_key_get. lia. }
  destruct (search_loop_spec (λ c, c <=? 0) target d 1 (get_size d)) with
    (fuel := Z.to_nat (get_size d)) (left := 1) (right := get_size d) as (H1 & H2 & H3); try lia.
  - intros i j Hij Hj Hle. bool_prop. apply Z.leb_le. destruct (decide (i = j)) as [->|]; [done|].
    pose proof (Hget i ltac:(lia)) as Hi'. pose proof (Hget j ltac:(lia)) as Hj'.
    pose proof (Hs (Z.to_nat (i - 1)) (Z.to_nat (j - 1)) _ _ ltac:(lia) Hi' Hj') as Hc. simpl in Hc.
    apply Z.lt_le_incl, (cmp_lt_trans _ (get_key h j d));
      [|by apply (Hok _ (list_elem_of_lookup_2 _ _ _ Hj'))|done|done|lia].
    by apply (Hok _ (list_elem_of_lookup_2 _ _ _ Hi')).
  - split; [lia|]. split; intros i Hi; [apply Z.leb_le, H2; lia|apply Z.leb_gt, H3; lia].
Qed.

(* ------------------------------------------------------------------ *)
(** ** Leaves as finite maps                                            *)
(* ------------------------------------------------------------------ *)

(** The rid stored for a key, keys being identified by ix_compare. *)
Definition assoc (key : list Z) (l : list (list Z * Rid)) : option Rid :=
  snd <$> find (λ p, cmp p.1 key =? 0) l.

Lemma find_first {A} (f : A → bool) l i x : l !! i = Some x → f x = true →
  (∀ j y, (j < i)%nat → l !! j = Some y → f y = false) → find f l = Some x.
Proof.
  revert i. induction l as [|y l IH]; intros i Hi Hx Hj; [done|]. destruct i as [|i]; simpl in *.
  - injection Hi as ->. by rewrite Hx.
  - rewrite (Hj 0%nat y) by (done || lia). apply (IH i); [done|done|]. intros j z Hlt Hz. apply (Hj (S j)); [lia|done].
Qed.

Lemma find_app {A} (f : A → bool) a b :
  find f (a ++ b) = match find f a with Some x => Some x | None => find f b end.
Proof. induction a as [|x a IH]; simpl; [done|]. by destruct (f x). Qed.

Lemma find_ext {A} (f g : A → bool) l : (∀ x, x ∈ l → f x = g x) → find f l = find g l.
Proof.
  clear Hlay h. induction l as [|x l IH]; intros He; simpl; [done|]. rewrite He by by left. destruct (g x); [done|].
  apply IH. intros y Hy. apply He. by right.
Qed.

Lemma find_none_iff {A} (f : A → bool) l : find f l = None ↔ ∀ x, x ∈ l → f x = false.
Proof.
  split.
  - intros Hf x Hx. apply (find_none f l Hf). by apply list_elem_of_In.
  - intros Hf. destruct (find f l) as [x|] eqn:E; [|done]. apply find_some in E as [Hin Hx].
    rewrite Hf in Hx; [done|]. by apply list_elem_of_In.
Qed.

Lemma assoc_None key l : assoc key l = None ↔ ∀ p, p ∈ l → cmp p.1 key ≠ 0.
Proof.
  unfold assoc. rewrite fmap_None, find_none_iff. split; intros Hf p Hp; specialize (Hf p Hp).
  - by apply Z.eqb_neq.
  - by apply Z.eqb_neq.
Qed.

(** The position where lower_bound stops decides whether the key is there. *)
Lemma lower_bound_assoc key d : node_ok d → keys_sorted (node_pairs d) → key_ok key →
  let r := lower_bound h key d in
  assoc key (node_pairs d) =
    if (r <? get_size d) && (cmp (get_key h r d) key =? 0) then Some (get_rid h r d) else None.
Proof.
  intros Hok Hs Hk. destruct (lower_bound_spec key d Hok Hs Hk) as (Hr & Hlt & Hge). cbv zeta.
  set (r := lower_bound h key d) in *.
  destruct (Z.ltb_spec r (get_size d)) as [Hin|Hout]; simpl.
  - pose proof (node_key_get d r ltac:(lia)) as Hg. destruct (Z.eqb_spec (cmp (get_key h r d) key) 0) as [E|E].
    + unfold assoc. rewrite (find_first _ _ (Z.to_nat r) (get_key h r d, get_rid h r d)); [done|done|by apply Z.eqb_eq|].
      intros j y Hj Hy. rewrite <- (Nat2Z.id j) in Hy. apply node_key_lookup in Hy as (Hj' & Ej & _); [|lia].
      rewrite <- Ej. specialize (Hlt (Z.of_nat j) ltac:(lia)). apply Z.eqb_neq. lia.
    + apply assoc_None. intros p (j & Hj)%list_elem_of_lookup. pose proof Hj as Hj'. rewrite <- (Nat2Z.id j) in Hj.
      apply node_key_lookup in Hj as (Hjs & Ej & _); [|lia]. rewrite <- Ej.
      destruct (Z.lt_trichotomy (Z.of_nat j) r) as [Hl|[Heq|Hg']].
      * specialize (Hlt (Z.of_nat j) ltac:(lia)). lia.
      * by rewrite Heq.
      * (* beyond a key that is already greater *)
        pose proof (Hge r ltac:(lia)) as Hr0. destruct Hs as [Hko Hso].
        assert (node_pairs d !! Z.to_nat (Z.of_nat j) = Some p) as Hj2 by by rewrite Nat2Z.id.
        pose proof (Hso (Z.to_nat r) j _ _ ltac:(lia) Hg Hj') as Hc. simpl in Hc. rewrite <- Ej in Hc.
        assert (cmp key (get_key h (Z.of_nat j) d) < 0); [|rewrite cmp_antisym; lia].
        apply (cmp_le_lt_trans _ (get_key h r d)); [done| | |rewrite cmp_antisym; lia|done].
        -- by apply (Hko _ (list_elem_of_lookup_2 _ _ _ Hg)).
        -- rewrite Ej. by apply (Hko _ (list_elem_of_lookup_2 _ _ _ Hj')).
  - apply assoc_None. intros p (j & Hj)%list_elem_of_lookup. rewrite <- (Nat2Z.id j) in Hj.
    apply node_key_lookup in Hj as (Hjs & Ej & _); [|lia]. rewrite <- Ej. specialize (Hlt (Z.of_nat j) ltac:(lia)). lia.
Qed.

Lemma leaf_lookup_spec key d : node_ok d → keys_sorted (node_pairs d) → key_ok key →
  leaf_lookup h key d = assoc key (node_pairs d).
Proof.
  intros Hok Hs Hk. rewrite (lower_bound_assoc key d Hok Hs Hk). unfold leaf_lookup. cbv zeta.
  rewrite Z.leb_antisym. destruct (lower_bound h key d <? get_size d); [|done]. simpl. by destruct (_ =? 0).
Qed.

Lemma keys_sorted_insert l r key v : keys_sorted l → key_ok key → (r ≤ length l)%nat →
  (∀ i p, (i < r)%nat → l !! i = Some p → cmp p.1 key < 0) →
  (∀ i p, (r ≤ i)%nat → l !! i = Some p → cmp key p.1 < 0) →
  keys_sorted (take r l ++ (key, v) :: drop r l).
Proof.
  intros [Hko Hs] Hk Hr Hlt Hgt.
  assert (∀ i p, (take r l ++ (key, v) :: drop r l) !! i = Some p →
    (i < r ∧ l !! i = Some p)%nat ∨ (i = r ∧ p = (key, v)) ∨ (r < i ∧ l !! (i - 1) = Some p)%nat) as Hc.
  { intros i p Hi. apply lookup_app_Some in Hi as [Hi|[Hle Hi]].
    - apply lookup_take_Some in Hi as [Hi Hl]. by left.
    - rewrite length_take, Nat.min_l in * by done. right. destruct (i - r)%nat as [|k] eqn:Ek; simpl in Hi.
      + left. split; [lia|congruence].
      + right. rewrite lookup_drop in Hi. split; [lia|]. by replace (i - 1)%nat with (r + k)%nat by lia. }
  split.
  - intros p (i & Hi)%list_elem_of_lookup. apply Hc in Hi as [[_ Hi]|[[_ ->]|[_ Hi]]]; [|done|];
      by apply Hko, (list_elem_of_lookup_2 _ _ _ Hi).
  - intros i j p q Hij Hi Hj. apply Hc in Hi as [[Hi Hp]|[[-> ->]|[Hi Hp]]], Hj as [[Hj Hq]|[[-> ->]|[Hj Hq]]];
      try lia; cbn [fst].
    + by apply (Hs i j).
    + by apply (Hlt i).
    + apply (Hs i (j - 1)%nat); [lia|done|done].
    + apply (Hgt (j - 1)%nat); [lia|done].
    + apply (Hs (i - 1)%nat (j - 1)%nat); [lia|done|done].
Qed.

Lemma keys_sorted_delete l i : keys_sorted l → keys_sorted (delete i l).
Proof.
  intros [Hko Hs].
  assert (∀ j p, delete i l !! j = Some p → l !! (if decide (j < i)%nat then j else S j) = Some p) as Hd
    by (intros j p; by rewrite list_lookup_delete).
  split.
  - intros p (j & Hj)%list_elem_of_lookup. apply Hd in Hj. by apply Hko, (list_elem_of_lookup_2 _ _ _ Hj).
  - intros j k p q Hjk Hj%Hd Hk%Hd. eapply Hs; [|exact Hj|exact Hk]. repeat case_decide; lia.
Qed.

Lemma node_insert_spec key v d : node_ok d → keys_sorted (node_pairs d) → key_ok key → rid_wf v →
  get_size d < get_max_size h →
  match assoc key (node_pairs d) with
  | Some _ => node_insert h key v d = Ret d
  | None => ∃ d' r, node_insert h key v d = Ret d' ∧ same_page d d' ∧ get_size d' = get_size d + 1 ∧
      node_pairs d' = take r (node_pairs d) ++ (key, v) :: drop r (node_pairs d) ∧ keys_sorted (node_pairs d')
  end.
Proof.
  intros Hok Hs Hk Hv Hlt. pose proof (lower_bound_assoc key d Hok Hs Hk) as Ha.
  destruct (lower_bound_spec key d Hok Hs Hk) as (Hr & Hl & Hg). cbv zeta in Ha. unfold node_insert.
  set (r := lower_bound h key d) in *. destruct ((r <? get_size d) && (cmp (get_key h r d) key =? 0)) eqn:E.
  - by rewrite Ha.
  - rewrite Ha. destruct (insert_pair_spec r key v d Hok) as (d' & Ei & Hp & Hsz & Hl'); [lia|done|apply Hk|done|].
    exists d', (Z.to_nat r). split_and!; try done. rewrite Hl'.
    apply keys_sorted_insert; [done|done|rewrite length_node_pairs; lia| |].
    + intros i p Hi Hp'. rewrite <- (Nat2Z.id i) in Hp'. apply node_key_lookup in Hp' as (_ & <- & _); [|lia]. apply Hl. lia.
    + intros i p Hi Hp'. pose proof (proj1 (assoc_None key (node_pairs d)) Ha p (list_elem_of_lookup_2 _ _ _ Hp')) as Hne.
      rewrite <- (Nat2Z.id i) in Hp'. apply node_key_lookup in Hp' as (His & Ek & _); [|lia]. rewrite <- Ek in *.
      specialize (Hg (Z.of_nat i) ltac:(lia)). rewrite cmp_antisym. lia.
Qed.

Lemma node_remove_spec key d : node_ok d → keys_sorted (node_pairs d) → key_ok key →
  match assoc key (node_pairs d) with
  | None => node_remove h key d = Ret d
  | Some v => ∃ d' r k, node_remove h key d = Ret d' ∧ same_page d d' ∧ get_size d' = get_size d - 1 ∧
      node_pairs d !! r = Some (k, v) ∧ cmp k key = 0 ∧
      node_pairs d' = delete r (node_pairs d) ∧ keys_sorted (node_pairs d')
  end.
Proof.
  intros Hok Hs Hk. pose proof (lower_bound_assoc key d Hok Hs Hk) as Ha.
  destruct (lower_bound_spec key d Hok Hs Hk) as (Hr & _ & _). cbv zeta in Ha. unfold node_remove.
  set (r := lower_bound h key d) in *. destruct ((r <? get_size d) && (cmp (get_key h r d) key =? 0)) eqn:E.
  - rewrite Ha. bool_prop. destruct (erase_pair_spec r d Hok) as (d' & Ee & Hp & Hsz & Hl); [lia|].
    exists d', (Z.to_nat r), (get_key h r d). split_and!; try done; [apply node_key_get; lia|].
    rewrite Hl. by apply keys_sorted_delete.
  - by rewrite Ha.
Qed.

End NodeSpec.
