(* ===== verification/IxTree.v ===== *)
(** * Correctness of the B+ tree

    A B+ tree as the pages of a view: which pairs it holds, which leaf a key
    belongs to, and that the descent of find_leaf_page reaches that leaf, so
    that lookup and insertion act on the sorted contents of the whole tree. *)

From S2P Require Import Prelude Defs SmMeta Values Posix DiskManager Replacer BufferPool IxNode IxIndex IxManager IxNodeSpec.

Abbreviation entry := (list Z * Rid)%type.

Section Tree.
Context (h : IxFileHdr) (Hlay : ix_layout h).
Abbreviation cmp := (cmp_key h).


(** The i-th key of an internal node (i >= 1) separates the entries of the
    children before i from those of the children from i on. *)
Definition keysep (ks : list entry) (ls : list (list entry)) : Prop :=
  ∀ i j p l q, (1 ≤ i)%nat → ks !! i = Some p → ls !! j = Some l → q ∈ l →
    if decide (j < i)%nat then cmp q.1 p.1 < 0 else cmp p.1 q.1 ≤ 0.

(** [ix_tree view g n l ps]: page [n] of [view] is the root of a tree of height
    [g] that holds the entries [l] from left to right on the pages [ps]. *)
Fixpoint ix_tree (view : Z → option (list Z)) (g : nat) (n : Z) (l : list entry) (ps : list Z) : Prop :=
  n ≠ INVALID_PAGE_ID ∧ ∃ d, view n = Some d ∧ node_ok h d ∧
  match g with
  | O => is_leaf_page d = true ∧ keys_sorted h (node_pairs h d) ∧ l = node_pairs h d ∧ ps = [n]
  | S g' =>
      is_leaf_page d = false ∧ 1 ≤ get_size d ∧ keys_sorted h (drop 1 (node_pairs h d)) ∧
      ∃ ls pss, l = concat ls ∧ ps = n :: concat pss ∧
        length ls = length (node_pairs h d) ∧ length pss = length (node_pairs h d) ∧
        (∀ i p l' ps', node_pairs h d !! i = Some p → ls !! i = Some l' → pss !! i = Some ps' →
           ix_tree view g' (page_no p.2) l' ps') ∧
        keysep (node_pairs h d) ls
  end.

(** The leaf the descent for [key] ends in. *)
Fixpoint leaf_of (view : Z → option (list Z)) (g : nat) (n : Z) (key : list Z) : Z :=
  match g with
  | O => n
  | S g' => match view n with Some d => leaf_of view g' (internal_lookup h key d) key | None => n end
  end.

(** A tree is determined by its own pages. *)
Lemma ix_tree_ext view view' g n l ps :
  (∀ m d, m ∈ ps → view m = Some d → view' m = Some d) → ix_tree view g n l ps → ix_tree view' g n l ps.
Proof.
  revert n l ps. induction g as [|g IH]; intros n l ps Hv (Hn & d & Hd & Hok & Ht); split; try done; exists d.
  - destruct Ht as (? & ? & ? & ->). split_and!; try done. apply Hv; [set_solver|done].
  - destruct Ht as (Hlf & Hs & Hso & ls & pss & -> & -> & Hl1 & Hl2 & Hch & Hsep).
    split; [apply Hv; [set_solver|done]|]. split; [done|]. split_and!; try done. exists ls, pss. split_and!; try done.
    intros i p l' ps' H1 H2 H3. eapply IH; [|by eapply Hch]. intros m d' Hm. apply Hv. right.
    apply list_elem_of_In, in_concat. exists ps'. split; apply list_elem_of_In; [|done]. by eapply list_elem_of_lookup_2.
Qed.

Lemma ix_tree_keys view g n l ps : ix_tree view g n l ps → ∀ q, q ∈ l → key_ok h q.1.
Proof.
  revert n l ps. induction g as [|g IH]; intros n l ps (Hn & d & Hd & Hok & Ht) q Hq.
  - destruct Ht as (_ & Hso & -> & _). by apply Hso.
  - destruct Ht as (_ & _ & _ & ls & pss & -> & _ & Hl1 & Hl2 & Hch & _).
    apply elem_concat in Hq as (i & l' & Hi & Hq). pose proof (lookup_lt_Some _ _ _ Hi) as Hlt.
    destruct (lookup_lt_is_Some_2 (node_pairs h d) i) as [p Hp]; [lia|].
    destruct (lookup_lt_is_Some_2 pss i) as [ps' Hps]; [lia|]. by eapply IH; [eapply Hch|].
Qed.

Lemma ix_tree_root view g n l ps : ix_tree view g n l ps → n ∈ ps.
Proof.
  destruct g; intros (_ & d & _ & _ & Ht); [by destruct Ht as (_ & _ & _ & ->); left|].
  destruct Ht as (_ & _ & _ & ls & pss & _ & -> & _). by left.
Qed.

(** Where a key belongs: the entries before are smaller, those after greater. *)
Definition located (key : list Z) (pre post : list entry) : Prop :=
  (∀ q, q ∈ pre → cmp q.1 key < 0) ∧ (∀ q, q ∈ post → cmp key q.1 < 0).

Lemma assoc_located key pre l post : located key pre post → assoc h key (pre ++ l ++ post) = assoc h key l.
Proof.
  intros [Hpre Hpost].
  assert (∀ m : list entry, (∀ q, q ∈ m → cmp q.1 key ≠ 0) → find (λ p, cmp p.1 key =? 0) m = None) as Hnone.
  { intros m Hm. apply find_none_iff. intros q Hq. apply Z.eqb_neq. by apply Hm. }
  unfold assoc. f_equal. rewrite !find_app.
  rewrite (Hnone pre) by (intros q Hq; specialize (Hpre q Hq); lia).
  rewrite (Hnone post) by (intros q Hq; specialize (Hpost q Hq); rewrite (cmp_antisym h key q.1); lia).
  by destruct (find _ l).
Qed.

(** The child that internal_lookup chooses. *)
Lemma internal_lookup_spec key d ls : node_ok h d → 1 ≤ get_size d → keys_sorted h (drop 1 (node_pairs h d)) →
  key_ok h key → keysep (node_pairs h d) ls → length ls = length (node_pairs h d) →
  (∀ l q, l ∈ ls → q ∈ l → key_ok h q.1) →
  ∃ r p l', node_pairs h d !! r = Some p ∧ ls !! r = Some l' ∧ internal_lookup h key d = page_no p.2 ∧
    located key (concat (take r ls)) (concat (drop (S r) ls)) ∧
    (∀ i q, (1 ≤ i)%nat → node_pairs h d !! i = Some q → if decide (i ≤ r)%nat then cmp q.1 key ≤ 0 else cmp key q.1 < 0).
Proof.
  intros Hok Hsz Hso Hk Hsep Hll Hko. destruct (upper_bound_spec h Hlay key d Hok Hsz Hso Hk) as (Hr & Hle & Hgt).
  set (ub := upper_bound h key d) in *. set (r := Z.to_nat (ub - 1)).
  pose proof (length_node_pairs h d) as Hlen.
  destruct (lookup_lt_is_Some_2 (node_pairs h d) r) as [p Hp]; [lia|].
  destruct (lookup_lt_is_Some_2 ls r) as [l' Hl']; [lia|].
  assert (∀ i q, (1 ≤ i)%nat → node_pairs h d !! i = Some q →
            if decide (i ≤ r)%nat then cmp q.1 key ≤ 0 else cmp key q.1 < 0) as Hcmp.
  { intros i q Hi Hq. rewrite <- (Nat2Z.id i) in Hq. apply (node_key_lookup h Hlay) in Hq as (His & Eq & _); [|lia].
    rewrite <- Eq. case_decide; [apply Hle; lia|]. specialize (Hgt (Z.of_nat i) ltac:(lia)).
    rewrite (cmp_antisym h (get_key h (Z.of_nat i) d) key). lia. }
  assert (∀ i q, (1 ≤ i)%nat → node_pairs h d !! i = Some q → key_ok h q.1) as Hkk.
  { intros i q Hi Hq. destruct Hso as [Hko' _]. apply Hko'. apply (list_elem_of_lookup_2 _ (i - 1)).
    rewrite lookup_drop. by replace (1 + (i - 1))%nat with i by lia. }
  exists r, p, l'. split_and!; try done.
  - unfold internal_lookup, value_at. fold ub. rewrite <- (Nat2Z.id r) in Hp.
    apply (node_key_lookup h Hlay) in Hp as (_ & _ & Er); [|lia]. unfold r in Er. rewrite Z2Nat.id in Er by lia.
    by rewrite Er.
  - split; intros q (j & m & Hj & Hq)%elem_concat.
    + apply lookup_take_Some in Hj as [Hj Hjr]. pose proof (Hsep r j p m q ltac:(lia) Hp Hj Hq) as Hs.
      rewrite decide_True in Hs by lia. apply (cmp_lt_trans h _ p.1); [|eapply Hkk; [|exact Hp]; lia|done|done|].
      * by eapply Hko; [eapply list_elem_of_lookup_2|].
      * specialize (Hcmp r p ltac:(lia) Hp). by rewrite decide_True in Hcmp.
    + rewrite lookup_drop in Hj. pose proof (lookup_lt_Some _ _ _ Hj) as Hlt.
      destruct (lookup_lt_is_Some_2 (node_pairs h d) (S r + j)) as [p' Hp']; [lia|].
      pose proof (Hsep (S r + j)%nat (S r + j)%nat p' m q ltac:(lia) Hp' Hj Hq) as Hs. rewrite decide_False in Hs by lia.
      specialize (Hcmp (S r + j)%nat p' ltac:(lia) Hp'). rewrite decide_False in Hcmp by lia.
      apply (cmp_lt_trans h _ p'.1); [done|by eapply Hkk; [|exact Hp']; lia| |done|done].
      by eapply Hko; [eapply list_elem_of_lookup_2|].
Qed.

(** Replacing one element of a list of lists. *)
Lemma concat_insert {A} (ls : list (list A)) r l' m : ls !! r = Some l' →
  concat (<[r:=m]> ls) = concat (take r ls) ++ m ++ concat (drop (S r) ls).
Proof.
  intros Hr. rewrite insert_take_drop by (by eapply lookup_lt_Some). by rewrite concat_app.
Qed.

(** The subtree of a child: its pages are apart from those of its siblings. *)
Lemma pages_apart (pss : list (list Z)) i j ps ps' m : NoDup (concat pss) →
  pss !! i = Some ps → pss !! j = Some ps' → m ∈ ps → m ∈ ps' → i = j.
Proof.
  revert i j. induction pss as [|p pss IH]; intros i j Hnd Hi Hj Hm Hm'; [done|]. simpl in Hnd.
  apply NoDup_app in Hnd as (_ & Hx & Hnd).
  destruct i as [|i], j as [|j]; simpl in *; simplify_eq; [done| | |f_equal; by eapply IH].
  - destruct (Hx m Hm). apply elem_concat. by exists j, ps'.
  - destruct (Hx m Hm'). apply elem_concat. by exists i, ps.
Qed.

Lemma NoDup_concat_lookup {A} (pss : list (list A)) i ps : NoDup (concat pss) → pss !! i = Some ps → NoDup ps.
Proof.
  intros Hnd Hi. rewrite <- (take_drop_middle _ _ _ Hi), concat_app in Hnd. simpl in Hnd.
  apply NoDup_app in Hnd as (_ & _ & Hnd). by apply NoDup_app in Hnd as (? & _).
Qed.

(** The leaf of a key, in its tree: it holds the entries between those smaller
    and those greater than the key, and a change of this leaf that only adds
    entries with this key, or drops entries, gives a tree again. *)
Definition focus (view : Z → option (list Z)) (g : nat) (n : Z) (key : list Z) (l : list entry) (ps : list Z) : Prop :=
  let m := leaf_of view g n key in
  ∃ pre d post, m ∈ ps ∧ m ≠ INVALID_PAGE_ID ∧ view m = Some d ∧ node_ok h d ∧ is_leaf_page d = true ∧
    keys_sorted h (node_pairs h d) ∧ l = pre ++ node_pairs h d ++ post ∧ located key pre post ∧
    ∀ view' d', (∀ k, k ∈ ps → k ≠ m → view' k = view k) → view' m = Some d' → node_ok h d' →
      is_leaf_page d' = true → keys_sorted h (node_pairs h d') →
      (∀ q, q ∈ node_pairs h d' → q ∈ node_pairs h d ∨ q.1 = key) →
      ix_tree view' g n (pre ++ node_pairs h d' ++ post) ps.

Lemma keysep_insert key ks ls r l' m : key_ok h key → keysep ks ls → ls !! r = Some l' →
  (∀ i q, (1 ≤ i)%nat → ks !! i = Some q → if decide (i ≤ r)%nat then cmp q.1 key ≤ 0 else cmp key q.1 < 0) →
  (∀ q, q ∈ m → q ∈ l' ∨ q.1 = key) → keysep ks (<[r:=m]> ls).
Proof.
  intros Hk Hsep Hr Hcmp Hm i j p x q Hi Hp Hj Hq. pose proof (lookup_lt_Some _ _ _ Hr) as Hlt.
  destruct (decide (j = r)) as [->|Hne]; [|rewrite list_lookup_insert_ne in Hj by done; by eapply Hsep].
  rewrite list_lookup_insert_eq in Hj by done. injection Hj as <-.
  apply Hm in Hq as [Hq| ->]; [by eapply Hsep|]. specialize (Hcmp i p Hi Hp).
  repeat case_decide; try lia; done.
Qed.

Lemma ix_tree_focus view g n key l ps : key_ok h key → NoDup ps → ix_tree view g n l ps → focus view g n key l ps.
Proof.
  intros Hk. revert n l ps. induction g as [|g IH]; intros n l ps Hnd Ht.
  - destruct Ht as (Hn & d & Hd & Hok & Hlf & Hso & -> & ->). exists [], d, []. simpl. rewrite app_nil_r.
    split_and!; try done; [set_solver|by split; intros q ?%elem_of_nil|].
    intros view' d' _ Hd' Hok' Hlf' Hso' _. rewrite app_nil_r. split; [done|]. by exists d'.
  - pose proof (ix_tree_keys _ _ _ _ _ Ht) as Hkeys.
    destruct Ht as (Hn & d & Hd & Hok & Hlf & Hsz & Hso & ls & pss & -> & -> & Hl1 & Hl2 & Hch & Hsep).
    apply NoDup_cons in Hnd as [Hnotin Hnd].
    destruct (internal_lookup_spec key d ls) as (r & p & l' & Hp & Hl' & El & Hloc & Hcmp); try done.
    { intros l' q Hl' Hq. apply Hkeys. apply list_elem_of_lookup in Hl' as [i Hi]. apply elem_concat. by exists i, l'. }
    pose proof (lookup_lt_Some _ _ _ Hp) as Hlt. destruct (lookup_lt_is_Some_2 pss r) as [ps' Hps']; [lia|].
    destruct (IH (page_no p.2) l' ps') as (pre & dl & post & Hin & Hinv & Hv & Hokl & Hlfl & Hsol & -> & Hloc' & Hrep);
      [by eapply NoDup_concat_lookup|by eapply Hch|].
    unfold focus. cbn [leaf_of]. rewrite Hd, El. set (m := leaf_of view g (page_no p.2) key) in *.
    assert (m ∈ concat pss) as Hinc by (apply elem_concat; by exists r, ps').
    exists (concat (take r ls) ++ pre), dl, (post ++ concat (drop (S r) ls)). split_and!; try done.
    + by right.
    + rewrite <- (take_drop_middle ls r _ Hl') at 1. rewrite concat_app. simpl. by rewrite <- !app_assoc.
    + destruct Hloc as [H1 H2], Hloc' as [H3 H4].
      split; intros q Hq; apply elem_of_app in Hq as [Hq|Hq]; [by apply H1|by apply H3|by apply H4|by apply H2].
    + intros view' d' Hoth Hd' Hok' Hlf' Hso' Hq'. split; [done|]. exists d.
      split; [rewrite Hoth; [done|set_solver|by intros <-]|]. split_and!; try done.
      exists (<[r := pre ++ node_pairs h d' ++ post]> ls), pss. split_and!; try done.
      * rewrite (concat_insert ls r _ _ Hl'). by rewrite <- !app_assoc.
      * by rewrite length_insert.
      * intros i q l'' ps'' Hi Hli Hpi. destruct (decide (i = r)) as [->|Hne].
        -- rewrite list_lookup_insert_eq in Hli by lia. injection Hli as <-. assert (q = p) as -> by congruence.
           assert (ps'' = ps') as -> by congruence. apply Hrep; try done.
           intros k Hk' Hkm. apply Hoth; [right; apply elem_concat; by exists r, ps'|done].
        -- rewrite list_lookup_insert_ne in Hli by done. eapply ix_tree_ext; [|by eapply Hch].
           intros k dk Hk' Hvk. rewrite Hoth; [done|right; apply elem_concat; by exists i, ps''|].
           intros ->. destruct Hne. by eapply (pages_apart pss i r).
      * eapply keysep_insert; [done|done|exact Hl'|done|]. intros q Hq.
        apply elem_of_app in Hq as [Hq|Hq]; [left; set_solver|]. apply elem_of_app in Hq as [Hq|Hq]; [|left; set_solver].
        apply Hq' in Hq as [Hq|Hq]; [left; set_solver|by right].
Qed.

Lemma assoc_remove key v k0 l r : keys_sorted h l → l !! r = Some (k0, v) → key_ok h key → cmp k0 key = 0 →
  ∀ k, key_ok h k → assoc h k (delete r l) = if cmp k key =? 0 then None else assoc h k l.
Proof.
  intros [Hko Hso] Hr Hkey E0 k Hk. pose proof (Hko _ (list_elem_of_lookup_2 _ _ _ Hr)) as Hk0. cbn [fst] in Hk0.
  destruct (Z.eqb_spec (cmp k key) 0) as [E|E].
  - apply assoc_None. intros q (j & Hj)%list_elem_of_lookup Eq.
    assert (∃ i, i ≠ r ∧ l !! i = Some q) as (i & Hi & Hq).
    { destruct (decide (j < r)%nat); [rewrite list_lookup_delete_lt in Hj by lia; exists j|
        rewrite list_lookup_delete_ge in Hj by lia; exists (S j)]; (split; [lia|done]). }
    pose proof (Hko _ (list_elem_of_lookup_2 _ _ _ Hq)) as Hkq.
    assert (cmp q.1 k0 = 0) as Ez by (apply (cmp_eq_trans h _ key); [done..| |by rewrite (cmp_antisym h k0 key), E0];
      by apply (cmp_eq_trans h _ k)).
    destruct (Nat.lt_trichotomy i r) as [Hlt|[Heq|Hlt]]; [|done|].
    + specialize (Hso i r _ _ Hlt Hq Hr). cbn [fst] in Hso. lia.
    + specialize (Hso r i _ _ Hlt Hr Hq). cbn [fst] in Hso. rewrite (cmp_antisym h q.1 k0) in Hso. lia.
  - unfold assoc. rewrite delete_take_drop. rewrite <- (take_drop_middle l r _ Hr) at 3. rewrite !find_app. cbn [find fst].
    rewrite (proj2 (Z.eqb_neq (cmp k0 k) 0)); [done|]. intros E'. destruct E.
    apply (cmp_eq_trans h _ k0); [done..|by rewrite (cmp_antisym h k0 k), E'|done].
Qed.

(** The child the descent visits is a tree on pages of its own. *)
Lemma ix_tree_child view g n key l ps : key_ok h key → NoDup ps → ix_tree view (S g) n l ps →
  ∃ d l' ps', view n = Some d ∧ is_leaf_page d = false ∧ ix_tree view g (internal_lookup h key d) l' ps' ∧
    NoDup ps' ∧ ∀ k, k ∈ ps' → k ∈ ps ∧ k ≠ n.
Proof.
  intros Hk Hnd Ht. pose proof (ix_tree_keys _ _ _ _ _ Ht) as Hkeys.
  destruct Ht as (Hn & d & Hd & Hok & Hlf & Hsz & Hso & ls & pss & -> & -> & Hl1 & Hl2 & Hch & Hsep).
  apply NoDup_cons in Hnd as [Hnotin Hnd].
  destruct (internal_lookup_spec key d ls) as (r & p & l' & Hp & Hl' & El & _); try done.
  { intros l' q Hl' Hq. apply Hkeys. apply list_elem_of_lookup in Hl' as [i Hi]. apply elem_concat. by exists i, l'. }
  pose proof (lookup_lt_Some _ _ _ Hp) as Hlt. destruct (lookup_lt_is_Some_2 pss r) as [ps' Hps']; [lia|].
  exists d, l', ps'. rewrite El. split_and!; try done; [by eapply Hch|by eapply NoDup_concat_lookup|].
  intros k Hk'. assert (k ∈ concat pss) by (apply elem_concat; by exists r, ps'). split; [by right|by intros ->].
Qed.

Lemma leaf_of_ext view view' g n key l ps : key_ok h key → NoDup ps → ix_tree view g n l ps →
  (∀ m d, m ∈ ps → view m = Some d → view' m = Some d) → leaf_of view' g n key = leaf_of view g n key.
Proof.
  intros Hk. revert n l ps. induction g as [|g IH]; intros n l ps Hnd Ht Hv; [done|]. cbn [leaf_of].
  pose proof (ix_tree_root _ _ _ _ _ Ht) as Hroot.
  destruct (ix_tree_child view g n key l ps Hk Hnd Ht) as (d & l' & ps' & Hd & _ & Ht' & Hnd' & Hin).
  rewrite (Hv n d Hroot Hd), Hd. eapply IH; [done..|]. intros m dm Hm. apply Hv. by apply Hin.
Qed.

(** A change of one leaf entry seen from lookup. *)
Lemma assoc_add key v l a b : (∀ q, q ∈ l → key_ok h q.1) → key_ok h key → l = a ++ b → assoc h key l = None →
  ∀ k, key_ok h k → assoc h k (a ++ (key, v) :: b) = if cmp k key =? 0 then Some v else assoc h k l.
Proof.
  intros Hl Hkey -> Hn k Hk. unfold assoc at 1. rewrite find_app. destruct (Z.eqb_spec (cmp k key) 0) as [E|E].
  - assert (find (λ p, cmp p.1 k =? 0) a = None) as ->.
    { apply find_none_iff. intros q Hq. apply Z.eqb_neq. intros Eq.
      apply (proj1 (assoc_None h key _) Hn q ltac:(set_solver)).
      apply (cmp_eq_trans h _ k); [apply Hl; set_solver|done..]. }
    simpl. by rewrite (cmp_antisym h k key), E.
  - simpl. rewrite (proj2 (Z.eqb_neq (cmp key k) 0)) by (rewrite (cmp_antisym h k key); lia).
    unfold assoc. rewrite find_app. by destruct (find _ a).
Qed.

End Tree.

(* ------------------------------------------------------------------ *)
(** ** The operations of the index                                      *)
(* ------------------------------------------------------------------ *)

Section IxOps.
Context {S : Type} `{PageStoreLaws S}.
Variable fd : Z.
Implicit Types st : IxIndex S.

Definition ipid (n : Z) : PageId := mkPageId fd n.
Definition iview st (n : Z) : option (list Z) := ps_view (ix_store st) (ipid n).

(** The index file is open and page n has [K n] pins. *)
Record ix_busy st (K : Z → Z) : Prop := {
  ib_ok : ps_ok (ix_store st);
  ib_open : ps_open (ix_store st) fd;
  ib_pins n : ps_pins (ix_store st) (ipid n) = K n
}.

(** A handle on page n that may be released without marking it dirty. *)
Definition clean_handle st (f n : Z) : Prop :=
  ps_holds (ix_store st) f (ipid n) ∧ ps_clean (ix_store st) f.

(** The exception of a page fetch: a full pool or a failing disk. *)
Definition fetch_fails (e : exn) : Prop := ∃ n st1 st2, fetch_node fd n st1 = (Throw e, st2).

Lemma ipid_inj n m : ipid n = ipid m → n = m.
Proof. by intros [= ->]. Qed.

Lemma ix_busy_ext st K K' : (∀ n, K n = K' n) → ix_busy st K → ix_busy st K'.
Proof. intros HK [? ? Hp]. split; try done. intros n. by rewrite Hp. Qed.

Lemma fetch_node_spec st K n f st' : ix_busy st K → n ≠ INVALID_PAGE_ID →
  fetch_node fd n st = (Ret f, st') →
  ix_hdr st' = ix_hdr st ∧ ix_busy st' (upd n (K n + 1) K) ∧
  (∀ m d, iview st m = Some d → iview st' m = Some d) ∧
  ps_holds (ix_store st') f (ipid n) ∧ (K n = 0 → ps_clean (ix_store st') f) ∧
  (∀ g m, clean_handle st g m → clean_handle st' g m).
Proof.
  intros [Hok Hop Hpn] Hn E. unfold fetch_node in E. mstep E. unfold on_ix in E0.
  destruct (ps_fetch _ _) as [[o|e] s1] eqn:Ef; [|done]. inv E0.
  destruct (ps_fetch_ok (ix_store st) (ipid n) a s1) as (Hok' & Hop' & Hnx' & Hm); try done.
  destruct a as [g|]; [|done]. inv E. destruct Hm as (Hh & Hle & Hp & Hpo & Hcl & Hkeep & Hres).
  split_and!; try done.
  - split; [done|by apply Hop'|]. intros m. simpl. destruct (decide (m = n)) as [->|Hne].
    + by rewrite upd_eq, Hp, Hpn.
    + rewrite upd_ne, Hpo by (done || intros ?%ipid_inj; done). apply Hpn.
  - intros m d Hm. by apply Hle.
  - intros Hz. apply Hcl. by rewrite Hpn.
  - intros g' m [Hg Hc]. split; apply (Hkeep _ _ Hg). done.
Qed.

(** The page a handle shows. *)
Lemma node_data_spec st K f n : ix_busy st K → ps_holds (ix_store st) f (ipid n) →
  ∃ d, node_data f st = (Ret d, st) ∧ iview st n = Some d ∧ node_page_id f st = (Ret (ipid n), st) ∧
    Z.of_nat (length d) = PAGE_SIZE.
Proof.
  intros [Hok _ _] Hh. destruct (ps_holds_ok _ _ _ Hok Hh) as (E1 & E2 & E3 & _).
  exists (ps_data f (ix_store st)). unfold node_data, node_page_id. by rewrite E1.
Qed.

Lemma unpin_node_spec st K f n dirty : ix_busy st K → ps_holds (ix_store st) f (ipid n) →
  (dirty = false → ps_clean (ix_store st) f) →
  ∃ st', unpin_node f dirty st = (Ret true, st') ∧ ix_hdr st' = ix_hdr st ∧
    ix_busy st' (upd n (K n - 1) K) ∧ (∀ m, iview st' m = iview st m) ∧
    (∀ g m, m ≠ n → clean_handle st g m → clean_handle st' g m).
Proof.
  intros Hb Hh Hcl. destruct (node_data_spec st K f n Hb Hh) as (d & _ & _ & Ep & _). destruct Hb as [Hok Hop Hpn].
  destruct (ps_unpin_ok (ix_store st) (ipid n) f dirty Hok Hh Hcl)
    as (s' & E & Hok' & Hop' & Hnx' & Hv & Hp & Hpo & Hk & Hr).
  exists (mkIxIndex s' (ix_hdr st)). unfold unpin_node. rewrite (st_bind_ret _ _ _ _ _ Ep). unfold on_ix. rewrite E.
  split_and!; try done.
  - split; [done|by apply Hop'|]. intros m. simpl. destruct (decide (m = n)) as [->|Hne].
    + by rewrite upd_eq, Hp, Hpn.
    + rewrite upd_ne, Hpo by (done || intros ?%ipid_inj; done). apply Hpn.
  - intros m. unfold iview. apply Hv.
  - intros g m Hne [Hg Hc]. destruct (Hk g (ipid m) ltac:(intros ?%ipid_inj; done) Hg) as [? Hc']. split; [done|by apply Hc'].
Qed.

Lemma put_node_spec st K f n d : ix_busy st K → ps_holds (ix_store st) f (ipid n) → Z.of_nat (length d) = PAGE_SIZE →
  ∃ st', put_node f d st = (Ret tt, st') ∧ ix_hdr st' = ix_hdr st ∧ ix_busy st' K ∧
    iview st' n = Some d ∧ (∀ m, m ≠ n → iview st' m = iview st m) ∧ ps_holds (ix_store st') f (ipid n).
Proof.
  intros [Hok Hop Hpn] Hh Hd.
  destruct (ps_put_ok (ix_store st) f (ipid n) d Hok Hh Hd) as (Hok' & Hop' & Hnx' & Hv & _ & Hvo & Hp & Hk & Hc & Hr).
  eexists. split; [reflexivity|]. split_and!; try done.
  - split; [done|by apply Hop'|]. intros m. simpl. by rewrite Hp.
  - intros m Hne. apply Hvo. by intros ?%ipid_inj.
  - by apply Hk.
Qed.

(** The descent reaches the leaf of the key, keeping no other pin. *)
Lemma find_leaf_loop_spec h key (Hlay : ix_layout h) (Hk : key_ok h key) g :
  ∀ fuel f n l ps st r st', (g ≤ fuel)%nat → ix_busy st (upd n 1 (λ _, 0)) → clean_handle st f n → ix_hdr st = h →
  ix_tree h (iview st) g n l ps → NoDup ps → find_leaf_loop fd fuel key false f st = (r, st') →
  match r with
  | Ret f' => let m := leaf_of h (iview st) g n key in
      ix_busy st' (upd m 1 (λ _, 0)) ∧ clean_handle st' f' m ∧ ix_hdr st' = h ∧
      (∀ m d, iview st m = Some d → iview st' m = Some d)
  | Throw e => fetch_fails e
  end.
Proof.
  induction g as [|g IH]; intros fuel f n l ps st r st' Hfuel Hb Hc Hh Ht Hnd E;
    destruct (node_data_spec st _ f n Hb (proj1 Hc)) as (d & Ed & Hd & _ & _).
  - destruct Ht as (_ & d' & Hd' & _ & Hlf & _). assert (d' = d) as -> by congruence.
    assert (find_leaf_loop fd fuel key false f st = (Ret f, st)) as E'.
    { destruct fuel; cbn [find_leaf_loop]; rewrite (st_bind_ret _ _ _ _ _ Ed), Hlf; done. }
    rewrite E' in E. inv E. done.
  - destruct (ix_tree_child h Hlay (iview st) g n key l ps Hk Hnd Ht) as (d' & l' & ps' & Hd' & Hlf & Ht' & Hnd' & Hin).
    assert (d' = d) as -> by congruence. destruct fuel as [|fuel]; [lia|].
    cbn [find_leaf_loop] in E. rewrite (st_bind_ret _ _ _ _ _ Ed), Hlf in E.
    rewrite (st_bind_ret get_ixhdr _ st h st) in E by (unfold get_ixhdr; by rewrite Hh). cbv zeta in E. set (c := internal_lookup h key d) in *.
    assert (c ≠ n ∧ c ≠ INVALID_PAGE_ID) as [Hcn Hci].
    { split; [by eapply Hin, ix_tree_root|]. by destruct g; destruct Ht'. }
    apply st_bind_inv in E as [(f1 & st1 & E1 & E)|(e & E1 & ->)]; [|by exists c, st, st'].
    destruct (fetch_node_spec st _ c f1 st1 Hb Hci E1) as (Hh1 & Hb1 & Hv1 & Hhold & Hcl & Hkeep).
    rewrite upd_ne in Hcl by done. specialize (Hcl eq_refl). specialize (Hkeep f n Hc).
    destruct (unpin_node_spec st1 _ f n false Hb1 (proj1 Hkeep)) as (st2 & E2 & Hh2 & Hb2 & Hv2 & Hk2); [by intros; apply Hkeep|].
    rewrite (st_bind_ret _ _ _ _ _ E2) in E.
    eapply (IH fuel f1 c l' ps' st2 r st') in E; [|lia| |by apply Hk2|congruence| |done].
    + cbn [leaf_of]. rewrite Hd. fold c. destruct r as [f'|e]; [|done]. cbv zeta in *.
      rewrite (leaf_of_ext h Hlay (iview st) (iview st2) g c key l' ps' Hk Hnd' Ht') in E.
      2:{ intros m dm _ Hm. rewrite Hv2. by apply Hv1. }
      destruct E as (? & ? & ? & Hv). split_and!; try done. intros m dm Hm. apply Hv. rewrite Hv2. by apply Hv1.
    + eapply ix_busy_ext; [|exact Hb2]. intros m. cbv beta. unfold upd.
      destruct (Z.eqb_spec m n), (Z.eqb_spec m c), (Z.eqb_spec n c), (Z.eqb_spec c n), (Z.eqb_spec n n); subst; try done; lia.
    + eapply ix_tree_ext; [done| |exact Ht']. intros m dm _ Hm. rewrite Hv2. by apply Hv1.
Qed.

(** The index between two operations: nothing pinned, and a tree of height [g]
    on the pages [ps] with the entries [l]. *)
Record ix_inv st (g : nat) (l : list entry) (ps : list Z) : Prop := {
  ii_busy : ix_busy st (λ _, 0);
  ii_layout : ix_layout (ix_hdr st);
  ii_tree : ix_tree (ix_hdr st) (iview st) g (root_page (ix_hdr st)) l ps;
  ii_nodup : NoDup ps;
  ii_height : Z.of_nat g ≤ ix_num_pages (ix_hdr st)
}.

Definition target_leaf st (g : nat) (key : list Z) : Z := leaf_of (ix_hdr st) (iview st) g (root_page (ix_hdr st)) key.

Lemma find_leaf_page_spec st g l ps key r st' : ix_inv st g l ps → key_ok (ix_hdr st) key →
  find_leaf_page fd key false st = (r, st') →
  match r with
  | Ret f => let m := target_leaf st g key in
      ix_busy st' (upd m 1 (λ _, 0)) ∧ clean_handle st' f m ∧ ix_hdr st' = ix_hdr st ∧
      (∀ m d, iview st m = Some d → iview st' m = Some d)
  | Throw e => fetch_fails e
  end.
Proof.
  intros [Hb Hlay Ht Hnd Hg] Hk E. unfold find_leaf_page in E.
  rewrite (st_bind_ret get_ixhdr _ st (ix_hdr st) st eq_refl) in E. set (n := root_page (ix_hdr st)) in *.
  assert (n ≠ INVALID_PAGE_ID) as Hn by (by destruct g; destruct Ht).
  apply st_bind_inv in E as [(f1 & st1 & E1 & E)|(e & E1 & ->)]; [|by exists n, st, st'].
  destruct (fetch_node_spec st _ n f1 st1 Hb Hn E1) as (Hh1 & Hb1 & Hv1 & Hhold & Hcl & _).
  eapply (find_leaf_loop_spec (ix_hdr st) key Hlay Hk g _ f1 n l ps) in E; try done.
  - destruct r as [f|e]; [|done]. cbv zeta in *. unfold target_leaf. fold n.
    rewrite (leaf_of_ext (ix_hdr st) Hlay (iview st) (iview st1) g n key l ps Hk Hnd Ht) in E by naive_solver.
    destruct E as (? & ? & ? & Hv). split_and!; try done. intros m dm Hm. by apply Hv, Hv1.
  - unfold fuel_of. lia.
  - split; [done|]. by apply Hcl.
  - eapply ix_tree_ext; [done| |exact Ht]. intros m dm _. apply Hv1.
Qed.

(** The leaf that find_leaf_page hands out, with its place in the tree. *)
Lemma found_leaf st g l ps key f st1 : ix_inv st g l ps → key_ok (ix_hdr st) key →
  find_leaf_page fd key false st = (Ret f, st1) →
  let m := target_leaf st g key in
  ix_busy st1 (upd m 1 (λ _, 0)) ∧ clean_handle st1 f m ∧ ix_hdr st1 = ix_hdr st ∧
  (∀ n d, iview st n = Some d → iview st1 n = Some d) ∧
  ∃ d, node_data f st1 = (Ret d, st1) ∧ iview st m = Some d ∧
    leaf_lookup (ix_hdr st) key d = assoc (ix_hdr st) key l ∧ node_ok (ix_hdr st) d.
Proof.
  intros Hi Hk E. pose proof (find_leaf_page_spec _ _ _ _ _ _ _ Hi Hk E) as (Hb & Hc & Hh & Hv).
  destruct Hi as [_ Hlay Ht Hnd _].
  destruct (ix_tree_focus (ix_hdr st) Hlay (iview st) g _ key l ps Hk Hnd Ht)
    as (pre & d & post & _ & _ & Hd & Hok & _ & Hso & -> & Hloc & _).
  destruct (node_data_spec st1 _ f _ Hb (proj1 Hc)) as (d' & Ed & Hd' & _ & _).
  fold (target_leaf st g key) in Hd. rewrite (Hv _ _ Hd) in Hd'. injection Hd' as <-.
  split_and!; try done. exists d. split_and!; try done.
  rewrite leaf_lookup_spec by done. by rewrite assoc_located.
Qed.

(** Releasing the leaf restores the state between operations. *)
Lemma release_leaf st g l ps key f st1 : ix_inv st g l ps → ix_busy st1 (upd (target_leaf st g key) 1 (λ _, 0)) →
  clean_handle st1 f (target_leaf st g key) → ix_hdr st1 = ix_hdr st →
  (∀ n d, iview st n = Some d → iview st1 n = Some d) →
  ∃ st2, unpin_node f false st1 = (Ret true, st2) ∧ ix_inv st2 g l ps ∧ ix_hdr st2 = ix_hdr st ∧
    (∀ n d, iview st n = Some d → iview st2 n = Some d).
Proof.
  intros [_ Hlay Ht Hnd Hg] Hb Hc Hh Hv.
  destruct (unpin_node_spec st1 _ f _ false Hb (proj1 Hc)) as (st2 & E & Hh2 & Hb2 & Hv2 & _); [by intros; apply Hc|].
  exists st2. assert (ix_hdr st2 = ix_hdr st) as Hh2' by congruence. split_and!; try done.
  - split; rewrite ?Hh2'; try done.
    + eapply ix_busy_ext; [|exact Hb2]. intros n. cbv beta. unfold upd. rewrite Z.eqb_refl. by destruct (n =? _).
    + eapply ix_tree_ext; [done| |exact Ht]. intros n d _ Hn. rewrite Hv2. by apply Hv.
  - intros n d Hn. rewrite Hv2. by apply Hv.
Qed.

Lemma get_value_spec st g l ps key r st' : ix_inv st g l ps → key_ok (ix_hdr st) key →
  get_value fd key st = (r, st') →
  match r with
  | Ret v => v = assoc (ix_hdr st) key l ∧ ix_inv st' g l ps ∧ ix_hdr st' = ix_hdr st ∧
      (∀ n d, iview st n = Some d → iview st' n = Some d)
  | Throw e => fetch_fails e
  end.
Proof.
  intros Hi Hk E. unfold get_value in E.
  apply st_bind_inv in E as [(f & st1 & E1 & E)|(e & E1 & ->)].
  2:{ by apply (find_leaf_page_spec _ _ _ _ _ _ _ Hi Hk E1). }
  destruct (found_leaf st g l ps key f st1 Hi Hk E1) as (Hb & Hc & Hh & Hv & d & Ed & Hd & El & _).
  rewrite (st_bind_ret get_ixhdr _ st1 (ix_hdr st) st1) in E by (unfold get_ixhdr; by rewrite Hh).
  rewrite (st_bind_ret _ _ _ _ _ Ed) in E. cbv zeta in E. rewrite El in E.
  destruct (release_leaf st g l ps key f st1 Hi Hb Hc Hh Hv) as (st2 & E2 & Hi2 & Hh2 & Hv2).
  rewrite (st_bind_ret _ _ _ _ _ E2) in E. inv E. done.
Qed.

(** The leaf the key belongs to can take one more entry without a split. *)
Definition leaf_room st (g : nat) (key : list Z) : Prop :=
  ∀ d, iview st (target_leaf st g key) = Some d → get_size d + 1 < get_max_size (ix_hdr st).

Lemma target_leaf_ext st st' g l ps key : ix_inv st g l ps → key_ok (ix_hdr st) key → ix_hdr st' = ix_hdr st →
  (∀ n d, iview st n = Some d → iview st' n = Some d) → target_leaf st' g key = target_leaf st g key.
Proof.
  intros [_ Hlay Ht Hnd _] Hk Hh Hv. unfold target_leaf. rewrite Hh. eapply leaf_of_ext; try done. naive_solver.
Qed.

(** Adding the entry to a pinned leaf with room. *)
Lemma insert_in_leaf st g l ps key v f st1 : ix_inv st g l ps → key_ok (ix_hdr st) key → rid_wf v →
  leaf_room st g key → assoc (ix_hdr st) key l = None → find_leaf_page fd key false st = (Ret f, st1) →
  let m := target_leaf st g key in
  ∃ st2 d' a b, l = a ++ b ∧ update_node f (node_insert (ix_hdr st) key v) st1 = (Ret tt, st2) ∧
    ix_hdr st2 = ix_hdr st ∧ ix_busy st2 (upd m 1 (λ _, 0)) ∧ ps_holds (ix_store st2) f (ipid m) ∧
    iview st2 m = Some d' ∧ get_size d' < get_max_size (ix_hdr st) ∧
    ix_tree (ix_hdr st) (iview st2) g (root_page (ix_hdr st)) (a ++ (key, v) :: b) ps.
Proof.
  intros Hi Hk Hv Hroom Hn E1. cbv zeta.
  destruct (found_leaf st g l ps key f st1 Hi Hk E1) as (Hb & Hc & Hh & Hvw & d & Ed & Hd & El & Hok).
  pose proof (target_leaf_ext st st1 g l ps key Hi Hk Hh Hvw) as Htl. specialize (Hroom d Hd).
  set (m := target_leaf st g key) in *.
  destruct Hi as [_ Hlay Ht Hnd Hg]. set (h := ix_hdr st) in *.
  assert (ix_tree h (iview st1) g (root_page h) l ps) as Ht1 by (eapply ix_tree_ext; [done| |exact Ht]; naive_solver).
  destruct (ix_tree_focus h Hlay (iview st1) g _ key l ps Hk Hnd Ht1)
    as (pre & d0 & post & Hin & _ & Hd0 & _ & Hlf & Hso & El0 & Hloc & Hrep).
  unfold target_leaf in Htl. rewrite Hh in Htl. fold h in Htl. rewrite Htl in *.
  rewrite (Hvw _ _ Hd) in Hd0. injection Hd0 as <-.
  pose proof (node_insert_spec h Hlay key v d Hok Hso Hk Hv ltac:(lia)) as Hins.
  rewrite <- (assoc_located h key pre (node_pairs h d) post Hloc), <- El0, Hn in Hins.
  destruct Hins as (d' & r & Ei & [Hok' Hhs] & Hsz & Hpairs & Hso').
  destruct (put_node_spec st1 _ f m d' Hb (proj1 Hc) (proj1 Hok')) as (st2 & Ep & Hh2 & Hb2 & Hv2 & Hvo & Hhold).
  exists st2, d', (pre ++ take r (node_pairs h d)), (drop r (node_pairs h d) ++ post).
  split; [rewrite <- app_assoc, (app_assoc (take _ _)), take_drop; exact El0|].
  split; [unfold update_node; rewrite (st_bind_ret _ _ _ _ _ Ed); unfold lift_outcome; rewrite Ei; exact Ep|].
  split; [congruence|]. split_and!; try done; [lia|].
  rewrite <- app_assoc. rewrite app_comm_cons, (app_assoc (take r _)), <- Hpairs. apply Hrep; try done.
  - intros k _ Hkm. by apply Hvo.
  - by destruct (hdr_same_fields _ _ Hhs) as (_ & -> & _).
  - intros q Hq. rewrite Hpairs in Hq. rewrite <- (take_drop r (node_pairs h d)).
    apply elem_of_app in Hq as [Hq|Hq]; [left; set_solver|]. apply elem_of_cons in Hq as [->|Hq]; [by right|left; set_solver].
Qed.

Lemma insert_entry_spec st g l ps key v r st' : ix_inv st g l ps → key_ok (ix_hdr st) key → rid_wf v →
  leaf_room st g key → insert_entry fd key v st = (r, st') →
  match r with
  | Ret p => p = target_leaf st g key ∧ assoc (ix_hdr st) key l = None ∧ ix_hdr st' = ix_hdr st ∧
      ∃ a b, l = a ++ b ∧ ix_inv st' g (a ++ (key, v) :: b) ps
  | Throw e =>
      (e = RMDBError "Unique index constraint violated" ∧ is_Some (assoc (ix_hdr st) key l) ∧ ix_inv st' g l ps) ∨
      fetch_fails e
  end.
Proof.
  intros Hi Hk Hv Hroom E. unfold insert_entry in E.
  apply st_bind_inv in E as [(o & st1 & E1 & E)|(e & E1 & ->)].
  2:{ right. by apply (get_value_spec _ _ _ _ _ _ _ Hi Hk E1). }
  apply (get_value_spec _ _ _ _ _ _ _ Hi Hk) in E1 as (-> & Hi1 & Hh1 & Hv1).
  destruct (assoc (ix_hdr st) key l) as [w|] eqn:Ea; [inv E; left; by split_and!|].
  apply st_bind_inv in E as [(f & st2 & E2 & E)|(e & E2 & ->)].
  2:{ right. rewrite <- Hh1 in Hk. by apply (find_leaf_page_spec _ _ _ _ _ _ _ Hi1 Hk E2). }
  pose proof (target_leaf_ext st st1 g l ps key Hi Hk Hh1 Hv1) as Htl.
  assert (leaf_room st1 g key) as Hroom1.
  { intros d Hd. rewrite Htl in Hd. destruct Hi as [_ Hlay Ht Hnd _].
    destruct (ix_tree_focus (ix_hdr st) Hlay (iview st) g _ key l ps Hk Hnd Ht) as (_ & d0 & _ & _ & _ & Hd0 & _).
    fold (target_leaf st g key) in Hd0. rewrite (Hv1 _ _ Hd0) in Hd. injection Hd as <-. rewrite Hh1. by apply Hroom. }
  destruct (find_leaf_page_spec _ _ _ _ _ _ _ Hi1 ltac:(by rewrite Hh1) E2) as (_ & _ & Hh2 & _).
  destruct (insert_in_leaf st1 g l ps key v f st2) as (st3 & d' & a & b & Eab & Eu & Hh3 & Hb3 & Hhold & Hd' & Hsz & Ht3);
    rewrite ?Hh1 in *; try done.
  rewrite (st_bind_ret get_ixhdr _ st2 (ix_hdr st) st2) in E by (unfold get_ixhdr; by rewrite Hh2).
  rewrite (st_bind_ret _ _ _ _ _ Eu) in E.
  destruct (node_data_spec st3 _ f _ Hb3 Hhold) as (d'' & Ed & Hd'' & Ep & _). rewrite Hd' in Hd''. injection Hd'' as <-.
  unfold node_page_no in E. rewrite st_bind_ret with (a := target_leaf st1 g key) (s' := st3) in E
    by (by rewrite (st_bind_ret _ _ _ _ _ Ep)).
  rewrite (st_bind_ret _ _ _ _ _ Ed) in E. rewrite (proj2 (Z.leb_gt _ _)) in E by done.
  rewrite (st_bind_ret (mret _) _ st3 (target_leaf st1 g key) st3 eq_refl) in E.
  destruct (unpin_node_spec st3 _ f _ true Hb3 Hhold) as (st4 & E4 & Hh4 & Hb4 & Hv4 & _); [done|].
  rewrite (st_bind_ret _ _ _ _ _ E4) in E. inv E. destruct Hi as [_ Hlay _ Hnd Hg].
  assert (ix_hdr st' = ix_hdr st) as Hh by congruence. split_and!; try done. exists a, b. split; [done|].
  split; rewrite ?Hh; try done.
  - eapply ix_busy_ext; [|exact Hb4]. intros n. cbv beta. unfold upd. rewrite Z.eqb_refl. by destruct (n =? _).
  - eapply ix_tree_ext; [done| |exact Ht3]. intros n d _. by rewrite Hv4.
Qed.

End IxOps.
