(* ===== verification/IxClaims.v ===== *)
(** * What the index promises

    The theorems about the index component, with the states that witness them:
    the header that create_index writes, search inside a node, and lookup and
    insertion in the tree. *)

From S2P Require Import Prelude Defs SmMeta Values Posix DiskManager Replacer BufferPool IxNode IxIndex IxManager IxNodeSpec IxTree.

(* ------------------------------------------------------------------ *)
(** ** The file header                                                  *)
(* ------------------------------------------------------------------ *)

Record ix_hdr_ok (h : IxFileHdr) : Prop := {
  ho_num : col_num h = Z.of_nat (length (col_types h));
  ho_lens : length (col_lens h) = length (col_types h);
  ho_len32 : Forall is_int32 (col_lens h);
  ho_tot : tot_len h = 40 + 8 * col_num h;
  ho_int32 : Forall is_int32 [ix_first_free_page_no h; ix_num_pages h; root_page h; col_num h; col_tot_len h;
                              btree_order h; keys_size h; first_leaf h; last_leaf h; tot_len h]
}.

Lemma length_concat_fixed {A} (f : A → list Z) w l : (∀ x, length (f x) = w) → length (concat (f <$> l)) = (w * length l)%nat.
Proof. intros Hf. induction l as [|x l IH]; simpl; [lia|]. rewrite length_app, Hf. unfold fmap in IH. lia. Qed.

Lemma cur_types ts k off src : drop off src = concat ((λ t, le_bytes 4 (coltype_code t)) <$> ts) ++ k →
  read_types (length ts) off src = Some ts ∧ drop (off + 4 * length ts) src = k.
Proof.
  revert off. induction ts as [|t ts IH]; intros off E.
  - cbn [length read_types]. by replace (off + 4 * 0)%nat with off by lia.
  - rewrite fmap_cons in E. cbn [concat] in E. rewrite <- app_assoc in E.
    apply cur_i32 in E as [E1 E2]; [|by destruct t]. apply IH in E2 as [E2 E3]. cbn [length read_types].
    rewrite E1, coltype_of_code_code, E2. split; [done|]. rewrite <- E3. f_equal. lia.
Qed.

Lemma cur_ints zs k off src : Forall is_int32 zs → drop off src = concat (le_bytes 4 <$> zs) ++ k →
  read_ints (length zs) off src = zs ∧ drop (off + 4 * length zs) src = k.
Proof.
  intros Hz. revert off. induction Hz as [|z zs Hz _ IH]; intros off E.
  - cbn [length read_ints]. by replace (off + 4 * 0)%nat with off by lia.
  - rewrite fmap_cons in E. cbn [concat] in E. rewrite <- app_assoc in E.
    apply cur_i32 in E as [E1 E2]; [|done]. apply IH in E2 as [E2 E3]. cbn [length read_ints].
    rewrite E1, E2. split; [done|]. rewrite <- E3. f_equal. lia.
Qed.

Lemma ix_hdr_length h : ix_hdr_ok h → Z.of_nat (length (ix_hdr_bytes h)) = tot_len h.
Proof.
  intros [Hn Hl _ Ht _]. unfold ix_hdr_bytes. rewrite !length_app, !length_le_bytes.
  rewrite (length_concat_fixed _ 4) by (intros; apply length_le_bytes).
  rewrite (length_concat_fixed _ 4) by (intros; apply length_le_bytes). rewrite !length_take. lia.
Qed.

Lemma ix_hdr_roundtrip h k : ix_hdr_ok h →
  ix_hdr_serialize h = Ret (ix_hdr_bytes h) ∧ ix_hdr_deserialize (ix_hdr_bytes h ++ k) = Ret h.
Proof.
  intros Hok. pose proof (ix_hdr_length h Hok) as Hlen. destruct Hok as [Hn Hl Hls Ht Hi].
  split; [unfold ix_hdr_serialize; by rewrite Hlen, Z.eqb_refl|].
  repeat (apply Forall_cons in Hi as [? Hi]). clear Hi Hlen.
  assert (drop 0 (ix_hdr_bytes h ++ k) = ix_hdr_bytes h ++ k) as E by done. revert E. generalize (ix_hdr_bytes h ++ k) at 1 3.
  intros src E. unfold ix_hdr_bytes in E. rewrite !take_ge in E by lia. rewrite <- !app_assoc in E.
  do 5 (apply cur_i32 in E as [? E]; [|done]). simpl Nat.add in *.
  apply cur_types in E as [Et E]. apply cur_ints in E as [El E]; [|done]. rewrite Hl in *.
  do 5 (apply cur_i32 in E as [? E]; [|done]). unfold ix_hdr_deserialize.
  assert (Z.to_nat (load_i32 16 src) = length (col_types h)) as -> by lia. cbv zeta. rewrite Et.
  replace (20 + 4 * length (col_types h) + 4 * length (col_types h) + 4 + 4)%nat with
    (20 + 4 * length (col_types h) + 4 * length (col_types h) + 8)%nat in * by lia.
  replace (20 + 4 * length (col_types h) + 4 * length (col_types h) + 8 + 4)%nat with
    (20 + 4 * length (col_types h) + 4 * length (col_types h) + 12)%nat in * by lia.
  replace (20 + 4 * length (col_types h) + 4 * length (col_types h) + 12 + 4)%nat with
    (20 + 4 * length (col_types h) + 4 * length (col_types h) + 16)%nat in * by lia.
  cbn [tot_len]. rewrite (proj2 (Z.eqb_eq _ _)) by lia. f_equal. destruct h. simpl in *. by f_equal.
Qed.

Lemma foldr_add_bounds l : Forall (λ z, 0 < z) l → Z.of_nat (length l) ≤ foldr Z.add 0 l ∧
  Forall (λ z, z ≤ foldr Z.add 0 l) l.
Proof.
  induction 1 as [|z l Hz _ [IH1 IH2]]; simpl; [done|]. split; [lia|]. constructor; [lia|].
  eapply Forall_impl; [exact IH2|]. simpl. lia.
Qed.

(** Unfold the fields of the initial header. *)
Ltac hdr_fields :=
  cbn [ix_init_hdr update_tot_len ix_first_free_page_no ix_num_pages root_page
    col_num col_types col_lens col_tot_len btree_order keys_size first_leaf last_leaf tot_len].

Lemma ix_init_hdr_spec cols k : cols ≠ [] → Forall (λ c, 0 < cm_len c) cols →
  foldr Z.add 0 (cm_len <$> cols) ≤ IX_MAX_COL_LEN →
  ix_layout (ix_init_hdr cols) ∧ 2 < btree_order (ix_init_hdr cols) ∧
  ix_hdr_serialize (ix_init_hdr cols) = Ret (ix_hdr_bytes (ix_init_hdr cols)) ∧
  ix_hdr_deserialize (ix_hdr_bytes (ix_init_hdr cols) ++ k) = Ret (ix_init_hdr cols).
Proof.
  intros Hne Hpos Hmax.
  set (lens := cm_len <$> cols) in *. assert (Forall (λ z, 0 < z) lens) as Hp by by apply Forall_fmap.
  destruct (foldr_add_bounds lens Hp) as [Hlen Hle]. assert (length lens = length cols) as Hll by apply length_fmap.
  assert (0 < length cols)%nat by (destruct cols; [done|simpl; lia]).
  set (L := foldr Z.add 0 lens) in *. unfold IX_MAX_COL_LEN in Hmax.
  pose proof (Z.div_mod 4072 (L + 8) ltac:(lia)) as Hdiv. pose proof (Z.mod_pos_bound 4072 (L + 8) ltac:(lia)).
  assert (btree_order_for L = 4072 / (L + 8) - 1) as Eo by done.
  assert (7 ≤ 4072 / (L + 8)) by (apply Z.div_le_lower_bound; lia).
  assert (4072 / (L + 8) ≤ 453) by (apply Z.div_le_upper_bound; lia).
  split; [|split; [hdr_fields; fold lens L; lia|]].
  - split; hdr_fields; fold lens L; rewrite ?Eo; try done; try lia.
    + unfold SIZEOF_IxPageHdr, PAGE_SIZE. lia.
    + unfold lens. by rewrite !length_fmap.
  - apply ix_hdr_roundtrip. split; hdr_fields; fold lens L.
    + by rewrite length_fmap.
    + unfold lens. by rewrite !length_fmap.
    + apply Forall_forall. intros z Hz. pose proof (proj1 (Forall_forall _ _) Hp z Hz).
      pose proof (proj1 (Forall_forall _ _) Hle z Hz). unfold is_int32, int32_min, int32_max. simpl in *. lia.
    + lia.
    + rewrite Eo. unfold IX_NO_PAGE, IX_INIT_NUM_PAGES, IX_INIT_ROOT_PAGE. repeat (apply Forall_cons; split); [..|constructor];
        unfold is_int32, int32_min, int32_max; nia.
Qed.

(** C40: the header create_index writes for columns of positive lengths within
    IX_MAX_COL_LEN.  The order passes its assertion, the keys and rids of a
    full node fit in a page without overlap, and reading the serialized header
    back, whatever follows it on the page, gives the same header. *)
Theorem create_index_header cols k (Hne : cols ≠ []) (Hpos : Forall (λ c, 0 < cm_len c) cols)
    (Hmax : foldr Z.add 0 (cm_len <$> cols) ≤ IX_MAX_COL_LEN) :
  ix_layout (ix_init_hdr cols) ∧ 2 < btree_order (ix_init_hdr cols) ∧
  ix_hdr_serialize (ix_init_hdr cols) = Ret (ix_hdr_bytes (ix_init_hdr cols)) ∧
  ix_hdr_deserialize (ix_hdr_bytes (ix_init_hdr cols) ++ k) = Ret (ix_init_hdr cols).
Proof. by apply ix_init_hdr_spec. Qed.

(* ------------------------------------------------------------------ *)
(** ** Nodes and trees                                                  *)
(* ------------------------------------------------------------------ *)

(** C38: binary search in a sorted node.  leaf_lookup finds what a linear scan
    of the entries finds, and lower_bound splits the node: smaller keys before
    the result, keys not smaller from it on. *)
Theorem node_search_linear h key d (Hlay : ix_layout h) (Hok : node_ok h d)
    (Hso : keys_sorted h (node_pairs h d)) (Hk : key_ok h key) :
  leaf_lookup h key d = assoc h key (node_pairs h d) ∧
  0 ≤ lower_bound h key d ≤ get_size d ∧
  ∀ i, 0 ≤ i < get_size d → (cmp_key h (get_key h i d) key < 0 ↔ i < lower_bound h key d).
Proof.
  split; [by apply leaf_lookup_spec|]. destruct (lower_bound_spec h Hlay key d Hok Hso Hk) as (Hr & Hlt & Hge).
  split; [done|]. intros i Hi. split; intros Hx.
  - destruct (Z_lt_le_dec i (lower_bound h key d)) as [|Hl]; [done|]. specialize (Hge i ltac:(lia)). lia.
  - apply Hlt. lia.
Qed.

(** C39: the nodes of the tree as sorted maps.  insert on a node with room keeps
    a present key and otherwise adds the entry; remove drops the key; both keep
    the node sorted and its links, and no other key is affected. *)
Theorem node_map_laws h key v d (Hlay : ix_layout h) (Hok : node_ok h d)
    (Hso : keys_sorted h (node_pairs h d)) (Hk : key_ok h key) (Hv : rid_wf v)
    (Hroom : get_size d < get_max_size h) :
  (∃ d', node_insert h key v d = Ret d' ∧ same_page h d d' ∧ keys_sorted h (node_pairs h d') ∧
     ∀ k, key_ok h k → leaf_lookup h k d' =
       if cmp_key h k key =? 0 then Some (default v (leaf_lookup h k d)) else leaf_lookup h k d) ∧
  (∃ d', node_remove h key d = Ret d' ∧ same_page h d d' ∧ keys_sorted h (node_pairs h d') ∧
     ∀ k, key_ok h k → leaf_lookup h k d' = if cmp_key h k key =? 0 then None else leaf_lookup h k d).
Proof.
  assert (∀ k, key_ok h k → cmp_key h k key = 0 → assoc h k (node_pairs h d) = assoc h key (node_pairs h d)) as Heq.
  { intros k Hk' E. unfold assoc. f_equal. apply find_ext. intros q Hq.
    pose proof (proj1 Hso q Hq). apply eq_bool_prop_intro. rewrite !Is_true_true, !Z.eqb_eq.
    split; intros Eq; [by apply (cmp_eq_trans h _ k)|apply (cmp_eq_trans h _ key); try done].
    by rewrite (cmp_antisym h k key), E. }
  split.
  - pose proof (node_insert_spec h Hlay key v d Hok Hso Hk Hv Hroom) as Hins.
    destruct (assoc h key (node_pairs h d)) as [w|] eqn:Ea.
    + exists d. split_and!; try done. intros k Hk'. rewrite !leaf_lookup_spec by done.
      destruct (Z.eqb_spec (cmp_key h k key) 0) as [E|]; [|done]. by rewrite (Heq k Hk' E).
    + destruct Hins as (d' & r & Ei & Hsp & _ & Hp & Hso'). exists d'. split_and!; try done. intros k Hk'.
      rewrite !leaf_lookup_spec by (done || apply Hsp). rewrite Hp.
      rewrite (assoc_add h Hlay key v (node_pairs h d) (take r (node_pairs h d)) (drop r (node_pairs h d))); try done.
      * destruct (Z.eqb_spec (cmp_key h k key) 0) as [E|]; [|done]. by rewrite (Heq k Hk' E).
      * apply Hso.
      * by rewrite take_drop.
  - pose proof (node_remove_spec h Hlay key d Hok Hso Hk) as Hrem.
    destruct (assoc h key (node_pairs h d)) as [w|] eqn:Ea.
    + destruct Hrem as (d' & r & k0 & Er & Hsp & _ & Hr & E0 & Hp & Hso'). exists d'. split_and!; try done.
      intros k Hk'. rewrite !leaf_lookup_spec by (done || apply Hsp). rewrite Hp. by eapply assoc_remove.
    + exists d. split_and!; try done. intros k Hk'. rewrite !leaf_lookup_spec by done.
      destruct (Z.eqb_spec (cmp_key h k key) 0) as [E|]; [|done]. by rewrite (Heq k Hk' E).
Qed.

Section Claims.
Context {S : Type} `{PageStoreLaws S}.
Variable fd : Z.
Implicit Types st : IxIndex S.

(** C16: get_value on a B+ tree of any height returns the rid stored for the key,
    or nothing when no entry has it, leaves the tree as it was and every page
    unpinned; it can only fail where a page fetch fails, so the descent ends. *)
Theorem get_value_correct st g l ps key r st' (Hinv : ix_inv fd st g l ps)
    (Hk : key_ok (ix_hdr st) key) (E : get_value fd key st = (r, st')) :
  match r with
  | Ret v => v = assoc (ix_hdr st) key l ∧ ix_inv fd st' g l ps ∧ ix_hdr st' = ix_hdr st
  | Throw e => fetch_fails fd e
  end.
Proof. apply (get_value_spec fd _ _ _ _ _ _ _ Hinv Hk) in E. destruct r; naive_solver. Qed.

(** C17: insert_entry when the leaf of the key has room.  A key that is present is
    refused with the uniqueness error and the index is unchanged; otherwise the
    index maps the key to the rid, keeps every other key and the shape of the
    tree, and the result is the page of the leaf. *)
Theorem insert_entry_correct st g l ps key v r st' (Hinv : ix_inv fd st g l ps)
    (Hk : key_ok (ix_hdr st) key) (Hv : rid_wf v) (Hroom : leaf_room fd st g key)
    (E : insert_entry fd key v st = (r, st')) :
  match r with
  | Ret p => p = target_leaf fd st g key ∧ assoc (ix_hdr st) key l = None ∧
      ∃ l', ix_inv fd st' g l' ps ∧ ix_hdr st' = ix_hdr st ∧
        ∀ k, key_ok (ix_hdr st) k →
          assoc (ix_hdr st) k l' = if cmp_key (ix_hdr st) k key =? 0 then Some v else assoc (ix_hdr st) k l
  | Throw e =>
      (e = RMDBError "Unique index constraint violated" ∧ is_Some (assoc (ix_hdr st) key l) ∧ ix_inv fd st' g l ps) ∨
      fetch_fails fd e
  end.
Proof.
  apply (insert_entry_spec fd _ _ _ _ _ _ _ _ Hinv Hk Hv Hroom) in E. destruct r as [p|e]; [|done].
  destruct E as (-> & Ea & Hh & a & b & El & Hi). split_and!; try done. exists (a ++ (key, v) :: b).
  split_and!; try done. apply assoc_add; try done; [apply Hinv|]. by eapply ix_tree_keys, Hinv.
Qed.

End Claims.

(** An index on one INT column: an internal root on page 2 over two leaves on
    pages 3 and 4, in a file on disk under a pool of three frames. *)
Module IxWitness.

Definition cols : list ColMeta := [mkColMeta "t" "id" TYPE_INT 4 0 true].
Definition h0 : IxFileHdr := ix_init_hdr cols.
Definition ikey (z : Z) : list Z := le_bytes 4 z.
Definition run_out (o : outcome (list Z)) : list Z := match o with Ret d => d | Throw _ => [] end.
Definition add (z : Z) (r : Rid) (d : list Z) : list Z := run_out (node_insert h0 (ikey z) r d).
Definition leaf_a : list Z := add 2 (mkRid 1 1) (add 1 (mkRid 1 0) (empty_leaf 4)).
Definition leaf_b : list Z := add 7 (mkRid 2 0) (add 5 (mkRid 1 2) (empty_leaf 3)).
Definition root : list Z :=
  add 5 (mkRid 4 (-1)) (add 1 (mkRid 3 (-1)) (set_is_leaf false (empty_leaf 1))).

Definition on_file (n : Z) (d : list Z) (s : DiskManager MemFS.fs) : DiskManager MemFS.fs := snd (write_page 0 n d s).
Definition disk3 : DiskManager MemFS.fs := on_file 4 leaf_b (on_file 3 leaf_a (on_file 2 root DiskWitness.d4)).
Definition st0 : IxIndex (BPM LRU.LRUReplacer (DiskManager MemFS.fs)) := mkIxIndex (bpm_init 3 disk3 (LRU.init 3)) h0.
Definition entries : list entry :=
  [(ikey 1, mkRid 1 0); (ikey 2, mkRid 1 1); (ikey 5, mkRid 1 2); (ikey 7, mkRid 2 0)].

Lemma h0_layout : ix_layout h0.
Proof. refine (proj1 (ix_init_hdr_spec cols [] _ _ _)); [done|by repeat constructor|done]. Qed.

Lemma ikey_ok z : key_ok h0 (ikey z).
Proof. split; [apply length_le_bytes|done]. Qed.

Lemma leaf_ok d a b : length d = 4096%nat → get_size d = 2 →
  node_pairs h0 d = [(ikey a.1, a.2); (ikey b.1, b.2)] → cmp_key h0 (ikey a.1) (ikey b.1) < 0 →
  node_ok h0 d ∧ keys_sorted h0 (node_pairs h0 d) ∧ keys_sorted h0 (drop 1 (node_pairs h0 d)).
Proof.
  intros Hl Hs Hp Hc. assert (keys_sorted h0 [(ikey b.1, b.2)]) as Hb.
  { apply keys_sorted_cons; [apply ikey_ok|by intros q ?%elem_of_nil|apply keys_sorted_nil]. }
  split; [split; [by rewrite Hl|rewrite Hs; split; [lia|by vm_compute]]|]. rewrite Hp. split; [|done].
  apply keys_sorted_cons; [apply ikey_ok| |done]. by intros q ->%list_elem_of_singleton.
Qed.

Lemma on_file_wf n d s : dm_open s 0 → length d = 4096%nat → dm_inv s → dm_inv (on_file n d s).
Proof.
  intros Ho Hl Hs. destruct (write_page 0 n d s) as [r s'] eqn:E. unfold on_file. rewrite E.
  eapply dm_step_inv; [|exact Hs]. eapply step_write; [exact Ho|rewrite Hl; unfold PAGE_SIZE; lia|exact E].
Qed.

Lemma disk3_wf : dm_inv disk3.
Proof.
  do 3 (apply on_file_wf; [by exists "t"|by vm_compute|]). apply dm_reachable_inv, DiskWitness.d4_reachable.
Qed.

Lemma views : iview 0 st0 2 = Some root ∧ iview 0 st0 3 = Some leaf_a ∧ iview 0 st0 4 = Some leaf_b.
Proof. split_and!; vm_compute; reflexivity. Qed.

Lemma entries_sep : keysep h0 [(ikey 1, mkRid 3 (-1)); (ikey 5, mkRid 4 (-1))] [take 2 entries; drop 2 entries].
Proof.
  intros [|[|i]] [|[|j]] p l q Hi Hp Hl Hq; try discriminate; [lia|lia|..]; injection Hp as <-; injection Hl as <-;
    vm_compute in Hq; repeat (apply elem_of_cons in Hq as [->|Hq]; [vm_compute; congruence|]); by apply elem_of_nil in Hq.
Qed.

Lemma ix_st0_inv : ix_inv 0 st0 1 entries [2; 3; 4].
Proof.
  destruct views as (V2 & V3 & V4).
  destruct (leaf_ok leaf_a (1, mkRid 1 0) (2, mkRid 1 1)) as (Oka & Sa & _); [by vm_compute..|].
  destruct (leaf_ok leaf_b (5, mkRid 1 2) (7, mkRid 2 0)) as (Okb & Sb & _); [by vm_compute..|].
  destruct (leaf_ok root (1, mkRid 3 (-1)) (5, mkRid 4 (-1))) as (Okr & _ & Sr); [by vm_compute..|].
  assert (node_pairs h0 root = [(ikey 1, mkRid 3 (-1)); (ikey 5, mkRid 4 (-1))]) as Pr by by vm_compute.
  assert (node_pairs h0 leaf_a = [(ikey 1, mkRid 1 0); (ikey 2, mkRid 1 1)]) as Pa by by vm_compute.
  assert (node_pairs h0 leaf_b = [(ikey 5, mkRid 1 2); (ikey 7, mkRid 2 0)]) as Pb by by vm_compute.
  split; [split| | | |].
  - apply bpm_init_inv; [apply disk3_wf|by apply LRU.init_inv|done|done].
  - by exists "t".
  - intros n. reflexivity.
  - apply h0_layout.
  - split; [done|]. exists root. split; [exact V2|]. split; [exact Okr|]. split; [by vm_compute|]. split; [by vm_compute|].
    split; [exact Sr|]. exists [take 2 entries; drop 2 entries], [[3]; [4]]. change (ix_hdr st0) with h0.
    rewrite Pr. split_and!; [reflexivity|reflexivity|reflexivity|reflexivity| |].
    + intros [|[|i]] p l' ps' [= <-] [= <-] [= <-]; (split; [done|]); [exists leaf_a|exists leaf_b].
      * split_and!; [exact V3|exact Oka|by vm_compute|exact Sa|symmetry; exact Pa|reflexivity].
      * split_and!; [exact V4|exact Okb|by vm_compute|exact Sb|symmetry; exact Pb|reflexivity].
    + apply entries_sep.
  - apply (bool_decide_unpack _). by vm_compute.
  - by vm_compute.
Qed.

(** A run, from its result. *)

Lemma create_index_header_witness : 2 < btree_order (ix_init_hdr cols).
Proof. refine (proj1 (proj2 (create_index_header cols [] _ _ _))); [done|by repeat constructor|done]. Defined.

Lemma leaf_a_ok : node_ok h0 leaf_a ∧ keys_sorted h0 (node_pairs h0 leaf_a).
Proof.
  destruct (leaf_ok leaf_a (1, mkRid 1 0) (2, mkRid 1 1)) as (H1 & H2 & _); [by vm_compute..|]. by split.
Qed.

Lemma node_search_linear_witness :
  leaf_lookup h0 (ikey 2) leaf_a = Some (mkRid 1 1) ∧ 0 ≤ lower_bound h0 (ikey 2) leaf_a.
Proof.
  split; [by vm_compute|].
  refine (proj1 (proj1 (proj2 (node_search_linear h0 (ikey 2) leaf_a h0_layout (proj1 leaf_a_ok) (proj2 leaf_a_ok) _)))).
  apply ikey_ok.
Defined.

Lemma node_map_laws_witness :
  ∃ d', node_insert h0 (ikey 3) (mkRid 9 9) leaf_a = Ret d' ∧ keys_sorted h0 (node_pairs h0 d').
Proof.
  destruct (proj1 (node_map_laws h0 (ikey 3) (mkRid 9 9) leaf_a h0_layout (proj1 leaf_a_ok) (proj2 leaf_a_ok)
    (ikey_ok 3) ltac:(by split) ltac:(by vm_compute))) as (d' & E & _ & Hs & _).
  exact (ex_intro _ d' (conj E Hs)).
Defined.

Lemma get_value_correct_witness :
  fst (get_value 0 (ikey 5) st0) = Ret (Some (mkRid 1 2)) ∧ ix_inv 0 (snd (get_value 0 (ikey 5) st0)) 1 entries [2; 3; 4].
Proof.
  split; [by vm_compute|].
  refine (proj1 (proj2 (get_value_correct 0 st0 1 entries [2; 3; 4] (ikey 5) (Ret (Some (mkRid 1 2)))
    (snd (get_value 0 (ikey 5) st0)) ix_st0_inv (ikey_ok 5) _))).
  apply run_eq. by vm_compute.
Defined.

Lemma insert_entry_correct_witness :
  fst (insert_entry 0 (ikey 6) (mkRid 3 3) st0) = Ret 4 ∧ 4 = target_leaf 0 st0 1 (ikey 6).
Proof.
  split; [by vm_compute|].
  refine (proj1 (insert_entry_correct 0 st0 1 entries [2; 3; 4] (ikey 6) (mkRid 3 3) (Ret 4)
    (snd (insert_entry 0 (ikey 6) (mkRid 3 3) st0)) ix_st0_inv (ikey_ok 6) _ _ _)).
  - by split.
  - intros d Hd. replace (target_leaf 0 st0 1 (ikey 6)) with 4 in Hd by by vm_compute.
    rewrite (proj2 (proj2 views)) in Hd. apply Some_inj in Hd as <-. by vm_compute.
  - apply run_eq. by vm_compute.
Defined.

End IxWitness.
