(* ===== verification/Printer.v ===== *)
(** * Result printing (src/src/record_printer.h, common/context.h)

    The send buffer of a statement and RecordPrinter.  [data_send] is the
    memory of BUFFER_LENGTH bytes the server hands out; a memcpy past its end
    would make the list longer. *)

From S2P Require Import Prelude Defs Text.

(** The output side of class Context: data_send_, *offset_ and ellipsis_. *)
Record OutBuf := mkOut { data_send : list Z; out_offset : Z; ellipsis : bool }.

Definition RECORD_COUNT_LENGTH : Z := 40.
Definition COL_WIDTH : nat := 16.

(** memcpy of a string at the offset, which moves behind it *)
Definition out_copy (str : list Z) (b : OutBuf) : OutBuf :=
  mkOut (splice (Z.to_nat (out_offset b)) str (data_send b)) (out_offset b + Z.of_nat (length str)) (ellipsis b).
Definition set_ellipsis (b : OutBuf) : OutBuf := mkOut (data_send b) (out_offset b) true.

(** The test before every copy of print_separator and print_record *)
Definition out_fits (str : list Z) (b : OutBuf) : bool :=
  negb (ellipsis b) && (out_offset b + RECORD_COUNT_LENGTH + Z.of_nat (length str) <? BUFFER_LENGTH).
Definition out_append (str : list Z) (b : OutBuf) : OutBuf :=
  if out_fits str b then out_copy str b else set_ellipsis b.

Definition sep_cell : list Z := 43 :: replicate (COL_WIDTH + 2) 45.   (* "+" and dashes *)
Definition print_separator (num_cols : nat) (b : OutBuf) : OutBuf :=
  let b := Nat.iter num_cols (out_append sep_cell) b in
  out_append [43; 10] b.

(** A column cut to COL_WIDTH; setw pads it on the left. *)
Definition cut_col (col : list Z) : list Z :=
  if (COL_WIDTH <? length col)%nat then take (COL_WIDTH - 3) col ++ [46; 46; 46] else col.
Definition print_cell (col : list Z) : list Z :=
  let col := cut_col col in
  [124; 32] ++ replicate (COL_WIDTH - length col) 32 ++ col ++ [32].

Definition print_record (num_cols : nat) (rec_str : list (list Z)) (b : OutBuf) : outcome OutBuf :=
  if negb (length rec_str =? num_cols)%nat then Throw AssertFail else
  let b := fold_left (λ b col, out_append (print_cell col) b) rec_str b in
  Ret (if out_fits [124; 10] b then out_copy [124; 10] b else b).

Definition print_record_count (num_rec : Z) (b : OutBuf) : OutBuf :=
  let str := (if ellipsis b then bytes_of_string "... ..." ++ [10] else []) ++
             bytes_of_string "Total record(s): " ++ to_string num_rec ++ [10] in
  out_copy str b.

(** append_context_line of sm_manager.cpp, with a context *)
Definition append_context_line (line : list Z) (b : OutBuf) : OutBuf :=
  if negb (ellipsis b) && (out_offset b + Z.of_nat (length line) <? BUFFER_LENGTH)
  then out_copy line b else set_ellipsis b.

(* ------------------------------------------------------------------ *)
(** ** The buffer is never overrun                                      *)
(* ------------------------------------------------------------------ *)

(** [out_ok room b]: the buffer has its size and at least [room] bytes are left. *)
Definition out_ok (room : Z) (b : OutBuf) : Prop :=
  Z.of_nat (length (data_send b)) = BUFFER_LENGTH ∧ 0 ≤ out_offset b ∧ out_offset b + room ≤ BUFFER_LENGTH.

Lemma out_copy_ok room str b : out_ok (room + Z.of_nat (length str)) b → 0 ≤ room → out_ok room (out_copy str b).
Proof.
  intros (Hl & H0 & Hr) Hroom. unfold out_ok, out_copy. simpl. split; [|lia].
  rewrite length_splice; [done|]. lia.
Qed.

Lemma out_append_ok str b : out_ok RECORD_COUNT_LENGTH b → out_ok RECORD_COUNT_LENGTH (out_append str b).
Proof.
  intros Hb. unfold out_append, out_fits. case_if; [|exact Hb].
  apply out_copy_ok; [|done]. destruct Hb as (? & ? & ?). split; [done|]. lia.
Qed.

Lemma print_separator_ok n b : out_ok RECORD_COUNT_LENGTH b → out_ok RECORD_COUNT_LENGTH (print_separator n b).
Proof.
  intros Hb. unfold print_separator. apply out_append_ok.
  induction n as [|n IH]; [done|]. rewrite Nat.iter_succ. by apply out_append_ok.
Qed.

Lemma print_record_ok n r b b' : out_ok RECORD_COUNT_LENGTH b → print_record n r b = Ret b' →
  out_ok RECORD_COUNT_LENGTH b'.
Proof.
  intros Hb E. unfold print_record in E. destruct (negb _); [done|]. injection E as <-.
  assert (out_ok RECORD_COUNT_LENGTH (fold_left (λ b col, out_append (print_cell col) b) r b)) as Hf.
  { revert b Hb. induction r as [|c r IH]; intros b Hb; [done|]. simpl. apply IH. by apply out_append_ok. }
  unfold out_fits. case_if; [|done]. apply out_copy_ok; [|done]. destruct Hf as (? & ? & ?). split; [done|]. lia.
Qed.

(** The footer fits in the 40 bytes kept for it, for fewer than 10^14 records. *)
Lemma print_record_count_ok n b : out_ok RECORD_COUNT_LENGTH b → 0 ≤ n < 10 ^ 14 → out_ok 0 (print_record_count n b).
Proof.
  intros Hb Hn. pose proof (digits_length_le n 13 ltac:(lia)) as Hd. unfold print_record_count.
  assert (to_string n = digits n) as Et. { unfold to_string. destruct (Z.ltb_spec n 0); [lia|done]. }
  rewrite Et. apply out_copy_ok; [|done]. destruct Hb as (? & ? & ?). split_and!; [done|done|].
  unfold RECORD_COUNT_LENGTH in *. destruct (ellipsis b); rewrite !length_app;
    change (length (bytes_of_string "... ...")) with 7%nat; change (length (bytes_of_string "Total record(s): ")) with 17%nat; simpl; lia.
Qed.

Lemma print_record_ret n r b : length r = n → ∃ b', print_record n r b = Ret b'.
Proof. intros <-. unfold print_record. rewrite Nat.eqb_refl. simpl. by eexists. Qed.
