(* ===== verification/SmManager.v ===== *)
(** * System manager (src/src/system/sm_manager.{h,cpp})

    The open database: catalog, file handles by table, index handles by index
    file, over one buffer pool, and the DDL statements.  db.meta is the text
    [meta_file].  Paths are relative to the directory of the database; what the
    directory calls and the mkdir command return are arguments.  drop_db, which
    only runs rm -r on that directory, is not modelled. *)

From S2P Require Import Prelude Defs Text SmMeta Values Replacer Posix DiskManager BufferPool RmFile RmManager IxNode IxIndex IxManager Printer.

Record ColDef := mkColDef { cd_name : string; cd_type : ColType; cd_len : Z }.

Section SmManager.
Context {R OS : Type} `{Replacer R, Posix OS}.
Abbreviation pool := (BPM R (DiskManager OS)).

Record SmManager := mkSm {
  bpm_ : pool;
  db_ : DbMeta;
  fhs_ : gmap string (Z * RmFileHdr);
  ihs_ : gmap string (Z * IxFileHdr);
  meta_file : option (list Z)
}.

Definition set_bpm (p : pool) (s : SmManager) : SmManager := mkSm p (db_ s) (fhs_ s) (ihs_ s) (meta_file s).
Definition set_db (d : DbMeta) (s : SmManager) : SmManager := mkSm (bpm_ s) d (fhs_ s) (ihs_ s) (meta_file s).
Definition set_fhs (m : gmap string (Z * RmFileHdr)) (s : SmManager) : SmManager :=
  mkSm (bpm_ s) (db_ s) m (ihs_ s) (meta_file s).
Definition set_ihs (m : gmap string (Z * IxFileHdr)) (s : SmManager) : SmManager :=
  mkSm (bpm_ s) (db_ s) (fhs_ s) m (meta_file s).

Definition on_pool {A} (m : ST pool A) : ST SmManager A := λ s,
  let '(r, p) := m (bpm_ s) in (r, set_bpm p s).

(** A call on fhs_.at(tab_name): the handle's header lives in the map. *)
Definition with_fh {A} (tab_name : string) (m : Z → ST (RmFile pool) A) : ST SmManager A := λ s,
  match fhs_ s !! tab_name with
  | None => (Throw OutOfRange, s)
  | Some (fd, h) =>
      let '(r, st) := m fd (mkRmFile (bpm_ s) h) in
      (r, set_fhs (<[tab_name := (fd, file_hdr st)]> (fhs_ s)) (set_bpm (store st) s))
  end.
Definition fh_hdr (tab_name : string) : ST SmManager RmFileHdr := with_fh tab_name (λ _, get_hdr).

(** A call on the index handle that ihs_ has for the name; nothing to do when
    there is none (ih_it == ihs_.end()). *)
Definition with_ih (index_name : string) (m : Z → ST (IxIndex pool) unit) : ST SmManager unit := λ s,
  match ihs_ s !! index_name with
  | None => (Ret tt, s)
  | Some (fd, h) =>
      let '(r, st) := m fd (mkIxIndex (bpm_ s) h) in
      (r, set_ihs (<[index_name := (fd, ix_hdr st)]> (ihs_ s)) (set_bpm (ix_store st) s))
  end.

(** Statements that own an index handle (ih, a unique_ptr) besides the maps. *)
Abbreviation owner := (SmManager * (Z * IxFileHdr))%type.
Definition on_ih {A} (m : Z → ST (IxIndex pool) A) : ST owner A := λ '(s, (fd, h)),
  let '(r, st) := m fd (mkIxIndex (bpm_ s) h) in (r, (set_bpm (ix_store st) s, (fd, ix_hdr st))).
Definition on_sm {A} (m : ST SmManager A) : ST owner A := λ '(s, i),
  let '(r, s') := m s in (r, (s', i)).

Definition get_sm : ST SmManager SmManager := get_st.
Definition sm_table (tab_name : string) : ST SmManager TabMeta := λ s, (get_table (db_ s) tab_name, s).

(* ------------------------------------------------------------------ *)
(** ** Opening and closing                                              *)
(* ------------------------------------------------------------------ *)

Definition flush_meta : ST SmManager unit :=
  modify_st (λ s, mkSm (bpm_ s) (db_ s) (fhs_ s) (ihs_ s) (Some (print_db (db_ s)))).

Definition empty_db : DbMeta := mkDbMeta "" ∅.

(** emplace keeps an entry that is there *)
Definition emplace {A} (k : string) (x : A) (m : gmap string A) : gmap string A :=
  match m !! k with Some _ => m | None => <[k := x]> m end.

(** [is_dir], [mkdir], [chdir] and [back]: what is_dir(db_name) is, and whether the
    command mkdir, chdir(db_name) and chdir(..) succeed. *)
Definition create_db (is_dir mkdir chdir back : bool) (name : string) : ST SmManager unit :=
  if is_dir then throw (DatabaseExistsError name) else
  if negb mkdir then throw UnixError else
  if negb chdir then throw UnixError else
  modify_st (λ s, mkSm (bpm_ s) (db_ s) (fhs_ s) (ihs_ s) (Some (print_db (mkDbMeta name ∅)))) ;;
  on_pool (on_disk (create_file LOG_FILE_NAME)) ;;
  if negb back then throw UnixError else mret tt.

(** [is_dir] and [chdir]: what is_dir(db_name) and chdir(db_name) >= 0 are. *)
Definition open_db (is_dir chdir : bool) (db_name : string) : ST SmManager unit :=
  if negb is_dir then throw (DatabaseNotFoundError db_name) else
  if negb chdir then throw UnixError else
  modify_st (λ s, set_ihs ∅ (set_fhs ∅ (set_db empty_db s))) ;;
  s ← get_sm;
  match meta_file s with
  | None => throw (FileNotFoundError DB_META_NAME)
  | Some text =>
      modify_st (set_db (match read_db text with Some (db, _) => db | None => empty_db end)) ;;
      s ← get_sm;
      for_each (λ '(tab_name, tab),
        fh ← on_pool (rm_open_file tab_name);
        modify_st (λ s, set_fhs (emplace tab_name fh (fhs_ s)) s) ;;
        for_each (λ index,
          ih ← on_pool (open_index tab_name (cm_name <$> im_cols index));
          modify_st (λ s, set_ihs (emplace (get_index_name_cols tab_name (im_cols index)) ih (ihs_ s)) s))
          (tm_indexes tab))
        (map_entries (db_tabs (db_ s)))
  end.

(** The two maps are unordered: one order of their entries. *)
Definition close_db (chdir : bool) : ST SmManager unit :=
  s ← get_sm;
  if bool_decide (db_name (db_ s) = "")%string then mret tt else
  flush_meta ;;
  for_each (λ '(_, (fd, h)), on_pool (close_index fd h)) (map_to_list (ihs_ s)) ;;
  modify_st (set_ihs ∅) ;;
  for_each (λ '(_, (fd, h)), on_pool (rm_close_file fd h)) (map_to_list (fhs_ s)) ;;
  modify_st (set_fhs ∅) ;;
  modify_st (set_db empty_db) ;;
  if negb chdir then throw UnixError else mret tt.

(* ------------------------------------------------------------------ *)
(** ** Output of the catalog                                            *)
(* ------------------------------------------------------------------ *)

Definition format_index_column_list (cols : list ColMeta) : list Z :=
  bytes_of_string "(" ++
  concat (imap (λ i c, (if (0 <? i)%nat then bytes_of_string "," else []) ++ bytes_of_string (cm_name c)) cols) ++
  bytes_of_string ")".

(** show_tables and show_index: the buffer and the lines appended to output.txt *)
Definition show_tables (b : OutBuf) (s : SmManager) : outcome (OutBuf * list Z) :=
  let b := print_separator 1 b in
  b ← print_record 1 [bytes_of_string "Tables"] b;
  let b := print_separator 1 b in
  b ← fold_left (λ o e, b ← o; print_record 1 [bytes_of_string (tm_name (snd e))] b) (map_entries (db_tabs (db_ s))) (Ret b);
  Ret (print_separator 1 b,
       bytes_of_string "| Tables |" ++ [10] ++
       concat ((λ e, bytes_of_string "| " ++ bytes_of_string (tm_name (snd e)) ++ bytes_of_string " |" ++ [10]) <$>
               map_entries (db_tabs (db_ s)))).

Definition index_line (tab : TabMeta) (index : IndexMeta) : list Z :=
  bytes_of_string "| " ++ bytes_of_string (tm_name tab) ++ bytes_of_string " | unique | " ++
  format_index_column_list (im_cols index) ++ bytes_of_string " |" ++ [10].
Definition show_index (tab_name : string) (b : OutBuf) (s : SmManager) : outcome (OutBuf * list Z) :=
  tab ← get_table (db_ s) tab_name;
  Ret (fold_left (λ b index, append_context_line (index_line tab index) b) (tm_indexes tab) b,
       concat (index_line tab <$> tm_indexes tab)).

Definition desc_table (tab_name : string) (b : OutBuf) (s : SmManager) : outcome OutBuf :=
  tab ← get_table (db_ s) tab_name;
  let b := print_separator 3 b in
  b ← print_record 3 (bytes_of_string <$> ["Field"; "Type"; "Index"]) b;
  let b := print_separator 3 b in
  b ← fold_left (λ o col, b ← o;
        print_record 3 (bytes_of_string <$> [cm_name col; coltype2str (cm_type col); if cm_index col then "YES" else "NO"]) b)
        (tm_cols tab) (Ret b);
  Ret (print_separator 3 b).

(* ------------------------------------------------------------------ *)
(** ** Tables                                                           *)
(* ------------------------------------------------------------------ *)

(** The columns of a new table and its record size, with curr_offset. *)
Fixpoint make_cols (tab_name : string) (curr_offset : Z) (col_defs : list ColDef) : list ColMeta * Z :=
  match col_defs with
  | [] => ([], curr_offset)
  | c :: col_defs' =>
      let col := mkColMeta tab_name (cd_name c) (cd_type c) (cd_len c) curr_offset false in
      let '(cols, size) := make_cols tab_name (curr_offset + cd_len c) col_defs' in
      (col :: cols, size)
  end.

Definition create_table (tab_name : string) (col_defs : list ColDef) : ST SmManager unit :=
  s ← get_sm;
  if is_table (db_ s) tab_name then throw (TableExistsError tab_name) else
  let '(cols, record_size) := make_cols tab_name 0 col_defs in
  on_pool (rm_create_file tab_name record_size) ;;
  modify_st (λ s, set_db (SetTabMeta tab_name (mkTabMeta tab_name cols []) (db_ s)) s) ;;
  fh ← on_pool (rm_open_file tab_name);
  modify_st (λ s, set_fhs (emplace tab_name fh (fhs_ s)) s) ;;
  flush_meta.

(** ih_it = ihs_.find(name); if found, close_index and erase *)
Definition close_index_entry (index_name : string) : ST SmManager unit :=
  s ← get_sm;
  match ihs_ s !! index_name with
  | None => mret tt
  | Some (fd, h) =>
      on_pool (close_index fd h) ;;
      modify_st (λ s, set_ihs (delete index_name (ihs_ s)) s)
  end.

Definition drop_table (tab_name : string) : ST SmManager unit :=
  tab ← sm_table tab_name;
  for_each (λ index,
    close_index_entry (get_index_name_cols tab_name (im_cols index)) ;;
    on_pool (destroy_index tab_name (cm_name <$> im_cols index))) (tm_indexes tab) ;;
  s ← get_sm;
  (match fhs_ s !! tab_name with
   | None => mret tt
   | Some (fd, h) =>
       on_pool (rm_close_file fd h) ;;
       modify_st (λ s, set_fhs (delete tab_name (fhs_ s)) s)
   end) ;;
  on_pool (rm_destroy_file tab_name) ;;
  modify_st (λ s, set_db (mkDbMeta (db_name (db_ s)) (delete tab_name (db_tabs (db_ s)))) s) ;;
  flush_meta.

(* ------------------------------------------------------------------ *)
(** ** Indexes                                                          *)
(* ------------------------------------------------------------------ *)

(** ensure_unique_key here and ensure_index_key_unique of executor_utils.h *)
Definition ensure_index_key_unique (fd : Z) (key : list Z) (self_rid : option Rid) : ST (IxIndex pool) unit :=
  hit ← get_value fd key;
  match hit with
  | Some rid =>
      if match self_rid with None => true | Some r => negb (rid_eqb rid r) end
      then throw (RMDBError "Unique index constraint violated") else mret tt
  | None => mret tt
  end.

(** for (RmScan scan(fh); !scan.is_end(); scan.next()) body(scan.rid()) *)
Fixpoint scan_each (fuel : nat) (tab_name : string) (body : Rid → ST owner unit) (rid : Rid) : ST owner unit :=
  h ← on_sm (fh_hdr tab_name);
  if scan_is_end rid h then mret tt else
  match fuel with
  | O => throw Diverge
  | S fuel' =>
      body rid ;;
      rid' ← on_sm (with_fh tab_name (λ fd, scan_next fd rid));
      scan_each fuel' tab_name body rid'
  end.
Definition for_records (tab_name : string) (body : Rid → ST owner unit) : ST owner unit :=
  h ← on_sm (fh_hdr tab_name);
  rid ← on_sm (with_fh tab_name scan_begin);
  scan_each (Z.to_nat (num_pages h * num_records_per_page h)) tab_name body rid.

(** Runs a block that owns the handle [ih]; the handle is dropped afterwards. *)
Definition with_owned {A} (ih : Z * IxFileHdr) (m : ST owner A) : ST SmManager A := λ s,
  let '(r, (s', _)) := m (s, ih) in (r, s').

(** tab.get_col(col_name)->index = b *)
Definition set_col_index (col_name : string) (b : bool) (tab : TabMeta) : outcome TabMeta :=
  let fix go (cols : list ColMeta) : option (list ColMeta) :=
    match cols with
    | [] => None
    | c :: cols' =>
        if bool_decide (cm_name c = col_name)
        then Some (mkColMeta (cm_tab_name c) (cm_name c) (cm_type c) (cm_len c) (cm_offset c) b :: cols')
        else (c ::.) <$> go cols'
    end in
  match go (tm_cols tab) with
  | Some cols => Ret (mkTabMeta (tm_name tab) cols (tm_indexes tab))
  | None => Throw (ColumnNotFoundError col_name)
  end.
Definition set_indexes (l : list IndexMeta) (tab : TabMeta) : TabMeta := mkTabMeta (tm_name tab) (tm_cols tab) l.
Definition put_tab (tab_name : string) (tab : TabMeta) : ST SmManager unit :=
  modify_st (λ s, set_db (SetTabMeta tab_name tab (db_ s)) s).

(** One step of the loops that set the index flag of a column. *)
Definition mark_col (tab_name col_name : string) (flag : TabMeta → bool) : ST SmManager unit :=
  tab ← sm_table tab_name;
  tab' ← lift_outcome (set_col_index col_name (flag tab) tab);
  put_tab tab_name tab'.

Definition sm_create_index (tab_name : string) (col_names : list string) : ST SmManager unit :=
  tab ← sm_table tab_name;
  if is_index tab col_names then throw (IndexExistsError tab_name col_names) else
  index_cols ← lift_outcome (map_out (get_col tab) col_names);
  let col_tot_len := foldr Z.add 0 (cm_len <$> index_cols) in
  let index := mkIndexMeta tab_name col_tot_len (Z.of_nat (length index_cols)) index_cols in
  on_pool (create_index tab_name index_cols) ;;
  ih ← on_pool (open_index tab_name (cm_name <$> index_cols));
  _ ← fh_hdr tab_name;
  with_owned ih (
    try_catch
      (for_records tab_name (λ rid,
         rec ← on_sm (with_fh tab_name (λ fd, get_record fd rid));
         let key := build_index_key index rec in
         on_ih (λ fd, ensure_index_key_unique fd key None) ;;
         on_ih (λ fd, insert_entry fd key rid) ;;
         mret tt))
      (λ e,
         st ← get_st;
         on_sm (on_pool (close_index (fst (snd st)) (snd (snd st)))) ;;
         on_sm (on_pool (destroy_index tab_name (cm_name <$> index_cols))) ;;
         throw e) ;;
    on_sm (for_each (λ c, mark_col tab_name c (λ _, true)) col_names) ;;
    tab ← on_sm (sm_table tab_name);
    on_sm (put_tab tab_name (set_indexes (tm_indexes tab ++ [index]) tab)) ;;
    st ← get_st;
    on_sm (modify_st (λ s, set_ihs (<[get_index_name_cols tab_name index_cols := snd st]> (ihs_ s)) s))) ;;
  flush_meta.

(** tab.indexes.erase(index_it): the first index that matches *)
Fixpoint erase_index (col_names : list string) (l : list IndexMeta) : list IndexMeta :=
  match l with
  | [] => []
  | i :: l' => if index_matches col_names i then l' else i :: erase_index col_names l'
  end.

Definition still_indexed (tab : TabMeta) (col : ColMeta) : bool :=
  existsb (λ index, existsb (λ c, bool_decide (cm_name c = cm_name col)) (im_cols index)) (tm_indexes tab).

Definition sm_drop_index (tab_name : string) (col_names : list string) : ST SmManager unit :=
  tab ← sm_table tab_name;
  index ← lift_outcome (get_index_meta tab col_names);
  close_index_entry (get_index_name_cols tab_name (im_cols index)) ;;
  on_pool (destroy_index tab_name (cm_name <$> im_cols index)) ;;
  put_tab tab_name (set_indexes (erase_index col_names (tm_indexes tab)) tab) ;;
  for_each (λ col, mark_col tab_name (cm_name col) (λ tab, still_indexed tab col)) (im_cols index) ;;
  flush_meta.

Definition rebuild_index (tab_name : string) (index : IndexMeta) : ST SmManager unit :=
  let index_name := get_index_name_cols tab_name (im_cols index) in
  let names := cm_name <$> im_cols index in
  close_index_entry index_name ;;
  s ← get_sm;
  (if ix_exists tab_name names (bpm_ s) then on_pool (destroy_index tab_name names) else mret tt) ;;
  on_pool (create_index tab_name (im_cols index)) ;;
  ih ← on_pool (open_index tab_name names);
  with_owned ih (
    for_records tab_name (λ rid,
      rec ← on_sm (with_fh tab_name (λ fd, get_record fd rid));
      on_ih (λ fd, insert_entry fd (build_index_key index rec) rid) ;;
      mret tt) ;;
    st ← get_st;
    on_sm (modify_st (λ s, set_ihs (<[index_name := snd st]> (ihs_ s)) s))).

Definition rebuild_indexes : ST SmManager unit :=
  s ← get_sm;
  for_each (λ '(tab_name, tab),
    fh_hdr tab_name ;;
    for_each (rebuild_index tab_name) (tm_indexes tab)) (map_entries (db_tabs (db_ s))).

End SmManager.
Arguments SmManager : clear implicits.
