(* ===== verification/TableSpec.v ===== *)
(** * Tables: the record files of a database as one map

    The contents of all tables as a map from table name and record id to bytes,
    and what the calls on file handles do to it.  An operation on one file
    leaves the others alone ([frames] of RmSpec), so the tables are independent
    although they share the buffer pool. *)

From S2P Require Import Prelude Defs SmMeta Bitmap Replacer Posix DiskManager BufferPool RmFile RmPage RmSpec SmManager.

(* ------------------------------------------------------------------ *)
(** ** Calls that return, on one file                                   *)
(* ------------------------------------------------------------------ *)

Section FileCalls.
Context {S : Type} `{PageStoreLaws S}.
Variables (fd : Z) (exact : bool) (before : S).
Implicit Types st : RmFile S.
Abbreviation inv := (rm_inv fd exact before).

(** The result of a call on a file with invariant: it leaves the records [C']
    and returns what [Q] says, or there was no room in the pool or the disk failed. *)
Definition file_call {A} st (r : outcome A) st' (C' : Rid → option (list Z)) (Q : A → Prop) : Prop :=
  match r with
  | Ret a => Q a ∧ ∃ pgs' l', inv st' pgs' l' ∧ same_shape (file_hdr st) (file_hdr st') ∧
      num_pages (file_hdr st) ≤ num_pages (file_hdr st') ∧ ∀ x, contents (file_hdr st') pgs' x = C' x
  | Throw e => ¬ has_room fd before
  end.

Definition rid_in (h : RmFileHdr) (rid : Rid) : Prop := page_in h (page_no rid) ∧ slot_in h (slot_no rid).

Lemma same_shape_refl h : same_shape h h.
Proof. by repeat split. Qed.
Lemma same_shape_trans h1 h2 h3 : same_shape h1 h2 → same_shape h2 h3 → same_shape h1 h3.
Proof. intros (?&?&?) (?&?&?). repeat split; congruence. Qed.

Lemma failed_no_room e : fetch_failed fd before e → ¬ has_room fd before.
Proof. intros He Hr. by apply (fetch_failed_room fd before e Hr). Qed.

(** Every operation begins by fetching the page of the record. *)
Lemma fetch_or_fails {A} st pgs l rid (m : Z → ST (RmFile S) A) r st' (P : Prop) : inv st pgs l → rid_in (file_hdr st) rid →
  (f ← fetch_page_handle fd (page_no rid); m f) st = (r, st') →
  (∀ f st1, fetch_page_handle fd (page_no rid) st = (Ret f, st1) → m f st1 = (r, st') → P) →
  (∀ e, r = Throw e → fetch_failed fd before e → P) → P.
Proof.
  intros [Hb _] [Hp _] E H1 H2. apply st_bind_inv in E as [(f & st1 & E & E')|(e & E & ->)]; [by eapply H1|].
  apply (H2 e); [done|]. by exists st, (λ _, 0), pgs, (page_no rid), 0, st'.
Qed.

Lemma is_record_call st pgs l rid r st' : inv st pgs l → rid_in (file_hdr st) rid →
  is_record fd rid st = (r, st') →
  file_call st r st' (contents (file_hdr st) pgs) (λ b, b = bool_decide (is_Some (contents (file_hdr st) pgs rid))).
Proof.
  intros Hinv [Hp Hi] E. eapply (fetch_or_fails st pgs l rid); [done|by split|exact E| |by intros e -> ?%failed_no_room]. clear E.
  intros f st1 E0 E. cbv beta in E. destruct Hinv as [Hb Hm].
  apply fetch_page_handle_spec with (before := before) (K := λ _, 0) (pgs := pgs) in E0 as (Hn & [Hh _] & Hb1 & Hhold & Hcl); [|done].
  rewrite (st_bind_ret _ _ _ _ _ (proj1 (page_data_spec _ _ _ _ _ _ _ Hb1 ltac:(by rewrite Hh) Hhold))) in E.
  destruct (release_clean fd exact before st1 pgs l f (page_no rid)) as (st2 & Eu & Hi2 & Hh2); [done|by rewrite Hh|done|auto|].
  cbv zeta in E. rewrite (st_bind_ret _ _ _ _ _ Eu) in E. injection E as <- <-. rewrite Hh in Hh2. split.
  - destruct rid as [n i]. simpl in *. rewrite contents_in by done.
    unfold rec_at, used. destruct (Bitmap.is_set _ _); [by rewrite bool_decide_eq_true_2 by eauto|].
    rewrite bool_decide_eq_false_2; [done|]. by intros [? ?].
  - exists pgs, l. rewrite Hh2. by split_and!.
Qed.

Lemma get_record_call st pgs l rid v r st' : inv st pgs l → rid_in (file_hdr st) rid →
  contents (file_hdr st) pgs rid = Some v → get_record fd rid st = (r, st') →
  file_call st r st' (contents (file_hdr st) pgs) (eq v).
Proof.
  intros Hinv Hr Hv E. eapply (fetch_or_fails st pgs l rid); [done|done|exact E| |by intros e -> ?%failed_no_room].
  intros f st1 E0 _. destruct (get_record_spec fd exact before st pgs l rid f st1 Hinv (proj2 Hr) E0) as (st2 & Hi2 & Hh & E2).
  rewrite E2, Hv in E. injection E as <- <-. split; [done|]. exists pgs, l. rewrite Hh. by split_and!.
Qed.

Lemma delete_record_call st pgs l rid v r st' : inv st pgs l → rid_in (file_hdr st) rid →
  contents (file_hdr st) pgs rid = Some v → delete_record fd rid st = (r, st') →
  file_call st r st' (λ x, if decide (x = rid) then None else contents (file_hdr st) pgs x) (λ _, True).
Proof.
  intros Hinv Hr Hv E. eapply (fetch_or_fails st pgs l rid); [done|done|exact E| |by intros e -> ?%failed_no_room]. intros f st1 E0 _.
  destruct (delete_record_spec fd exact before st pgs l rid f st1 Hinv (proj2 Hr) E0) as (st2 & pgs' & l' & Hi2 & [Hsh Hn] & Hm).
  rewrite Hv in Hm. destruct Hm as [Ed Hc]. rewrite Ed in E. injection E as <- <-.
  split; [done|]. exists pgs', l'. split_and!; try done. lia.
Qed.

Lemma update_record_call st pgs l rid v buf r st' : inv st pgs l → rid_in (file_hdr st) rid →
  contents (file_hdr st) pgs rid = Some v → length buf = Z.to_nat (record_size (file_hdr st)) → Forall is_byte buf →
  update_record fd rid buf st = (r, st') →
  file_call st r st' (λ x, if decide (x = rid) then Some buf else contents (file_hdr st) pgs x) (λ _, True).
Proof.
  intros Hinv Hr Hv Hl Hb E. eapply (fetch_or_fails st pgs l rid); [done|done|exact E| |by intros e -> ?%failed_no_room]. intros f st1 E0 _.
  destruct (update_record_spec fd exact before st pgs l rid buf f st1 Hinv (proj2 Hr) Hl Hb E0) as (st2 & pgs' & Hi2 & Hh & Hm).
  rewrite Hv in Hm. destruct Hm as [Ed Hc]. rewrite Ed in E. injection E as <- <-.
  split; [done|]. exists pgs', l. rewrite Hh. by split_and!.
Qed.

Lemma insert_record_at_call st pgs l rid buf r st' : inv st pgs l → rid_in (file_hdr st) rid →
  length buf = Z.to_nat (record_size (file_hdr st)) → Forall is_byte buf →
  insert_record_at fd rid buf st = (r, st') →
  file_call st r st' (λ x, if decide (x = rid) then Some buf else contents (file_hdr st) pgs x) (λ _, True).
Proof.
  intros Hinv [Hp Hi] Hl Hb E. destruct (insert_record_at_spec fd exact before st pgs l rid buf r st' Hinv Hi Hl Hb E)
    as [(e & -> & He)|(-> & pgs' & l' & Hi' & Hsh & Hn & Hc)]; [intros Hr; by apply (failed_no_room e (He Hp))|].
  split; [done|]. exists pgs', l'. split_and!; try done. lia.
Qed.

Lemma insert_record_call st pgs l buf r st' : inv st pgs l → num_pages (file_hdr st) < int32_max →
  length buf = Z.to_nat (record_size (file_hdr st)) → Forall is_byte buf →
  insert_record fd buf st = (r, st') →
  match r with
  | Ret rid => contents (file_hdr st) pgs rid = None ∧ rid_in (file_hdr st') rid ∧
      file_call st r st' (λ x, if decide (x = rid) then Some buf else contents (file_hdr st) pgs x) (λ _, True)
  | Throw _ => ¬ has_room fd before
  end.
Proof.
  intros Hinv Hlt Hl Hb E. destruct (create_page_handle fd st) as [[f|e] st1] eqn:Ec.
  - destruct (insert_record_spec fd exact before st pgs l buf f st1 Hinv Hlt Hl Hb Ec) as (rid & st2 & pgs' & l' & E2 & Hi' & [Hsh Hn] & Hnone & Hc).
    rewrite E in E2. injection E2 as -> <-. split; [done|]. split; [|split; [done|by exists pgs', l']].
    specialize (Hc rid). rewrite decide_True in Hc by done. unfold contents in Hc. unfold rid_in. repeat case_bool_decide; done.
  - assert (r = Throw e) as -> by (unfold insert_record in E; rewrite (st_bind_throw _ _ _ _ _ Ec) in E; by injection E).
    intros Hr. destruct (create_page_live fd exact before st pgs l Hinv Hr) as (f & st2 & E2). by rewrite Ec in E2.
Qed.

(** Between two stores nothing happened to file fd. *)
Definition quiet_for (s s' : S) : Prop :=
  (ps_open s fd → ps_open s' fd) ∧ ps_next s' fd = ps_next s fd ∧
  ∀ n, (∀ d, ps_view s (pid fd n) = Some d → ps_view s' (pid fd n) = Some d) ∧
    ps_pins s' (pid fd n) = ps_pins s (pid fd n) ∧ (ps_resident s' (pid fd n) → ps_resident s (pid fd n)).

Lemma frames_quiet g s s' : g ≠ fd → frames g s s' → quiet_for s s'.
Proof. intros Hg (Ho & Hnx & Hfr & _). split_and!; [by apply Ho|by apply Hnx|]. intros n. by apply (Hfr (pid fd n)). Qed.

Lemma quiet_file st pgs l s' : ps_ok s' → quiet_for (store st) s' → inv st pgs l →
  rm_inv fd exact s' (mkRmFile s' (file_hdr st)) pgs l.
Proof.
  intros Hok (Ho & Hnx & Hfr) [[_ Hop Hb Hrs Hpn Hvw _] Hm]. split; [|exact Hm]. split; simpl; [done|by apply Ho|..].
  - by rewrite Hnx.
  - intros n Hr. by apply Hrs, (Hfr n).
  - intros n. rewrite (proj1 (proj2 (Hfr n))). apply Hpn.
  - intros n Hn. apply (Hfr n). by apply Hvw.
  - apply frames_refl.
Qed.

Lemma reframe st pgs l : inv st pgs l → rm_inv fd exact (store st) st pgs l ∧ frames fd before (store st).
Proof.
  intros [[? ? ? ? ? ? Hf] Hm]. split; [|done]. split; [|done]. by split.
Qed.

Lemma file_eta st pgs l : inv st pgs l → inv (mkRmFile (store st) (file_hdr st)) pgs l.
Proof. by destruct st. Qed.

End FileCalls.

(* ------------------------------------------------------------------ *)
(** ** All tables                                                       *)
(* ------------------------------------------------------------------ *)

Abbreviation tables := (gmap (string * Rid) (list Z)).

Section Tables.
Context {R OS : Type} `{ReplacerLaws R, PosixLaws OS}.
Variable exact : bool.
Abbreviation sm_t := (SmManager R OS).
Implicit Types (s : sm_t) (C : tables) (t : string) (rid : Rid) (fd : Z) (h : RmFileHdr).

(** The open tables are different files and hold the records of [C]. *)
Record tables_ok s C : Prop := {
  t_ok : ps_ok (bpm_ s);
  t_inj t1 t2 fd h1 h2 : fhs_ s !! t1 = Some (fd, h1) → fhs_ s !! t2 = Some (fd, h2) → t1 = t2;
  t_file t fd h : fhs_ s !! t = Some (fd, h) →
    ∃ pgs l, rm_inv fd exact (bpm_ s) (mkRmFile (bpm_ s) h) pgs l ∧ ∀ r, contents h pgs r = C !! (t, r)
}.

(** The disk works and two frames of the pool are not pinned: then no page fetch
    of a table operation fails. *)
Definition roomy s : Prop :=
  ps_live (bpm_ s) ∧ ∃ X : gset PageId,
    (∀ q, 0 < ps_pins (bpm_ s) q → q ∈ X) ∧ (size X + 2 ≤ ps_cap (bpm_ s))%nat.

Lemma roomy_file s fd : roomy s → has_room fd (bpm_ s).
Proof. intros (Hl & X & HX & Hs). split; [done|]. exists X. split; [|done]. intros q _. apply HX. Qed.

(** The log is no table and has no page in the pool: then table operations leave
    it alone. *)
Definition log_apart s : Prop :=
  (∀ q, ps_resident (bpm_ s) q → ps_file_name (pid_fd q) (bpm_ s) ≠ Ret LOG_FILE_NAME) ∧
  ∀ t fd h, fhs_ s !! t = Some (fd, h) → ps_file_name fd (bpm_ s) ≠ Ret LOG_FILE_NAME.

(** The same tables with the same record layout. *)
Definition same_tables s s' : Prop :=
  db_ s' = db_ s ∧ ihs_ s' = ihs_ s ∧ (roomy s → roomy s') ∧
  (log_apart s → log_apart s' ∧ ps_bytes (bpm_ s') LOG_FILE_NAME = ps_bytes (bpm_ s) LOG_FILE_NAME) ∧
  ∀ t, match fhs_ s !! t, fhs_ s' !! t with
       | Some (fd, h), Some (fd', h') => fd' = fd ∧ same_shape h h' ∧ num_pages h ≤ num_pages h'
       | None, None => True
       | _, _ => False
       end.

Lemma same_tables_refl s : same_tables s s.
Proof. split_and!; try done. intros t. destruct (fhs_ s !! t) as [[fd h]|]; [|done]. split_and!; [done|apply same_shape_refl|done]. Qed.
Lemma same_tables_trans s1 s2 s3 : same_tables s1 s2 → same_tables s2 s3 → same_tables s1 s3.
Proof.
  intros (E1 & E2 & Hr & Hlg & H12) (E3 & E4 & Hr' & Hlg' & H23). split_and!; [congruence..|auto| |].
  { intros Hl. destruct (Hlg Hl) as [Hl2 Eb]. destruct (Hlg' Hl2) as [? ?]. split; [done|congruence]. } intros t. specialize (H12 t). specialize (H23 t).
  destruct (fhs_ s1 !! t) as [[fd1 h1]|], (fhs_ s2 !! t) as [[fd2 h2]|], (fhs_ s3 !! t) as [[fd3 h3]|]; try done.
  destruct H12 as (-> & ? & ?), H23 as (-> & ? & ?). split_and!; [done|by eapply same_shape_trans|lia].
Qed.

(** The result of a call on a table: the tables then hold [C'], unless the disk
    does not work or the pool is pinned. *)
Definition tab_call {A} s (r : outcome A) s' C' (Q : A → Prop) : Prop :=
  match r with
  | Ret a => Q a ∧ tables_ok s' C' ∧ same_tables s s'
  | Throw e => ¬ roomy s
  end.

(** A call on one table changes the contents of that table only. *)
Lemma with_fh_spec {A} t (m : Z → ST (RmFile (BPM R (DiskManager OS))) A) s C fd h r s' C' (Q : A → Prop) :
  tables_ok s C → fhs_ s !! t = Some (fd, h) → with_fh t m s = (r, s') →
  (∀ t' x, t' ≠ t → C' !! (t', x) = C !! (t', x)) →
  (∀ pgs l r st', rm_inv fd exact (bpm_ s) (mkRmFile (bpm_ s) h) pgs l → (∀ x, contents h pgs x = C !! (t, x)) →
     m fd (mkRmFile (bpm_ s) h) = (r, st') →
     file_call fd exact (bpm_ s) (mkRmFile (bpm_ s) h) r st' (λ x, C' !! (t, x)) Q) →
  tab_call s r s' C' Q.
Proof.
  intros [Hok Hinj Hf] Ht E Hoth Hm. unfold with_fh in E. rewrite Ht in E.
  destruct (m fd (mkRmFile (bpm_ s) h)) as [r1 st'] eqn:Em. injection E as -> <-.
  destruct (Hf t fd h Ht) as (pgs & l & Hi & Hc). specialize (Hm pgs l r st' Hi Hc eq_refl).
  destruct r as [a|e]; [|intros Hr; by apply Hm, roomy_file]. destruct Hm as (HQ & pgs' & l' & Hi' & Hsh & Hnp & Hc'). split; [done|].
  destruct (reframe fd exact (bpm_ s) st' pgs' l' Hi') as [Hi2 Hfr].
  assert (∀ t1 fd1 h1, <[t := (fd, file_hdr st')]> (fhs_ s) !! t1 = Some (fd1, h1) →
            (t1 = t ∧ fd1 = fd ∧ h1 = file_hdr st') ∨ (t1 ≠ t ∧ fhs_ s !! t1 = Some (fd1, h1))) as Hl.
  { intros t1 fd1 h1 [[<- E]|[Hne E]]%lookup_insert_Some; [left; by injection E as <- <-|by right]. }
  assert (roomy s → roomy (set_fhs (<[t := (fd, file_hdr st')]> (fhs_ s)) (set_bpm (store st') s))) as Hroom.
  { intros (Hlv & X & HX & Hsz). destruct Hfr as (_ & _ & Hfr & Hlc & _). destruct (Hlc Hlv) as [Hlv' Hcap].
    split; [done|]. exists X. cbn [bpm_ set_fhs set_bpm] in *. rewrite Hcap. split; [|done]. intros q Hq.
    destruct (decide (pid_fd q = fd)) as [Ef|Ef].
    - destruct Hi' as [[_ _ _ _ Hpn _ _] _]. assert (q = mkPageId fd (pid_no q)) as Eq by (rewrite <- Ef; by destruct q).
      assert (ps_pins (store st') q = 0) by (rewrite Eq; apply Hpn). simpl in *. lia.
    - apply HX. by rewrite <- (proj1 (proj2 (Hfr q Ef))). }
  assert (log_apart s → log_apart (set_fhs (<[t := (fd, file_hdr st')]> (fhs_ s)) (set_bpm (store st') s)) ∧
            ps_bytes (store st') LOG_FILE_NAME = ps_bytes (bpm_ s) LOG_FILE_NAME) as Hlog.
  { intros [Hq Ht']. destruct Hfr as (_ & _ & Hfr & _ & Hn & Hb). split; [split|].
    - intros q Hr. cbn [bpm_ set_fhs set_bpm] in *. rewrite Hn. destruct (decide (pid_fd q = fd)) as [->|Hne]; [by eapply Ht'|].
      by apply Hq, Hfr.
    - intros t1 fd1 h1 [(_ & -> & _)|[_ Hx]]%Hl; cbn [bpm_ set_fhs set_bpm]; rewrite Hn; by eapply Ht'.
    - apply Hb; [done|by eapply Ht']. }
  split; [split; simpl; [apply Hi2|..]|split_and!; try done; simpl].
  - intros t1 t2 fd1 h1 h2 [(-> & -> & _)|[Hn1 Hx1]]%Hl [(-> & E & _)|[Hn2 Hx2]]%Hl; try done.
    + by apply (Hinj t t2 fd h h2).
    + subst. by apply (Hinj t1 t fd h1 h).
    + by apply (Hinj t1 t2 fd1 h1 h2).
  - intros t1 fd1 h1 [(-> & -> & ->)|[Hn1 Hx1]]%Hl.
    + exists pgs', l'. destruct st'. split; [exact Hi2|exact Hc'].
    + destruct (Hf t1 fd1 h1 Hx1) as (pgs1 & l1 & Hi1 & Hc1). exists pgs1, l1. split.
      * eapply (quiet_file fd1 exact (bpm_ s) (mkRmFile (bpm_ s) h1) pgs1 l1); [apply Hi2| |exact Hi1].
        eapply (frames_quiet fd1 fd); [|exact Hfr]. intros <-. by apply Hn1, (Hinj t1 t fd h1 h).
      * intros x. by rewrite Hc1, Hoth.
  - intros t1. destruct (decide (t1 = t)) as [->|Hne]; [rewrite Ht, lookup_insert_eq; by split|].
    rewrite lookup_insert_ne by done. destruct (fhs_ s !! t1) as [[? ?]|]; [|done]. split_and!; [done|apply same_shape_refl|done].
Qed.

(** A record id and record that fit the layout of an open table. *)
Definition fits s (t : string) (rid : Rid) : Prop :=
  ∃ fd h, fhs_ s !! t = Some (fd, h) ∧ rid_in h rid.
Definition fits_rec s (t : string) (bs : list Z) : Prop :=
  ∀ fd h, fhs_ s !! t = Some (fd, h) → length bs = Z.to_nat (record_size h) ∧ Forall is_byte bs.

Lemma fits_same s s' t rid : same_tables s s' → fits s t rid → fits s' t rid.
Proof.
  intros (_ & _ & _ & _ & Hs) (fd & h & Hf & Hp & Hi). specialize (Hs t). rewrite Hf in Hs.
  destruct (fhs_ s' !! t) as [[fd' h']|] eqn:E; [|done]. destruct Hs as (-> & (_ & Hn & _) & Hnp). exists fd, h'.
  split; [done|]. unfold rid_in, page_in, slot_in in *. rewrite Hn. split; [lia|done].
Qed.
Lemma fits_rec_same s s' t bs : same_tables s s' → fits_rec s t bs → fits_rec s' t bs.
Proof.
  intros (_ & _ & _ & _ & Hs) Hf fd h E. specialize (Hs t). rewrite E in Hs.
  destruct (fhs_ s !! t) as [[fd' h']|] eqn:E'; [|done]. destruct Hs as (-> & (Hr & _ & _) & _). rewrite Hr. by apply (Hf fd' h').
Qed.

Lemma file_call_ext {A} fd before st (r : outcome A) st' (C1 C2 : Rid → option (list Z)) (Q : A → Prop) :
  (∀ x, C1 x = C2 x) → file_call (S := BPM R (DiskManager OS)) fd exact before st r st' C1 Q →
  file_call fd exact before st r st' C2 Q.
Proof.
  intros HC. destruct r as [a|e]; [|done]. intros (HQ & pgs & l & ? & ? & ? & Hc). split; [done|]. exists pgs, l.
  split_and!; try done. intros x. by rewrite Hc.
Qed.

Lemma insert_contents C t rid buf r : (if decide (r = rid) then Some buf else C !! (t, r)) = (<[(t, rid) := buf]> C : tables) !! (t, r).
Proof. destruct (decide (r = rid)) as [->|]; [by rewrite lookup_insert_eq|rewrite lookup_insert_ne; congruence]. Qed.
Lemma delete_contents C t rid r : (if decide (r = rid) then None else C !! (t, r)) = (delete (t, rid) C : tables) !! (t, r).
Proof. destruct (decide (r = rid)) as [->|]; [by rewrite lookup_delete_eq|rewrite lookup_delete_ne; congruence]. Qed.

Section Calls.
Variables (s s' : sm_t) (C : tables) (t : string) (rid : Rid).
Hypotheses (Ht : tables_ok s C) (Hfit : fits s t rid).

Lemma fh_is_record r : with_fh t (λ fd, is_record fd rid) s = (r, s') →
  tab_call s r s' C (λ b, b = bool_decide (is_Some (C !! (t, rid)))).
Proof using Ht Hfit.
  destruct Hfit as (fd & h & Hf & Hi). intros E. eapply with_fh_spec; [exact Ht|exact Hf|exact E|done|].
  intros pgs l r' st' Hinv Hc Em. apply (is_record_call fd exact (bpm_ s) _ pgs l) in Em; [|done|done].
  simpl in Em. rewrite Hc in Em. by eapply file_call_ext.
Qed.

Lemma fh_get_record v r : C !! (t, rid) = Some v → with_fh t (λ fd, get_record fd rid) s = (r, s') → tab_call s r s' C (eq v).
Proof using Ht Hfit.
  destruct Hfit as (fd & h & Hf & Hi). intros Hv E. eapply with_fh_spec; [exact Ht|exact Hf|exact E|done|].
  intros pgs l r' st' Hinv Hc Em. apply (get_record_call fd exact (bpm_ s) _ pgs l _ v) in Em; [|done|done|by rewrite Hc].
  by eapply file_call_ext.
Qed.

Lemma fh_delete_record v r : C !! (t, rid) = Some v → with_fh t (λ fd, delete_record fd rid) s = (r, s') →
  tab_call s r s' (delete (t, rid) C) (λ _, True).
Proof using Ht Hfit.
  destruct Hfit as (fd & h & Hf & Hi). intros Hv E. eapply with_fh_spec; [exact Ht|exact Hf|exact E| |].
  { intros t' x Hne. apply lookup_delete_ne. congruence. }
  intros pgs l r' st' Hinv Hc Em. apply (delete_record_call fd exact (bpm_ s) _ pgs l _ v) in Em; [|done|done|by rewrite Hc].
  eapply file_call_ext; [|exact Em]. intros x. simpl. rewrite Hc. apply delete_contents.
Qed.

Lemma fh_update_record v buf r : C !! (t, rid) = Some v → fits_rec s t buf →
  with_fh t (λ fd, update_record fd rid buf) s = (r, s') → tab_call s r s' (<[(t, rid) := buf]> C) (λ _, True).
Proof using Ht Hfit.
  destruct Hfit as (fd & h & Hf & Hi). intros Hv Hb E. destruct (Hb fd h Hf) as [Hlen Hby].
  eapply with_fh_spec; [exact Ht|exact Hf|exact E| |].
  { intros t' x Hne. apply lookup_insert_ne. congruence. }
  intros pgs l r' st' Hinv Hc Em. apply (update_record_call fd exact (bpm_ s) _ pgs l _ v) in Em; [|done|done|by rewrite Hc|done|done].
  eapply file_call_ext; [|exact Em]. intros x. simpl. rewrite Hc. apply insert_contents.
Qed.

Lemma fh_insert_record_at buf r : fits_rec s t buf →
  with_fh t (λ fd, insert_record_at fd rid buf) s = (r, s') → tab_call s r s' (<[(t, rid) := buf]> C) (λ _, True).
Proof using Ht Hfit.
  destruct Hfit as (fd & h & Hf & Hi). intros Hb E. destruct (Hb fd h Hf) as [Hlen Hby].
  eapply with_fh_spec; [exact Ht|exact Hf|exact E| |].
  { intros t' x Hne. apply lookup_insert_ne. congruence. }
  intros pgs l r' st' Hinv Hc Em. apply (insert_record_at_call fd exact (bpm_ s) _ pgs l) in Em; [|done..].
  eapply file_call_ext; [|exact Em]. intros x. simpl. rewrite Hc. apply insert_contents.
Qed.

End Calls.

(** insert_record picks an id that is free and fits. *)
Lemma fh_insert_record s s' C t fd h buf r : tables_ok s C → fhs_ s !! t = Some (fd, h) → num_pages h < int32_max → fits_rec s t buf →
  with_fh t (λ fd, insert_record fd buf) s = (r, s') →
  tab_call s r s' (match r with Ret rid => <[(t, rid) := buf]> C | Throw _ => C end)
    (λ rid, C !! (t, rid) = None ∧ fits s' t rid).
Proof.
  intros Ht Hf Hmax Hb E. destruct (Hb fd h Hf) as [Hlen Hby]. pose proof E as E'. unfold with_fh in E'. rewrite Hf in E'.
  destruct (insert_record fd buf _) as [r1 st1] eqn:E1. injection E' as -> Es'.
  eapply with_fh_spec; [exact Ht|exact Hf|exact E| |].
  { intros t' x Hne. destruct r; [apply lookup_insert_ne; congruence|done]. }
  intros pgs l r' st' Hinv Hc Em. cbv beta in Em. rewrite E1 in Em. injection Em as <- <-.
  pose proof (insert_record_call fd exact (bpm_ s) _ pgs l buf r st1 Hinv Hmax Hlen Hby E1) as Hr.
  destruct r as [rid|e]; [|done]. destruct Hr as (Hn & Hin & Hcall). simpl in *. rewrite Hc in Hn.
  destruct Hcall as (_ & pgs' & l' & Hi' & Hsh & Hnp & Hc'). split.
  - split; [done|]. exists fd, (file_hdr st1). rewrite <- Es'. simpl. by rewrite lookup_insert_eq.
  - exists pgs', l'. split_and!; [done|done|done|]. intros x. rewrite Hc', Hc. apply insert_contents.
Qed.

(** Two calls in a row. *)
Lemma tab_call_bind {A B} s (m : ST sm_t A) (k : A → ST sm_t B) r s' C1 C2 (Q : A → Prop) (Q' : B → Prop) :
  (m ≫= k) s = (r, s') → (∀ r1 s1, m s = (r1, s1) → tab_call s r1 s1 C1 Q) →
  (∀ a s1, Q a → tables_ok s1 C1 → same_tables s s1 → k a s1 = (r, s') → tab_call s1 r s' C2 Q') →
  tab_call s r s' C2 Q'.
Proof.
  intros E Hm Hk. apply st_bind_inv in E as [(a & s1 & E1 & E)|(e & E1 & ->)]; [|by apply Hm in E1].
  apply Hm in E1 as (HQ & Ht1 & Hs1). specialize (Hk a s1 HQ Ht1 Hs1 E). destruct r as [b|e]; [|simpl in *; intros Hr; by apply Hk, Hs1].
  destruct Hk as (? & ? & ?). split_and!; [done|done|by eapply same_tables_trans].
Qed.

Lemma tab_call_ret {A} s (a : A) r s' C (Q : A → Prop) :
  tables_ok s C → Q a → (Ret a, s) = (r, s') → tab_call s r s' C Q.
Proof. intros Ht HQ [= <- <-]. split_and!; [done|done|apply same_tables_refl]. Qed.

Lemma fh_hdr_spec s t fd h : fhs_ s !! t = Some (fd, h) → fh_hdr t s = (Ret h, s).
Proof.
  intros E. unfold fh_hdr, with_fh. rewrite E. destruct s. simpl in *. unfold set_fhs, set_bpm, get_hdr. simpl. by rewrite insert_id.
Qed.

End Tables.
