(* ===== verification/TxnManager.v ===== *)
(** * Transaction manager (src/src/transaction/transaction_manager.{h,cpp})

    The state of the running server below the sessions: system manager, log,
    lock table and transactions.  A Transaction* is its id; the objects live in
    txn_map.  The log manager's disk is the disk of the buffer pool. *)

From S2P Require Import Prelude Defs SmMeta Values Replacer Posix DiskManager BufferPool RmFile IxNode IxIndex IxManager SmManager Txn LockManager LogRecord LogManager.

Section TxnManager.
Context {R OS : Type} `{Replacer R, Posix OS}.
Variable buffer_size : Z.   (* LOG_BUFFER_SIZE *)
Abbreviation pool := (BPM R (DiskManager OS)).
Abbreviation sm_t := (SmManager R OS).

Record Rmdb := mkRmdb {
  sm : sm_t;
  log : LogManager unit;
  lock_tab : lock_table;
  txn_map : gmap Z Transaction;
  next_txn_id : Z;
  next_timestamp : Z
}.

Definition on_system {A} (m : ST sm_t A) : ST Rmdb A := λ s,
  let '(r, x) := m (sm s) in (r, mkRmdb x (log s) (lock_tab s) (txn_map s) (next_txn_id s) (next_timestamp s)).
Definition on_log {A} (m : ST (LogManager (DiskManager OS)) A) : ST Rmdb A := λ s,
  let '(r, x) := m (mkLogManager (global_lsn (log s)) (log_buffer (log s)) (persist_lsn (log s)) (disk (bpm_ (sm s)))) in
  (r, mkRmdb (set_bpm (set_disk (ldisk x) (bpm_ (sm s))) (sm s))
        (mkLogManager (global_lsn x) (log_buffer x) (persist_lsn x) tt)
        (lock_tab s) (txn_map s) (next_txn_id s) (next_timestamp s)).
Definition set_locks (lt : lock_table) (s : Rmdb) : Rmdb :=
  mkRmdb (sm s) (log s) lt (txn_map s) (next_txn_id s) (next_timestamp s).
Definition set_txns (m : gmap Z Transaction) (s : Rmdb) : Rmdb :=
  mkRmdb (sm s) (log s) (lock_tab s) m (next_txn_id s) (next_timestamp s).

(** The object behind a Transaction*, and a change of it. *)
Definition txn_obj (id : Z) : ST Rmdb Transaction := λ s,
  match txn_map s !! id with Some t => (Ret t, s) | None => (Throw NullDeref, s) end.
Definition put_txn (t : Transaction) : ST Rmdb unit := modify_st (λ s, set_txns (<[txn_id t := t]> (txn_map s)) s).
Definition modify_txn (id : Z) (f : Transaction → Transaction) : ST Rmdb unit := t ← txn_obj id; put_txn (f t).

(** The log record of a transaction: its prev_lsn, the buffer, its new lsn. *)
Definition log_for_txn (id : Z) (record : LogRecord) : ST Rmdb unit :=
  t ← txn_obj id;
  l ← on_log (add_log_to_buffer buffer_size (Some (set_log_prev (prev_lsn t) record)));
  modify_txn id (set_prev_lsn l).
Definition flush_log : ST Rmdb unit := on_log (flush_log_to_disk buffer_size).

(** next_txn_id_++ and next_timestamp_++ *)
Definition fresh_txn_id : ST Rmdb Z := λ s,
  (Ret (next_txn_id s),
   mkRmdb (sm s) (log s) (lock_tab s) (txn_map s) (wrap_s 32 (next_txn_id s + 1)) (next_timestamp s)).
Definition fresh_timestamp : ST Rmdb Z := λ s,
  (Ret (next_timestamp s),
   mkRmdb (sm s) (log s) (lock_tab s) (txn_map s) (next_txn_id s) (wrap_s 32 (next_timestamp s + 1))).

(** begin: [txn] is the argument, nullptr or an object; [logged] says whether a
    log manager is given. *)
Definition txn_begin (txn : option Transaction) (logged : bool) : ST Rmdb Z :=
  t ← (match txn with
       | Some t => mret t
       | None => id ← fresh_txn_id; mret (new_transaction id)
       end);
  ts ← fresh_timestamp;
  let t := set_state GROWING (set_start_ts ts t) in
  t ← (if logged then
         l ← on_log (add_log_to_buffer buffer_size (Some (set_log_prev (prev_lsn t) (new_begin (txn_id t)))));
         mret (set_prev_lsn l t)
       else mret t);
  put_txn t ;;
  mret (txn_id t).

Definition finished (t : Transaction) : bool :=
  bool_decide (txn_state t = COMMITTED) || bool_decide (txn_state t = ABORTED).

(** The unlock loop and lock_set->clear() *)
Definition release_all (id : Z) : ST Rmdb unit := λ s,
  match txn_map s !! id with
  | None => (Throw NullDeref, s)
  | Some t => let '(t', lt) := release_locks t (lock_tab s) in (Ret tt, set_locks lt (set_txns (<[id := t']> (txn_map s)) s))
  end.

Definition txn_commit (txn : option Z) (logged : bool) : ST Rmdb unit :=
  match txn with
  | None => mret tt
  | Some id =>
      t ← txn_obj id;
      if finished t then mret tt else
      (if logged then log_for_txn id (new_commit id) ;; flush_log else mret tt) ;;
      modify_txn id (set_write_set []) ;;
      release_all id ;;
      modify_txn id (set_state COMMITTED)
  end.

(* ------------------------------------------------------------------ *)
(** ** Rollback                                                         *)
(* ------------------------------------------------------------------ *)

Definition delete_index_entries (tab : TabMeta) (table_name : string) (record : list Z) : ST sm_t unit :=
  for_each (λ index,
    with_ih (get_index_name_cols table_name (im_cols index)) (λ fd,
      delete_entry fd (build_index_key index record) ;; mret tt)) (tm_indexes tab).

Definition insert_index_entries (tab : TabMeta) (table_name : string) (record : list Z) (rid : Rid) : ST sm_t unit :=
  for_each (λ index,
    with_ih (get_index_name_cols table_name (im_cols index)) (λ fd,
      insert_entry fd (build_index_key index record) rid ;; mret tt)) (tm_indexes tab).

(** The index part of undoing an update *)
Definition restore_index_entries (tab : TabMeta) (table_name : string) (old current : list Z) (rid : Rid) : ST sm_t unit :=
  for_each (λ index,
    let old_key := build_index_key index old in
    let current_key := build_index_key index current in
    if negb (memcmp (Z.to_nat (im_col_tot_len index)) old_key current_key =? 0) then
      with_ih (get_index_name_cols table_name (im_cols index)) (λ fd,
        delete_entry fd current_key ;; insert_entry fd old_key rid ;; mret tt)
    else mret tt) (tm_indexes tab).

(** The body of the loop of abort for one WriteRecord *)
Definition undo_write (w : WriteRecord) : ST sm_t unit :=
  let table_name := wr_tab_name w in
  let rid := wr_rid w in
  tab ← sm_table table_name;
  _ ← fh_hdr table_name;
  match wtype w with
  | INSERT_TUPLE =>
      is_rec ← with_fh table_name (λ fd, is_record fd rid);
      if is_rec : bool then
        record ← with_fh table_name (λ fd, get_record fd rid);
        delete_index_entries tab table_name record ;;
        with_fh table_name (λ fd, delete_record fd rid)
      else mret tt
  | DELETE_TUPLE =>
      with_fh table_name (λ fd, insert_record_at fd rid (wr_record w)) ;;
      insert_index_entries tab table_name (wr_record w) rid
  | UPDATE_TUPLE =>
      is_rec ← with_fh table_name (λ fd, is_record fd rid);
      if is_rec : bool then
        current ← with_fh table_name (λ fd, get_record fd rid);
        restore_index_entries tab table_name (wr_record w) current rid ;;
        with_fh table_name (λ fd, update_record fd rid (wr_record w))
      else mret tt
  end.

(** while (!write_set->empty()): [ws] is the write set from its back *)
Fixpoint undo_writes (id : Z) (ws : list WriteRecord) : ST Rmdb unit :=
  match ws with
  | [] => mret tt
  | w :: ws' =>
      modify_txn id (set_write_set (reverse ws')) ;;
      on_system (undo_write w) ;;
      undo_writes id ws'
  end.

Definition txn_abort (txn : option Z) (logged : bool) : ST Rmdb unit :=
  match txn with
  | None => mret tt
  | Some id =>
      t ← txn_obj id;
      if finished t then mret tt else
      undo_writes id (reverse (write_set t)) ;;
      release_all id ;;
      (if logged then log_for_txn id (new_abort id) ;; flush_log else mret tt) ;;
      modify_txn id (set_state ABORTED)
  end.

(** get_transaction; the check of the calling thread is not modelled. *)
Definition get_transaction (id : Z) : ST Rmdb (option Z) :=
  if id =? INVALID_TXN_ID then mret None else
  s ← get_st;
  assert_that (bool_decide (is_Some (txn_map s !! id))) ;;
  mret (Some id).

End TxnManager.
Arguments Rmdb : clear implicits.
