(* ===== verification/Recovery.v ===== *)
(** * Crash recovery (src/src/recovery/log_recovery.{h,cpp})

    redo and undo over the log, on the record files of the system manager.
    Reading the log (read_all_logs, analyze) is in [LogManager]. *)

From S2P Require Import Prelude Defs SmMeta Replacer Posix DiskManager BufferPool RmFile SmManager Txn LogRecord LogManager.

Section Recovery.
Context {R OS : Type} `{Replacer R, Posix OS}.
Abbreviation pool := (BPM R (DiskManager OS)).
Abbreviation sm_t := (SmManager R OS).
Abbreviation rfile := (RmFile pool).

Definition record_exists (fd : Z) (rid : Rid) : ST rfile bool :=
  h ← get_hdr;
  if (page_no rid <? RM_FIRST_RECORD_PAGE) || (num_pages h <=? page_no rid) || (slot_no rid <? 0) ||
     (num_records_per_page h <=? slot_no rid) then mret false
  else try_catch (is_record fd rid) (λ _, mret false).

(** Each turn adds a page, so the distance to the wanted page is enough. *)
Fixpoint ensure_loop (fuel : nat) (fd : Z) (rid : Rid) : ST rfile unit :=
  h ← get_hdr;
  if num_pages h <=? page_no rid then
    match fuel with
    | O => throw Diverge
    | S fuel' =>
        f ← create_new_page_handle fd;
        n ← page_no_of f;
        unpin_no fd n true ;;
        ensure_loop fuel' fd rid
    end
  else mret tt.
Definition ensure_page_exists (fd : Z) (rid : Rid) : ST rfile unit :=
  h ← get_hdr;
  ensure_loop (Z.to_nat (page_no rid + 1 - num_pages h)) fd rid.

Definition put_record_at (fd : Z) (rid : Rid) (record : list Z) : ST rfile unit :=
  ensure_page_exists fd rid ;;
  b ← record_exists fd rid;
  if b : bool then update_record fd rid record else insert_record_at fd rid record.

Definition remove_record_at (fd : Z) (rid : Rid) : ST rfile unit :=
  b ← record_exists fd rid;
  if b : bool then delete_record fd rid else mret tt.

Definition table_name_from_log (name : list Z) : string := string_of_bytes name.

(** read_all_logs on the disk of the pool *)
Definition sm_read_logs : ST sm_t (list LogRecord) :=
  on_pool (on_disk read_all_logs).

Definition is_commit (r : LogRecord) : bool := match body r with CommitLogRecord => true | _ => false end.
Definition is_finish (r : LogRecord) : bool :=
  match body r with CommitLogRecord | AbortLogRecord => true | _ => false end.

Definition committed_txns (logs : list LogRecord) : gset Z := list_to_set (log_tid <$> filter is_commit logs).
Definition finished_txns (logs : list LogRecord) : gset Z := list_to_set (log_tid <$> filter is_finish logs).
Definition all_txns (logs : list LogRecord) : gset Z :=
  list_to_set (filter (λ t, t ≠ INVALID_TXN_ID) (log_tid <$> logs)).

Definition redo_record (r : LogRecord) : ST sm_t unit :=
  match body r with
  | InsertLogRecord v rid name => with_fh (table_name_from_log name) (λ fd, put_record_at fd rid v)
  | DeleteLogRecord _ rid name => with_fh (table_name_from_log name) (λ fd, remove_record_at fd rid)
  | UpdateLogRecord _ new rid name => with_fh (table_name_from_log name) (λ fd, put_record_at fd rid new)
  | _ => mret tt
  end.

Definition undo_record (r : LogRecord) : ST sm_t unit :=
  match body r with
  | InsertLogRecord _ rid name => with_fh (table_name_from_log name) (λ fd, remove_record_at fd rid)
  | DeleteLogRecord v rid name => with_fh (table_name_from_log name) (λ fd, put_record_at fd rid v)
  | UpdateLogRecord old _ rid name => with_fh (table_name_from_log name) (λ fd, put_record_at fd rid old)
  | _ => mret tt
  end.

Definition redo : ST sm_t unit :=
  logs ← sm_read_logs;
  for_each (λ r, if bool_decide (log_tid r ∈ committed_txns logs) then redo_record r else mret tt) logs.

Definition undo_logs : ST sm_t unit :=
  logs ← sm_read_logs;
  for_each (λ r, if bool_decide (log_tid r ∉ all_txns logs) || bool_decide (log_tid r ∈ finished_txns logs)
                 then mret tt else undo_record r) (reverse logs).
Definition undo : ST sm_t unit := undo_logs ;; rebuild_indexes.

End Recovery.
