(* ===== verification/Executor.v ===== *)
(** * Query executors (src/src/execution/executor_*.h, execution_sort.h)

    Every executor class is a record with its fields; [AbstractExecutor] is the
    interface its virtual functions give, over the state of the server.  A
    pointer to a child is a value of any type with that interface, so the
    operators are parametric in their children; [Portal.executor_of] is the class
    of object a plan is turned into.  Loops over a child stop after [fuel] turns;
    [ExecutorSpec] shows what is enough. *)

From S2P Require Import Prelude Defs Text SmMeta Values Replacer Posix DiskManager BufferPool RmFile IxNode IxIndex IxManager SmManager Txn LockManager LogManager TxnManager.

(** class Context: whether the managers are there, and txn_.  Executors are
    always given a context. *)
Record Context := mkContext { lock_mgr_ : bool; log_mgr_ : bool; txn_ : option Z }.

(* ------------------------------------------------------------------ *)
(** ** The interface                                                    *)
(* ------------------------------------------------------------------ *)

(** class AbstractExecutor.  get_col_offset is the same search for every
    executor, in the columns cols() gives. *)
Class AbstractExecutor (W E : Type) := {
  tupleLen : E → Z;
  cols_of : E → list ColMeta;
  beginTuple : nat → E → ST W E;
  nextTuple : nat → E → ST W E;
  is_end : E → ST W bool;
  Next : E → ST W (option (list Z));
  rid_of : E → Rid
}.

(** A virtual call on an object of one of two classes, and on a null pointer. *)
#[export] Instance sum_ops {W E F} `{AbstractExecutor W E, AbstractExecutor W F} : AbstractExecutor W (E + F) := {|
  tupleLen x := match x with inl e => tupleLen e | inr f => tupleLen f end;
  cols_of x := match x with inl e => cols_of e | inr f => cols_of f end;
  beginTuple fuel x := match x with inl e => e ← beginTuple fuel e; mret (inl e) | inr f => f ← beginTuple fuel f; mret (inr f) end;
  nextTuple fuel x := match x with inl e => e ← nextTuple fuel e; mret (inl e) | inr f => f ← nextTuple fuel f; mret (inr f) end;
  is_end x := match x with inl e => is_end e | inr f => is_end f end;
  Next x := match x with inl e => Next e | inr f => Next f end;
  rid_of x := match x with inl e => rid_of e | inr f => rid_of f end
|}.
#[export] Instance null_ops W : AbstractExecutor W Empty_set := {|
  tupleLen (x : Empty_set) := match x with end;
  cols_of (x : Empty_set) := match x with end;
  beginTuple _ (x : Empty_set) := match x with end;
  nextTuple _ (x : Empty_set) := match x with end;
  is_end (x : Empty_set) := match x with end;
  Next (x : Empty_set) := match x with end;
  rid_of (x : Empty_set) := match x with end
|}.

(** AbstractExecutor::get_col, as an index into the columns *)
Definition get_col_idx (rec_cols : list ColMeta) (target : TabCol) : outcome nat :=
  match list_find (λ c, cm_tab_name c = tc_tab target ∧ cm_name c = tc_col target) rec_cols with
  | Some (i, _) => Ret i
  | None => Throw (ColumnNotFoundError (tc_tab target +:+ "." +:+ tc_col target))
  end.
Definition get_col_offset {W E} `{AbstractExecutor W E} (e : E) (target : TabCol) : outcome ColMeta :=
  find_col_meta (cols_of e) target.

(** A dereference of a record pointer, and cols.back(). *)
Definition deref {A} (o : option A) : outcome A := of_option NullDeref o.
Definition row_len (cols : list ColMeta) : outcome Z :=
  c ← deref (last cols); Ret (cm_offset c + cm_len c).

(** _abstract_rid, which no code reads *)
Definition no_rid : Rid := mkRid 0 0.

(* ------------------------------------------------------------------ *)
(** ** Projection                                                       *)
(* ------------------------------------------------------------------ *)

Section Operators.
Context {W : Type}.

Record ProjectionExecutor (E : Type) := mkProjection {
  pj_prev : E;
  pj_cols : list ColMeta;
  pj_len : Z;
  sel_idxs : list nat
}.
#[global] Arguments mkProjection {E}.
#[global] Arguments pj_prev {E}.
#[global] Arguments pj_cols {E}.
#[global] Arguments pj_len {E}.
#[global] Arguments sel_idxs {E}.

Section Projection.
Context {E : Type} `{AbstractExecutor W E}.

Definition with_offset (offset : Z) (c : ColMeta) : ColMeta :=
  mkColMeta (cm_tab_name c) (cm_name c) (cm_type c) (cm_len c) offset (cm_index c).

(** The loop of the constructor over sel_cols, with curr_offset. *)
Fixpoint proj_cols (prev_cols : list ColMeta) (curr_offset : Z) (sel_cols : list TabCol)
    : outcome (list nat * list ColMeta * Z) :=
  match sel_cols with
  | [] => Ret ([], [], curr_offset)
  | sel_col :: sel_cols' =>
      pos ← get_col_idx prev_cols sel_col;
      c ← deref (prev_cols !! pos);
      let c := with_offset curr_offset c in
      '(idxs, cols, len) ← proj_cols prev_cols (curr_offset + cm_len c) sel_cols';
      Ret (pos :: idxs, c :: cols, len)
  end.

Definition new_ProjectionExecutor (prev : E) (sel_cols : list TabCol) : outcome (ProjectionExecutor E) :=
  '(idxs, cols, len) ← proj_cols (cols_of prev) 0 sel_cols;
  Ret (mkProjection prev cols len idxs).

(** The memcpy loop of Next *)
Definition proj_step (prev_cols : list ColMeta) (prev_record : list Z) (record : outcome (list Z)) (x : nat * ColMeta)
    : outcome (list Z) :=
  record ← record;
  prev_col ← deref (prev_cols !! x.1);
  Ret (splice (Z.to_nat (cm_offset x.2))
         (read_at (Z.to_nat (cm_offset prev_col)) (Z.to_nat (cm_len prev_col)) prev_record) record).
Definition project_record (e : ProjectionExecutor E) (prev_record : list Z) : outcome (list Z) :=
  fold_left (proj_step (cols_of (pj_prev e)) prev_record) (zip (sel_idxs e) (pj_cols e))
    (Ret (replicate (Z.to_nat (pj_len e)) 0)).

Definition set_pj_prev (e : ProjectionExecutor E) (prev : E) : ProjectionExecutor E :=
  mkProjection prev (pj_cols e) (pj_len e) (sel_idxs e).

#[export] Instance ProjectionExecutor_ops : AbstractExecutor W (ProjectionExecutor E) := {|
  tupleLen := pj_len;
  cols_of := pj_cols;
  beginTuple fuel e := prev ← beginTuple fuel (pj_prev e); mret (set_pj_prev e prev);
  nextTuple fuel e := prev ← nextTuple fuel (pj_prev e); mret (set_pj_prev e prev);
  is_end e := is_end (pj_prev e);
  Next e :=
    ended ← is_end (pj_prev e);
    if ended : bool then mret None else
    r ← Next (pj_prev e);
    prev_record ← lift_outcome (deref r);
    record ← lift_outcome (project_record e prev_record);
    mret (Some record);
  rid_of e := rid_of (pj_prev e)
|}.

End Projection.

(* ------------------------------------------------------------------ *)
(** ** Nested loop join                                                 *)
(* ------------------------------------------------------------------ *)

Definition JOIN_BUFFER_BYTES : Z := 4 * 1024 * 1024.

Record NestedLoopJoinExecutor (L Rt : Type) := mkNLJ {
  nl_left : L;
  nl_right : Rt;
  nl_len : Z;
  nl_cols : list ColMeta;
  nl_fed_conds : list Condition;
  isend_ : bool;
  left_block_ : list (list Z);
  left_block_capacity_ : Z;
  left_block_idx_ : Z;
  right_tuple_ : option (list Z)
}.
#[global] Arguments mkNLJ {L Rt}.
#[global] Arguments nl_left {L Rt}.
#[global] Arguments nl_right {L Rt}.
#[global] Arguments nl_len {L Rt}.
#[global] Arguments nl_cols {L Rt}.
#[global] Arguments nl_fed_conds {L Rt}.
#[global] Arguments isend_ {L Rt}.
#[global] Arguments left_block_ {L Rt}.
#[global] Arguments left_block_capacity_ {L Rt}.
#[global] Arguments left_block_idx_ {L Rt}.
#[global] Arguments right_tuple_ {L Rt}.

Section Join.
Context {L Rt : Type} `{AbstractExecutor W L, AbstractExecutor W Rt}.
Abbreviation join := (NestedLoopJoinExecutor L Rt).
Implicit Types e : join.

Definition shift_col (by_ : Z) (c : ColMeta) : ColMeta := with_offset (cm_offset c + by_) c.
Definition join_cols (left : L) (right : Rt) : list ColMeta :=
  cols_of left ++ (shift_col (tupleLen left) <$> cols_of right).

Definition new_NestedLoopJoinExecutor (left : L) (right : Rt) (conds : list Condition) : join :=
  let left_tuple_len := Z.max 1 (tupleLen left) in
  mkNLJ left right (tupleLen left + tupleLen right) (join_cols left right) conds true []
    (Z.max 1 (JOIN_BUFFER_BYTES / left_tuple_len)) 0 None.

Definition set_nl_left (l : L) e : join :=
  mkNLJ l (nl_right e) (nl_len e) (nl_cols e) (nl_fed_conds e) (isend_ e) (left_block_ e) (left_block_capacity_ e)
    (left_block_idx_ e) (right_tuple_ e).
Definition set_nl_right (r : Rt) e : join :=
  mkNLJ (nl_left e) r (nl_len e) (nl_cols e) (nl_fed_conds e) (isend_ e) (left_block_ e) (left_block_capacity_ e)
    (left_block_idx_ e) (right_tuple_ e).
Definition set_isend (b : bool) e : join :=
  mkNLJ (nl_left e) (nl_right e) (nl_len e) (nl_cols e) (nl_fed_conds e) b (left_block_ e) (left_block_capacity_ e)
    (left_block_idx_ e) (right_tuple_ e).
Definition set_left_block (b : list (list Z)) e : join :=
  mkNLJ (nl_left e) (nl_right e) (nl_len e) (nl_cols e) (nl_fed_conds e) (isend_ e) b (left_block_capacity_ e)
    (left_block_idx_ e) (right_tuple_ e).
Definition set_left_block_idx (i : Z) e : join :=
  mkNLJ (nl_left e) (nl_right e) (nl_len e) (nl_cols e) (nl_fed_conds e) (isend_ e) (left_block_ e)
    (left_block_capacity_ e) i (right_tuple_ e).
Definition set_right_tuple (t : option (list Z)) e : join :=
  mkNLJ (nl_left e) (nl_right e) (nl_len e) (nl_cols e) (nl_fed_conds e) (isend_ e) (left_block_ e)
    (left_block_capacity_ e) (left_block_idx_ e) t.

(** make_joined_record: two memcpys into a record of len_ bytes *)
Definition make_joined_record e (left_record right_record : list Z) : list Z :=
  let llen := Z.to_nat (tupleLen (nl_left e)) in
  let record := replicate (Z.to_nat (nl_len e)) 0 in
  let record := splice 0 (take llen left_record) record in
  splice llen (take (Z.to_nat (tupleLen (nl_right e))) right_record) record.

(** The loop of load_next_left_block, and the function *)
Fixpoint load_loop (fuel : nat) (turns : nat) e : ST W join :=
  ended ← is_end (nl_left e);
  if negb ended && (Z.of_nat (length (left_block_ e)) <? left_block_capacity_ e) then
    match turns with
    | O => throw Diverge
    | Datatypes.S turns' =>
        r ← Next (nl_left e);
        t ← lift_outcome (deref r);
        left ← nextTuple fuel (nl_left e);
        load_loop fuel turns' (set_nl_left left (set_left_block (left_block_ e ++ [t]) e))
    end
  else mret e.
Definition load_next_left_block (fuel : nat) e : ST W (bool * join) :=
  e ← load_loop fuel fuel (set_left_block_idx 0 (set_left_block [] e));
  mret (negb (bool_decide (left_block_ e = [])), e).

(** The innermost loop, over left_block_[left_block_idx_ ..], [b] of which the
    rest is given: the index of the next match, or the end of the block. *)
Fixpoint match_in_block e (right_tuple : list Z) (idx : Z) (b : list (list Z)) : outcome (option Z) :=
  match b with
  | [] => Ret None
  | t :: b' =>
      ok ← record_satisfies_conditions (make_joined_record e t right_tuple) (nl_cols e) (nl_fed_conds e);
      if ok : bool then Ret (Some idx) else match_in_block e right_tuple (idx + 1) b'
  end.

(** while (right_tuple_ != nullptr): true when a match was found *)
Fixpoint right_loop (fuel : nat) (turns : nat) e : ST W (bool * join) :=
  match right_tuple_ e with
  | None => mret (false, e)
  | Some rt =>
      m ← lift_outcome (match_in_block e rt (left_block_idx_ e) (drop (Z.to_nat (left_block_idx_ e)) (left_block_ e)));
      match m with
      | Some idx => mret (true, set_left_block_idx idx e)
      | None =>
          match turns with
          | O => throw Diverge
          | Datatypes.S turns' =>
              right ← nextTuple fuel (nl_right e);
              let e := set_nl_right right (set_left_block_idx 0 e) in
              ended ← is_end right;
              if ended : bool then mret (false, set_right_tuple None e) else
              r ← Next right;
              right_loop fuel turns' (set_right_tuple r e)
          end
      end
  end.

(** advance_to_next_match: the loop over the left blocks *)
Fixpoint advance_to_next_match (fuel : nat) (turns : nat) e : ST W join :=
  match turns with
  | O => throw Diverge
  | Datatypes.S turns' =>
      '(found, e) ← right_loop fuel fuel e;
      if found : bool then mret e else
      '(loaded, e) ← load_next_left_block fuel e;
      if negb loaded then mret (set_right_tuple None (set_isend true e)) else
      right ← beginTuple fuel (nl_right e);
      let e := set_nl_right right e in
      ended ← is_end right;
      if ended : bool then mret (set_right_tuple None (set_isend true e)) else
      r ← Next right;
      advance_to_next_match fuel turns' (set_left_block_idx 0 (set_right_tuple r e))
  end.

Definition join_beginTuple (fuel : nat) e : ST W join :=
  let e := set_isend false e in
  left ← beginTuple fuel (nl_left e);
  '(loaded, e) ← load_next_left_block fuel (set_nl_left left e);
  if negb loaded then mret (set_isend true e) else
  right ← beginTuple fuel (nl_right e);
  let e := set_nl_right right e in
  ended ← is_end right;
  if ended : bool then mret (set_left_block [] (set_isend true e)) else
  r ← Next right;
  advance_to_next_match fuel fuel (set_left_block_idx 0 (set_right_tuple r e)).

Definition join_nextTuple (fuel : nat) e : ST W join :=
  if isend_ e then mret e else
  advance_to_next_match fuel fuel (set_left_block_idx (left_block_idx_ e + 1) e).

Definition join_Next e : ST W (option (list Z)) :=
  match right_tuple_ e with
  | Some rt =>
      if isend_ e || (Z.of_nat (length (left_block_ e)) <=? left_block_idx_ e) then mret None else
      l ← lift_outcome (deref (left_block_ e !! Z.to_nat (left_block_idx_ e)));
      mret (Some (make_joined_record e l rt))
  | None => mret None
  end.

#[export] Instance NestedLoopJoinExecutor_ops : AbstractExecutor W join := {|
  tupleLen := nl_len;
  cols_of := nl_cols;
  beginTuple := join_beginTuple;
  nextTuple := join_nextTuple;
  is_end e := mret (isend_ e);
  Next := join_Next;
  rid_of _ := no_rid
|}.

End Join.

(* ------------------------------------------------------------------ *)
(** ** Running a child to its end                                       *)
(* ------------------------------------------------------------------ *)

(** for (; !prev->is_end(); prev->nextTuple()) with Next in the body: the tuples *)
Fixpoint drain {E} `{AbstractExecutor W E} (fuel turns : nat) (e : E) : ST W (list (list Z) * E) :=
  ended ← is_end e;
  if ended : bool then mret ([], e) else
  match turns with
  | O => throw Diverge
  | Datatypes.S turns' =>
      r ← Next e;
      t ← lift_outcome (deref r);
      e ← nextTuple fuel e;
      '(ts, e) ← drain fuel turns' e;
      mret (t :: ts, e)
  end.

(* ------------------------------------------------------------------ *)
(** ** Sort                                                             *)
(* ------------------------------------------------------------------ *)

(** std::stable_sort: insertion before the first element that is not less. *)
Fixpoint stable_insert {A} (lt : A → A → outcome bool) (x : A) (l : list A) : outcome (list A) :=
  match l with
  | [] => Ret [x]
  | y :: l' =>
      b ← lt y x;
      if b : bool then (l'' ← stable_insert lt x l'; Ret (y :: l'')) else Ret (x :: y :: l')
  end.
Fixpoint stable_sort {A} (lt : A → A → outcome bool) (l : list A) : outcome (list A) :=
  match l with
  | [] => Ret []
  | x :: l' => l'' ← stable_sort lt l'; stable_insert lt x l''
  end.

(** The comparison of SortExecutor::beginTuple *)
Fixpoint sort_less (keys : list (SortKey * ColMeta)) (lhs rhs : list Z) : outcome bool :=
  match keys with
  | [] => Ret false
  | (key, col) :: keys' =>
      cmp ← compare_raw_data (drop (Z.to_nat (cm_offset col)) lhs) (cm_type col) (cm_len col)
              (drop (Z.to_nat (cm_offset col)) rhs) (cm_type col) (cm_len col);
      if cmp =? 0 then sort_less keys' lhs rhs
      else Ret (if is_desc key then 0 <? cmp else cmp <? 0)
  end.

Record SortExecutor (E : Type) := mkSort {
  so_prev : E;
  sort_keys_ : list SortKey;
  sort_cols_ : list ColMeta;
  records_ : list (list Z);
  cursor_ : Z;
  limit_ : Z
}.
#[global] Arguments mkSort {E}.
#[global] Arguments so_prev {E}.
#[global] Arguments sort_keys_ {E}.
#[global] Arguments sort_cols_ {E}.
#[global] Arguments records_ {E}.
#[global] Arguments cursor_ {E}.
#[global] Arguments limit_ {E}.

Section Sort.
Context {E : Type} `{AbstractExecutor W E}.

Definition new_SortExecutor (prev : E) (sort_keys : list SortKey) (limit : Z) : outcome (SortExecutor E) :=
  sort_cols ← map_out (λ key, get_col_offset prev (sk_col key)) sort_keys;
  Ret (mkSort prev sort_keys sort_cols [] 0 limit).

Definition cut_limit {A} (limit : Z) (l : list A) : list A :=
  if (0 <=? limit) && (limit <? Z.of_nat (length l)) then take (Z.to_nat limit) l else l.

Definition sort_beginTuple (fuel : nat) (e : SortExecutor E) : ST W (SortExecutor E) :=
  prev ← beginTuple fuel (so_prev e);
  '(ts, prev) ← drain fuel fuel prev;
  ts ← lift_outcome (if bool_decide (sort_keys_ e = []) then Ret ts
                     else stable_sort (sort_less (zip (sort_keys_ e) (sort_cols_ e))) ts);
  mret (mkSort prev (sort_keys_ e) (sort_cols_ e) (cut_limit (limit_ e) ts) 0 (limit_ e)).

Definition sort_at_end (e : SortExecutor E) : bool := Z.of_nat (length (records_ e)) <=? cursor_ e.

#[export] Instance SortExecutor_ops : AbstractExecutor W (SortExecutor E) := {|
  tupleLen e := tupleLen (so_prev e);
  cols_of e := cols_of (so_prev e);
  beginTuple := sort_beginTuple;
  nextTuple _ e := mret (if sort_at_end e then e else
    mkSort (so_prev e) (sort_keys_ e) (sort_cols_ e) (records_ e) (cursor_ e + 1) (limit_ e));
  is_end e := mret (sort_at_end e);
  Next e := if sort_at_end e then mret None else
    t ← lift_outcome (deref (records_ e !! Z.to_nat (cursor_ e))); mret (Some t);
  rid_of _ := no_rid
|}.

End Sort.

(* ------------------------------------------------------------------ *)
(** ** Aggregates                                                       *)
(* ------------------------------------------------------------------ *)

Record AggregateExecutor (E : Type) := mkAggregate {
  ag_prev : E;
  aggregates_ : list AggregateExpr;
  ag_cols : list ColMeta;
  source_cols_ : list ColMeta;
  ag_len : Z;
  is_end_ : bool;
  result_ : option (list Z)
}.
#[global] Arguments mkAggregate {E}.
#[global] Arguments ag_prev {E}.
#[global] Arguments aggregates_ {E}.
#[global] Arguments ag_cols {E}.
#[global] Arguments source_cols_ {E}.
#[global] Arguments ag_len {E}.
#[global] Arguments is_end_ {E}.
#[global] Arguments result_ {E}.

(** count_values[i], numeric_sums[i], best_values[i] and initialized[i] *)
Record AggValue := mkAggValue { count_value : Z; numeric_sum : ldouble; best_value : list Z; initialized : bool }.
Definition agg_zero : AggValue := mkAggValue 0 (int_to_ld 0) [] false.

(** ColMeta source_col{}: what COUNT star has for a source *)
Definition no_source_col : ColMeta := mkColMeta "" "" TYPE_INT 0 0 false.

(** The type and length of an output column *)
Definition agg_out_type (agg : AggregateExpr) (source_col : ColMeta) : ColType * Z :=
  match agg_type agg with
  | AGG_COUNT => (TYPE_BIGINT, 8)
  | AGG_SUM => if bool_decide (cm_type source_col = TYPE_FLOAT) then (TYPE_FLOAT, 4) else (TYPE_BIGINT, 8)
  | AGG_MAX | AGG_MIN => (cm_type source_col, cm_len source_col)
  end.

(** One aggregate over one tuple *)
Definition agg_step (record : list Z) (agg : AggregateExpr) (source_col : ColMeta) (v : AggValue) : outcome AggValue :=
  let data := drop (Z.to_nat (cm_offset source_col)) record in
  let bytes := take (Z.to_nat (cm_len source_col)) data in
  match agg_type agg with
  | AGG_COUNT => Ret (mkAggValue (wrap_s 64 (count_value v + 1)) (numeric_sum v) (best_value v) (initialized v))
  | AGG_SUM =>
      x ← match cm_type source_col with
          | TYPE_FLOAT => Ret (float_to_ld (load_u32 0 data))
          | TYPE_INT => Ret (int_to_ld (load_i32 0 data))
          | TYPE_BIGINT => Ret (int_to_ld (load_i64 0 data))
          | t => Throw (IncompatibleTypeError "SUM" (coltype2str t))
          end;
      Ret (mkAggValue (count_value v) (ld_add (numeric_sum v) x) (best_value v) (initialized v))
  | a =>
      if negb (initialized v) then Ret (mkAggValue (count_value v) (numeric_sum v) bytes true) else
      cmp ← compare_raw_data data (cm_type source_col) (cm_len source_col) (best_value v) (cm_type source_col)
              (cm_len source_col);
      if (bool_decide (a = AGG_MAX) && (0 <? cmp)) || (bool_decide (a = AGG_MIN) && (cmp <? 0))
      then Ret (mkAggValue (count_value v) (numeric_sum v) bytes (initialized v)) else Ret v
  end.

(** The inner loop over the aggregates *)
Fixpoint agg_tuple (record : list Z) (aggs : list AggregateExpr) (sources : list ColMeta) (vs : list AggValue)
    : outcome (list AggValue) :=
  match aggs, sources, vs with
  | agg :: aggs', source :: sources', v :: vs' =>
      v' ← agg_step record agg source v;
      vs'' ← agg_tuple record aggs' sources' vs';
      Ret (v' :: vs'')
  | _, _, _ => Ret []
  end.

(** The bytes of a result: the switch of the second loop *)
Definition agg_bytes (agg : AggregateExpr) (out_col : ColMeta) (v : AggValue) : list Z :=
  match agg_type agg with
  | AGG_COUNT => le_bytes 8 (count_value v)
  | AGG_SUM => if bool_decide (cm_type out_col = TYPE_FLOAT) then le_bytes 4 (ld_to_float (numeric_sum v))
               else le_bytes 8 (ld_trunc (numeric_sum v))
  | AGG_MAX | AGG_MIN => if initialized v then take (Z.to_nat (cm_len out_col)) (best_value v)
                         else replicate (Z.to_nat (cm_len out_col)) 0
  end.
Definition agg_write (result : list Z) (x : AggregateExpr * ColMeta * AggValue) : list Z :=
  let '(agg, out_col, v) := x in splice (Z.to_nat (cm_offset out_col)) (agg_bytes agg out_col v) result.
Definition agg_record (aggs : list AggregateExpr) (cols : list ColMeta) (len : Z) (vs : list AggValue) : list Z :=
  fold_left agg_write (zip (zip aggs cols) vs) (replicate (Z.to_nat len) 0).

Section Aggregate.
Context {E : Type} `{AbstractExecutor W E}.

(** The loop of the constructor, with offset; get_col_offset searches the columns
    of the child. *)
Fixpoint agg_cols (prev_cols : list ColMeta) (offset : Z) (aggs : list AggregateExpr) : outcome (list ColMeta * list ColMeta * Z) :=
  match aggs with
  | [] => Ret ([], [], offset)
  | agg :: aggs' =>
      source_col ← (if is_count_star agg then Ret no_source_col else find_col_meta prev_cols (agg_col agg));
      let '(t, len) := agg_out_type agg source_col in
      '(cols, sources, total) ← agg_cols prev_cols (offset + len) aggs';
      Ret (mkColMeta "" (agg_alias agg) t len offset false :: cols, source_col :: sources, total)
  end.

Definition new_AggregateExecutor (prev : E) (aggs : list AggregateExpr) : outcome (AggregateExecutor E) :=
  '(cols, sources, len) ← agg_cols (cols_of prev) 0 aggs;
  Ret (mkAggregate prev aggs cols sources len true None).

Fixpoint agg_loop (fuel turns : nat) (e : AggregateExecutor E) (vs : list AggValue) (prev : E) : ST W (list AggValue * E) :=
  ended ← is_end prev;
  if ended : bool then mret (vs, prev) else
  match turns with
  | O => throw Diverge
  | Datatypes.S turns' =>
      r ← Next prev;
      record ← lift_outcome (deref r);
      vs ← lift_outcome (agg_tuple record (aggregates_ e) (source_cols_ e) vs);
      prev ← nextTuple fuel prev;
      agg_loop fuel turns' e vs prev
  end.

Definition agg_beginTuple (fuel : nat) (e : AggregateExecutor E) : ST W (AggregateExecutor E) :=
  prev ← beginTuple fuel (ag_prev e);
  '(vs, prev) ← agg_loop fuel fuel e (replicate (length (aggregates_ e)) agg_zero) prev;
  mret (mkAggregate prev (aggregates_ e) (ag_cols e) (source_cols_ e) (ag_len e) false
          (Some (agg_record (aggregates_ e) (ag_cols e) (ag_len e) vs))).

#[export] Instance AggregateExecutor_ops : AbstractExecutor W (AggregateExecutor E) := {|
  tupleLen := ag_len;
  cols_of := ag_cols;
  beginTuple := agg_beginTuple;
  nextTuple _ e := mret (mkAggregate (ag_prev e) (aggregates_ e) (ag_cols e) (source_cols_ e) (ag_len e) true (result_ e));
  is_end e := mret (is_end_ e);
  Next e := if is_end_ e then mret None else t ← lift_outcome (deref (result_ e)); mret (Some t);
  rid_of _ := no_rid
|}.

End Aggregate.

End Operators.
