(* ===== verification/ExecutorSpec.v ===== *)
(** * Correctness of the query operators

    [source] states what an executor promises to the one above it: it can be
    started any number of times, and a pass over it gives a fixed list of rows
    and keeps the invariant of the world.  Each operator is proved against the
    promise of its children to keep the same promise for the rows that the
    relational operation gives. *)

From S2P Require Import Prelude Defs SmMeta Values Executor.

Abbreviation row := (list Z).

(* ------------------------------------------------------------------ *)
(** ** The promise                                                      *)
(* ------------------------------------------------------------------ *)

(** [ok]: a state the executor can be started in.  [at_ e l]: in the midst of a
    pass with the rows [l] left.  [n]: fuel that is enough. *)
Record source {W E : Type} `{AbstractExecutor W E} (I : W → Prop) (cols : list ColMeta) (len : Z) (rows : list row)
    (n : nat) (ok : E → Prop) (at_ : E → list row → Prop) : Prop := {
  src_begin e w fuel : ok e → I w → (n ≤ fuel)%nat →
    ∃ e' w', beginTuple fuel e w = (Ret e', w') ∧ I w' ∧ at_ e' rows;
  src_ok e l : at_ e l → ok e;
  src_end e l w : at_ e l → I w → ∃ w', is_end e w = (Ret (bool_decide (l = [])), w') ∧ I w';
  src_next e t l w : at_ e (t :: l) → I w → ∃ w', Next e w = (Ret (Some t), w') ∧ I w';
  src_step e t l w fuel : at_ e (t :: l) → I w → (n ≤ fuel)%nat →
    ∃ e' w', nextTuple fuel e w = (Ret e', w') ∧ I w' ∧ at_ e' l;
  src_sub e l : at_ e l → ∃ l0, rows = l0 ++ l;
  src_cols e : ok e → cols_of e = cols;
  src_len e : ok e → tupleLen e = len;
  src_rows : Forall (λ t, length t = Z.to_nat len) rows;
  src_pos : 0 ≤ len
}.

(** Conditions that evaluate on every row, and their value. *)
Definition satisfies (cols : list ColMeta) (conds : list Condition) (t : row) : bool :=
  match record_satisfies_conditions t cols conds with Ret b => b | Throw _ => false end.
Definition conds_eval (cols : list ColMeta) (conds : list Condition) : Prop :=
  ∀ t, record_satisfies_conditions t cols conds = Ret (satisfies cols conds t).

(** Two steps of a state computation in a goal. *)
Ltac run H := rewrite (st_bind_ret _ _ _ _ _ H).

Section Pass.
Context {W E : Type} `{AbstractExecutor W E}.
Context (I : W → Prop) (cols : list ColMeta) (len : Z) (rows : list row) (n : nat) (ok : E → Prop) (at_ : E → list row → Prop).
Hypothesis Hsrc : source I cols len rows n ok at_.

Lemma src_lengths e l : at_ e l → Forall (λ t, length t = Z.to_nat len) l.
Proof using Hsrc.
  intros Ha. destruct (src_sub _ _ _ _ _ _ _ Hsrc e l Ha) as [l0 E0].
  pose proof (src_rows _ _ _ _ _ _ _ Hsrc) as Hr. rewrite E0, Forall_app in Hr. apply Hr.
Qed.

(** A whole pass. *)
Lemma drain_spec fuel turns e l w : at_ e l → I w → (n ≤ fuel)%nat → (length l ≤ turns)%nat →
  ∃ e' w', drain fuel turns e w = (Ret (l, e'), w') ∧ I w' ∧ ok e'.
Proof using Hsrc.
  intros Ha Hw Hf. revert e l w Ha Hw. induction turns as [|k IH]; intros e l w Ha Hw Hk.
  - destruct l; [|simpl in Hk; lia]. destruct (src_end _ _ _ _ _ _ _ Hsrc e [] w Ha Hw) as (w' & E1 & Hw').
    exists e, w'. split_and!; [|done|by eapply src_ok]. unfold drain. by run E1.
  - destruct (src_end _ _ _ _ _ _ _ Hsrc e l w Ha Hw) as (w1 & E1 & Hw1). cbn [drain]. run E1. destruct l as [|t l].
    + exists e, w1. split_and!; [done|done|by eapply src_ok].
    + destruct (src_next _ _ _ _ _ _ _ Hsrc e t l w1 Ha Hw1) as (w2 & E2 & Hw2).
      destruct (src_step _ _ _ _ _ _ _ Hsrc e t l w2 fuel Ha Hw2 Hf) as (e3 & w3 & E3 & Hw3 & Ha3).
      destruct (IH e3 l w3 Ha3 Hw3 ltac:(simpl in Hk; lia)) as (e4 & w4 & E4 & Hw4 & Hok4).
      exists e4, w4. split_and!; [|done..]. simpl. run E2. rewrite (st_bind_ret (lift_outcome (Ret t)) _ w2 t w2 eq_refl).
      run E3. by run E4.
Qed.

End Pass.

(* ------------------------------------------------------------------ *)
(** ** Virtual calls                                                    *)
(* ------------------------------------------------------------------ *)

Definition inl_ok {E F} (ok : E → Prop) (x : E + F) : Prop := match x with inl e => ok e | inr _ => False end.

Lemma inl_source {W E F} `{AbstractExecutor W E, AbstractExecutor W F} I cols len rows n ok at_ :
  source (E := E) I cols len rows n ok at_ →
  source (E := E + F) I cols len rows n (inl_ok ok) (λ x l, inl_ok (λ e, at_ e l) x).
Proof.
  intros Hs. split; try (by apply Hs).
  - intros [e|e] w fuel Ha Hw Hn; [|done].
    destruct (src_begin _ _ _ _ _ _ _ Hs e w fuel Ha Hw Hn) as (e' & w' & E1 & ? & ?).
    exists (inl e'), w'. split_and!; [|done|done]. simpl. by run E1.
  - intros [e|e] l Ha; [|done]. by eapply (src_ok _ _ _ _ _ _ _ Hs).
  - intros [e|e] l w Ha Hw; [|done]. by eapply (src_end _ _ _ _ _ _ _ Hs).
  - intros [e|e] t l w Ha Hw; [|done]. by eapply (src_next _ _ _ _ _ _ _ Hs).
  - intros [e|e] t l w fuel Ha Hw Hn; [|done].
    destruct (src_step _ _ _ _ _ _ _ Hs e t l w fuel Ha Hw Hn) as (e' & w' & E1 & ? & ?).
    exists (inl e'), w'. split_and!; [|done|done]. simpl. by run E1.
  - intros [e|e] l Ha; [|done]. by eapply (src_sub _ _ _ _ _ _ _ Hs).
  - intros [e|e] Ha; [|done]. by eapply (src_cols _ _ _ _ _ _ _ Hs).
  - intros [e|e] Ha; [|done]. by eapply (src_len _ _ _ _ _ _ _ Hs).
Qed.

(* ------------------------------------------------------------------ *)
(** ** Nested loop join                                                 *)
(* ------------------------------------------------------------------ *)

Lemma list_cases {A} (l : list A) : l = [] ∨ ∃ x l', l = x :: l'.
Proof. destruct l; [by left|right; eauto]. Qed.

(** The blocks the left side is read in, and the order in which the pairs are
    met: per block, per right row, per row of the block. *)
Fixpoint blocks {A} (n cap : nat) (l : list A) : list (list A) :=
  match n, l with
  | S n', _ :: _ => take cap l :: blocks n' cap (drop cap l)
  | _, _ => []
  end.
Definition chunks {A} (cap : nat) (l : list A) : list (list A) := blocks (length l) cap l.

Lemma blocks_enough {A} cap n m (l : list A) : (0 < cap)%nat → (length l ≤ n)%nat → (length l ≤ m)%nat →
  blocks n cap l = blocks m cap l.
Proof.
  intros Hc. revert m l. induction n as [|n IH]; intros [|m] [|x l] Hn Hm; simpl in *; try lia; try done.
  f_equal. apply IH; rewrite length_drop; simpl; lia.
Qed.
Lemma chunks_cons {A} cap (x : A) l : (0 < cap)%nat → chunks cap (x :: l) = take cap (x :: l) :: chunks cap (drop cap (x :: l)).
Proof.
  intros Hc. unfold chunks. cbn [length blocks]. f_equal. apply blocks_enough; [done|..]; rewrite length_drop; simpl; lia.
Qed.
Lemma length_blocks {A} cap n (l : list A) : (0 < cap)%nat → (length l ≤ n)%nat → (length (blocks n cap l) ≤ length l)%nat.
Proof.
  intros Hc. revert l. induction n as [|n IH]; intros [|x l] Hn; simpl in *; try lia.
  specialize (IH (drop cap (x :: l))). rewrite length_drop in IH. simpl in IH. lia.
Qed.
Lemma length_chunks {A} cap (l : list A) : (0 < cap)%nat → (length (chunks cap l) ≤ length l)%nat.
Proof. intros Hc. by apply length_blocks. Qed.
Lemma concat_chunks {A} cap (l : list A) : (0 < cap)%nat → concat (chunks cap l) = l.
Proof.
  intros Hc. unfold chunks. generalize (le_n (length l)). generalize (length l) at 2 3. intros n. revert l.
  induction n as [|n IH]; intros [|x l] Hn; simpl in *; try lia; try done.
  rewrite IH; [by rewrite take_drop|]. rewrite length_drop. simpl. lia.
Qed.

Definition block_pairs (b rs : list row) : list row := concat ((λ r, (λ l, l ++ r) <$> b) <$> rs).
Definition join_pairs (cap : nat) (L Rs : list row) : list row := concat ((λ b, block_pairs b Rs) <$> chunks cap L).

Lemma block_pairs_cons b r rs : block_pairs b (r :: rs) = ((λ l, l ++ r) <$> b) ++ block_pairs b rs.
Proof. done. Qed.
Lemma join_pairs_cons cap x l Rs : (0 < cap)%nat →
  join_pairs cap (x :: l) Rs = block_pairs (take cap (x :: l)) Rs ++ join_pairs cap (drop cap (x :: l)) Rs.
Proof. intros Hc. unfold join_pairs. by rewrite chunks_cons. Qed.
Lemma join_pairs_nil cap L : join_pairs cap L [] = [].
Proof. unfold join_pairs. by induction (chunks cap L). Qed.

(** Up to order these are all pairs. *)
Lemma block_pairs_app b1 b2 rs : block_pairs (b1 ++ b2) rs ≡ₚ block_pairs b1 rs ++ block_pairs b2 rs.
Proof.
  unfold block_pairs. induction rs as [|r rs IH]; [done|]. cbn [fmap list_fmap concat]. rewrite fmap_app, IH.
  rewrite <- !app_assoc. apply Permutation_app_head. by rewrite !app_assoc, (Permutation_app_comm (_ <$> b2)).
Qed.
Lemma join_pairs_product cap L Rs : (0 < cap)%nat → join_pairs cap L Rs ≡ₚ block_pairs L Rs.
Proof.
  intros Hc. rewrite <- (concat_chunks cap L Hc) at 2. unfold join_pairs. generalize (chunks cap L). intros bs.
  induction bs as [|b bs IH]; simpl; [|by rewrite block_pairs_app, IH].
  unfold block_pairs. by induction Rs.
Qed.

Section JoinSpec.
Context {W L Rt : Type} `{AbstractExecutor W L, AbstractExecutor W Rt}.
Context (I : W → Prop) (conds : list Condition).
Context (colsL : list ColMeta) (lenL : Z) (Ls : list row) (nL : nat) (okL : L → Prop) (atL : L → list row → Prop).
Context (colsR : list ColMeta) (lenR : Z) (Rs : list row) (nR : nat) (okR : Rt → Prop) (atR : Rt → list row → Prop).
Hypotheses (HL : source I colsL lenL Ls nL okL atL) (HR : source I colsR lenR Rs nR okR atR).
Abbreviation join := (NestedLoopJoinExecutor L Rt).
Implicit Types e : join.

Definition cols_join : list ColMeta := colsL ++ (shift_col lenL <$> colsR).
Definition join_cap : nat := Z.to_nat (Z.max 1 (JOIN_BUFFER_BYTES / Z.max 1 lenL)).
Hypothesis Hconds : conds_eval cols_join conds.
Abbreviation sat := (satisfies cols_join conds).
Abbreviation keep := (filter (λ t, sat t = true)).
Definition join_rows : list row := keep (join_pairs join_cap Ls Rs).
Definition join_fuel : nat := Nat.max (Nat.max nL nR) (Nat.max (length Ls) (length Rs) + 1).

(** The fields no step changes, and the state of the children. *)
Record join_ok e : Prop := {
  jo_left : okL (nl_left e);
  jo_right : okR (nl_right e);
  jo_len : nl_len e = lenL + lenR;
  jo_cols : nl_cols e = cols_join;
  jo_conds : nl_fed_conds e = conds;
  jo_cap : left_block_capacity_ e = Z.of_nat join_cap
}.

(** In the midst of a block: from pair [idx] of row [rt] on. *)
Record in_block e (Lrest Rrest : list row) (rt : row) : Prop := {
  ib_ok : join_ok e;
  ib_left : atL (nl_left e) Lrest;
  ib_right : atR (nl_right e) (rt :: Rrest);
  ib_tuple : right_tuple_ e = Some rt;
  ib_idx : 0 ≤ left_block_idx_ e;
  ib_rows : Forall (λ t, length t = Z.to_nat lenL) (left_block_ e);
  ib_run : isend_ e = false
}.
Definition block_rest e (rt : row) : list row := (λ l, l ++ rt) <$> drop (Z.to_nat (left_block_idx_ e)) (left_block_ e).
Definition pairs_rest e (Lrest Rrest : list row) (rt : row) : list row :=
  block_rest e rt ++ block_pairs (left_block_ e) Rrest ++ join_pairs join_cap Lrest Rs.

Definition join_at e (out : list row) : Prop :=
  (join_ok e ∧ isend_ e = true ∧ out = []) ∨
  ∃ Lrest Rrest rt l, in_block e Lrest Rrest rt ∧ left_block_ e !! Z.to_nat (left_block_idx_ e) = Some l ∧
    sat (l ++ rt) = true ∧ out = keep (pairs_rest e Lrest Rrest rt) ∧ ∃ l0, join_rows = l0 ++ out.

Lemma join_cap_pos : (0 < join_cap)%nat.
Proof using. unfold join_cap. lia. Qed.

Ltac keep_ok := match goal with Hok : join_ok _ |- join_ok _ => split; simpl; try done; apply Hok end.

Lemma joined e l r : join_ok e → length l = Z.to_nat lenL → length r = Z.to_nat lenR →
  make_joined_record e l r = l ++ r.
Proof using HL HR.
  intros [Hl Hr Hlen _ _ _] El Er. pose proof (src_pos _ _ _ _ _ _ _ HL). pose proof (src_pos _ _ _ _ _ _ _ HR).
  unfold make_joined_record. rewrite (src_len _ _ _ _ _ _ _ HL _ Hl), (src_len _ _ _ _ _ _ _ HR _ Hr), Hlen.
  rewrite !take_ge by lia. rewrite Z2Nat.inj_add, replicate_add by done. unfold splice. cbn [take app plus].
  rewrite El, drop_app_le by (rewrite length_replicate; lia). rewrite drop_ge by (rewrite length_replicate; lia). simpl.
  rewrite take_app_le by lia. rewrite take_ge by lia. f_equal. rewrite drop_ge; [by rewrite app_nil_r|].
  rewrite length_app, length_replicate. lia.
Qed.

(** The search in a block. *)
Lemma match_in_block_spec e rt idx b : join_ok e → length rt = Z.to_nat lenR → Forall (λ t, length t = Z.to_nat lenL) b →
  match match_in_block e rt idx b with
  | Ret (Some j) => ∃ k l, j = idx + Z.of_nat k ∧ b !! k = Some l ∧ sat (l ++ rt) = true ∧
      keep ((λ l, l ++ rt) <$> b) = keep ((λ l, l ++ rt) <$> drop k b)
  | Ret None => keep ((λ l, l ++ rt) <$> b) = []
  | Throw _ => False
  end.
Proof using HL HR Hconds.
  intros Hok Hrt. revert idx. induction b as [|l b IH]; intros idx Hb; [done|]. apply Forall_cons in Hb as [Hl Hb].
  cbn [match_in_block]. rewrite joined, (jo_cols _ Hok), (jo_conds _ Hok), Hconds by done. cbn [mbind outcome_bind].
  destruct (sat (l ++ rt)) eqn:Es.
  - exists 0%nat, l. split_and!; [lia|done|done|done].
  - specialize (IH (idx + 1) Hb). cbn [fmap list_fmap]. rewrite filter_cons_False by by rewrite Es.
    destruct (match_in_block e rt (idx + 1) b) as [[j|]|]; [|done|done].
    destruct IH as (k & l' & -> & ? & ? & ?). exists (S k), l'. split_and!; [lia|done..].
Qed.

Lemma right_len Rrest rt e : atR (nl_right e) (rt :: Rrest) → length rt = Z.to_nat lenR.
Proof using HR. intros Ha. by apply (src_lengths _ _ _ _ _ _ _ HR), Forall_cons in Ha as [? _]. Qed.

(** The loops over a block: a match, or its end. *)
Lemma right_loop_spec fuel turns e Lrest Rrest rt w : (nR ≤ fuel)%nat → (length Rrest < turns)%nat → I w →
  in_block e Lrest Rrest rt → ∃ b e' w', right_loop fuel turns e w = (Ret (b, e'), w') ∧ I w' ∧ join_ok e' ∧
    left_block_ e' = left_block_ e ∧ nl_left e' = nl_left e ∧ isend_ e' = false ∧
    if b : bool then ∃ Rrest' rt' l, in_block e' Lrest Rrest' rt' ∧
      left_block_ e' !! Z.to_nat (left_block_idx_ e') = Some l ∧ sat (l ++ rt') = true ∧
      keep (block_rest e rt ++ block_pairs (left_block_ e) Rrest) =
      keep (block_rest e' rt' ++ block_pairs (left_block_ e') Rrest')
    else keep (block_rest e rt ++ block_pairs (left_block_ e) Rrest) = [].
Proof using HL HR Hconds.
  intros Hf. revert e Rrest rt w. induction turns as [|k IH]; intros e Rrest rt w Hk Hw Hb; [lia|].
  pose proof Hb as [Hok Hl Hr Ht Hi Hrows Hrun]. pose proof (right_len _ _ _ Hr) as Hrt.
  cbn [right_loop]. rewrite Ht.
  pose proof (match_in_block_spec e rt (left_block_idx_ e) (drop (Z.to_nat (left_block_idx_ e)) (left_block_ e)) Hok Hrt
                (Forall_drop _ _ _ Hrows)) as Hm.
  destruct (match_in_block _ _ _ _) as [[j|]|ex] eqn:Em; [| |done];
    [rewrite (st_bind_ret (lift_outcome _) _ w (Some j) w) by done|rewrite (st_bind_ret (lift_outcome _) _ w None w) by done];
    cbn iota beta.
  - destruct Hm as (i & l & -> & Hli & Hs & Hkeep). exists true, (set_left_block_idx (left_block_idx_ e + Z.of_nat i) e), w.
    split_and!; try done; [keep_ok|]. exists Rrest, rt, l.
    rewrite lookup_drop in Hli. split_and!; simpl.
    + split; try done; [keep_ok|simpl; lia].
    + rewrite <- Hli. f_equal. lia.
    + done.
    + rewrite !filter_app. f_equal. unfold block_rest. rewrite Hkeep, drop_drop. simpl. do 2 f_equal. f_equal. lia.
  - assert (atR (nl_right e) (rt :: Rrest)) as Hr' by done.
    destruct (src_step _ _ _ _ _ _ _ HR (nl_right e) rt Rrest w fuel Hr Hw Hf) as (r' & w1 & E1 & Hw1 & Ha1). run E1. cbv zeta.
    destruct (src_end _ _ _ _ _ _ _ HR r' Rrest w1 Ha1 Hw1) as (w2 & E2 & Hw2). run E2.
    pose proof (src_ok _ _ _ _ _ _ _ HR _ _ Ha1) as Hokr.
    destruct Rrest as [|rt2 Rrest]; cbn [bool_decide decide_rel].
    + eexists false, _, w2. split_and!; [done|done|keep_ok|done..|]. rewrite filter_app.
      unfold block_rest. by rewrite Hm.
    + destruct (src_next _ _ _ _ _ _ _ HR r' rt2 Rrest w2 Ha1 Hw2) as (w3 & E3 & Hw3).
      change (bool_decide (rt2 :: Rrest = [])) with false. cbn iota. run E3.
      edestruct (IH (set_right_tuple (Some rt2) (set_nl_right r' (set_left_block_idx 0 e))) Rrest rt2 w3) as
        (b & e' & w' & E4 & Hw4 & Hok4 & Hb4 & Hl4 & Hrun4 & Hres); [simpl in Hk; lia|done| |].
      { split; simpl; try done. keep_ok. }
      exists b, e', w'. split_and!; try done. simpl in Hres.
      assert (keep (block_rest e rt ++ block_pairs (left_block_ e) (rt2 :: Rrest)) =
              keep (block_rest (set_right_tuple (Some rt2) (set_nl_right r' (set_left_block_idx 0 e))) rt2 ++
                    block_pairs (left_block_ e) Rrest)) as ->.
      { rewrite !filter_app. unfold block_rest at 1. rewrite Hm. cbn [app]. unfold block_pairs at 1.
        cbn [fmap list_fmap concat]. rewrite filter_app. done. }
      destruct b; exact Hres.
Qed.

Lemma load_loop_spec fuel turns e l w : (nL ≤ fuel)%nat → (length l ≤ turns)%nat → I w → atL (nl_left e) l →
  left_block_capacity_ e = Z.of_nat join_cap → (length (left_block_ e) ≤ join_cap)%nat →
  let m := (join_cap - length (left_block_ e))%nat in
  ∃ left' w', load_loop fuel turns e w = (Ret (set_nl_left left' (set_left_block (left_block_ e ++ take m l) e)), w') ∧
    I w' ∧ atL left' (drop m l).
Proof using HL.
  intros Hf. revert e l w. induction turns as [|k IH]; intros e l w Hk Hw Hl Hc Hlen m;
    destruct (src_end _ _ _ _ _ _ _ HL (nl_left e) l w Hl Hw) as (w1 & E1 & Hw1); cbn [load_loop]; run E1; rewrite Hc.
  - destruct l; [|simpl in Hk; lia]. exists (nl_left e), w1. rewrite take_nil, drop_nil, app_nil_r. by destruct e.
  - destruct l as [|t l].
    { exists (nl_left e), w1. rewrite take_nil, drop_nil, app_nil_r. by destruct e. }
    cbn [bool_decide decide_rel negb andb list_eq_nil_dec]. change (bool_decide (t :: l = [])) with false. cbn [negb andb].
    destruct (Z.ltb_spec (Z.of_nat (length (left_block_ e))) (Z.of_nat join_cap)) as [Hlt|Hge].
    + destruct (src_next _ _ _ _ _ _ _ HL (nl_left e) t l w1 Hl Hw1) as (w2 & E2 & Hw2). run E2.
      rewrite (st_bind_ret (lift_outcome (deref (Some t))) _ w2 t w2) by done.
      destruct (src_step _ _ _ _ _ _ _ HL (nl_left e) t l w2 fuel Hl Hw2 Hf) as (l' & w3 & E3 & Hw3 & Hl3). run E3.
      edestruct (IH (set_nl_left l' (set_left_block (left_block_ e ++ [t]) e)) l w3) as (l4 & w4 & E4 & Hw4 & Hl4);
        [simpl in Hk; lia|done..|simpl; rewrite length_app; simpl; lia|].
      exists l4, w4. simpl in E4, Hl4. rewrite length_app in E4, Hl4. simpl in E4, Hl4. subst m.
      replace (join_cap - length (left_block_ e))%nat with (S (join_cap - (length (left_block_ e) + 1)))%nat by lia.
      cbn [take drop]. split_and!; [|done|exact Hl4]. rewrite E4. by rewrite <- app_assoc.
    + assert (m = 0)%nat as -> by lia. exists (nl_left e), w1. rewrite app_nil_r. by destruct e.
Qed.

Lemma load_next_spec fuel e l w : (nL ≤ fuel)%nat → (length l ≤ fuel)%nat → I w → atL (nl_left e) l → join_ok e →
  ∃ left' w', load_next_left_block fuel e w =
      (Ret (negb (bool_decide (l = [])), set_nl_left left' (set_left_block (take join_cap l) (set_left_block_idx 0 e))), w') ∧
    I w' ∧ atL left' (drop join_cap l).
Proof using HL.
  intros Hf Hl Hw Ha Hok. unfold load_next_left_block.
  destruct (load_loop_spec fuel fuel (set_left_block_idx 0 (set_left_block [] e)) l w Hf Hl Hw Ha) as (l' & w' & E1 & Hw' & Ha');
    [apply Hok|simpl; lia|]. cbn [left_block_ set_left_block set_left_block_idx app length] in E1, Ha'. rewrite Nat.sub_0_r in *.
  exists l', w'. split_and!; [|done..]. run E1. cbn [left_block_ set_nl_left set_left_block]. do 3 f_equal.
  pose proof join_cap_pos. destruct join_cap, l; (done || lia).
Qed.

(** From a point of a block on, advancing stops at the next pair that satisfies
    the conditions, or at the end. *)
Lemma advance_spec fuel turns e Lrest Rrest rt w : (join_fuel ≤ fuel)%nat → (length (chunks join_cap Lrest) < turns)%nat →
  I w → in_block e Lrest Rrest rt → (∃ l0, join_rows = l0 ++ keep (pairs_rest e Lrest Rrest rt)) →
  ∃ e' w', advance_to_next_match fuel turns e w = (Ret e', w') ∧ I w' ∧ join_at e' (keep (pairs_rest e Lrest Rrest rt)).
Proof using HL HR Hconds.
  intros Hf. unfold join_fuel in Hf. revert e Lrest Rrest rt w.
  induction turns as [|k IH]; intros e Lrest Rrest rt w Hk Hw Hb Hsub; [lia|]. cbn [advance_to_next_match].
  assert (length Rrest < fuel)%nat as HRlen.
  { destruct (src_sub _ _ _ _ _ _ _ HR _ _ (ib_right _ _ _ _ Hb)) as [l0 E0]. apply (f_equal length) in E0.
    rewrite length_app in E0. simpl in E0. lia. }
  destruct (right_loop_spec fuel fuel e Lrest Rrest rt w ltac:(lia) HRlen Hw Hb)
    as (b & e1 & w1 & E1 & Hw1 & Hok & Hblk & Hleft & Hrun & Hres). run E1. destruct b.
  - destruct Hres as (Rrest' & rt' & l & Hb' & Hl & Hs & Hkeep). exists e1, w1. split_and!; [done|done|]. right.
    assert (keep (pairs_rest e Lrest Rrest rt) = keep (pairs_rest e1 Lrest Rrest' rt')) as Eq.
    { unfold pairs_rest. rewrite !app_assoc, !(filter_app _ (_ ++ _)), Hkeep. done. }
    exists Lrest, Rrest', rt', l. rewrite <- Eq. by split_and!.
  - assert (keep (pairs_rest e Lrest Rrest rt) = keep (join_pairs join_cap Lrest Rs)) as Eq.
    { unfold pairs_rest. by rewrite app_assoc, filter_app, Hres. }
    rewrite Eq in *. pose proof (ib_left _ _ _ _ Hb) as Hal. rewrite <- Hleft in Hal.
    assert (length Lrest ≤ fuel)%nat as HLlen.
    { destruct (src_sub _ _ _ _ _ _ _ HL _ _ Hal) as [l0 E0]. apply (f_equal length) in E0. rewrite length_app in E0. lia. }
    destruct (load_next_spec fuel e1 Lrest w1 ltac:(lia) HLlen Hw1 Hal Hok) as (l' & w2 & E2 & Hw2 & Hal2). run E2.
    pose proof (src_ok _ _ _ _ _ _ _ HL _ _ Hal2) as Hokl.
    destruct Lrest as [|t Lrest]; cbn iota beta.
    { eexists _, w2. split_and!; [done|done|]. left. split_and!; [keep_ok|done|done]. }
    change (bool_decide (t :: Lrest = [])) with false. cbn [negb nl_right set_nl_left set_left_block set_left_block_idx].
    destruct (src_begin _ _ _ _ _ _ _ HR (nl_right e1) w2 fuel (jo_right _ Hok) Hw2 ltac:(lia)) as (r' & w3 & E3 & Hw3 & Hr3).
    run E3. cbv zeta. destruct (src_end _ _ _ _ _ _ _ HR r' Rs w3 Hr3 Hw3) as (w4 & E4 & Hw4). run E4.
    pose proof (src_ok _ _ _ _ _ _ _ HR _ _ Hr3) as Hokr. rewrite chunks_cons in Hk by apply join_cap_pos.
    cbn [length] in Hk. rewrite join_pairs_cons by apply join_cap_pos.
    destruct (list_cases Rs) as [ERs|(rt2 & Rs2 & ERs)].
    + rewrite bool_decide_eq_true_2 by done. eexists _, w4. split_and!; [done|done|]. left. split_and!; [keep_ok|done|]. by rewrite ERs, join_pairs_nil.
    + rewrite ERs in Hr3. rewrite bool_decide_eq_false_2 by by rewrite ERs. cbn iota.
      destruct (src_next _ _ _ _ _ _ _ HR r' rt2 Rs2 w4 Hr3 Hw4) as (w5 & E5 & Hw5). run E5.
      set (e5 := set_left_block_idx 0 _).
      assert (in_block e5 (drop join_cap (t :: Lrest)) Rs2 rt2) as Hb5.
      { split; try done; [keep_ok|]. simpl. eapply Forall_take, (src_lengths _ _ _ _ _ _ _ HL), Hal. }
      rewrite ERs, block_pairs_cons, <- app_assoc, <- ERs.
      destruct (IH e5 (drop join_cap (t :: Lrest)) Rs2 rt2 w5 ltac:(lia) Hw5 Hb5) as (e' & w' & E6 & Hw6 & Hat6).
      { destruct Hsub as [l0 Hsub]. exists l0. rewrite Hsub, join_pairs_cons by apply join_cap_pos.
        by rewrite ERs, block_pairs_cons, <- app_assoc, <- ERs. }
      by exists e', w'.
Qed.

Lemma join_begin_spec fuel e w : join_ok e → I w → (join_fuel ≤ fuel)%nat →
  ∃ e' w', join_beginTuple fuel e w = (Ret e', w') ∧ I w' ∧ join_at e' join_rows.
Proof using HL HR Hconds.
  intros Hok Hw Hf. pose proof Hf as Hf'. unfold join_fuel in Hf'. unfold join_beginTuple. cbv zeta.
  cbn [nl_left set_isend].
  destruct (src_begin _ _ _ _ _ _ _ HL (nl_left e) w fuel (jo_left _ Hok) Hw ltac:(lia)) as (l' & w1 & E1 & Hw1 & Hl1). run E1.
  set (e1 := set_nl_left l' _). pose proof (src_ok _ _ _ _ _ _ _ HL _ _ Hl1) as Hokl. assert (join_ok e1) as Hok1 by keep_ok.
  destruct (load_next_spec fuel e1 Ls w1 ltac:(lia) ltac:(lia) Hw1 Hl1 Hok1) as (l2 & w2 & E2 & Hw2 & Hl2). run E2.
  pose proof (src_ok _ _ _ _ _ _ _ HL _ _ Hl2) as Hokl2.
  unfold join_rows. destruct (list_cases Ls) as [ELs|(t & ls & ELs)].
  { rewrite bool_decide_eq_true_2 by done. rewrite ELs. eexists _, w2. split_and!; [done|done|]. left. split_and!; [keep_ok|done|done]. }
  rewrite bool_decide_eq_false_2 by by rewrite ELs. rewrite ELs in Hl2. rewrite ELs. cbn [negb nl_right set_nl_left set_left_block set_left_block_idx e1 set_isend].
  destruct (src_begin _ _ _ _ _ _ _ HR (nl_right e) w2 fuel (jo_right _ Hok) Hw2 ltac:(lia)) as (r' & w3 & E3 & Hw3 & Hr3).
  run E3. cbv zeta. destruct (src_end _ _ _ _ _ _ _ HR r' Rs w3 Hr3 Hw3) as (w4 & E4 & Hw4). run E4.
  pose proof (src_ok _ _ _ _ _ _ _ HR _ _ Hr3) as Hokr.
  rewrite join_pairs_cons by apply join_cap_pos.
  destruct (list_cases Rs) as [ERs|(rt2 & Rs2 & ERs)].
  - rewrite bool_decide_eq_true_2 by done. eexists _, w4. split_and!; [done|done|]. left. split_and!; [keep_ok|done|]. by rewrite ERs, join_pairs_nil.
  - rewrite ERs in Hr3. rewrite bool_decide_eq_false_2 by by rewrite ERs. cbn iota.
    destruct (src_next _ _ _ _ _ _ _ HR r' rt2 Rs2 w4 Hr3 Hw4) as (w5 & E5 & Hw5). run E5.
    set (e5 := set_left_block_idx 0 _).
    assert (in_block e5 (drop join_cap (t :: ls)) Rs2 rt2) as Hb5.
    { split; try done; [keep_ok|]. simpl. eapply Forall_take, (src_lengths _ _ _ _ _ _ _ HL). rewrite <- ELs. exact Hl1. }
    assert (keep (pairs_rest e5 (drop join_cap (t :: ls)) Rs2 rt2) = join_rows) as Eq.
    { unfold join_rows. rewrite ELs, join_pairs_cons by apply join_cap_pos.
      by rewrite ERs, block_pairs_cons, <- app_assoc, <- ERs. }
    destruct (advance_spec fuel fuel e5 (drop join_cap (t :: ls)) Rs2 rt2 w5) as (e' & w' & E6 & Hw6 & Hat6);
      [done| |done|done|exists []; by rewrite Eq|].
    { pose proof (length_chunks join_cap (drop join_cap (t :: ls)) join_cap_pos) as Hlc. rewrite length_drop in Hlc.
      apply (f_equal length) in ELs. cbn [length] in ELs, Hlc. lia. }
    exists e', w'. split_and!; [done|done|]. rewrite Eq in Hat6. unfold join_rows in Hat6.
    rewrite ELs, join_pairs_cons in Hat6 by apply join_cap_pos. exact Hat6.
Qed.

Lemma join_next_spec fuel e t out w : join_at e (t :: out) → I w → (join_fuel ≤ fuel)%nat →
  ∃ e' w', join_nextTuple fuel e w = (Ret e', w') ∧ I w' ∧ join_at e' out.
Proof using HL HR Hconds.
  intros [(_ & _ & ?)|(Lrest & Rrest & rt & l & Hb & Hl & Hs & Ho & l0 & Hsub)] Hw Hf; [done|].
  unfold join_nextTuple. rewrite (ib_run _ _ _ _ Hb). pose proof Hb as [Hok Hal Har Ht Hi Hrows Hrun].
  set (e1 := set_left_block_idx (left_block_idx_ e + 1) e).
  assert (keep (pairs_rest e Lrest Rrest rt) = (l ++ rt) :: keep (pairs_rest e1 Lrest Rrest rt)) as Eq.
  { unfold pairs_rest, block_rest. rewrite (drop_S _ _ _ Hl). cbn [fmap list_fmap app]. rewrite filter_cons_True by done.
    do 2 f_equal. simpl. do 3 f_equal. lia. }
  rewrite Eq in Ho. injection Ho as -> ->.
  destruct (advance_spec fuel fuel e1 Lrest Rrest rt w) as (e' & w' & E & Hw' & Hat); [done| |done| | |by exists e', w'].
  - destruct (src_sub _ _ _ _ _ _ _ HL _ _ Hal) as [lx Ex]. apply (f_equal length) in Ex. rewrite length_app in Ex.
    pose proof (length_chunks join_cap Lrest join_cap_pos). unfold join_fuel in Hf. lia.
  - split; try done; [keep_ok|simpl; lia].
  - exists (l0 ++ [l ++ rt]). rewrite Hsub. by rewrite <- app_assoc.
Qed.

(** A join is a source of the pairs of rows that satisfy its conditions. *)
Lemma join_source : source I cols_join (lenL + lenR) join_rows join_fuel join_ok join_at.
Proof using HL HR Hconds.
  pose proof (src_pos _ _ _ _ _ _ _ HL). pose proof (src_pos _ _ _ _ _ _ _ HR). split.
  - intros e w fuel. apply join_begin_spec.
  - intros e l [(? & _)|(? & ? & ? & ? & Hb & _)]; [done|apply Hb].
  - intros e l w Ha Hw. exists w. split; [|done]. simpl. do 2 f_equal.
    destruct Ha as [(_ & -> & ->)|(Lrest & Rrest & rt & l1 & Hb & Hl & Hs & -> & _)]; [done|].
    rewrite (ib_run _ _ _ _ Hb). unfold pairs_rest, block_rest. rewrite (drop_S _ _ _ Hl). cbn [fmap list_fmap app].
    by rewrite filter_cons_True.
  - intros e t l w [(_ & _ & ?)|(Lrest & Rrest & rt & l1 & Hb & Hl & Hs & Ho & _)] Hw; [done|].
    exists w. split; [|done]. simpl. unfold join_Next. rewrite (ib_tuple _ _ _ _ Hb), (ib_run _ _ _ _ Hb).
    pose proof (lookup_lt_Some _ _ _ Hl). pose proof (ib_idx _ _ _ _ Hb).
    destruct (Z.leb_spec (Z.of_nat (length (left_block_ e))) (left_block_idx_ e)); [lia|]. cbn [orb]. rewrite Hl.
    rewrite (st_bind_ret (lift_outcome _) _ w l1 w) by done.
    unfold pairs_rest, block_rest in Ho. rewrite (drop_S _ _ _ Hl) in Ho. cbn [fmap list_fmap app] in Ho.
    rewrite filter_cons_True in Ho by done. injection Ho as -> _.
    rewrite joined; [done|apply Hb| |by eapply right_len, Hb].
    by eapply Forall_lookup_1 in Hl; [|apply Hb].
  - intros e t l w fuel Ha Hw Hf. by eapply join_next_spec.
  - intros e l [(_ & _ & ->)|(? & ? & ? & ? & _ & _ & _ & _ & Hsub)]; [|done]. exists join_rows. by rewrite app_nil_r.
  - intros e Hok. apply Hok.
  - intros e Hok. apply Hok.
  - unfold join_rows. apply Forall_forall. intros t [_ Ht]%list_elem_of_filter. revert Ht.
    rewrite join_pairs_product by apply join_cap_pos. unfold block_pairs. intros (i & ts & Hin & Ht)%elem_concat.
    apply list_elem_of_lookup_2, list_elem_of_fmap in Hin as (r & -> & Hr). apply list_elem_of_fmap in Ht as (l & -> & Hl).
    pose proof (src_rows _ _ _ _ _ _ _ HL) as Hls. pose proof (src_rows _ _ _ _ _ _ _ HR) as Hrs.
    rewrite Forall_forall in Hls, Hrs. rewrite length_app, (Hls l Hl), (Hrs r Hr). lia.
  - lia.
Qed.

End JoinSpec.
