(* ===== verification/OperatorSpec.v ===== *)
(** * Correctness of projection, sort and aggregation

    Each keeps the promise [source] for the rows its operation gives: the chosen
    fields side by side; a stable sort by the keys, cut to the limit; one row
    with the value of every aggregate. *)

From stdpp Require Import sorting.
From S2P Require Import Prelude Defs SmMeta Values Executor ExecutorSpec.

(* ------------------------------------------------------------------ *)
(** ** Projection                                                       *)
(* ------------------------------------------------------------------ *)

(** Columns whose fields lie in a row of [len] bytes. *)
Definition cols_in (len : Z) (cols : list ColMeta) : Prop :=
  Forall (λ c, 0 ≤ cm_offset c ∧ 0 ≤ cm_len c ∧ cm_offset c + cm_len c ≤ len) cols.

(** The field a name stands for. *)
Definition named_field (cols : list ColMeta) (t : row) (target : TabCol) : list Z :=
  match find_col_meta cols target with Ret c => field_of t c | Throw _ => [] end.
Definition project_row (cols : list ColMeta) (sel : list TabCol) (t : row) : row :=
  concat (named_field cols t <$> sel).

Lemma list_find_find {A} (P : A → Prop) `{∀ x, Decision (P x)} (p : A → bool) l i x : (∀ x, p x = bool_decide (P x)) →
  list_find P l = Some (i, x) → l !! i = Some x ∧ find p l = Some x.
Proof.
  intros Hp. revert i. induction l as [|y l IH]; intros i E; [done|]. simpl in *. rewrite Hp.
  destruct (decide (P y)) as [Hy|Hy].
  - injection E as <- <-. by rewrite bool_decide_eq_true_2.
  - rewrite bool_decide_eq_false_2 by done. destruct (list_find P l) as [[j z]|] eqn:E'; [|done].
    injection E as <- <-. by apply IH.
Qed.

Lemma get_col_idx_spec cols target i : get_col_idx cols target = Ret i →
  ∃ c, cols !! i = Some c ∧ find_col_meta cols target = Ret c.
Proof.
  unfold get_col_idx. destruct (list_find _ _) as [[j c]|] eqn:E; [|done]. intros [= <-]. exists c.
  unfold find_col_meta. apply (list_find_find _ (λ c, bool_decide (cm_tab_name c = tc_tab target) && bool_decide (cm_name c = tc_col target)))
    in E as [Hi Hf]; [|intros x; symmetry; apply bool_decide_and].
  split; [done|]. by rewrite Hf.
Qed.

Lemma find_col_elem cols target c : find_col_meta cols target = Ret c → c ∈ cols.
Proof.
  unfold find_col_meta. destruct (find _ cols) as [c'|] eqn:E; [|done]. intros [= <-].
  apply find_some in E as [Hin _]. by apply list_elem_of_In.
Qed.

Lemma length_field len cols t c : cols_in len cols → length t = Z.to_nat len → c ∈ cols →
  length (field_of t c) = Z.to_nat (cm_len c).
Proof.
  intros Hc Ht Hin. unfold cols_in in Hc. rewrite Forall_forall in Hc. specialize (Hc c Hin).
  unfold field_of. rewrite length_read_at; [done|]. lia.
Qed.

(** The columns of a projection and the copy loop over a row. *)
Lemma proj_fold len prev_cols t sel off idxs cols total pre :
  cols_in len prev_cols → length t = Z.to_nat len → 0 ≤ off → length pre = Z.to_nat off →
  proj_cols prev_cols off sel = Ret (idxs, cols, total) →
  off ≤ total ∧ length (project_row prev_cols sel t) = Z.to_nat (total - off) ∧
  fold_left (proj_step prev_cols t) (zip idxs cols) (Ret (pre ++ replicate (Z.to_nat (total - off)) 0)) =
    Ret (pre ++ project_row prev_cols sel t).
Proof.
  intros Hin Ht. revert off idxs cols pre. induction sel as [|s sel IH]; intros off idxs cols pre Hoff Hpre E; cbn [proj_cols] in E.
  - injection E as <- <- <-. split_and!; [lia|simpl; lia|]. simpl. by rewrite Z.sub_diag.
  - apply out_bind_ret_inv in E as (i & Hi & E). apply get_col_idx_spec in Hi as (c & Hi & Hf). rewrite Hi in E.
    cbn [deref of_option mbind outcome_bind] in E. apply out_bind_ret_inv in E as ([[idxs' cols'] total'] & E' & [= <- <- <-]).
    pose proof (find_col_elem _ _ _ Hf) as Hc. pose proof (length_field _ _ t c Hin Ht Hc) as Hlf.
    unfold cols_in in Hin. rewrite Forall_forall in Hin. pose proof (Hin c Hc) as (Ho & Hl & _).
    cbn [cm_len with_offset] in E'.
    assert (named_field prev_cols t s = field_of t c) as Hn by (unfold named_field; by rewrite Hf).
    destruct (IH (off + cm_len c) idxs' cols' (pre ++ field_of t c)) as (Hle & Hlen & Hfold);
      [lia|rewrite length_app; lia|done|].
    split_and!; [lia| |].
    + unfold project_row. cbn [fmap list_fmap concat]. rewrite Hn, length_app, Hlf.
      unfold project_row in Hlen. rewrite Hlen. lia.
    + cbn [zip zip_with fold_left]. unfold proj_step at 2. cbn [mbind outcome_bind fst snd]. rewrite Hi.
      cbn [deref of_option mbind outcome_bind cm_offset with_offset]. fold (field_of t c).
      replace (Z.to_nat (total' - off)) with (length (field_of t c) + Z.to_nat (total' - (off + cm_len c)))%nat by lia.
      unfold splice. rewrite replicate_add, <- Hpre, take_app_length, drop_app_add, drop_app_le
        by (rewrite length_replicate; lia). rewrite drop_ge by (rewrite length_replicate; lia). cbn [app].
      rewrite app_assoc, Hfold. unfold project_row. cbn [fmap list_fmap concat]. by rewrite Hn, app_assoc.
Qed.

Section ProjectionSpec.
Context {W E : Type} `{AbstractExecutor W E}.
Context (I : W → Prop) (cols : list ColMeta) (len : Z) (rows : list row) (n : nat) (ok : E → Prop) (at_ : E → list row → Prop).
Context (sel : list TabCol) (idxs : list nat) (pcols : list ColMeta) (plen : Z).
Hypotheses (Hsrc : source I cols len rows n ok at_) (Hin : cols_in len cols)
  (Hnew : proj_cols cols 0 sel = Ret (idxs, pcols, plen)).

Definition proj_static (e : ProjectionExecutor E) : Prop := pj_cols e = pcols ∧ pj_len e = plen ∧ sel_idxs e = idxs.
Definition proj_ok (e : ProjectionExecutor E) : Prop := proj_static e ∧ ok (pj_prev e).
Definition proj_at (e : ProjectionExecutor E) (l : list row) : Prop :=
  proj_static e ∧ ∃ l0, at_ (pj_prev e) l0 ∧ l = project_row cols sel <$> l0.

Lemma project_record_spec e t : proj_ok e → length t = Z.to_nat len → project_record e t = Ret (project_row cols sel t).
Proof using Hsrc Hin Hnew.
  intros [(Ec & El & Ei) Hok] Ht. unfold project_record. rewrite (src_cols _ _ _ _ _ _ _ Hsrc _ Hok), Ec, El, Ei.
  destruct (proj_fold len cols t sel 0 idxs pcols plen []) as (_ & _ & Hf); [done..|].
  by rewrite Z.sub_0_r in Hf.
Qed.

Lemma proj_source : source I pcols plen (project_row cols sel <$> rows) n proj_ok proj_at.
Proof using Hsrc Hin Hnew.
  split.
  - intros e w fuel [Hs Hok] Hw Hn. destruct (src_begin _ _ _ _ _ _ _ Hsrc _ w fuel Hok Hw Hn) as (p & w' & E1 & ? & ?).
    exists (set_pj_prev e p), w'. split_and!; [|done|by split; eauto]. simpl. by run E1.
  - intros e l (Hs & l0 & Ha & _). split; [done|]. by eapply src_ok.
  - intros e l w (Hs & l0 & Ha & ->) Hw. destruct (src_end _ _ _ _ _ _ _ Hsrc _ l0 w Ha Hw) as (w' & E1 & ?).
    exists w'. split; [|done]. simpl. rewrite E1. do 2 f_equal. by destruct l0.
  - intros e t l w (Hs & [|t0 l0] & Ha & El) Hw; [done|]. injection El as -> ->.
    destruct (src_end _ _ _ _ _ _ _ Hsrc _ _ w Ha Hw) as (w1 & E1 & Hw1).
    destruct (src_next _ _ _ _ _ _ _ Hsrc _ _ _ w1 Ha Hw1) as (w2 & E2 & Hw2). exists w2. split; [|done].
    simpl. run E1. rewrite bool_decide_eq_false_2 by done. run E2.
    rewrite (st_bind_ret (lift_outcome (deref (Some t0))) _ w2 t0 w2) by done.
    rewrite (st_bind_ret (lift_outcome _) _ w2 (project_row cols sel t0) w2); [done|].
    unfold lift_outcome. rewrite project_record_spec; [done|split; [done|by eapply src_ok]|].
    by apply (src_lengths _ _ _ _ _ _ _ Hsrc), Forall_cons in Ha as [? _].
  - intros e t l w fuel (Hs & [|t0 l0] & Ha & El) Hw Hn; [done|]. injection El as -> ->.
    destruct (src_step _ _ _ _ _ _ _ Hsrc _ _ _ w fuel Ha Hw Hn) as (p & w' & E1 & ? & ?).
    exists (set_pj_prev e p), w'. split_and!; [|done|by split; eauto]. simpl. by run E1.
  - intros e l (_ & l0 & Ha & ->). destruct (src_sub _ _ _ _ _ _ _ Hsrc _ _ Ha) as [l1 ->].
    exists (project_row cols sel <$> l1). by rewrite fmap_app.
  - by intros e [(? & ? & ?) _].
  - by intros e [(? & ? & ?) _].
  - apply Forall_fmap, Forall_forall. intros t Ht. pose proof (src_rows _ _ _ _ _ _ _ Hsrc) as Hr. rewrite Forall_forall in Hr.
    destruct (proj_fold len cols t sel 0 idxs pcols plen [] Hin (Hr t Ht)) as (_ & Hl & _); [done..|].
    simpl. by rewrite Hl, Z.sub_0_r.
  - destruct (proj_fold len cols (replicate (Z.to_nat len) 0) sel 0 idxs pcols plen [] Hin) as (Hl & _ & _);
      [by rewrite length_replicate|done..].
Qed.

End ProjectionSpec.

(* ------------------------------------------------------------------ *)
(** ** Sort                                                             *)
(* ------------------------------------------------------------------ *)

(** The comparison without errors. *)
Definition row_less (keys : list (SortKey * ColMeta)) (a b : row) : bool :=
  match sort_less keys a b with Ret r => r | Throw _ => false end.
Fixpoint insert_row {A} (lt : A → A → bool) (x : A) (l : list A) : list A :=
  match l with
  | [] => [x]
  | y :: l' => if lt y x then y :: insert_row lt x l' else x :: y :: l'
  end.
Definition sort_rows {A} (lt : A → A → bool) (l : list A) : list A := foldr (insert_row lt) [] l.

Lemma sort_less_eval keys a b : sort_less keys a b = Ret (row_less keys a b).
Proof.
  unfold row_less. induction keys as [|[k c] keys IH]; [done|]. cbn [sort_less]. rewrite compare_raw_field. cbn [mbind outcome_bind].
  destruct (_ =? 0); [|done]. destruct (sort_less keys a b); [done|done].
Qed.

Lemma stable_sort_eval keys l : stable_sort (sort_less keys) l = Ret (sort_rows (row_less keys) l).
Proof.
  assert (∀ x l', stable_insert (sort_less keys) x l' = Ret (insert_row (row_less keys) x l')) as Hi.
  { intros x. induction l' as [|y l' IH]; [done|]. cbn [stable_insert insert_row]. rewrite sort_less_eval. cbn [mbind outcome_bind].
    destruct (row_less keys y x); [|done]. by rewrite IH. }
  induction l as [|x l IH]; [done|]. cbn [stable_sort]. rewrite IH. cbn [mbind outcome_bind]. by rewrite Hi.
Qed.

Lemma insert_row_perm {A} (lt : A → A → bool) x l : insert_row lt x l ≡ₚ x :: l.
Proof. induction l as [|y l IH]; [done|]. simpl. destruct (lt y x); [|done]. by rewrite IH, Permutation_swap. Qed.
Lemma sort_rows_perm {A} (lt : A → A → bool) l : sort_rows lt l ≡ₚ l.
Proof. induction l as [|x l IH]; [done|]. simpl. by rewrite insert_row_perm, IH. Qed.

Section SortSpec.
Context {W E : Type} `{AbstractExecutor W E}.
Context (I : W → Prop) (cols : list ColMeta) (len : Z) (rows : list row) (n : nat) (ok : E → Prop) (at_ : E → list row → Prop).
Context (keys : list SortKey) (key_cols : list ColMeta) (limit : Z).
Hypothesis (Hsrc : source I cols len rows n ok at_).

Definition sorted_rows : list row :=
  cut_limit limit (if bool_decide (keys = []) then rows else sort_rows (row_less (zip keys key_cols)) rows).
Definition sort_ok (e : SortExecutor E) : Prop :=
  ok (so_prev e) ∧ sort_keys_ e = keys ∧ sort_cols_ e = key_cols ∧ limit_ e = limit.
Definition sort_at (e : SortExecutor E) (l : list row) : Prop :=
  sort_ok e ∧ records_ e = sorted_rows ∧ 0 ≤ cursor_ e ∧ l = drop (Z.to_nat (cursor_ e)) sorted_rows.

Lemma cut_limit_sub {A} k (l : list A) : ∃ l', l = cut_limit k l ++ l'.
Proof. unfold cut_limit. destruct (_ && _); [exists (drop (Z.to_nat k) l); by rewrite take_drop|exists []; by rewrite app_nil_r]. Qed.

Lemma sort_at_step e t l : sort_at e (t :: l) → sort_at_end e = false ∧ sorted_rows !! Z.to_nat (cursor_ e) = Some t ∧
  l = drop (Z.to_nat (cursor_ e + 1)) sorted_rows.
Proof.
  intros (_ & Er & Hc & El). assert (sorted_rows !! Z.to_nat (cursor_ e) = Some t) as Hl.
  { rewrite <- (Nat.add_0_r (Z.to_nat _)), <- lookup_drop, <- El. done. }
  split_and!; [|done|].
  - unfold sort_at_end. rewrite Er. apply lookup_lt_Some in Hl. apply Z.leb_gt. lia.
  - rewrite (drop_S _ _ _ Hl) in El. injection El as ->. f_equal. lia.
Qed.

Lemma sort_source : source I cols len sorted_rows (Nat.max n (length rows)) sort_ok sort_at.
Proof using Hsrc.
  split.
  - intros e w fuel (Hok & Hk & Hc & Hl) Hw Hn.
    destruct (src_begin _ _ _ _ _ _ _ Hsrc _ w fuel Hok Hw ltac:(lia)) as (p & w1 & E1 & Hw1 & Ha1).
    destruct (drain_spec I cols len rows n ok at_ Hsrc fuel fuel p rows w1 Ha1 Hw1 ltac:(lia) ltac:(lia)) as (p2 & w2 & E2 & Hw2 & Hok2).
    exists (mkSort p2 keys key_cols sorted_rows 0 limit), w2. split_and!; [|done|by split_and!].
    simpl. unfold sort_beginTuple. run E1. run E2. rewrite Hk, Hc, Hl.
    rewrite (st_bind_ret (lift_outcome _) _ w2
      (if bool_decide (keys = []) then rows else sort_rows (row_less (zip keys key_cols)) rows) w2); [done|].
    unfold lift_outcome. rewrite stable_sort_eval. by case_bool_decide.
  - by intros e l (? & _).
  - intros e l w (_ & Er & Hc & ->) Hw. exists w. split; [|done]. simpl. unfold sort_at_end. rewrite Er.
    do 2 f_equal. destruct (Z.leb_spec (Z.of_nat (length sorted_rows)) (cursor_ e)).
    + rewrite drop_ge by lia. by rewrite bool_decide_eq_true_2.
    + rewrite bool_decide_eq_false_2; [done|]. intros E0. apply (f_equal length) in E0. rewrite length_drop in E0. simpl in E0. lia.
  - intros e t l w Ha Hw. pose proof (proj1 (proj2 Ha)) as Er. apply sort_at_step in Ha as (Hend & Hl & _). exists w. split; [|done].
    simpl. rewrite Hend, Er, Hl. done.
  - intros e t l w fuel Ha Hw _. pose proof Ha as ((Hok & Hk & Hc & Hl) & Er & Hcur & _).
    apply sort_at_step in Ha as (Hend & _ & ->). eexists _, w. split_and!; [simpl; by rewrite Hend|done|].
    split_and!; try done; simpl; lia.
  - intros e l (_ & _ & _ & ->). exists (take (Z.to_nat (cursor_ e)) sorted_rows). by rewrite take_drop.
  - intros e (Hok & _). by eapply (src_cols _ _ _ _ _ _ _ Hsrc).
  - intros e (Hok & _). by eapply (src_len _ _ _ _ _ _ _ Hsrc).
  - destruct (cut_limit_sub limit (if bool_decide (keys = []) then rows else sort_rows (row_less (zip keys key_cols)) rows))
      as [l' El]. fold sorted_rows in El. pose proof (src_rows _ _ _ _ _ _ _ Hsrc) as Hr.
    assert (Forall (λ t, length t = Z.to_nat len) (sorted_rows ++ l')) as Hf; [|by apply Forall_app in Hf as [? _]].
    rewrite <- El. case_bool_decide; [done|]. by rewrite sort_rows_perm.
  - by apply (src_pos _ _ _ _ _ _ _ Hsrc).
Qed.

End SortSpec.

(* ------------------------------------------------------------------ *)
(** ** What sorting means                                               *)
(* ------------------------------------------------------------------ *)

Lemma StronglySorted_weaken {A} (P Q : relation A) l : (∀ a b, P a b → Q a b) → StronglySorted P l → StronglySorted Q l.
Proof. intros HPQ. induction 1 as [|x l _ IH Hx]; constructor; [done|]. eapply Forall_impl; [exact Hx|]. auto. Qed.

(** A strict weak order, as std::stable_sort asks for: [lt b a = false] is a total
    preorder on the elements of a set. *)
Record weak_order {A} (P : A → Prop) (lt : A → A → bool) : Prop := {
  wo_asym a b : lt a b = true → lt b a = false;
  wo_trans a b c : P a → P b → P c → lt b a = false → lt c b = false → lt c a = false
}.

Section StableSort.
Context {A : Type} (P : A → Prop) (lt : A → A → bool).
Hypothesis Hwo : weak_order P lt.
Implicit Types l : list A.

Definition not_after (a b : A) : Prop := lt b a = false.
Definition same_key (x y : A) : bool := negb (lt x y) && negb (lt y x).

Lemma insert_row_sorted x l : P x → Forall P l → StronglySorted not_after l → StronglySorted not_after (insert_row lt x l).
Proof using Hwo.
  intros Hx. induction l as [|y l IH]; intros Hl Hs; simpl; [by repeat constructor|].
  apply Forall_cons in Hl as [Hy Hl]. apply StronglySorted_inv in Hs as [Hs Hall]. destruct (lt y x) eqn:Eyx.
  - constructor; [by apply IH|]. rewrite insert_row_perm. constructor; [|done]. by apply (wo_asym _ _ Hwo).
  - constructor; [by constructor|]. constructor; [exact Eyx|]. rewrite Forall_forall in Hall, Hl |- *.
    intros z Hz. apply (wo_trans _ _ Hwo x y z); auto. by apply Hall.
Qed.

Lemma sort_rows_sorted l : Forall P l → StronglySorted not_after (sort_rows lt l).
Proof using Hwo.
  induction l as [|x l IH]; intros Hl; [by constructor|]. apply Forall_cons in Hl as [Hx Hl].
  simpl. apply insert_row_sorted; [done|by rewrite sort_rows_perm|auto].
Qed.

Lemma insert_row_stable z x l : P z → P x → Forall P l →
  filter (λ y, same_key z y = true) (insert_row lt x l) = filter (λ y, same_key z y = true) (x :: l).
Proof using Hwo.
  intros Hz Hx. induction l as [|y l IH]; intros Hl; [done|]. apply Forall_cons in Hl as [Hy Hl]. cbn [insert_row].
  destruct (lt y x) eqn:Eyx; [|done]. rewrite filter_cons, IH by done. rewrite !filter_cons.
  destruct (decide (same_key z y = true)) as [Hky|]; [|done]. destruct (decide (same_key z x = true)) as [Hkx|]; [|done].
  unfold same_key in Hky, Hkx. apply andb_true_iff in Hky as [H1 H2], Hkx as [H3 H4].
  apply negb_true_iff in H1, H2, H3, H4. pose proof (wo_trans _ _ Hwo x z y Hx Hz Hy H3 H2). congruence.
Qed.

(** Rows with the same key keep their order. *)
Lemma sort_rows_stable z l : P z → Forall P l →
  filter (λ y, same_key z y = true) (sort_rows lt l) = filter (λ y, same_key z y = true) l.
Proof using Hwo.
  intros Hz. induction l as [|x l IH]; intros Hl; [done|]. apply Forall_cons in Hl as [Hx Hl]. simpl sort_rows.
  rewrite insert_row_stable; [|done|done|by rewrite sort_rows_perm]. rewrite !filter_cons, IH by done. done.
Qed.
End StableSort.

(** The keys of a row are no NaNs. *)
Definition keys_ok (keys : list (SortKey * ColMeta)) (t : row) : Prop :=
  Forall (λ k, not_nan (cm_type k.2) (drop (Z.to_nat (cm_offset k.2)) t)) keys.

(** The comparison as a lexicographic three-way result. *)
Fixpoint row_cmp (keys : list (SortKey * ColMeta)) (a b : row) : Z :=
  match keys with
  | [] => 0
  | (k, c) :: keys' =>
      let x := field_cmp (cm_type c) (cm_len c) (drop (Z.to_nat (cm_offset c)) a) (drop (Z.to_nat (cm_offset c)) b) in
      if x =? 0 then row_cmp keys' a b else if is_desc k then - x else x
  end.

Lemma row_less_cmp keys a b : row_less keys a b = (row_cmp keys a b <? 0).
Proof.
  induction keys as [|[k c] keys IH]; [done|]. unfold row_less in *. cbn [sort_less row_cmp]. rewrite compare_raw_field.
  cbn [mbind outcome_bind]. destruct (_ =? 0) eqn:Ex; [exact IH|].
  destruct (is_desc k); [|done]. destruct (Z.ltb_spec 0 (field_cmp (cm_type c) (cm_len c) (drop (Z.to_nat (cm_offset c)) a) (drop (Z.to_nat (cm_offset c)) b)));
    symmetry; [apply Z.ltb_lt|apply Z.ltb_ge]; lia.
Qed.

Lemma row_cmp_antisym keys a b : row_cmp keys b a = - row_cmp keys a b.
Proof.
  induction keys as [|[k c] keys IH]; [done|]. cbn [row_cmp]. rewrite field_cmp_antisym, IH.
  destruct (Z.eqb_spec (field_cmp (cm_type c) (cm_len c) (drop (Z.to_nat (cm_offset c)) a) (drop (Z.to_nat (cm_offset c)) b)) 0) as [->|Hne]; [done|].
  rewrite (proj2 (Z.eqb_neq _ _)) by lia. destruct (is_desc k); lia.
Qed.

Lemma row_cmp_trans keys a b c : keys_ok keys a → keys_ok keys b → keys_ok keys c →
  row_cmp keys a b ≤ 0 → row_cmp keys b c ≤ 0 → row_cmp keys a c ≤ 0.
Proof.
  induction keys as [|[k col] keys IH]; intros Ha Hb Hc; [done|]. unfold keys_ok in Ha, Hb, Hc. rewrite Forall_cons in Ha, Hb, Hc.
  destruct Ha as [Na Ha], Hb as [Nb Hb], Hc as [Nc Hc]. specialize (IH Ha Hb Hc). cbn [row_cmp snd] in *.
  set (f x y := field_cmp (cm_type col) (cm_len col) (drop (Z.to_nat (cm_offset col)) x) (drop (Z.to_nat (cm_offset col)) y)).
  fold (f a b) (f b c) (f a c).
  assert (∀ x y, f y x = - f x y) as Hanti by (intros; apply field_cmp_antisym).
  assert (f a b ≤ 0 → f b c ≤ 0 → f a c ≤ 0) as T1 by (by apply field_cmp_trans).
  assert (f b c ≤ 0 → f c a ≤ 0 → f b a ≤ 0) as T2 by (by apply field_cmp_trans).
  assert (f c a ≤ 0 → f a b ≤ 0 → f c b ≤ 0) as T3 by (by apply field_cmp_trans).
  assert (f c b ≤ 0 → f b a ≤ 0 → f c a ≤ 0) as T4 by (by apply field_cmp_trans).
  assert (f a c ≤ 0 → f c b ≤ 0 → f a b ≤ 0) as T5 by (by apply field_cmp_trans).
  assert (f b a ≤ 0 → f a c ≤ 0 → f b c ≤ 0) as T6 by (by apply field_cmp_trans).
  rewrite (Hanti a b), (Hanti b c), (Hanti a c) in *.
  destruct (Z.eqb_spec (f a b) 0) as [E1|N1], (Z.eqb_spec (f b c) 0) as [E2|N2], (Z.eqb_spec (f a c) 0) as [E3|N3];
    destruct (is_desc k); intros; try lia; auto.
Qed.

Lemma row_less_weak keys : weak_order (keys_ok keys) (row_less keys).
Proof.
  split.
  - intros a b Hab. rewrite row_less_cmp in *. rewrite row_cmp_antisym. apply Z.ltb_lt in Hab. apply Z.ltb_ge. lia.
  - intros a b c Ha Hb Hc H1 H2. rewrite row_less_cmp in *. rewrite row_cmp_antisym in *. apply Z.ltb_ge in H1, H2. apply Z.ltb_ge.
    pose proof (row_cmp_trans keys a b c Ha Hb Hc). lia.
Qed.

(* ------------------------------------------------------------------ *)
(** ** Aggregates                                                       *)
(* ------------------------------------------------------------------ *)

(** SUM has a numeric column: then no tuple makes an aggregate fail. *)
Definition agg_ok (agg : AggregateExpr) (source_col : ColMeta) : Prop :=
  agg_type agg = AGG_SUM → is_numeric_type (cm_type source_col) = true.

Definition agg_next (agg : AggregateExpr) (source_col : ColMeta) (v : AggValue) (t : row) : AggValue :=
  match agg_step t agg source_col v with Ret v' => v' | Throw _ => v end.
Definition agg_value (rows : list row) (agg : AggregateExpr) (source_col : ColMeta) : AggValue :=
  fold_left (agg_next agg source_col) rows agg_zero.

Lemma agg_step_eval t agg c v : agg_ok agg c → agg_step t agg c v = Ret (agg_next agg c v t).
Proof.
  intros Hok. unfold agg_next, agg_ok, agg_step in *. destruct (agg_type agg); [done|..].
  - destruct (negb _); [done|]. rewrite compare_raw_field. cbn [mbind outcome_bind]. by destruct (_ || _).
  - destruct (negb _); [done|]. rewrite compare_raw_field. cbn [mbind outcome_bind]. by destruct (_ || _).
  - specialize (Hok eq_refl). by destruct (cm_type c).
Qed.

Lemma agg_tuple_eval t aggs sources vs : Forall2 agg_ok aggs sources → length vs = length aggs →
  agg_tuple t aggs sources vs = Ret (zip_with (λ ac v, agg_next ac.1 ac.2 v t) (zip aggs sources) vs).
Proof.
  intros Hok. revert vs. induction Hok as [|agg c aggs sources Ha _ IH]; intros [|v vs] Hl; simpl in *; try done.
  rewrite agg_step_eval by done. cbn [mbind outcome_bind]. by rewrite IH by lia.
Qed.

(** The result row: the values side by side. *)
Definition agg_row (rows : list row) (aggs : list AggregateExpr) (sources : list ColMeta) : row :=
  concat (zip_with (λ agg c, agg_bytes agg (mkColMeta "" "" (agg_out_type agg c).1 (agg_out_type agg c).2 0 false)
                               (agg_value rows agg c)) aggs sources).

Lemma agg_bytes_same agg c1 c2 v : cm_type c1 = cm_type c2 → cm_len c1 = cm_len c2 → agg_bytes agg c1 v = agg_bytes agg c2 v.
Proof. intros Et El. unfold agg_bytes. by rewrite Et, El. Qed.

Lemma best_value_length agg c len rows : 0 ≤ cm_offset c → 0 ≤ cm_len c → cm_offset c + cm_len c ≤ len →
  Forall (λ t, length t = Z.to_nat len) rows → (agg_type agg = AGG_MAX ∨ agg_type agg = AGG_MIN) →
  initialized (agg_value rows agg c) = true → length (best_value (agg_value rows agg c)) = Z.to_nat (cm_len c).
Proof.
  intros Ho Hl Hin Hr Ht. unfold agg_value.
  assert (∀ v, (initialized v = true → length (best_value v) = Z.to_nat (cm_len c)) →
    initialized (fold_left (agg_next agg c) rows v) = true → length (best_value (fold_left (agg_next agg c) rows v)) = Z.to_nat (cm_len c)) as Hg;
    [|by apply Hg].
  induction Hr as [|t rows Ht0 _ IH]; intros v Hv; [done|]. apply IH. clear IH.
  assert (length (take (Z.to_nat (cm_len c)) (drop (Z.to_nat (cm_offset c)) t)) = Z.to_nat (cm_len c)) as Hb
    by (rewrite length_take, length_drop; lia).
  unfold agg_next, agg_step. destruct Ht as [-> | ->]; (destruct (initialized v) eqn:Ei; cbn [negb]; [|done]);
    rewrite compare_raw_field; cbn [mbind outcome_bind]; destruct (_ || _); simpl; auto.
Qed.

Lemma length_agg_bytes agg c len rows : (is_count_star agg = false → 0 ≤ cm_offset c ∧ 0 ≤ cm_len c ∧ cm_offset c + cm_len c ≤ len) →
  (is_count_star agg = true → agg_type agg = AGG_COUNT) → Forall (λ t, length t = Z.to_nat len) rows →
  let out := agg_out_type agg c in
  length (agg_bytes agg (mkColMeta "" "" out.1 out.2 0 false) (agg_value rows agg c)) = Z.to_nat out.2 ∧ 0 ≤ out.2.
Proof.
  intros Hc Hs Hr. unfold agg_bytes, agg_out_type. pose proof (best_value_length agg c len rows) as Hb.
  destruct (agg_type agg) eqn:Et; [cbn [fst snd cm_type cm_len]..|].
  - by rewrite length_le_bytes.
  - destruct (is_count_star agg) eqn:Es; [by specialize (Hs eq_refl)|]. destruct (Hc eq_refl) as (? & ? & ?).
    destruct (initialized _) eqn:Ei; [|by rewrite length_replicate]. rewrite length_take, Hb by auto. split; lia.
  - destruct (is_count_star agg) eqn:Es; [by specialize (Hs eq_refl)|]. destruct (Hc eq_refl) as (? & ? & ?).
    destruct (initialized _) eqn:Ei; [|by rewrite length_replicate]. rewrite length_take, Hb by auto. split; lia.
  - destruct (bool_decide (cm_type c = TYPE_FLOAT)); cbn [fst snd cm_type];
      [rewrite bool_decide_eq_true_2 by done|rewrite bool_decide_eq_false_2 by done]; by rewrite length_le_bytes.
Qed.

Lemma zip_with_second {A B C} (xs : list A) (ys : list B) (Hl : length xs = length ys) (vs : list C) :
  length vs = length xs → zip_with (λ _ v, v) (zip xs ys) vs = vs.
Proof.
  revert ys vs Hl. induction xs as [|x xs IH]; intros [|y ys] [|v vs] Hl Hv; simpl in *; try lia; [done..|]. by rewrite IH by lia.
Qed.

Lemma zip_with_zeros rows aggs sources : length aggs = length sources →
  zip_with (λ ac v, fold_left (agg_next ac.1 ac.2) rows v) (zip aggs sources) (replicate (length aggs) agg_zero) =
  zip_with (agg_value rows) aggs sources.
Proof.
  revert sources. induction aggs as [|a aggs IH]; intros [|c sources] Hl; simpl in *; try lia; [done|]. by rewrite IH by lia.
Qed.

Section AggregateSpec.
Context {W E : Type} `{AbstractExecutor W E}.
Context (I : W → Prop) (cols : list ColMeta) (len : Z) (rows : list row) (n : nat) (ok : E → Prop) (at_ : E → list row → Prop).
Context (aggs : list AggregateExpr) (acols sources : list ColMeta) (alen : Z).
Hypotheses (Hsrc : source I cols len rows n ok at_) (Hin : cols_in len cols) (Hok : Forall2 agg_ok aggs sources).
Hypothesis (Hstar : Forall (λ a, is_count_star a = true → agg_type a = AGG_COUNT) aggs).
Hypothesis (Hnew : agg_cols cols 0 aggs = Ret (acols, sources, alen)).

(** What the constructor computes, and how the result row is put together. *)
Lemma agg_fold off aggs' acols' sources' total pre : 0 ≤ off → length pre = Z.to_nat off →
  Forall (λ a, is_count_star a = true → agg_type a = AGG_COUNT) aggs' →
  agg_cols cols off aggs' = Ret (acols', sources', total) →
  off ≤ total ∧ length (agg_row rows aggs' sources') = Z.to_nat (total - off) ∧
  length acols' = length aggs' ∧ length sources' = length aggs' ∧
  fold_left agg_write (zip (zip aggs' acols') (zip_with (agg_value rows) aggs' sources'))
    (pre ++ replicate (Z.to_nat (total - off)) 0) = pre ++ agg_row rows aggs' sources'.
Proof using Hsrc Hin.
  revert off acols' sources' pre. induction aggs' as [|agg aggs' IH]; intros off acols' sources' pre Hoff Hpre Hst E0;
    cbn [agg_cols] in E0.
  { injection E0 as <- <- <-. split_and!; [lia|simpl; lia|done|done|]. simpl. by rewrite Z.sub_diag. }
  apply Forall_cons in Hst as [Hs Hst]. apply out_bind_ret_inv in E0 as (c & Hc & E0).
  destruct (agg_out_type agg c) as [ty l] eqn:Eo. apply out_bind_ret_inv in E0 as ([[acols2 sources2] total2] & E2 & [= <- <- <-]).
  pose proof (length_agg_bytes agg c len rows) as Hlen. rewrite Eo in Hlen. cbn [fst snd] in Hlen.
  destruct Hlen as [Hlen Hl0]; [|done|apply Hsrc|].
  { intros Ecs. rewrite Ecs in Hc. apply find_col_elem in Hc.
    unfold cols_in in Hin. rewrite Forall_forall in Hin. by apply Hin. }
  set (bytes := agg_bytes agg _ _) in Hlen.
  destruct (IH (off + l) acols2 sources2 (pre ++ bytes)) as (Hle & Hrow & Hla & Hls & Hf);
    [lia|rewrite length_app; lia|done|done|].
  assert (agg_row rows (agg :: aggs') (c :: sources2) = bytes ++ agg_row rows aggs' sources2) as Er.
  { unfold agg_row. cbn [zip_with concat]. by rewrite Eo. }
  rewrite Er. split_and!; [lia|rewrite length_app; lia|simpl; lia|simpl; lia|].
  cbn [zip zip_with fold_left]. unfold agg_write at 2. cbn [cm_offset].
  rewrite (agg_bytes_same agg _ (mkColMeta "" "" ty l 0 false)) by done. fold bytes.
  replace (Z.to_nat (total2 - off)) with (length bytes + Z.to_nat (total2 - (off + l)))%nat by lia.
  unfold splice. rewrite replicate_add, <- Hpre, take_app_length, drop_app_add, drop_app_le by (rewrite length_replicate; lia).
  rewrite drop_ge by (rewrite length_replicate; lia). cbn [app]. rewrite !app_assoc in *. exact Hf.
Qed.

Definition agg_exec_ok (e : AggregateExecutor E) : Prop :=
  ok (ag_prev e) ∧ aggregates_ e = aggs ∧ ag_cols e = acols ∧ source_cols_ e = sources ∧ ag_len e = alen.
Definition agg_exec_at (e : AggregateExecutor E) (l : list row) : Prop :=
  agg_exec_ok e ∧ result_ e = Some (agg_row rows aggs sources) ∧
  l = if is_end_ e then [] else [agg_row rows aggs sources].

Lemma agg_loop_spec fuel turns e p l w vs : aggregates_ e = aggs → source_cols_ e = sources → at_ p l → I w → (n ≤ fuel)%nat →
  (length l ≤ turns)%nat → length vs = length aggs →
  ∃ p' w', agg_loop fuel turns e vs p w =
      (Ret (zip_with (λ ac v, fold_left (agg_next ac.1 ac.2) l v) (zip aggs sources) vs, p'), w') ∧ I w' ∧ ok p'.
Proof using Hsrc Hok.
  intros Ea Es Hp Hw Hf. pose proof (Forall2_length _ _ _ Hok) as Hls. revert p l w vs Hp Hw. induction turns as [|k IH]; intros p l w vs Hp Hw Hl Hv;
    destruct (src_end _ _ _ _ _ _ _ Hsrc p l w Hp Hw) as (w1 & E1 & Hw1); cbn [agg_loop]; run E1.
  - destruct l; [|simpl in Hl; lia]. exists p, w1. split_and!; [|done|by eapply src_ok]. simpl. by rewrite (zip_with_second _ _ Hls).
  - destruct l as [|t l].
    { exists p, w1. split_and!; [|done|by eapply src_ok]. simpl. by rewrite (zip_with_second _ _ Hls). }
    rewrite bool_decide_eq_false_2 by done.
    destruct (src_next _ _ _ _ _ _ _ Hsrc p t l w1 Hp Hw1) as (w2 & E2 & Hw2). run E2.
    rewrite (st_bind_ret (lift_outcome (deref (Some t))) _ w2 t w2) by done.
    rewrite Ea, Es, agg_tuple_eval by done. set (vs1 := zip_with _ _ vs).
    rewrite (st_bind_ret (lift_outcome (Ret vs1)) _ w2 vs1 w2) by done.
    destruct (src_step _ _ _ _ _ _ _ Hsrc p t l w2 fuel Hp Hw2 Hf) as (p3 & w3 & E3 & Hw3 & Hp3). run E3.
    assert (length vs1 = length aggs) as Hv1.
    { unfold vs1. rewrite length_zip_with, length_zip_with, <- (Forall2_length _ _ _ Hok). lia. }
    destruct (IH p3 l w3 vs1 Hp3 Hw3 ltac:(simpl in Hl; lia) Hv1) as (p4 & w4 & E4 & Hw4 & Hp4).
    exists p4, w4. split_and!; [|done|done]. rewrite E4. unfold vs1. cbn [fold_left].
    assert (∀ (acs : list (AggregateExpr * ColMeta)) vs, zip_with (λ ac v, fold_left (agg_next ac.1 ac.2) l v) acs
              (zip_with (λ ac v, agg_next ac.1 ac.2 v t) acs vs) =
            zip_with (λ ac v, fold_left (agg_next ac.1 ac.2) l (agg_next ac.1 ac.2 v t)) acs vs) as Ez; [|by rewrite Ez].
    clear. induction acs as [|ac acs IH]; intros [|v vs]; try done. cbn [zip_with]. by rewrite IH.
Qed.

Lemma agg_source : source I acols alen [agg_row rows aggs sources] (Nat.max n (length rows)) agg_exec_ok agg_exec_at.
Proof using Hsrc Hin Hok Hstar Hnew.
  destruct (agg_fold 0 aggs acols sources alen []) as (Hal & Hrow & Hla & Hls & Hf); [done..|]. rewrite Z.sub_0_r in *.
  cbn [app] in Hf. split.
  - intros e w fuel (Hp & Ea & Ec & Es & El) Hw Hn.
    destruct (src_begin _ _ _ _ _ _ _ Hsrc _ w fuel Hp Hw ltac:(lia)) as (p & w1 & E1 & Hw1 & Ha1).
    destruct (agg_loop_spec fuel fuel e p rows w1 (replicate (length aggs) agg_zero)) as (p2 & w2 & E2 & Hw2 & Hp2);
      [done|done|done|done|lia|lia|by rewrite length_replicate|].
    assert (zip_with (λ ac v, fold_left (agg_next ac.1 ac.2) rows v) (zip aggs sources) (replicate (length aggs) agg_zero) =
            zip_with (agg_value rows) aggs sources) as Ez.
    { by apply zip_with_zeros. }
    exists (mkAggregate p2 aggs acols sources alen false (Some (agg_row rows aggs sources))), w2.
    split_and!; [|done|by split_and!]. simpl. unfold agg_beginTuple. run E1. rewrite Ea. run E2. rewrite Ec, Es, El, Ez.
    unfold agg_record. by rewrite Hf.
  - by intros e l (? & _).
  - intros e l w (_ & _ & ->) Hw. exists w. split; [|done]. simpl. by destruct (is_end_ e).
  - intros e t l w (_ & Er & El) Hw. exists w. split; [|done]. simpl. destruct (is_end_ e); [done|]. injection El as -> ->.
    by rewrite Er.
  - intros e t l w fuel (Hx & Er & El) Hw _. eexists _, w. split_and!; [done|done|]. destruct (is_end_ e); [done|].
    injection El as _ ->. by split_and!.
  - intros e l (_ & _ & ->). destruct (is_end_ e); [by eexists; rewrite app_nil_r|by exists []].
  - by intros e (_ & _ & ? & _).
  - by intros e (_ & _ & _ & _ & ?).
  - constructor; [|done]. exact Hrow.
  - done.
Qed.

End AggregateSpec.

(* ------------------------------------------------------------------ *)
(** ** What aggregates mean                                             *)
(* ------------------------------------------------------------------ *)

(** Integers add up exactly as long as the sum has 64 bits. *)
Lemma ld_add_int a b : Z.abs (a + b) < 2 ^ 64 → ld_add (int_to_ld a) (int_to_ld b) = int_to_ld (a + b).
Proof.
  intros Hs. unfold int_to_ld, ld_add. cbn [Z.min Z.compare Z.sub Z.pow Z.pos_sub Z.add Z.opp].
  change (0 - 0) with 0. rewrite Z.pow_0_r, !Z.mul_1_r. unfold round_ne.
  assert (Z.log2 (Z.abs (a + b)) < 64 ∨ a + b = 0) as Hl.
  { destruct (Z.eq_dec (a + b) 0) as [|Hne]; [by right|left]. apply Z.log2_lt_pow2; lia. }
  assert (Z.log2 (Z.abs (a + b)) + 1 - 64 ≤ 0) as Hk by (destruct Hl as [|Hz]; [lia|rewrite Hz; simpl; lia]).
  rewrite (proj2 (Z.leb_le _ _)) by lia. done.
Qed.

(** The numbers of an integer column. *)
Definition int_field (c : ColMeta) (t : row) : Z := load_integral (cm_type c) (drop (Z.to_nat (cm_offset c)) t).
Definition sum_list_Z (l : list Z) : Z := foldr Z.add 0 l.

Lemma agg_next_sum agg c v t : agg_type agg = AGG_SUM → is_integral_type (cm_type c) = true →
  agg_next agg c v t = mkAggValue (count_value v) (ld_add (numeric_sum v) (int_to_ld (int_field c t))) (best_value v) (initialized v).
Proof. intros Et Ec. unfold agg_next, agg_step, int_field, load_integral. rewrite Et. by destruct (cm_type c). Qed.

Lemma agg_sum_exact agg c rows : agg_type agg = AGG_SUM → is_integral_type (cm_type c) = true →
  (∀ k, is_int64 (sum_list_Z (int_field c <$> take k rows))) →
  numeric_sum (agg_value rows agg c) = int_to_ld (sum_list_Z (int_field c <$> rows)).
Proof.
  intros Et Ec. unfold agg_value. induction rows as [|t rows IH] using rev_ind; intros Hb; [done|].
  rewrite fold_left_app. cbn [fold_left]. rewrite agg_next_sum by done. cbn [numeric_sum].
  assert (∀ k, is_int64 (sum_list_Z (int_field c <$> take k rows))) as Hb1.
  { intros k. specialize (Hb (Nat.min k (length rows))). rewrite take_app_le in Hb by lia.
    destruct (Nat.le_gt_cases k (length rows)); [by rewrite Nat.min_l in Hb|].
    rewrite Nat.min_r in Hb by lia. rewrite take_ge by lia. by rewrite firstn_all in Hb. }
  rewrite IH by done.
  assert (∀ l x, sum_list_Z (l ++ [x]) = sum_list_Z l + x) as Hs.
  { clear. intros l x. induction l as [|y l IH]; simpl; [lia|]. unfold sum_list_Z in *. simpl. rewrite IH. lia. }
  specialize (Hb (length (rows ++ [t]))). rewrite firstn_all in Hb. rewrite fmap_app in *. cbn [fmap list_fmap] in *.
  rewrite Hs in *. apply ld_add_int. unfold is_int64, int64_min, int64_max in Hb. lia.
Qed.

Lemma agg_count_exact agg c rows : agg_type agg = AGG_COUNT → Z.of_nat (length rows) ≤ int64_max →
  count_value (agg_value rows agg c) = Z.of_nat (length rows).
Proof.
  intros Et. unfold agg_value. induction rows as [|t rows IH] using rev_ind; intros Hb; [done|].
  rewrite fold_left_app. cbn [fold_left]. rewrite length_app in *. cbn [length] in *. unfold agg_next at 1, agg_step. rewrite Et.
  cbn [count_value]. rewrite IH by lia. rewrite wrap_s_small; [lia|lia|]. unfold int64_max in Hb. lia.
Qed.

(** [x] is not worse than [y] for MAX or MIN. *)
Definition agg_better (agg : AggregateExpr) (c : ColMeta) (x y : list Z) : Prop :=
  let cmp := field_cmp (cm_type c) (cm_len c) x y in if bool_decide (agg_type agg = AGG_MAX) then 0 ≤ cmp else cmp ≤ 0.

(** A column as wide as its type. *)
Definition width_ok (c : ColMeta) : Prop :=
  match cm_type c with
  | TYPE_INT | TYPE_FLOAT => cm_len c = 4
  | TYPE_BIGINT | TYPE_DATETIME => cm_len c = 8
  | TYPE_STRING => 0 ≤ cm_len c
  end.

Lemma memcmp_take n p q : memcmp n (take n p) q = memcmp n p q.
Proof.
  revert p q. induction n as [|n IH]; intros [|x p] q; try done. cbn [take memcmp nth tl].
  by rewrite IH.
Qed.
Lemma field_cmp_take c p q : width_ok c →
  field_cmp (cm_type c) (cm_len c) (take (Z.to_nat (cm_len c)) p) q = field_cmp (cm_type c) (cm_len c) p q.
Proof.
  unfold width_ok, field_cmp, load_i32, load_i64, load_u32, le_int, le_uint. rewrite !drop_0.
  destruct (cm_type c); intros Hw; try (rewrite Hw; change (Z.to_nat 4) with 4%nat; change (Z.to_nat 8) with 8%nat; by rewrite take_take).
  apply memcmp_take.
Qed.

Lemma agg_next_best agg c v t : (agg_type agg = AGG_MAX ∨ agg_type agg = AGG_MIN) → width_ok c →
  agg_next agg c v t = mkAggValue (count_value v) (numeric_sum v)
    (if initialized v && negb (if bool_decide (agg_type agg = AGG_MAX)
        then 0 <? field_cmp (cm_type c) (cm_len c) (field_of t c) (best_value v)
        else field_cmp (cm_type c) (cm_len c) (field_of t c) (best_value v) <? 0)
     then best_value v else field_of t c) true.
Proof.
  intros Ht Hw. unfold agg_next, agg_step.
  assert (take (Z.to_nat (cm_len c)) (drop (Z.to_nat (cm_offset c)) t) = field_of t c) as -> by done.
  assert (∀ q, field_cmp (cm_type c) (cm_len c) (drop (Z.to_nat (cm_offset c)) t) q = field_cmp (cm_type c) (cm_len c) (field_of t c) q) as Hd.
  { intros q. unfold field_of, read_at. by rewrite field_cmp_take. }
  destruct Ht as [-> | ->]; destruct v as [k s b [|]]; cbn [initialized negb andb]; try done; cbn [best_value count_value numeric_sum];
    rewrite compare_raw_field; cbn [mbind outcome_bind]; rewrite Hd; repeat case_bool_decide; try done; cbn [andb orb negb];
    rewrite ?orb_false_r; by destruct (_ <? _).
Qed.

(** MAX and MIN give the field of a row that no row beats. *)
Lemma agg_best_exact agg c rows : (agg_type agg = AGG_MAX ∨ agg_type agg = AGG_MIN) → width_ok c →
  Forall (λ t, not_nan (cm_type c) (field_of t c)) rows → rows ≠ [] →
  let v := agg_value rows agg c in
  initialized v = true ∧ (∃ t, t ∈ rows ∧ best_value v = field_of t c) ∧
  ∀ t, t ∈ rows → agg_better agg c (best_value v) (field_of t c).
Proof.
  intros Ht Hw Hn Hne. cbv zeta. unfold agg_value. induction rows as [|t rows IH] using rev_ind; [done|]. clear Hne.
  rewrite Forall_app, Forall_singleton in Hn. destruct Hn as [Hn Hnt]. rewrite fold_left_app. cbn [fold_left].
  set (v := fold_left (agg_next agg c) rows agg_zero) in *. rewrite agg_next_best by done. cbn [initialized best_value].
  split; [done|].
  assert (∀ x y, field_cmp (cm_type c) (cm_len c) y x = - field_cmp (cm_type c) (cm_len c) x y) as Hanti by (intros; apply field_cmp_antisym).
  assert (∀ x, agg_better agg c x x) as Hrefl.
  { intros x. unfold agg_better. pose proof (Hanti x x). case_bool_decide; lia. }
  destruct (decide (rows = [])) as [->|Hne].
  { simpl. split; [exists t; by split; [apply list_elem_of_singleton|]|]. by intros t' ->%list_elem_of_singleton. }
  destruct (IH Hn Hne) as (Hi & (tb & Htb & Eb) & Hbest). rewrite Hi. cbn [andb].
  rewrite Forall_forall in Hn. pose proof (Hn tb Htb) as Hnb. rewrite <- Eb in Hnb.
  set (b := best_value v) in *. set (f := field_cmp (cm_type c) (cm_len c)) in *.
  assert (∀ t', t' ∈ rows → f b (field_of t' c) ≤ 0 → f (field_of t c) b ≤ 0 → f (field_of t c) (field_of t' c) ≤ 0) as Htr1.
  { intros t' Ht'. specialize (Hn t' Ht'). intros. by apply (field_cmp_trans _ _ _ b). }
  assert (∀ t', t' ∈ rows → f (field_of t' c) b ≤ 0 → f b (field_of t c) ≤ 0 → f (field_of t' c) (field_of t c) ≤ 0) as Htr2.
  { intros t' Ht'. specialize (Hn t' Ht'). intros. by apply (field_cmp_trans _ _ _ b). }
  unfold agg_better in *. fold f in Hbest |- *. pose proof (Hanti (field_of t c) b) as Ha.
  destruct (negb _) eqn:Ec; rewrite ?negb_true_iff, ?negb_false_iff in Ec.
  - split; [exists tb; by rewrite elem_of_app; auto|]. intros t' [Ht'|Ht'%list_elem_of_singleton]%elem_of_app; [by apply Hbest|].
    subst t'. case_bool_decide; apply Z.ltb_ge in Ec; lia.
  - split; [exists t; by rewrite elem_of_app, list_elem_of_singleton; auto|].
    intros t' [Ht'|Ht'%list_elem_of_singleton]%elem_of_app.
    + specialize (Hbest t' Ht'). pose proof (Hanti b (field_of t' c)). pose proof (Hanti (field_of t c) (field_of t' c)).
      specialize (Htr1 t' Ht'). specialize (Htr2 t' Ht'). case_bool_decide; apply Z.ltb_lt in Ec; lia.
    + subst t'. pose proof (Hanti (field_of t c) (field_of t c)) as Hr. case_bool_decide; lia.
Qed.

(** The bytes of an aggregate's result *)
Definition agg_spec (rows : list row) (agg : AggregateExpr) (c : ColMeta) (bytes : list Z) : Prop :=
  match agg_type agg with
  | AGG_COUNT => bytes = le_bytes 8 (Z.of_nat (length rows))
  | AGG_SUM => is_integral_type (cm_type c) = true → bytes = le_bytes 8 (sum_list_Z (int_field c <$> rows))
  | AGG_MAX | AGG_MIN =>
      if bool_decide (rows = []) then bytes = replicate (Z.to_nat (cm_len c)) 0
      else (∃ t, t ∈ rows ∧ bytes = field_of t c) ∧ ∀ t, t ∈ rows → agg_better agg c bytes (field_of t c)
  end.

(** No sum of an integer column leaves 64 bits; no NaN is compared. *)
Definition agg_bounded (rows : list row) (agg : AggregateExpr) (c : ColMeta) : Prop :=
  match agg_type agg with
  | AGG_COUNT => True
  | AGG_SUM => ∀ k, is_int64 (sum_list_Z (int_field c <$> take k rows))
  | AGG_MAX | AGG_MIN => width_ok c ∧ Forall (λ t, not_nan (cm_type c) (field_of t c)) rows
  end.

Lemma agg_bytes_spec len rows agg c : Forall (λ t, length t = Z.to_nat len) rows → Z.of_nat (length rows) ≤ int64_max →
  (is_count_star agg = false → 0 ≤ cm_offset c ∧ 0 ≤ cm_len c ∧ cm_offset c + cm_len c ≤ len) →
  (is_count_star agg = true → agg_type agg = AGG_COUNT) → agg_bounded rows agg c →
  agg_spec rows agg c (agg_bytes agg (mkColMeta "" "" (agg_out_type agg c).1 (agg_out_type agg c).2 0 false) (agg_value rows agg c)).
Proof.
  intros Hr Hn Hin Hs Hb. unfold agg_spec, agg_bounded in *. pose proof (agg_best_exact agg c rows) as Hbest.
  assert (agg_type agg = AGG_MAX ∨ agg_type agg = AGG_MIN → initialized (agg_value rows agg c) = true →
    take (Z.to_nat (cm_len c)) (best_value (agg_value rows agg c)) = best_value (agg_value rows agg c)) as Htake.
  { intros Ht Hi. destruct (is_count_star agg); [destruct Ht; by rewrite Hs in * by done|]. destruct (Hin eq_refl) as (? & ? & ?).
    apply take_ge. rewrite (best_value_length agg c len rows) by done. done. }
  unfold agg_bytes, agg_out_type. destruct (agg_type agg) eqn:Et; cbn [fst snd cm_type cm_len].
  - by rewrite agg_count_exact.
  - destruct Hb as [Hw Hnan]. case_bool_decide as Hrows; [by rewrite Hrows; simpl|].
    destruct (Hbest (or_introl eq_refl) Hw Hnan Hrows) as (Hi & He & Ha). rewrite Hi, Htake by auto. by split.
  - destruct Hb as [Hw Hnan]. case_bool_decide as Hrows; [by rewrite Hrows; simpl|].
    destruct (Hbest (or_intror eq_refl) Hw Hnan Hrows) as (Hi & He & Ha). rewrite Hi, Htake by auto. by split.
  - intros Hc. rewrite (bool_decide_eq_false_2 (cm_type c = TYPE_FLOAT)) by by intros Ef; rewrite Ef in Hc. cbn [fst].
    rewrite bool_decide_eq_false_2 by done. rewrite agg_sum_exact by done. rewrite ld_trunc_int; [done|].
    specialize (Hb (length rows)). by rewrite firstn_all in Hb.
Qed.

(* ------------------------------------------------------------------ *)
(** ** The executors                                                    *)
(* ------------------------------------------------------------------ *)

Section Claims.
Context {W E : Type} `{AbstractExecutor W E}.
Implicit Types (I : W → Prop) (ok : E → Prop).

(** C18: SortExecutor::beginTuple over any child that gives [rows] returns, and
    leaves in records_ the first rows, up to the limit, of a list that has the
    same rows, is sorted by the keys, and keeps rows with equal keys in the order
    the child gave them. *)
Theorem sort_correct I cols len rows n ok at_ keys key_cols limit (e : SortExecutor E) w fuel
    (Hsrc : source I cols len rows n ok at_) (Hok : sort_ok ok keys key_cols limit e) (Hw : I w)
    (Hfuel : (Nat.max n (length rows) ≤ fuel)%nat) (Hkeys : Forall (keys_ok (zip keys key_cols)) rows) :
  ∃ e' w' l, sort_beginTuple fuel e w = (Ret e', w') ∧ I w' ∧ cursor_ e' = 0 ∧
    l ≡ₚ rows ∧ StronglySorted (λ a b, row_cmp (zip keys key_cols) a b ≤ 0) l ∧
    (∀ z, keys_ok (zip keys key_cols) z →
       filter (λ y, row_cmp (zip keys key_cols) z y = 0) l = filter (λ y, row_cmp (zip keys key_cols) z y = 0) rows) ∧
    records_ e' = if limit <? 0 then l else take (Z.to_nat limit) l.
Proof.
  set (ks := zip keys key_cols) in *. pose proof (sort_source I cols len rows n ok at_ keys key_cols limit Hsrc) as Hs.
  destruct (src_begin _ _ _ _ _ _ _ Hs e w fuel Hok Hw Hfuel) as (e' & w' & E1 & Hw' & (Hok' & Er & Hc & Ed)).
  exists e', w', (sort_rows (row_less ks) rows). split_and!; [exact E1|done| | | | |].
  - clear -E1. simpl in E1. unfold sort_beginTuple in E1. apply st_bind_ret_inv in E1 as (p & w1 & _ & E1).
    apply st_bind_ret_inv in E1 as ([ts p2] & w2 & _ & E1). apply st_bind_ret_inv in E1 as (ts' & w3 & _ & E1). by injection E1 as <- _.
  - apply sort_rows_perm.
  - eapply StronglySorted_weaken; [|apply (sort_rows_sorted _ _ (row_less_weak ks)); exact Hkeys].
    intros a b Hab. unfold not_after in Hab. rewrite row_less_cmp, row_cmp_antisym in Hab. apply Z.ltb_ge in Hab. lia.
  - intros z Hz. pose proof (sort_rows_stable _ _ (row_less_weak ks) z rows Hz Hkeys) as Hst.
    assert (∀ y, same_key (row_less ks) z y = true ↔ row_cmp ks z y = 0) as Hk.
    { intros y. unfold same_key. rewrite !row_less_cmp, (row_cmp_antisym ks z y), andb_true_iff, !negb_true_iff, !Z.ltb_ge. lia. }
    rewrite !(list_filter_iff _ _ _ Hk) in Hst. exact Hst.
  - rewrite Er. unfold sorted_rows, cut_limit. fold ks. pose proof (sort_rows_perm (row_less ks) rows) as Hp.
    assert ((if bool_decide (keys = []) then rows else sort_rows (row_less ks) rows) = sort_rows (row_less ks) rows) as ->.
    { case_bool_decide as Hk; [|done]. unfold ks. rewrite Hk. simpl. clear. induction rows as [|x rows IH]; [done|]. simpl.
      rewrite <- IH. by destruct rows. }
    destruct (Z.ltb_spec limit 0); [by rewrite (proj2 (Z.leb_gt _ _)) by lia|]. rewrite (proj2 (Z.leb_le _ _)) by lia. cbn [andb].
    destruct (Z.ltb_spec limit (Z.of_nat (length (sort_rows (row_less ks) rows)))); [done|]. by rewrite take_ge by lia.
Qed.


End Claims.

(* ------------------------------------------------------------------ *)
(** ** Instances                                                        *)
(* ------------------------------------------------------------------ *)

(** A child that gives the rows of a list. *)
Module OperatorWitness.

Record ListExecutor := mkListExec { all : list row; rest : list row }.
Definition a_col : ColMeta := mkColMeta "t" "a" TYPE_INT 4 0 false.
Definition b_col : ColMeta := mkColMeta "t" "b" TYPE_INT 4 4 false.
Definition cols : list ColMeta := [a_col; b_col].
#[export] Instance ListExecutor_ops : AbstractExecutor unit ListExecutor := {|
  tupleLen _ := 8;
  cols_of _ := cols;
  beginTuple _ e := mret (mkListExec (all e) (all e));
  nextTuple _ e := mret (mkListExec (all e) (tl (rest e)));
  is_end e := mret (bool_decide (rest e = []));
  Next e := mret (head (rest e));
  rid_of _ := no_rid
|}.

Definition ok (rows : list row) (e : ListExecutor) : Prop := all e = rows.
Definition at_ (rows : list row) (e : ListExecutor) (l : list row) : Prop := all e = rows ∧ rest e = l ∧ ∃ l0, rows = l0 ++ l.

Lemma list_source rows : Forall (λ t, length t = 8%nat) rows → source (λ _, True) cols 8 rows 0 (ok rows) (at_ rows).
Proof.
  intros Hl. split.
  - intros e [] fuel He _ _. eexists _, tt. split_and!; [done|done|]. split_and!; [done|done|by exists []].
  - by intros e l (? & _).
  - intros e l [] (_ & <- & _) _. by exists tt.
  - intros e t l [] (_ & E & _) _. exists tt. split; [|done]. simpl. by rewrite E.
  - intros e t l [] fuel (Ha & E & l0 & El) _ _. eexists _, tt. split_and!; [done|done|]. split_and!; [done|simpl; by rewrite E|].
    exists (l0 ++ [t]). by rewrite <- app_assoc.
  - by intros e l (_ & _ & ?).
  - done.
  - done.
  - exact Hl.
  - done.
Qed.

Definition mkrow (x y : Z) : row := le_bytes 4 x ++ le_bytes 4 y.
Definition rows3 : list row := [mkrow 3 1; mkrow 1 2; mkrow 3 4].
Definition keys : list SortKey := [mkSortKey (mkTabCol "t" "a") true].
Definition sorter : SortExecutor ListExecutor := mkSort (mkListExec rows3 []) keys [a_col] [] 0 2.

Lemma sort_correct_witness : ∃ e' w', sort_beginTuple 3 sorter tt = (Ret e', w') ∧ records_ e' = [mkrow 3 1; mkrow 3 4].
Proof.
  destruct (sort_correct (λ _, True) cols 8 rows3 0 (ok rows3) (at_ rows3) keys [a_col] 2 sorter tt 3) as (e' & w' & l & E & _ & _ & _ & _ & _ & _).
  - apply list_source. repeat constructor.
  - split_and!; reflexivity.
  - exact I.
  - vm_compute. lia.
  - repeat constructor; discriminate.
  - exists e', w'. split; [exact E|]. assert (e' = mkSort (mkListExec rows3 []) keys [a_col] [mkrow 3 1; mkrow 3 4] 0 2) as ->; [|reflexivity].
    assert (sort_beginTuple 3 sorter tt = (Ret (mkSort (mkListExec rows3 []) keys [a_col] [mkrow 3 1; mkrow 3 4] 0 2), tt)) as E2 by (vm_compute; reflexivity).
    rewrite E2 in E. by injection E as <- _.
Defined.

Definition count_star : AggregateExpr := mkAgg AGG_COUNT true (mkTabCol "" "") "COUNT".
Definition max_b : AggregateExpr := mkAgg AGG_MAX false (mkTabCol "t" "b") "MAX".
Definition sum_a : AggregateExpr := mkAgg AGG_SUM false (mkTabCol "t" "a") "SUM".
Definition aggs3 : list AggregateExpr := [count_star; max_b; sum_a].
Definition out_cols : list ColMeta := [mkColMeta "" "COUNT" TYPE_BIGINT 8 0 false; mkColMeta "" "MAX" TYPE_INT 4 8 false;
  mkColMeta "" "SUM" TYPE_BIGINT 8 12 false].
Definition counter : AggregateExecutor ListExecutor :=
  mkAggregate (mkListExec rows3 []) aggs3 out_cols [no_source_col; b_col; a_col] 20 true None.


End OperatorWitness.
