(* ===== verification/ScanExec.v ===== *)
(** * Scans and data changes (src/src/execution/executor_{seq_scan,index_scan,insert,delete,update}.h)

    The executors that reach the tables.  A table or index handle pointer is
    the name under which the system manager has it. *)

From S2P Require Import Prelude Defs Text SmMeta Values Replacer Posix DiskManager BufferPool RmFile IxNode IxIndex IxManager SmManager Txn LockManager LogRecord LogManager TxnManager Executor.

Section ScanExec.
Context {R OS : Type} `{Replacer R, Posix OS}.
Variable buffer_size : Z.   (* LOG_BUFFER_SIZE *)
Abbreviation world := (Rmdb R OS).
Abbreviation pool := (BPM R (DiskManager OS)).

(** Calls on fhs_.at(tab_name) and ihs_.at(index_name) *)
Definition on_fh {A} (tab_name : string) (m : Z → ST (RmFile pool) A) : ST world A := on_system (with_fh tab_name m).
Definition table_hdr (tab_name : string) : ST world RmFileHdr := on_fh tab_name (λ _, get_hdr).
Definition at_ih {A} (index_name : string) (m : Z → ST (IxIndex pool) A) : ST world A := on_system (λ s,
  match ihs_ s !! index_name with
  | None => (Throw OutOfRange, s)
  | Some (fd, h) =>
      let '(r, st) := m fd (mkIxIndex (bpm_ s) h) in
      (r, set_ihs (<[index_name := (fd, ix_hdr st)]> (ihs_ s)) (set_bpm (ix_store st) s))
  end).
Definition find_table (tab_name : string) : ST world TabMeta := on_system (sm_table tab_name).

(** lock_shared_on_table and lock_exclusive_on_table of the context's
    transaction, which the constructors call when there is one. *)
Definition lock_step (lock : option Transaction → lock_table → outcome bool * (option Transaction * lock_table))
    (id : Z) (t : Transaction) : ST world unit := λ s,
  let '(r, (t', lt)) := lock (Some t) (lock_tab s) in
  let s := set_locks lt s in
  (match r with Ret _ => Ret tt | Throw e => Throw e end,
   match t' with Some t' => set_txns (<[id := t']> (txn_map s)) s | None => s end).
Definition lock_on_table (lock : option Transaction → Z → lock_table → outcome bool * (option Transaction * lock_table))
    (c : Context) (tab_name : string) : ST world unit :=
  fd ← on_fh tab_name mret;
  match txn_ c with
  | Some id => if lock_mgr_ c then (t ← txn_obj id; lock_step (λ t, lock t fd) id t) else mret tt
  | None => mret tt
  end.

(* ------------------------------------------------------------------ *)
(** ** Sequential scan                                                  *)
(* ------------------------------------------------------------------ *)

Record SeqScanExecutor := mkSeqScan {
  ss_tab_name : string;
  ss_cols : list ColMeta;
  ss_len : Z;
  ss_fed_conds : list Condition;
  ss_rid : Rid;
  ss_scan : option Rid           (* the position of the RmScan *)
}.

Definition new_SeqScanExecutor (tab_name : string) (conds : list Condition) (c : Context) : ST world SeqScanExecutor :=
  tab ← find_table tab_name;
  len ← lift_outcome (row_len (tm_cols tab));
  lock_on_table lock_shared_on_table c tab_name ;;
  mret (mkSeqScan tab_name (tm_cols tab) len conds no_rid None).

Definition set_scan (rid scan : Rid) (e : SeqScanExecutor) : SeqScanExecutor :=
  mkSeqScan (ss_tab_name e) (ss_cols e) (ss_len e) (ss_fed_conds e) rid (Some scan).

(** while (!scan_->is_end()): every turn moves past a record, of which there are
    no more than slots. *)
Fixpoint seq_loop (turns : nat) (e : SeqScanExecutor) (scan : Rid) : ST world SeqScanExecutor :=
  h ← table_hdr (ss_tab_name e);
  if scan_is_end scan h then mret (set_scan (mkRid (num_pages h) (-1)) scan e) else
  match turns with
  | O => throw Diverge
  | Datatypes.S turns' =>
      record ← on_fh (ss_tab_name e) (λ fd, get_record fd scan);
      ok ← lift_outcome (record_satisfies_conditions record (ss_cols e) (ss_fed_conds e));
      if ok : bool then mret (set_scan scan scan e) else
      scan ← on_fh (ss_tab_name e) (λ fd, scan_next fd scan);
      seq_loop turns' e scan
  end.
Definition scan_turns (h : RmFileHdr) : nat := Z.to_nat (num_pages h * num_records_per_page h).

Definition seq_beginTuple (e : SeqScanExecutor) : ST world SeqScanExecutor :=
  scan ← on_fh (ss_tab_name e) scan_begin;
  h ← table_hdr (ss_tab_name e);
  seq_loop (scan_turns h) e scan.

Definition seq_is_end (e : SeqScanExecutor) : ST world bool :=
  match ss_scan e with
  | None => mret true
  | Some scan => h ← table_hdr (ss_tab_name e); mret (scan_is_end scan h)
  end.

Definition set_seq_rid (rid : Rid) (e : SeqScanExecutor) : SeqScanExecutor :=
  mkSeqScan (ss_tab_name e) (ss_cols e) (ss_len e) (ss_fed_conds e) rid (ss_scan e).

Definition seq_nextTuple (e : SeqScanExecutor) : ST world SeqScanExecutor :=
  h ← table_hdr (ss_tab_name e);
  ended ← seq_is_end e;
  match ended, ss_scan e with
  | false, Some scan =>
      scan ← on_fh (ss_tab_name e) (λ fd, scan_next fd scan);
      seq_loop (scan_turns h) e scan
  | _, _ => mret (set_seq_rid (mkRid (num_pages h) (-1)) e)
  end.

#[export] Instance SeqScanExecutor_ops : AbstractExecutor world SeqScanExecutor := {|
  tupleLen := ss_len;
  cols_of := ss_cols;
  beginTuple _ := seq_beginTuple;
  nextTuple _ := seq_nextTuple;
  is_end := seq_is_end;
  Next e :=
    ended ← seq_is_end e;
    if ended : bool then mret None else
    record ← on_fh (ss_tab_name e) (λ fd, get_record fd (ss_rid e));
    mret (Some record);
  rid_of := ss_rid
|}.

(* ------------------------------------------------------------------ *)
(** ** Index scan                                                       *)
(* ------------------------------------------------------------------ *)

Record IndexScanExecutor := mkIndexScan {
  is_tab_name : string;
  is_cols : list ColMeta;
  is_len : Z;
  is_fed_conds : list Condition;
  index_meta_ : IndexMeta;
  is_rid : Rid;
  is_scan : option (Iid * Iid)   (* iid_ and end_ of the IxScan *)
}.
Definition ih_name (e : IndexScanExecutor) : string := get_index_name_cols (is_tab_name e) (im_cols (index_meta_ e)).

Definition swap_op (o : CompOp) : CompOp :=
  match o with
  | OP_EQ => OP_EQ | OP_NE => OP_NE | OP_LT => OP_GT | OP_GT => OP_LT | OP_LE => OP_GE | OP_GE => OP_LE
  end.
Definition swap_cond (cond : Condition) : Condition :=
  mkCond (rhs_col cond) (swap_op (op cond)) (is_rhs_val cond) (lhs_col cond) (rhs_val cond).

(** Conditions are turned so that the left column is of the table. *)
Definition orient_cond (tab_name : string) (cond : Condition) : outcome Condition :=
  if bool_decide (tc_tab (lhs_col cond) = tab_name) then Ret cond
  else if negb (is_rhs_val cond) && bool_decide (tc_tab (rhs_col cond) = tab_name) then Ret (swap_cond cond)
  else Throw AssertFail.

Definition new_IndexScanExecutor (tab_name : string) (conds : list Condition) (index_col_names : list string)
    (c : Context) : ST world IndexScanExecutor :=
  tab ← find_table tab_name;
  index ← lift_outcome (get_index_meta tab index_col_names);
  at_ih (get_index_name_cols tab_name (im_cols index)) (λ _, mret tt) ;;
  on_fh tab_name (λ _, mret tt) ;;
  len ← lift_outcome (row_len (tm_cols tab));
  lock_on_table lock_shared_on_table c tab_name ;;
  conds ← lift_outcome (map_out (orient_cond tab_name) conds);
  mret (mkIndexScan tab_name (tm_cols tab) len conds index no_rid None).

Definition min_value (col : ColMeta) : list Z :=
  match cm_type col with
  | TYPE_INT => le_bytes 4 int32_min
  | TYPE_BIGINT | TYPE_DATETIME => le_bytes 8 int64_min
  | TYPE_FLOAT => le_bytes 4 4286578687                  (* lowest() *)
  | TYPE_STRING => replicate (Z.to_nat (cm_len col)) 0
  end.
Definition max_value (col : ColMeta) : list Z :=
  match cm_type col with
  | TYPE_INT => le_bytes 4 int32_max
  | TYPE_BIGINT | TYPE_DATETIME => le_bytes 8 int64_max
  | TYPE_FLOAT => le_bytes 4 2139095039                  (* max() *)
  | TYPE_STRING => replicate (Z.to_nat (cm_len col)) 255
  end.
(** fill_min_value and fill_max_value at an offset of a key *)
Definition fill_min_value (offset : Z) (col : ColMeta) (key : list Z) : list Z := splice (Z.to_nat offset) (min_value col) key.
Definition fill_max_value (offset : Z) (col : ColMeta) (key : list Z) : list Z := splice (Z.to_nat offset) (max_value col) key.

Definition compare_bound_value (lhs rhs : Value) (col : ColMeta) : outcome Z :=
  l ← deref (raw lhs); r ← deref (raw rhs);
  compare_raw_data l (cm_type col) (cm_len col) r (cm_type col) (cm_len col).

Fixpoint compare_composite_key (cols : list ColMeta) (lhs rhs : list Z) : outcome Z :=
  match cols with
  | [] => Ret 0
  | col :: cols' =>
      cmp ← compare_raw_data lhs (cm_type col) (cm_len col) rhs (cm_type col) (cm_len col);
      if negb (cmp =? 0) then Ret cmp
      else compare_composite_key cols' (drop (Z.to_nat (cm_len col)) lhs) (drop (Z.to_nat (cm_len col)) rhs)
  end.

Record ColumnBound := mkBound {
  b_eq : option Value;
  b_lower : option Value;
  b_lower_inclusive : bool;
  b_upper : option Value;
  b_upper_inclusive : bool
}.
Definition no_bound : ColumnBound := mkBound None None true None true.
Definition set_lower (v : Value) (inclusive : bool) (b : ColumnBound) : ColumnBound :=
  mkBound (b_eq b) (Some v) inclusive (b_upper b) (b_upper_inclusive b).
Definition set_upper (v : Value) (inclusive : bool) (b : ColumnBound) : ColumnBound :=
  mkBound (b_eq b) (b_lower b) (b_lower_inclusive b) (Some v) inclusive.

(** What one condition does to the bound of its column *)
Definition add_bound (cond : Condition) (col : ColMeta) (b : ColumnBound) : outcome ColumnBound :=
  let v := rhs_val cond in
  match op cond with
  | OP_EQ => Ret (mkBound (Some v) (Some v) true (Some v) true)
  | OP_GT | OP_GE =>
      let inclusive := bool_decide (op cond = OP_GE) in
      match b_lower b with
      | None => Ret (set_lower v inclusive b)
      | Some l =>
          cmp ← compare_bound_value v l col;
          Ret (if (0 <? cmp) || ((cmp =? 0) && negb inclusive && b_lower_inclusive b) then set_lower v inclusive b else b)
      end
  | OP_LT | OP_LE =>
      let inclusive := bool_decide (op cond = OP_LE) in
      match b_upper b with
      | None => Ret (set_upper v inclusive b)
      | Some u =>
          cmp ← compare_bound_value v u col;
          Ret (if (cmp <? 0) || ((cmp =? 0) && negb inclusive && b_upper_inclusive b) then set_upper v inclusive b else b)
      end
  | OP_NE => Ret b
  end.

(** The loop over the columns of the index, up to the first that is meant *)
Fixpoint bound_cols (tab_name : string) (cond : Condition) (cols : list ColMeta) (bounds : list ColumnBound)
    : outcome (list ColumnBound) :=
  match cols, bounds with
  | col :: cols', b :: bounds' =>
      if negb (bool_decide (tc_tab (lhs_col cond) = tab_name)) || negb (bool_decide (tc_col (lhs_col cond) = cm_name col))
      then (bs ← bound_cols tab_name cond cols' bounds'; Ret (b :: bs))
      else (b' ← add_bound cond col b; Ret (b' :: bounds'))
  | _, _ => Ret bounds
  end.

Fixpoint collect_bounds_loop (tab_name : string) (cols : list ColMeta) (conds : list Condition) (bounds : list ColumnBound)
    : outcome (list ColumnBound) :=
  match conds with
  | [] => Ret bounds
  | cond :: conds' =>
      bounds ← (if negb (is_rhs_val cond) || bool_decide (op cond = OP_NE) then Ret bounds
                else bound_cols tab_name cond cols bounds);
      collect_bounds_loop tab_name cols conds' bounds
  end.
Definition collect_bounds (e : IndexScanExecutor) : outcome (list ColumnBound) :=
  collect_bounds_loop (is_tab_name e) (im_cols (index_meta_ e)) (is_fed_conds e)
    (replicate (length (im_cols (index_meta_ e))) no_bound).

(** The local variables of build_scan_range; use_lower and use_upper are set
    together with used_prefix. *)
Record ScanRange := mkRange {
  lower_key : list Z;
  upper_key : list Z;
  lower_inclusive : bool;
  upper_inclusive : bool;
  used_prefix : bool;
  range_consumed : bool;
  range_offset : Z;
  rest_cols : list ColMeta       (* the columns from stop_col on *)
}.

(** memcpy of a bound's raw data, or an extreme value of the column *)
Definition bound_bytes (b : option Value) (extreme : list Z) (col : ColMeta) : outcome (list Z) :=
  match b with
  | Some v => bs ← deref (raw v); Ret (take (Z.to_nat (cm_len col)) bs)
  | None => Ret extreme
  end.
Definition bound_incl (b : option Value) (inclusive : bool) : bool := match b with Some _ => inclusive | None => true end.

(** The loop over the prefix of the index that has bounds *)
Fixpoint range_prefix (cols : list ColMeta) (bounds : list ColumnBound) (offset : Z) (used : bool) (lo up : list Z)
    : outcome ScanRange :=
  match cols, bounds with
  | col :: cols', b :: bounds' =>
      match b_eq b, b_lower b, b_upper b with
      | Some v, _, _ =>
          bs ← bound_bytes (Some v) [] col;
          range_prefix cols' bounds' (offset + cm_len col) true
            (splice (Z.to_nat offset) bs lo) (splice (Z.to_nat offset) bs up)
      | None, None, None => Ret (mkRange lo up true true used false offset cols)
      | None, bl, bu =>
          l ← bound_bytes bl (min_value col) col;
          u ← bound_bytes bu (max_value col) col;
          Ret (mkRange (splice (Z.to_nat offset) l lo) (splice (Z.to_nat offset) u up)
                 (bound_incl bl (b_lower_inclusive b)) (bound_incl bu (b_upper_inclusive b)) true true
                 (offset + cm_len col) cols')
      end
  | _, _ => Ret (mkRange lo up true true used false offset [])
  end.

(** The loop from stop_col on *)
Fixpoint range_rest (cols : list ColMeta) (r : ScanRange) : ScanRange :=
  match cols with
  | [] => r
  | col :: cols' =>
      let off := range_offset r in
      let lo := fill_min_value off col (lower_key r) in
      let up := fill_max_value off col (upper_key r) in
      let lo := if range_consumed r && negb (lower_inclusive r) then fill_max_value off col lo else lo in
      let up := if range_consumed r && negb (upper_inclusive r) then fill_min_value off col up else up in
      range_rest cols'
        (mkRange (if used_prefix r then lo else lower_key r) (if used_prefix r then up else upper_key r)
           (lower_inclusive r) (upper_inclusive r) (used_prefix r) (range_consumed r) (off + cm_len col) cols')
  end.

Definition scan_range (e : IndexScanExecutor) : outcome ScanRange :=
  bounds ← collect_bounds e;
  let zero := replicate (Z.to_nat (im_col_tot_len (index_meta_ e))) 0 in
  r ← range_prefix (im_cols (index_meta_ e)) bounds 0 false zero zero;
  Ret (range_rest (rest_cols r) r).

Definition build_scan_range (e : IndexScanExecutor) : ST world (Iid * Iid) :=
  r ← lift_outcome (scan_range e);
  cmp ← lift_outcome (if used_prefix r then compare_composite_key (im_cols (index_meta_ e)) (lower_key r) (upper_key r)
                      else Ret (-1));
  if (0 <? cmp) || ((cmp =? 0) && (negb (lower_inclusive r) || negb (upper_inclusive r))) then
    empty ← at_ih (ih_name e) (λ _, leaf_begin);
    mret (empty, empty)
  else
    lower ← at_ih (ih_name e) (λ fd,
      if used_prefix r then (if lower_inclusive r then ix_lower_bound fd (lower_key r) else ix_upper_bound fd (lower_key r))
      else leaf_begin);
    upper ← at_ih (ih_name e) (λ fd,
      if used_prefix r then (if upper_inclusive r then ix_upper_bound fd (upper_key r) else ix_lower_bound fd (upper_key r))
      else leaf_end fd);
    mret (lower, upper).

Definition set_ix_scan (rid : Rid) (scan : Iid * Iid) (e : IndexScanExecutor) : IndexScanExecutor :=
  mkIndexScan (is_tab_name e) (is_cols e) (is_len e) (is_fed_conds e) (index_meta_ e) rid (Some scan).

Fixpoint advance_to_match (turns : nat) (e : IndexScanExecutor) (iid end_ : Iid) : ST world IndexScanExecutor :=
  if ix_scan_is_end iid end_ then
    h ← table_hdr (is_tab_name e);
    mret (set_ix_scan (mkRid (num_pages h) (-1)) (iid, end_) e)
  else
  match turns with
  | O => throw Diverge
  | Datatypes.S turns' =>
      candidate ← at_ih (ih_name e) (λ fd, ix_scan_rid fd iid);
      record ← on_fh (is_tab_name e) (λ fd, get_record fd candidate);
      ok ← lift_outcome (record_satisfies_conditions record (is_cols e) (is_fed_conds e));
      if ok : bool then mret (set_ix_scan candidate (iid, end_) e) else
      iid ← at_ih (ih_name e) (λ fd, ix_scan_next fd iid end_);
      advance_to_match turns' e iid end_
  end.

Definition ix_is_end (e : IndexScanExecutor) : bool :=
  match is_scan e with None => true | Some (iid, end_) => ix_scan_is_end iid end_ end.

Definition ix_nextTuple (fuel : nat) (e : IndexScanExecutor) : ST world IndexScanExecutor :=
  match is_scan e with
  | Some (iid, end_) =>
      if ix_scan_is_end iid end_ then
        h ← table_hdr (is_tab_name e);
        mret (set_ix_scan (mkRid (num_pages h) (-1)) (iid, end_) e)
      else
        iid ← at_ih (ih_name e) (λ fd, ix_scan_next fd iid end_);
        advance_to_match fuel e iid end_
  | None =>
      h ← table_hdr (is_tab_name e);
      mret (mkIndexScan (is_tab_name e) (is_cols e) (is_len e) (is_fed_conds e) (index_meta_ e)
              (mkRid (num_pages h) (-1)) None)
  end.

#[export] Instance IndexScanExecutor_ops : AbstractExecutor world IndexScanExecutor := {|
  tupleLen := is_len;
  cols_of := is_cols;
  beginTuple fuel e := '(lower, upper) ← build_scan_range e; advance_to_match fuel e lower upper;
  nextTuple := ix_nextTuple;
  is_end e := mret (ix_is_end e);
  Next e := if ix_is_end e then mret None else
    record ← on_fh (is_tab_name e) (λ fd, get_record fd (is_rid e)); mret (Some record);
  rid_of := is_rid
|}.
End ScanExec.
