(* ===== verification/ScanSpec.v ===== *)
(** * Correctness of the sequential scan

    The records of a table in file order, and SeqScanExecutor as a source of
    those that satisfy its conditions. *)

From stdpp Require Import sorting.
From S2P Require Import Prelude Defs SmMeta Values Bitmap Replacer Posix DiskManager BufferPool RmFile RmPage RmSpec RmManager IxNode IxIndex IxManager SmManager TableSpec Txn LockManager LogManager TxnManager Executor ExecutorSpec ScanExec.

(* ------------------------------------------------------------------ *)
(** ** File order                                                       *)
(* ------------------------------------------------------------------ *)

Definition rid_lt (a b : Rid) : Prop := page_no a < page_no b ∨ (page_no a = page_no b ∧ slot_no a < slot_no b).
Definition rid_le (a b : Rid) : Prop := rid_lt a b ∨ a = b.
#[export] Instance rid_lt_dec a b : Decision (rid_lt a b).
Proof. unfold rid_lt. apply _. Defined.
#[export] Instance rid_le_dec a b : Decision (rid_le a b).
Proof. unfold rid_le. apply _. Defined.
#[export] Instance rid_le_trans : Transitive rid_le.
Proof. intros a b c [Hab|<-] [Hbc|<-]; unfold rid_le, rid_lt in *; [left; lia|left; lia|left; lia|by right]. Qed.
#[export] Instance rid_le_anti : AntiSymm (=) rid_le.
Proof. intros a b [Hab| ->] [Hba| ]; unfold rid_lt in *; try done; lia. Qed.
#[export] Instance rid_le_total : Total rid_le.
Proof.
  intros [p i] [q j]. unfold rid_le, rid_lt. simpl.
  destruct (Z.lt_total p q) as [|[->|]]; [left; left; lia| |right; left; lia].
  destruct (Z.lt_total i j) as [|[->|]]; [left; left; lia|left; by right|right; left; lia].
Qed.

(** Two strictly ordered lists with the same elements. *)
Lemma rid_lt_unique l1 l2 : StronglySorted rid_lt l1 → StronglySorted rid_lt l2 → (∀ x, x ∈ l1 ↔ x ∈ l2) → l1 = l2.
Proof.
  assert (∀ l, StronglySorted rid_lt l → NoDup l ∧ StronglySorted rid_le l) as Hs.
  { induction 1 as [|x l _ [Hn Hl] Hall]; [by split; constructor|]. split; constructor; try done.
    - intros Hx. rewrite Forall_forall in Hall. specialize (Hall x Hx). unfold rid_lt in Hall. lia.
    - eapply Forall_impl; [exact Hall|]. intros y Hy. by left. }
  intros [Hn1 Hs1]%Hs [Hn2 Hs2]%Hs Hin. apply (Sorted_unique rid_le); [by apply StronglySorted_Sorted..|].
  by apply NoDup_Permutation.
Qed.

Lemma rids_from_sorted h pgs n k s : -1 ≤ s → StronglySorted rid_lt (RmSpec.rids_from h pgs n k s).
Proof.
  revert n s. induction k as [|k IH]; intros n s Hs; simpl; [constructor|].
  assert (∀ l1 l2, StronglySorted rid_lt l1 → StronglySorted rid_lt l2 → (∀ x y, x ∈ l1 → y ∈ l2 → rid_lt x y) →
            StronglySorted rid_lt (l1 ++ l2)) as Happ.
  { induction l1 as [|x l1 IHl]; intros l2 H1 H2 H12; [done|]. apply StronglySorted_inv in H1 as [H1 Hx]. simpl. constructor.
    - apply IHl; [done|done|]. intros. apply H12; [by right|done].
    - apply Forall_app. split; [done|]. apply Forall_forall. intros y Hy. apply H12; [by left|done]. }
  apply Happ; [|apply IH; lia|].
  - unfold slots_after.  generalize (num_records_per_page h - (s + 1)) as m. intros m.
    assert (∀ j a, StronglySorted rid_lt (mkRid n <$> filter (λ i, used (pgs n) i = true) (seqZ a (Z.of_nat j)))) as Hsq.
    { induction j as [|j IHj]; intros a; [constructor|]. rewrite Nat2Z.inj_succ, seqZ_cons, Z.pred_succ by lia.
      rewrite filter_cons. destruct (decide _); [|apply IHj]. cbn [fmap list_fmap]. constructor; [apply IHj|].
      apply Forall_forall. intros y (i & -> & [_ Hi]%list_elem_of_filter)%list_elem_of_fmap. apply elem_of_seqZ in Hi.
      right. simpl. lia. }
    destruct (Z.le_gt_cases 0 m); [rewrite <- (Z2Nat.id m) by lia; apply Hsq|].
    unfold seqZ. replace (Z.to_nat m) with 0%nat by lia. constructor.
  - intros x y (i & -> & _)%list_elem_of_fmap Hy. apply elem_rids_from in Hy; [|lia]. left. simpl. lia.
Qed.

(** The record ids of a table and its rows. *)
Definition table_rids (C : tables) (t : string) : list Rid :=
  merge_sort rid_le ((λ kv, kv.1.2) <$> filter (λ kv, kv.1.1 = t) (map_to_list C)).
Definition table_rows (C : tables) (t : string) : list row := omap (λ r, C !! (t, r)) (table_rids C t).

Lemma elem_table_rids C t r : r ∈ table_rids C t ↔ is_Some (C !! (t, r)).
Proof.
  unfold table_rids. rewrite merge_sort_Permutation, list_elem_of_fmap. split.
  - intros ([[t' r'] bs] & -> & [<- Hin]%list_elem_of_filter). apply elem_of_map_to_list in Hin. simpl in *. by eexists.
  - intros [bs Hb]. exists ((t, r), bs). split; [done|]. apply list_elem_of_filter. split; [done|]. by apply elem_of_map_to_list.
Qed.

Lemma table_rids_sorted C t : StronglySorted rid_lt (table_rids C t).
Proof.
  assert (NoDup (table_rids C t)) as Hn.
  { unfold table_rids. rewrite merge_sort_Permutation. generalize (NoDup_fst_map_to_list C). generalize (map_to_list C).
    intros l. induction l as [|[[t' r] bs] l IH]; intros Hl; [constructor|]. apply NoDup_cons in Hl as [Hni Hl].
    rewrite filter_cons. simpl. destruct (decide (t' = t)) as [->|]; [|auto]. cbn [fmap list_fmap fst snd]. apply NoDup_cons.
    split; [|auto]. intros ([[t2 r2] b2] & E & [Et Hin]%list_elem_of_filter)%list_elem_of_fmap. simpl in *. subst. apply Hni.
    apply list_elem_of_fmap. by exists ((t, r2), b2). }
  assert (StronglySorted rid_le (table_rids C t)) as Hs.
  { apply Sorted_StronglySorted; [apply _|]. apply (Sorted_merge_sort rid_le). }
  induction Hs as [|x l _ IH Hall]; constructor; apply NoDup_cons in Hn as [Hx Hn]; [auto|].
  rewrite Forall_forall in Hall |- *. intros y Hy. destruct (Hall y Hy) as [|<-]; done.
Qed.

(** A scan meets the records in file order. *)
Lemma all_rids_table (h : RmFileHdr) (pgs : Z → list Z) (C : tables) (t : string) : (∀ x, contents h pgs x = C !! (t, x)) → all_rids h pgs = table_rids C t.
Proof.
  intros Hc. apply rid_lt_unique; [apply rids_from_sorted; lia|apply table_rids_sorted|]. intros x.
  by rewrite elem_all_rids, elem_table_rids, Hc.
Qed.

(** The position of a scan as a suffix of the ids. *)
Definition at_rid (h : RmFileHdr) (l : list Rid) (rid : Rid) : Prop :=
  match l with [] => rid = mkRid (num_pages h) (-1) | r :: _ => rid = r end.

Lemma scan_at_suffix (h : RmFileHdr) (pgs : Z → list Z) (rid : Rid) (l l0 : list Rid) : all_rids h pgs = l0 ++ l → at_rid h l rid → scan_at h pgs l rid.
Proof.
  destruct l as [|r rest]; intros Ea; [done|]. intros ->.
  assert (r ∈ all_rids h pgs) as Hr by (rewrite Ea, elem_of_app; right; by left).
  pose proof Hr as Hr'. unfold all_rids in Hr'. apply elem_rids_from in Hr'; [|lia]. destruct Hr' as (Hp & Hs & Hu & _).
  cbn [scan_at]. split_and!; [done|unfold page_in; lia|done|].
  assert (StronglySorted rid_lt (all_rids h pgs)) as Hsort by (apply rids_from_sorted; lia).
  assert (StronglySorted rid_lt (r :: rest) ∧ ∀ x, x ∈ l0 → rid_lt x r) as [[Hs1 Hall]%StronglySorted_inv Hl0].
  { rewrite Ea in Hsort. clear -Hsort. induction l0 as [|y l0 IH]; [by split; [|intros ? ?%elem_of_nil]|].
    apply StronglySorted_inv in Hsort as [Hsort Hy]. apply IH in Hsort as [Hs Hl]. split; [done|].
    intros x [->|Hx]%elem_of_cons; [|auto]. rewrite Forall_forall in Hy. apply Hy. rewrite elem_of_app. right. by left. }
  apply rid_lt_unique; [apply rids_from_sorted; unfold slot_in in Hs; lia|done|]. intros x.
  rewrite elem_rids_from by (unfold slot_in in Hs; lia). rewrite Forall_forall in Hall. split.
  - intros (Hx & Hsx & Hux & Hlt). assert (rid_lt r x) as Hrx by (unfold rid_lt; lia).
    assert (x ∈ all_rids h pgs) as Hxa.
    { unfold all_rids. apply elem_rids_from; [lia|]. split_and!; try done; [lia..|]. intros _. unfold slot_in in Hsx. lia. }
    rewrite Ea, elem_of_app in Hxa. destruct Hxa as [Hx0|[->|Hx0]%elem_of_cons]; [|unfold rid_lt in Hrx; lia|done].
    specialize (Hl0 x Hx0). unfold rid_lt in *. lia.
  - intros Hx. specialize (Hall x Hx). assert (x ∈ all_rids h pgs) as Hxa by (rewrite Ea, elem_of_app; right; by right).
    unfold all_rids in Hxa. apply elem_rids_from in Hxa; [|lia]. destruct Hxa as (? & ? & ? & _). unfold rid_lt in Hall.
    split_and!; try done; lia.
Qed.

(* ------------------------------------------------------------------ *)
(** ** Reading tables                                                   *)
(* ------------------------------------------------------------------ *)

Section Reading.
Context {R OS : Type} `{ReplacerLaws R, PosixLaws OS}.
Variables (exact : bool) (C : tables).
Abbreviation world := (Rmdb R OS).
Variable w0 : world.

(** Queries change nothing but what the buffer pool holds: the server is as in
    [w0] with another pool, the tables hold [C], and page fetches do not fail. *)
Definition set_pool (p : BPM R (DiskManager OS)) (w : world) : world :=
  mkRmdb (set_bpm p (sm w)) (log w) (lock_tab w) (txn_map w) (next_txn_id w) (next_timestamp w).
Definition reading (w : world) : Prop :=
  w = set_pool (bpm_ (sm w)) w0 ∧ tables_ok exact (sm w) C ∧ roomy (sm w).

Lemma reading_init : tables_ok exact (sm w0) C → roomy (sm w0) → reading w0.
Proof. intros Ht Hr. split_and!; [|done|done]. by destruct w0 as [[] ? ? ? ? ?]. Qed.
Lemma reading_fhs w : reading w → fhs_ (sm w) = fhs_ (sm w0).
Proof. by intros (-> & _ & _). Qed.

(** A call on a file handle that only reads. *)
Lemma on_fh_read {A} t fd h (m : Z → ST (RmFile (BPM R (DiskManager OS))) A) (Q : A → Prop) w :
  reading w → fhs_ (sm w0) !! t = Some (fd, h) →
  (∀ st pgs l r st', rm_inv fd exact (bpm_ (sm w)) st pgs l → file_hdr st = h → (∀ x, contents h pgs x = C !! (t, x)) →
     m fd st = (r, st') → reads_or_fails fd exact (bpm_ (sm w)) r st st' pgs l Q) →
  ∃ a w', on_fh t m w = (Ret a, w') ∧ reading w' ∧ Q a.
Proof.
  intros Hw Hf Hm. pose proof Hw as (Ew & Ht & Hr). assert (fhs_ (sm w) !! t = Some (fd, h)) as Hf' by by rewrite (reading_fhs w Hw).
  unfold on_fh, on_system. destruct (with_fh t m (sm w)) as [r s'] eqn:E.
  assert (tab_call exact (sm w) r s' C Q ∧ (∀ a, r = Ret a → s' = set_bpm (bpm_ s') (sm w))) as [Hc Hs].
  { split.
    - eapply with_fh_spec; [exact Ht|exact Hf'|exact E|done|]. intros pgs l r' st' Hi Hcon Em.
      specialize (Hm _ pgs l r' st' Hi eq_refl Hcon Em). destruct r' as [a|e]; [|by eapply failed_no_room]. destruct Hm as (Hi' & Hh & HQ).
      split; [done|]. exists pgs, l. simpl in *. rewrite Hh. split_and!; [done|apply same_shape_refl|done|exact Hcon].
    - intros a ->. unfold with_fh in E. rewrite Hf' in E. destruct (m fd _) as [r1 st'] eqn:Em. injection E as -> <-.
      destruct (t_file _ _ _ Ht t fd h Hf') as (pgs & l & Hi & Hcon). specialize (Hm _ pgs l _ st' Hi eq_refl Hcon Em).
      destruct Hm as (_ & Hh & _). simpl in Hh. rewrite Hh. unfold set_fhs, set_bpm. simpl. by rewrite insert_id. }
  destruct r as [a|e]; [|by destruct Hc]. destruct Hc as (HQ & Ht' & Hsame). exists a. eexists. split; [done|]. split; [|done].
  specialize (Hs a eq_refl). unfold reading, set_pool in *. rewrite Ew. cbn [sm log lock_tab txn_map next_txn_id next_timestamp].
  split_and!; [|done|by apply Hsame]. rewrite Hs, Ew. done.
Qed.

Section Table.
Variables (t : string) (fd : Z) (h : RmFileHdr).
Hypothesis Hf : fhs_ (sm w0) !! t = Some (fd, h).

Lemma table_hdr_read w : reading w → table_hdr t w = (Ret h, w).
Proof using Hf.
  intros Hw. unfold table_hdr, on_fh, on_system. pose proof (fh_hdr_spec (sm w) t fd h) as E. unfold fh_hdr in E.
  rewrite E by by rewrite (reading_fhs w Hw). by destruct w.
Qed.

Lemma scan_begin_read w : reading w →
  ∃ rid w', on_fh t scan_begin w = (Ret rid, w') ∧ reading w' ∧ at_rid h (table_rids C t) rid.
Proof using Hf.
  intros Hw. eapply on_fh_read; [done|exact Hf|]. intros st pgs l r st' Hi Hh Hc E.
  apply (scan_begin_spec fd exact (bpm_ (sm w)) _ pgs l) in E; [|done]. rewrite Hh, (all_rids_table h pgs C t Hc) in E.
  unfold reads_or_fails in *. destruct r as [rid|]; [|done]. destruct E as (? & ? & Hat). split_and!; [done|done|].
  destruct (table_rids C t); [done|]. by destruct Hat as (-> & _).
Qed.

Lemma scan_next_read w l0 r l : reading w → table_rids C t = l0 ++ r :: l →
  ∃ rid w', on_fh t (λ fd, scan_next fd r) w = (Ret rid, w') ∧ reading w' ∧ at_rid h l rid.
Proof using Hf.
  intros Hw El. eapply on_fh_read; [done|exact Hf|]. intros st pgs l' r' st' Hi Hh Hc E.
  pose proof (all_rids_table h pgs C t Hc) as Ea. rewrite El in Ea.
  pose proof (scan_at_suffix h pgs r (r :: l) l0 Ea eq_refl) as (_ & Hp & Hs & Hrest).
  unfold scan_next in E. rewrite (st_bind_ret get_hdr _ st (file_hdr st) st) in E by done. rewrite Hh in E.
  unfold scan_is_end in E. destruct (Z.leb_spec (num_pages h) (page_no r)) as [|_]; [unfold page_in in Hp; lia|].
  apply (scan_loop_spec fd exact (bpm_ (sm w)) _ _ _ _ pgs l') in E; [|done|apply Hp|by rewrite Hh|rewrite Hh; unfold slot_in in Hs; lia].
  rewrite Hh, Hrest in E. unfold reads_or_fails in *. destruct r' as [rid|]; [|done]. destruct E as (? & ? & Hat).
  split_and!; [done|done|]. destruct l; [done|]. by destruct Hat as (-> & _).
Qed.

Lemma get_record_read w r bs : reading w → C !! (t, r) = Some bs →
  ∃ w', on_fh t (λ fd, get_record fd r) w = (Ret bs, w') ∧ reading w'.
Proof using Hf.
  intros Hw Hb. edestruct (on_fh_read t fd h (λ fd, get_record fd r) (eq bs) w Hw Hf) as (a & w' & E & Hw' & <-); [|by exists w'].
  intros st pgs l r' st' Hi Hh Hc E.
  assert (rid_in h r) as Hin.
  { assert (r ∈ all_rids h pgs) as Hr by (apply elem_all_rids; rewrite Hc; by eexists).
    unfold all_rids in Hr. apply elem_rids_from in Hr; [|lia]. split; [unfold page_in; lia|by apply Hr]. }
  eapply (fetch_or_fails fd exact (bpm_ (sm w)) st pgs l r (λ fd f, _)); [done|by rewrite Hh|exact E| |by intros e ->].
  intros f st1 E0 _. destruct (get_record_spec fd exact (bpm_ (sm w)) st pgs l r f st1 Hi) as (st2 & Hi2 & Hh2 & E2);
    [rewrite Hh; apply Hin|done|].
  rewrite E2, Hh, Hc, Hb in E. injection E as <- <-. split_and!; [done|congruence|done].
Qed.

(* ------------------------------------------------------------------ *)
(** ** SeqScanExecutor                                                  *)
(* ------------------------------------------------------------------ *)

Section SeqScan.
Variables (cols : list ColMeta) (len : Z) (conds : list Condition).
Hypotheses (Hconds : conds_eval cols conds) (Hlen : 0 ≤ len)
  (Hrows : ∀ r bs, C !! (t, r) = Some bs → length bs = Z.to_nat len).

Definition rid_matches (r : Rid) : bool :=
  match C !! (t, r) with Some bs => satisfies cols conds bs | None => false end.
(** The ids and rows of the scan. *)
Definition scan_rids : list Rid := filter (λ r, rid_matches r = true) (table_rids C t).
Definition rows_of (l : list Rid) : list row := omap (λ r, C !! (t, r)) l.
Definition scan_rows : list row := rows_of scan_rids.

Definition seq_static (e : SeqScanExecutor) : Prop :=
  ss_tab_name e = t ∧ ss_cols e = cols ∧ ss_len e = len ∧ ss_fed_conds e = conds.
(** Standing at the first of the ids [l], which are those left that match. *)
Definition seq_at_rids (e : SeqScanExecutor) (l : list Rid) : Prop :=
  seq_static e ∧ ∃ l0 l1 rid, ss_scan e = Some rid ∧ table_rids C t = l0 ++ l1 ∧ at_rid h l1 rid ∧
    l = filter (λ r, rid_matches r = true) l1 ∧
    match l1 with [] => True | r :: _ => rid_matches r = true ∧ ss_rid e = r end.
Definition seq_at (e : SeqScanExecutor) (rows : list row) : Prop := ∃ l, seq_at_rids e l ∧ rows = rows_of l.

Lemma table_rid_in r l0 l1 : table_rids C t = l0 ++ r :: l1 → ∃ bs, C !! (t, r) = Some bs.
Proof using. intros E. apply elem_table_rids. rewrite E, elem_of_app. right. by left. Qed.

Lemma at_rid_end w l0 l rid : reading w → table_rids C t = l0 ++ l → at_rid h l rid → scan_is_end rid h = bool_decide (l = []).
Proof using Hf.
  intros (Ew & Ht & _) El Ha. unfold scan_is_end. destruct l as [|r l]; [rewrite Ha; simpl; by rewrite Z.leb_refl|].
  rewrite bool_decide_eq_false_2 by done. apply Z.leb_gt. simpl in Ha. subst rid.
  destruct (t_file _ _ _ Ht t fd h) as (pgs & l' & _ & Hc); [rewrite Ew; exact Hf|].
  pose proof (all_rids_table h pgs C t Hc) as Ea. rewrite El in Ea.
  destruct (scan_at_suffix h pgs r (r :: l) l0 Ea eq_refl) as (_ & Hp & _). unfold page_in in Hp. lia.
Qed.

Lemma seq_loop_spec turns e l0 l1 rid w : reading w → seq_static e → table_rids C t = l0 ++ l1 → at_rid h l1 rid →
  (length l1 ≤ turns)%nat →
  ∃ e' w', seq_loop turns e rid w = (Ret e', w') ∧ reading w' ∧ seq_at_rids e' (filter (λ r, rid_matches r = true) l1).
Proof using Hf Hconds.
  intros Hw Hs. revert l0 l1 rid w Hw. induction turns as [|k IH]; intros l0 l1 rid w Hw El Ha Hk; destruct Hs as (Et & Ec & Eln & Eco);
    cbn [seq_loop]; rewrite Et; run (table_hdr_read w Hw); rewrite (at_rid_end w l0 l1 rid Hw El Ha).
  - destruct l1; [|simpl in Hk; lia]. eexists _, w. split; [done|]. split; [done|]. split; [by split_and!|]. by exists l0, [], rid.
  - destruct l1 as [|r l1]. { eexists _, w. split; [done|]. split; [done|]. split; [by split_and!|]. by exists l0, [], rid. }
    rewrite bool_decide_eq_false_2 by done. simpl in Ha. subst rid. destruct (table_rid_in r l0 l1 El) as [bs Hb].
    destruct (get_record_read w r bs Hw Hb) as (w1 & E1 & Hw1). run E1.
    rewrite Ec, Eco, Hconds, (st_bind_ret (lift_outcome _) _ w1 (satisfies cols conds bs) w1) by done.
    assert (rid_matches r = satisfies cols conds bs) as Em by (unfold rid_matches; by rewrite Hb). rewrite <- Em.
    destruct (rid_matches r) eqn:Er; cbn [andb].
    + eexists _, w1. split; [done|]. split; [done|]. split; [by split_and!|]. by exists l0, (r :: l1), r.
    + destruct (scan_next_read w1 l0 r l1 Hw1 El) as (rid & w2 & E2 & Hw2 & Ha2). run E2.
      rewrite filter_cons_False by by rewrite Er. rewrite (cons_middle r l0 l1), app_assoc in El.
      apply (IH (l0 ++ [r])); try done. simpl in Hk. lia.
Qed.

Lemma scan_turns_enough w : reading w → (length (table_rids C t) ≤ scan_turns h)%nat.
Proof using Hf.
  intros (Ew & Ht & _). destruct (t_file _ _ _ Ht t fd h) as (pgs & l & [_ Hm] & Hc); [rewrite Ew; exact Hf|].
  rewrite <- (all_rids_table h pgs C t Hc). apply all_rids_length; apply Hm.
Qed.

Lemma rows_of_matching l : (∀ r, r ∈ l → is_Some (C !! (t, r))) → length (rows_of l) = length l.
Proof using.
  induction l as [|r l IH]; intros Hl; [done|]. destruct (Hl r) as [bs Hb]; [by left|]. unfold rows_of. simpl. rewrite Hb. simpl.
  f_equal. apply IH. intros. apply Hl. by right.
Qed.

Lemma seq_at_cons e b rows : seq_at e (b :: rows) → ∃ r l, seq_at_rids e (r :: l) ∧ C !! (t, r) = Some b ∧ rows = rows_of l ∧
  ss_rid e = r ∧ ∃ l0 l1, ss_scan e = Some r ∧ table_rids C t = l0 ++ r :: l1 ∧ l = filter (λ r, rid_matches r = true) l1.
Proof using.
  intros (l & Ha & Eb). pose proof Ha as (Hs & l0 & l1 & rid & Es & El & Har & -> & Hm).
  destruct l1 as [|r l1]; [done|]. destruct Hm as [Hm Er]. simpl in Har. subst rid.
  rewrite filter_cons_True in Ha, Eb by done. destruct (table_rid_in r l0 l1 El) as [bs Hb].
  unfold rows_of in Eb. simpl in Eb. rewrite Hb in Eb. injection Eb as -> ->. exists r. eexists. split_and!; [exact Ha|done..|].
  by exists l0, l1.
Qed.

Lemma seq_at_end e rows w : seq_at e rows → reading w → seq_is_end e w = (Ret (bool_decide (rows = [])), w).
Proof using Hf.
  intros (l & (Hs & l0 & l1 & rid & Es & El & Har & -> & Hm) & ->) Hw. unfold seq_is_end. rewrite Es, (proj1 Hs).
  run (table_hdr_read w Hw). rewrite (at_rid_end w l0 l1 rid Hw El Har). do 2 f_equal. destruct l1 as [|r l1]; [done|].
  destruct Hm as [Hm _]. rewrite filter_cons_True by done. destruct (table_rid_in r l0 l1 El) as [bs Hb].
  unfold rows_of. simpl. rewrite Hb. done.
Qed.

Lemma seq_at_rids_cons e r l : seq_at_rids e (r :: l) → ss_rid e = r ∧
  ∃ l0 l1, ss_scan e = Some r ∧ table_rids C t = l0 ++ r :: l1 ∧ l = filter (λ r, rid_matches r = true) l1.
Proof using.
  intros (_ & l0 & l1 & rid & Es & El & Har & Ef & Hm). destruct l1 as [|r1 l1]; [done|]. destruct Hm as [Hm Er]. simpl in Har. subst rid.
  rewrite filter_cons_True in Ef by done. injection Ef as -> ->. split; [done|]. by exists l0, l1.
Qed.

Lemma seq_rids_next e r l w : seq_at_rids e (r :: l) → reading w →
  ∃ e' w', seq_nextTuple e w = (Ret e', w') ∧ reading w' ∧ seq_at_rids e' l.
Proof using Hf Hconds.
  intros Ha Hw. pose proof (seq_at_end e (rows_of (r :: l)) w ltac:(by eexists) Hw) as E0.
  pose proof (proj1 Ha) as Hs. apply seq_at_rids_cons in Ha as (_ & l0 & l1 & Es & El & El1).
  destruct (table_rid_in r l0 l1 El) as [bs Hb]. unfold rows_of in E0. simpl in E0. rewrite Hb in E0.
  unfold seq_nextTuple. rewrite (proj1 Hs). run (table_hdr_read w Hw). run E0. rewrite bool_decide_eq_false_2 by done. rewrite Es.
  destruct (scan_next_read w l0 r l1 Hw El) as (rid & w1 & E1 & Hw1 & Ha1). run E1.
  destruct (seq_loop_spec (scan_turns h) e (l0 ++ [r]) l1 rid w1) as (e' & w2 & E2 & Hw2 & Ha2); try done.
  - by rewrite El, <- app_assoc.
  - pose proof (scan_turns_enough w Hw) as Hn. rewrite El, length_app in Hn. simpl in Hn. lia.
  - exists e', w2. rewrite El1 in *. by split_and!.
Qed.

Lemma seq_next_spec e b rows w : seq_at e (b :: rows) → reading w →
  ∃ e' w' r l, seq_nextTuple e w = (Ret e', w') ∧ reading w' ∧ seq_at_rids e (r :: l) ∧ seq_at_rids e' l ∧ rows = rows_of l.
Proof using Hf Hconds.
  intros Ha Hw. apply seq_at_cons in Ha as (r & l & Ha & _ & -> & _). destruct (seq_rids_next e r l w Ha Hw) as (e' & w' & E & Hw' & Ha').
  by exists e', w', r, l.
Qed.

Lemma seq_begin_spec e w : seq_static e → reading w →
  ∃ e' w', seq_beginTuple e w = (Ret e', w') ∧ reading w' ∧ seq_at_rids e' scan_rids.
Proof using Hf Hconds.
  intros Hs Hw. unfold seq_beginTuple. rewrite (proj1 Hs). destruct (scan_begin_read w Hw) as (rid & w1 & E1 & Hw1 & Ha).
  run E1. run (table_hdr_read w1 Hw1). apply (seq_loop_spec _ e [] _ rid w1); try done. by eapply scan_turns_enough.
Qed.

Lemma seq_source : source reading cols len scan_rows 0 seq_static seq_at.
Proof using Hf Hconds Hlen Hrows.
  split.
  - intros e w fuel Hs Hw _. destruct (seq_begin_spec e w Hs Hw) as (e' & w' & E1 & Hw' & Ha). exists e', w'.
    split_and!; [done|done|by exists scan_rids].
  - by intros e l (? & (? & _) & _).
  - intros e l w Ha Hw. exists w. split; [|done]. by apply seq_at_end.
  - intros e b l w Ha Hw. pose proof (seq_at_end e _ w Ha Hw) as E0.
    apply seq_at_cons in Ha as (r & l' & Ha & Hb & _ & Er & _). destruct (get_record_read w r b Hw Hb) as (w1 & E1 & Hw1).
    exists w1. split; [|done]. simpl. run E0. rewrite bool_decide_eq_false_2 by done. rewrite (proj1 (proj1 Ha)), Er. by run E1.
  - intros e b l w fuel Ha Hw _. destruct (seq_next_spec e b l w Ha Hw) as (e' & w' & r & l' & E1 & Hw' & _ & Ha' & ->).
    exists e', w'. split_and!; [done|done|by exists l'].
  - intros e rows (l & (_ & l0 & l1 & _ & _ & El & _ & -> & _) & ->). exists (rows_of (filter (λ r, rid_matches r = true) l0)).
    unfold scan_rows, scan_rids, rows_of. by rewrite El, filter_app, omap_app.
  - by intros e (_ & ? & _).
  - by intros e (_ & _ & ? & _).
  - apply Forall_forall. intros b (r & _ & Hb)%list_elem_of_omap. by eapply Hrows.
  - done.
Qed.

End SeqScan.
End Table.
End Reading.
