(* ===== verification/Dml.v ===== *)
(** * Data changes (src/src/execution/executor_{insert,delete,update}.h)

    The executors of INSERT, DELETE and UPDATE.  Only their Next is called; each
    locks its table when it is made, and logs and remembers every write. *)

From S2P Require Import Prelude Defs Text SmMeta Values Replacer Posix DiskManager BufferPool RmFile IxNode IxIndex IxManager SmManager Txn LockManager LogRecord LogManager TxnManager Executor ScanExec.

Section Dml.
Context {R OS : Type} `{Replacer R, Posix OS}.
Variable buffer_size : Z.   (* LOG_BUFFER_SIZE *)
Abbreviation world := (Rmdb R OS).
Abbreviation pool := (BPM R (DiskManager OS)).

(** The log record of a write and the flush behind it, given a log manager. *)
Definition log_write (c : Context) (id : Z) (record : LogRecord) : ST world unit :=
  if log_mgr_ c then log_for_txn buffer_size id record ;; flush_log buffer_size else mret tt.
Definition remember (id : Z) (w : WriteRecord) : ST world unit := modify_txn id (append_write_record w).
(** if (context_->txn_ != nullptr) ... *)
Definition for_txn (c : Context) (m : Z → ST world unit) : ST world unit :=
  match txn_ c with Some id => m id | None => mret tt end.

(* ------------------------------------------------------------------ *)
(** ** Insert                                                           *)
(* ------------------------------------------------------------------ *)

Record InsertExecutor := mkInsert { in_tab : TabMeta; in_values : list Value; in_tab_name : string }.

Definition new_InsertExecutor (tab_name : string) (values : list Value) (c : Context) : ST world InsertExecutor :=
  tab ← find_table tab_name;
  if negb (length values =? length (tm_cols tab))%nat then throw InvalidValueCountError else
  lock_on_table lock_exclusive_on_table c tab_name ;;
  mret (mkInsert tab values tab_name).

(** The bytes of a value in a column, written into a record: the cast, init_raw
    and memcpy that Insert and Update share. *)
Definition write_value (v : Value) (col : ColMeta) (record : list Z) : outcome (list Z) :=
  v ← cast_value_to_col_type v col;
  v ← init_raw (cm_len col) v;
  bs ← deref (raw v);
  Ret (splice (Z.to_nat (cm_offset col)) (take (Z.to_nat (cm_len col)) bs) record).

Fixpoint write_values (values : list Value) (cols : list ColMeta) (record : list Z) : outcome (list Z) :=
  match values, cols with
  | [], _ => Ret record
  | v :: values', col :: cols' => record ← write_value v col record; write_values values' cols' record
  | _, [] => Throw OutOfRange
  end.

Definition insert_Next (e : InsertExecutor) (c : Context) : ST world Rid :=
  let tab_name := in_tab_name e in
  h ← table_hdr tab_name;
  rec ← lift_outcome (write_values (in_values e) (tm_cols (in_tab e)) (replicate (Z.to_nat (record_size h)) 0));
  for_each (λ index,
    at_ih (get_index_name_cols tab_name (im_cols index)) (λ fd,
      ensure_index_key_unique fd (build_index_key index rec) None)) (tm_indexes (in_tab e)) ;;
  rid ← on_fh tab_name (λ fd, insert_record fd rec);
  for_txn c (λ id,
    log_write c id (new_insert id rec rid tab_name) ;;
    remember id (write_record_insert tab_name rid)) ;;
  for_each (λ index,
    at_ih (get_index_name_cols tab_name (im_cols index)) (λ fd,
      insert_entry fd (build_index_key index rec) rid ;; mret tt)) (tm_indexes (in_tab e)) ;;
  mret rid.

(* ------------------------------------------------------------------ *)
(** ** Delete                                                           *)
(* ------------------------------------------------------------------ *)

Record DeleteExecutor := mkDelete { de_tab : TabMeta; de_rids : list Rid; de_tab_name : string }.

Definition new_DeleteExecutor (tab_name : string) (rids : list Rid) (c : Context) : ST world DeleteExecutor :=
  tab ← find_table tab_name;
  lock_on_table lock_exclusive_on_table c tab_name ;;
  mret (mkDelete tab rids tab_name).

(** The body of the loop for one record *)
Definition delete_one (tab : TabMeta) (tab_name : string) (c : Context) (rid : Rid) : ST world unit :=
  record ← on_fh tab_name (λ fd, get_record fd rid);
  for_txn c (λ id,
    log_write c id (new_delete id record rid tab_name) ;;
    remember id (mkWriteRecord DELETE_TUPLE tab_name rid record)) ;;
  on_system (delete_index_entries tab tab_name record) ;;
  on_fh tab_name (λ fd, delete_record fd rid).
Definition delete_Next (e : DeleteExecutor) (c : Context) : ST world unit :=
  for_each (delete_one (de_tab e) (de_tab_name e) c) (de_rids e).

(* ------------------------------------------------------------------ *)
(** ** Update                                                           *)
(* ------------------------------------------------------------------ *)

Record UpdateExecutor := mkUpdate {
  up_tab : TabMeta; up_rids : list Rid; up_tab_name : string; set_clauses_ : list SetClause }.

Definition new_UpdateExecutor (tab_name : string) (set_clauses : list SetClause) (rids : list Rid) (c : Context)
    : ST world UpdateExecutor :=
  tab ← find_table tab_name;
  lock_on_table lock_exclusive_on_table c tab_name ;;
  mret (mkUpdate tab rids tab_name set_clauses).

Fixpoint apply_sets (tab : TabMeta) (sets : list SetClause) (record : list Z) : outcome (list Z) :=
  match sets with
  | [] => Ret record
  | sc :: sets' =>
      col ← get_col tab (tc_col (sc_lhs sc));
      record ← write_value (sc_rhs sc) col record;
      apply_sets tab sets' record
  end.

(** if (memcmp(old_key, new_key) != 0) for every index *)
Definition for_changed_keys (tab : TabMeta) (tab_name : string) (old new : list Z)
    (m : Z → list Z → list Z → ST (IxIndex pool) unit) : ST world unit :=
  on_system (for_each (λ index,
    let old_key := build_index_key index old in
    let new_key := build_index_key index new in
    with_ih (get_index_name_cols tab_name (im_cols index)) (λ fd,
      if negb (memcmp (Z.to_nat (im_col_tot_len index)) old_key new_key =? 0) then m fd old_key new_key else mret tt))
    (tm_indexes tab)).

Definition update_one (e : UpdateExecutor) (c : Context) (rid : Rid) : ST world unit :=
  let tab := up_tab e in
  let tab_name := up_tab_name e in
  old_record ← on_fh tab_name (λ fd, get_record fd rid);
  for_txn c (λ id, remember id (mkWriteRecord UPDATE_TUPLE tab_name rid old_record)) ;;
  new_record ← lift_outcome (apply_sets tab (set_clauses_ e) old_record);
  for_changed_keys tab tab_name old_record new_record (λ fd _ new_key,
    ensure_index_key_unique fd new_key (Some rid)) ;;
  for_changed_keys tab tab_name old_record new_record (λ fd old_key new_key,
    delete_entry fd old_key ;; insert_entry fd new_key rid ;; mret tt) ;;
  for_txn c (λ id, log_write c id (new_update id old_record new_record rid tab_name)) ;;
  on_fh tab_name (λ fd, update_record fd rid new_record).
Definition update_Next (e : UpdateExecutor) (c : Context) : ST world unit := for_each (update_one e c) (up_rids e).

End Dml.
