(* ===== verification/Ast.v ===== *)
(** * Syntax trees (src/src/parser/ast.h)

    The tree nodes the parser builds.  The lexer and the parser are generated
    code and not modelled.  A float literal is its 32 bits. *)

From S2P Require Import Prelude Defs.

Inductive JoinType := INNER_JOIN | LEFT_JOIN | RIGHT_JOIN | FULL_JOIN.
Inductive SvType := SV_TYPE_INT | SV_TYPE_BIGINT | SV_TYPE_FLOAT | SV_TYPE_STRING | SV_TYPE_DATETIME | SV_TYPE_BOOL.
Inductive SvCompOp := SV_OP_EQ | SV_OP_NE | SV_OP_LT | SV_OP_GT | SV_OP_LE | SV_OP_GE.
Inductive OrderByDir := OrderBy_DEFAULT | OrderBy_ASC | OrderBy_DESC.
#[export] Instance OrderByDir_eq_dec : EqDecision OrderByDir.
Proof. solve_decision. Defined.
Inductive AggFuncType := AggFunc_COUNT | AggFunc_MAX | AggFunc_MIN | AggFunc_SUM.
Inductive SetKnobType := EnableNestLoop | EnableSortMerge.

(** ast::ColDef with its TypeLen, the only Field *)
Record AstColDef := mkAstColDef { acd_name : string; acd_type : SvType; acd_len : Z }.

(** ast::Value and its subclasses *)
Inductive AstValue :=
  | IntLit (v : Z)
  | FloatLit (v : Z)
  | StringLit (v : list Z)
  | BoolLit (v : bool).

Record AstCol := mkAstCol { ac_tab : string; ac_col : string }.
Inductive AstExpr := ExprValue (v : AstValue) | ExprCol (c : AstCol).
Record AstSetClause := mkAstSet { as_col : string; as_val : AstValue }.
Record BinaryExpr := mkBinary { be_lhs : AstCol; be_op : SvCompOp; be_rhs : AstExpr }.
Record AggFunc := mkAggFunc { af_type : AggFuncType; af_count_star : bool; af_col : AstCol; af_alias : string }.
Record OrderBy := mkOrderBy { ob_col : AstCol; orderby_dir : OrderByDir }.

(** ast::SelectStmt; has_aggregate, has_sort and has_limit are what its
    constructor sets, the join tree is always empty. *)
Record SelectStmt := mkSelect {
  sel_cols : list AstCol;
  sel_aggs : list AggFunc;
  sel_tabs : list string;
  sel_conds : list BinaryExpr;
  sel_orders : list OrderBy;
  sel_limit : Z
}.
Definition sel_has_aggregate (x : SelectStmt) : bool := negb (match sel_aggs x with [] => true | _ => false end).
Definition sel_has_sort (x : SelectStmt) : bool := negb (match sel_orders x with [] => true | _ => false end).
Definition sel_has_limit (x : SelectStmt) : bool := 0 <=? sel_limit x.

Inductive TreeNode :=
  | Help
  | ShowTables
  | ShowIndex (tab_name : string)
  | TxnBegin
  | TxnCommit
  | TxnAbort
  | TxnRollback
  | CreateTable (tab_name : string) (fields : list AstColDef)
  | DropTable (tab_name : string)
  | DescTable (tab_name : string)
  | CreateIndex (tab_name : string) (col_names : list string)
  | DropIndex (tab_name : string) (col_names : list string)
  | InsertStmt (tab_name : string) (vals : list AstValue)
  | DeleteStmt (tab_name : string) (conds : list BinaryExpr)
  | UpdateStmt (tab_name : string) (set_clauses : list AstSetClause) (conds : list BinaryExpr)
  | SelectNode (stmt : SelectStmt)
  | SetStmt (knob : SetKnobType) (bool_val : bool).
