(* ===== verification/Analyze.v ===== *)
(** * Semantic analysis (src/src/analyze/analyze.{h,cpp})

    Names are resolved against the catalog, literals cast to the columns they are
    compared with or assigned to. *)

From S2P Require Import Prelude Defs Text Datetime SmMeta Values Ast.

(* ------------------------------------------------------------------ *)
(** ** Types and casts                                                  *)
(* ------------------------------------------------------------------ *)

Definition is_compatible_type (lhs_type rhs_type : ColType) : bool :=
  bool_decide (lhs_type = rhs_type) ||
  (bool_decide (lhs_type = TYPE_DATETIME) && bool_decide (rhs_type = TYPE_STRING)) ||
  (bool_decide (lhs_type = TYPE_STRING) && bool_decide (rhs_type = TYPE_DATETIME)) ||
  (is_numeric_type lhs_type && is_numeric_type rhs_type).

Definition is_sum_supported_type (t : ColType) : bool :=
  match t with TYPE_INT | TYPE_BIGINT | TYPE_FLOAT => true | _ => false end.

Definition default_aggregate_alias (type : AggType) (col : TabCol) (is_count_star : bool) : string :=
  match type with
  | AGG_COUNT => if is_count_star then "COUNT(*)" else "COUNT(" +:+ tc_col col +:+ ")"
  | AGG_MAX => "MAX(" +:+ tc_col col +:+ ")"
  | AGG_MIN => "MIN(" +:+ tc_col col +:+ ")"
  | AGG_SUM => "SUM(" +:+ tc_col col +:+ ")"
  end.

(** The cast by target type.  A DATETIME value, which the union would give as a
    float, fails for every target it reaches. *)
Definition cast_value_to_type (v : Value) (target : ColType) : outcome Value :=
  let incompatible : outcome Value := Throw (IncompatibleTypeError (coltype2str target) (coltype2str (val_type v))) in
  if bool_decide (val_type v = target) then Ret v else
  if bool_decide (target = TYPE_DATETIME) then
    match val v with
    | VStr s => e ← parse_datetime_string s; Ret (set_datetime e v)
    | _ => incompatible
    end
  else if negb (is_compatible_type (val_type v) target) then incompatible else
  numeric ← match val v with
            | VInt z => Ret (int_to_ld z)
            | VBigint z => Ret (int_to_ld z)
            | VFloat f => Ret (float_to_ld f)
            | _ => Throw (IncompatibleTypeError (coltype2str target) (coltype2str (val_type v)))
            end;
  match target with
  | TYPE_FLOAT => Ret (set_float (ld_to_float numeric) v)
  | TYPE_INT =>
      if ld_lt numeric (int_to_ld int32_min) || ld_gt numeric (int_to_ld int32_max)
      then Throw (NumericOverflowError (coltype2str target))
      else Ret (set_int (wrap_s 32 (ld_trunc numeric)) v)
  | TYPE_BIGINT =>
      if ld_lt numeric (int_to_ld int64_min) || ld_gt numeric (int_to_ld int64_max)
      then Throw (NumericOverflowError (coltype2str target))
      else Ret (set_bigint (ld_trunc numeric) v)
  | _ => incompatible
  end.

(* ------------------------------------------------------------------ *)
(** ** Conversions from the tree                                        *)
(* ------------------------------------------------------------------ *)

(** class Query *)
Record Query := mkQuery {
  q_parse : TreeNode;
  q_conds : list Condition;
  q_cols : list TabCol;
  q_aggregates : list AggregateExpr;
  q_has_aggregate : bool;
  q_tables : list string;
  q_set_clauses : list SetClause;
  q_values : list Value
}.

Definition no_col : TabCol := mkTabCol "" "".
(** A Value that has not been set. *)
Definition no_value : Value := mkValue (VInt 0) None.
Definition tab_col (c : AstCol) : TabCol := mkTabCol (ac_tab c) (ac_col c).

Definition convert_sv_value (v : AstValue) : outcome Value :=
  match v with
  | IntLit z => Ret (set_bigint z no_value)
  | FloatLit f => Ret (set_float f no_value)
  | StringLit s => Ret (set_str s no_value)
  | BoolLit _ => Throw (InternalError "Unexpected sv value type")
  end.

Definition convert_sv_comp_op (o : SvCompOp) : CompOp :=
  match o with
  | SV_OP_EQ => OP_EQ | SV_OP_NE => OP_NE | SV_OP_LT => OP_LT
  | SV_OP_GT => OP_GT | SV_OP_LE => OP_LE | SV_OP_GE => OP_GE
  end.

Definition convert_sv_agg_type (t : AggFuncType) : AggType :=
  match t with
  | AggFunc_COUNT => AGG_COUNT | AggFunc_MAX => AGG_MAX | AggFunc_MIN => AGG_MIN | AggFunc_SUM => AGG_SUM
  end.

Definition get_clause1 (e : BinaryExpr) : outcome Condition :=
  let lhs := tab_col (be_lhs e) in
  let o := convert_sv_comp_op (be_op e) in
  match be_rhs e with
  | ExprValue v => v ← convert_sv_value v; Ret (mkCond lhs o true no_col v)
  | ExprCol c => Ret (mkCond lhs o false (tab_col c) no_value)
  end.
Definition get_clause (l : list BinaryExpr) : outcome (list Condition) := map_out get_clause1 l.

(* ------------------------------------------------------------------ *)
(** ** Resolution                                                       *)
(* ------------------------------------------------------------------ *)

(** The table a bare column name belongs to; [found] is tab_name. *)
Fixpoint infer_table (all_cols : list ColMeta) (col_name found : string) : outcome string :=
  match all_cols with
  | [] => Ret found
  | col :: all_cols' =>
      if bool_decide (cm_name col = col_name) then
        if negb (bool_decide (found = "")) then Throw (AmbiguousColumnError col_name)
        else infer_table all_cols' col_name (cm_tab_name col)
      else infer_table all_cols' col_name found
  end.

Definition check_column (all_cols : list ColMeta) (target : TabCol) : outcome TabCol :=
  if bool_decide (tc_tab target = "") then
    tab_name ← infer_table all_cols (tc_col target) "";
    if bool_decide (tab_name = "") then Throw (ColumnNotFoundError (tc_col target))
    else Ret (mkTabCol tab_name (tc_col target))
  else
    _ ← find_col_meta all_cols target;
    Ret target.

Section Analyze.
Variable db : DbMeta.

Definition get_all_cols (tab_names : list string) : outcome (list ColMeta) :=
  cols ← map_out (λ t, tab ← get_table db t; Ret (tm_cols tab)) tab_names;
  Ret (concat cols).

(** db_.get_table(col.tab_name).get_col(col.col_name) *)
Definition lookup_col (col : TabCol) : outcome ColMeta :=
  tab ← get_table db (tc_tab col);
  get_col tab (tc_col col).

Definition check_cond (all_cols : list ColMeta) (cond : Condition) : outcome Condition :=
  lhs ← check_column all_cols (lhs_col cond);
  rhs ← (if is_rhs_val cond then Ret (rhs_col cond) else check_column all_cols (rhs_col cond));
  lhs_meta ← lookup_col lhs;
  '(v, rhs_type) ←
    (if is_rhs_val cond then
       v ← cast_value_to_type (rhs_val cond) (cm_type lhs_meta);
       v ← init_raw (cm_len lhs_meta) v;
       Ret (v, val_type v)
     else
       rhs_meta ← lookup_col rhs;
       Ret (rhs_val cond, cm_type rhs_meta));
  if negb (is_compatible_type (cm_type lhs_meta) rhs_type)
  then Throw (IncompatibleTypeError (coltype2str (cm_type lhs_meta)) (coltype2str rhs_type))
  else Ret (mkCond lhs (op cond) (is_rhs_val cond) rhs v).

Definition check_clause (tab_names : list string) (conds : list Condition) : outcome (list Condition) :=
  all_cols ← get_all_cols tab_names;
  map_out (check_cond all_cols) conds.

(** get_clause and check_clause, as every statement with a WHERE calls them *)
Definition where_clause (tab_names : list string) (sv_conds : list BinaryExpr) : outcome (list Condition) :=
  conds ← get_clause sv_conds;
  check_clause tab_names conds.

Definition analyze_agg (all_cols : list ColMeta) (f : AggFunc) : outcome AggregateExpr :=
  let type := convert_sv_agg_type (af_type f) in
  col ← (if af_count_star f then Ret no_col
         else
           col ← check_column all_cols (tab_col (af_col f));
           meta ← lookup_col col;
           if bool_decide (type = AGG_SUM) && negb (is_sum_supported_type (cm_type meta))
           then Throw (IncompatibleTypeError "SUM" (coltype2str (cm_type meta)))
           else Ret col);
  let alias := if bool_decide (af_alias f = "") then default_aggregate_alias type col (af_count_star f) else af_alias f in
  Ret (mkAgg type (af_count_star f) col alias).

(** The selected columns and the aggregates *)
Definition select_list (all_cols : list ColMeta) (x : SelectStmt) : outcome (list TabCol * list AggregateExpr) :=
  if sel_has_aggregate x then
    aggs ← map_out (analyze_agg all_cols) (sel_aggs x);
    Ret (map (λ a, mkTabCol "" (agg_alias a)) aggs, aggs)
  else
    cols ← match sel_cols x with
           | [] => Ret (map (λ c, mkTabCol (cm_tab_name c) (cm_name c)) all_cols)
           | l => map_out (check_column all_cols) (map tab_col l)
           end;
    Ret (cols, []).

Definition analyze_select (parse : TreeNode) (x : SelectStmt) : outcome Query :=
  _ ← map_out (get_table db) (sel_tabs x);
  all_cols ← get_all_cols (sel_tabs x);
  '(cols, aggs) ← select_list all_cols x;
  conds ← where_clause (sel_tabs x) (sel_conds x);
  Ret (mkQuery parse conds cols aggs (sel_has_aggregate x) (sel_tabs x) [] []).

Definition analyze_set (tab_name : string) (sc : AstSetClause) : outcome SetClause :=
  all_cols ← get_all_cols [tab_name];
  lhs ← check_column all_cols (mkTabCol tab_name (as_col sc));
  v ← convert_sv_value (as_val sc);
  tab ← get_table db tab_name;
  col ← get_col tab (tc_col lhs);
  v ← cast_value_to_type v (cm_type col);
  Ret (mkSet lhs v).

Definition do_analyze (parse : TreeNode) : outcome Query :=
  match parse with
  | SelectNode x => analyze_select parse x
  | UpdateStmt tab_name sets conds =>
      _ ← get_table db tab_name;
      sets ← map_out (analyze_set tab_name) sets;
      conds ← where_clause [tab_name] conds;
      Ret (mkQuery parse conds [] [] false [tab_name] sets [])
  | DeleteStmt tab_name conds =>
      _ ← get_table db tab_name;
      conds ← where_clause [tab_name] conds;
      Ret (mkQuery parse conds [] [] false [] [] [])
  | InsertStmt tab_name vals =>
      _ ← get_table db tab_name;
      vals ← map_out convert_sv_value vals;
      Ret (mkQuery parse [] [] [] false [] [] vals)
  | _ => Ret (mkQuery parse [] [] [] false [] [] [])
  end.

End Analyze.
