(* ===== verification/Planner.v ===== *)
(** * Query plans (src/src/optimizer/plan.h, planner.{h,cpp}, optimizer.h)

    The plan classes and how the planner builds a plan for a query. *)

From S2P Require Import Prelude Defs Text SmMeta Values Ast Analyze SmManager ScanExec Executor.

Inductive PlanTag :=
  | T_Invalid | T_Help | T_ShowTable | T_ShowIndex | T_DescTable | T_CreateTable | T_DropTable | T_CreateIndex
  | T_DropIndex | T_SetKnob | T_Insert | T_Update | T_Delete | T_select | T_Transaction_begin
  | T_Transaction_commit | T_Transaction_abort | T_Transaction_rollback | T_SeqScan | T_IndexScan | T_NestLoop
  | T_SortMerge | T_Sort | T_Aggregate | T_Projection.
#[export] Instance PlanTag_eq_dec : EqDecision PlanTag.
Proof. solve_decision. Defined.

(** class Plan and its subclasses; [NoPlan] is a null pointer. *)
Inductive Plan :=
  | NoPlan
  | ScanPlan (tag : PlanTag) (tab_name : string) (cols : list ColMeta) (conds : list Condition) (len : Z)
      (index_col_names : list string)
  | JoinPlan (tag : PlanTag) (left right : Plan) (conds : list Condition) (type : JoinType)
  | ProjectionPlan (tag : PlanTag) (subplan : Plan) (sel_cols : list TabCol)
  | SortPlan (tag : PlanTag) (subplan : Plan) (sort_keys : list SortKey) (limit : Z)
  | AggregatePlan (tag : PlanTag) (subplan : Plan) (aggregates : list AggregateExpr) (sel_cols : list TabCol)
  | DMLPlan (tag : PlanTag) (subplan : Plan) (tab_name : string) (values : list Value) (conds : list Condition)
      (set_clauses : list SetClause)
  | DDLPlan (tag : PlanTag) (tab_name : string) (col_names : list string) (cols : list ColDef)
  | OtherPlan (tag : PlanTag) (tab_name : string)
  | SetKnobPlan (knob : SetKnobType) (bool_value : bool).

Definition is_null (p : Plan) : bool := match p with NoPlan => true | _ => false end.

(** The knobs of class Planner *)
Record Planner := mkPlanner { enable_nestedloop_join : bool; enable_sortmerge_join : bool }.
Definition new_Planner : Planner := mkPlanner true false.
Definition set_enable_nestedloop_join (b : bool) (p : Planner) : Planner := mkPlanner b (enable_sortmerge_join p).
Definition set_enable_sortmerge_join (b : bool) (p : Planner) : Planner := mkPlanner (enable_nestedloop_join p) b.

Definition interp_sv_type (t : SvType) : outcome ColType :=
  match t with
  | SV_TYPE_INT => Ret TYPE_INT | SV_TYPE_BIGINT => Ret TYPE_BIGINT | SV_TYPE_FLOAT => Ret TYPE_FLOAT
  | SV_TYPE_STRING => Ret TYPE_STRING | SV_TYPE_DATETIME => Ret TYPE_DATETIME
  | SV_TYPE_BOOL => Throw OutOfRange
  end.

(* ------------------------------------------------------------------ *)
(** ** Choice of an index                                               *)
(* ------------------------------------------------------------------ *)

Definition on_col (tab_name col_name : string) (cond : Condition) : bool :=
  is_rhs_val cond && bool_decide (tc_tab (lhs_col cond) = tab_name) && bool_decide (tc_col (lhs_col cond) = col_name).
Definition has_eq_cond_for_col (conds : list Condition) (tab_name col_name : string) : bool :=
  existsb (λ c, on_col tab_name col_name c && bool_decide (op c = OP_EQ)) conds.
Definition has_range_cond_for_col (conds : list Condition) (tab_name col_name : string) : bool :=
  existsb (λ c, on_col tab_name col_name c && negb (bool_decide (op c = OP_EQ)) && negb (bool_decide (op c = OP_NE))) conds.

(** exact_prefix stays true in the loop, which stops at the first column that has
    no equality. *)
Fixpoint calc_index_prefix_match (cols : list ColMeta) (conds : list Condition) (tab_name : string) : Z :=
  match cols with
  | [] => 0
  | col :: cols' =>
      if has_eq_cond_for_col conds tab_name (cm_name col) then 1 + calc_index_prefix_match cols' conds tab_name
      else if has_range_cond_for_col conds tab_name (cm_name col) then 1 else 0
  end.

Fixpoint best_index (indexes : list IndexMeta) (conds : list Condition) (tab_name : string) (best_prefix : Z)
    (names : list string) : Z * list string :=
  match indexes with
  | [] => (best_prefix, names)
  | index :: indexes' =>
      let prefix_len := calc_index_prefix_match (im_cols index) conds tab_name in
      if best_prefix <? prefix_len then best_index indexes' conds tab_name prefix_len (cm_name <$> im_cols index)
      else best_index indexes' conds tab_name best_prefix names
  end.

(* ------------------------------------------------------------------ *)
(** ** Conditions and scans                                             *)
(* ------------------------------------------------------------------ *)

(** pop_conds: the conditions for one table, and those left *)
Definition solved_by (tab_name : string) (c : Condition) : bool :=
  (bool_decide (tab_name = tc_tab (lhs_col c)) && is_rhs_val c) ||
  bool_decide (tc_tab (lhs_col c) = tc_tab (rhs_col c)).
Definition pop_conds (conds : list Condition) (tab_name : string) : list Condition * list Condition :=
  (filter (λ c, solved_by tab_name c = true) conds, filter (λ c, solved_by tab_name c = false) conds).

(** push_conds: the result, and the plan with the condition in it when that is 3 *)
Fixpoint push_conds (cond : Condition) (plan : Plan) : Z * Plan :=
  match plan with
  | ScanPlan _ tab_name _ _ _ _ =>
      (if bool_decide (tab_name = tc_tab (lhs_col cond)) then 1
       else if bool_decide (tab_name = tc_tab (rhs_col cond)) then 2 else 0, plan)
  | JoinPlan tag l r conds type =>
      let '(left_res, l') := push_conds cond l in
      if left_res =? 3 then (3, JoinPlan tag l' r conds type) else
      let '(right_res, r') := push_conds cond r in
      if right_res =? 3 then (3, JoinPlan tag l r' conds type) else
      if (left_res =? 0) || (right_res =? 0) then (left_res + right_res, plan) else
      let cond := if left_res =? 2 then swap_cond cond else cond in
      (3, JoinPlan tag l r (conds ++ [cond]) type)
  | _ => (0, plan)
  end.

(** The table of a scan plan *)
Definition plan_tab (p : Plan) : string := match p with ScanPlan _ t _ _ _ _ => t | _ => "" end.

(** The state of make_one_rel: scantbl, joined_tables *)
Record JoinState := mkJoinState { scantbl : list Z; joined_tables : list string }.

Definition pop_scan (table : string) (plans : list Plan) (st : JoinState) : Plan * JoinState :=
  match list_find (λ p, plan_tab p = table) plans with
  | Some (i, p) => (p, mkJoinState (<[i := 1]> (scantbl st)) (joined_tables st ++ [plan_tab p]))
  | None => (NoPlan, st)
  end.

Section Planner.
Variable db : DbMeta.

Definition get_index_cols (tab_name : string) (curr_conds : list Condition) : outcome (bool * list string) :=
  tab ← get_table db tab_name;
  let '(best_prefix, names) := best_index (tm_indexes tab) curr_conds tab_name 0 [] in
  Ret (0 <? best_prefix, names).

Definition new_ScanPlan (tag : PlanTag) (tab_name : string) (conds : list Condition) (index_col_names : list string)
    : outcome Plan :=
  tab ← get_table db tab_name;
  len ← row_len (tm_cols tab);
  Ret (ScanPlan tag tab_name (tm_cols tab) conds len index_col_names).

(** The choice between the two scans, for a table of a SELECT and for DELETE and
    UPDATE *)
Definition scan_plan (tab_name : string) (conds : list Condition) : outcome Plan :=
  '(index_exist, index_col_names) ← get_index_cols tab_name conds;
  if negb index_exist then new_ScanPlan T_SeqScan tab_name conds []
  else new_ScanPlan T_IndexScan tab_name conds index_col_names.

Fixpoint scan_plans (tables : list string) (conds : list Condition) : outcome (list Plan * list Condition) :=
  match tables with
  | [] => Ret ([], conds)
  | t :: tables' =>
      let '(curr_conds, conds) := pop_conds conds t in
      p ← scan_plan t curr_conds;
      '(ps, conds) ← scan_plans tables' conds;
      Ret (p :: ps, conds)
  end.

(* ------------------------------------------------------------------ *)
(** ** Joins                                                            *)
(* ------------------------------------------------------------------ *)

Definition nest_loop (left right : Plan) (conds : list Condition) : Plan := JoinPlan T_NestLoop left right conds INNER_JOIN.

(** The first join condition *)
Definition first_join (pl : Planner) (plans : list Plan) (it : Condition) (st : JoinState) : outcome (Plan * JoinState) :=
  let '(l, st) := pop_scan (tc_tab (lhs_col it)) plans st in
  let '(r, st) := pop_scan (tc_tab (rhs_col it)) plans st in
  if enable_nestedloop_join pl then Ret (nest_loop l r [it], st)
  else if enable_sortmerge_join pl then Ret (JoinPlan T_SortMerge l r [it] INNER_JOIN, st)
  else Throw (RMDBError "No join executor selected!").

(** A further condition: join one table, or two, or none to the tree *)
Definition next_join (plans : list Plan) (it : Condition) (tree : Plan) (st : JoinState) : Plan * JoinState :=
  let unjoined t st := negb (bool_decide (t ∈ joined_tables st)) in
  let '(l, st) := if unjoined (tc_tab (lhs_col it)) st then pop_scan (tc_tab (lhs_col it)) plans st else (NoPlan, st) in
  let isneedreverse := unjoined (tc_tab (rhs_col it)) st in
  let '(r, st) := if isneedreverse then pop_scan (tc_tab (rhs_col it)) plans st else (NoPlan, st) in
  if negb (is_null l) && negb (is_null r) then
    (nest_loop (nest_loop l r [it]) tree [], st)
  else if negb (is_null l) || negb (is_null r) then
    let it := if isneedreverse then swap_cond it else it in
    let l := if isneedreverse then r else l in
    (nest_loop l tree [it], st)
  else (snd (push_conds it tree), st).

Fixpoint next_joins (plans : list Plan) (conds : list Condition) (tree : Plan) (st : JoinState) : Plan * JoinState :=
  match conds with
  | [] => (tree, st)
  | it :: conds' => let '(tree, st) := next_join plans it tree st in next_joins plans conds' tree st
  end.

(** The tables no condition has joined *)
Fixpoint join_rest (plans : list Plan) (scantbl : list Z) (tree : Plan) : Plan :=
  match plans, scantbl with
  | p :: plans', s :: scantbl' => join_rest plans' scantbl' (if s =? -1 then nest_loop p tree [] else tree)
  | _, _ => tree
  end.

Definition make_one_rel (pl : Planner) (query : Query) : outcome Plan :=
  let tables := q_tables query in
  '(plans, conds) ← scan_plans tables (q_conds query);
  if (length tables =? 1)%nat then deref (plans !! 0%nat) else
  let st := mkJoinState (replicate (length tables) (-1)) (replicate (length tables) ""%string) in
  '(tree, st) ←
    (match conds with
     | it :: conds' =>
         '(tree, st) ← first_join pl plans it st;
         Ret (next_joins plans conds' tree st)
     | [] => p ← deref (plans !! 0%nat); Ret (p, mkJoinState (<[0%nat := 1]> (scantbl st)) (joined_tables st))
     end);
  Ret (join_rest plans (scantbl st) tree).

(* ------------------------------------------------------------------ *)
(** ** The rest of a SELECT                                             *)
(* ------------------------------------------------------------------ *)

(** resolve_order_col: the same search as check_column for a bare name, and no
    check of a qualified one *)
Definition resolve_order_col (all_cols : list ColMeta) (c : AstCol) : outcome TabCol :=
  if negb (bool_decide (ac_tab c = "")) then Ret (tab_col c) else
  matched_tab ← infer_table all_cols (ac_col c) "";
  if bool_decide (matched_tab = "") then Throw (ColumnNotFoundError (ac_col c))
  else Ret (mkTabCol matched_tab (ac_col c)).

Definition generate_sort_plan (x : SelectStmt) (query : Query) (plan : Plan) : outcome Plan :=
  if negb (sel_has_sort x) && negb (sel_has_limit x) then Ret plan else
  all_cols ← get_all_cols db (q_tables query);
  sort_keys ← map_out (λ o, c ← resolve_order_col all_cols (ob_col o);
                            Ret (mkSortKey c (bool_decide (orderby_dir o = OrderBy_DESC)))) (sel_orders x);
  Ret (SortPlan T_Sort plan sort_keys (sel_limit x)).

Definition physical_optimization (pl : Planner) (x : SelectStmt) (query : Query) : outcome Plan :=
  plan ← make_one_rel pl query;
  generate_sort_plan x query plan.

Definition generate_select_plan (pl : Planner) (x : SelectStmt) (query : Query) : outcome Plan :=
  root ← physical_optimization pl x query;
  Ret (if q_has_aggregate query then AggregatePlan T_Aggregate root (q_aggregates query) (q_cols query)
       else ProjectionPlan T_Projection root (q_cols query)).

Definition plan_col_def (f : AstColDef) : outcome ColDef :=
  t ← interp_sv_type (acd_type f);
  Ret (mkColDef (acd_name f) t (acd_len f)).

Definition do_planner (pl : Planner) (query : Query) : outcome Plan :=
  match q_parse query with
  | CreateTable t fields => cols ← map_out plan_col_def fields; Ret (DDLPlan T_CreateTable t [] cols)
  | DropTable t => Ret (DDLPlan T_DropTable t [] [])
  | CreateIndex t names => Ret (DDLPlan T_CreateIndex t names [])
  | DropIndex t names => Ret (DDLPlan T_DropIndex t names [])
  | InsertStmt t _ => Ret (DMLPlan T_Insert NoPlan t (q_values query) [] [])
  | DeleteStmt t _ =>
      p ← scan_plan t (q_conds query);
      Ret (DMLPlan T_Delete p t [] (q_conds query) [])
  | UpdateStmt t _ _ =>
      p ← scan_plan t (q_conds query);
      Ret (DMLPlan T_Update p t [] (q_conds query) (q_set_clauses query))
  | SelectNode x =>
      projection ← generate_select_plan pl x query;
      Ret (DMLPlan T_select projection "" [] [] [])
  | _ => Throw (InternalError "Unexpected AST root")
  end.

(** Optimizer::plan_query *)
Definition plan_query (pl : Planner) (query : Query) : outcome Plan :=
  match q_parse query with
  | Help => Ret (OtherPlan T_Help "")
  | ShowTables => Ret (OtherPlan T_ShowTable "")
  | ShowIndex t => Ret (OtherPlan T_ShowIndex t)
  | DescTable t => Ret (OtherPlan T_DescTable t)
  | TxnBegin => Ret (OtherPlan T_Transaction_begin "")
  | TxnAbort => Ret (OtherPlan T_Transaction_abort "")
  | TxnCommit => Ret (OtherPlan T_Transaction_commit "")
  | TxnRollback => Ret (OtherPlan T_Transaction_rollback "")
  | SetStmt k b => Ret (SetKnobPlan k b)
  | _ => do_planner pl query
  end.

End Planner.
