(* ===== verification/Portal.v ===== *)
(** * Running plans (src/src/portal.h, src/src/execution/execution_manager.{h,cpp})

    Portal turns a plan into executors, QlManager runs them and prints what they
    give.  The executors work on the server state, QlManager besides on the send
    buffer of the statement and on output.txt. *)

From S2P Require Import Prelude Defs Text Datetime SmMeta Values Replacer Posix DiskManager BufferPool RmFile SmManager Printer Txn LockManager LogManager TxnManager Executor ScanExec Dml Ast Analyze Planner.

(* ------------------------------------------------------------------ *)
(** ** Text of a field                                                  *)
(* ------------------------------------------------------------------ *)

(** The bytes before the first NUL *)
Fixpoint c_str (l : list Z) : list Z :=
  match l with
  | [] => []
  | b :: l' => if b =? 0 then [] else b :: c_str l'
  end.

(** std::to_string(float): the six decimals of printf, the exact value rounded to
    nearest, ties to even *)
Definition micros (m e : Z) : Z :=
  let n := Z.abs m * 10 ^ 6 in
  if 0 <=? e then n * 2 ^ e else
  let q := n / 2 ^ (- e) in
  let r := n mod 2 ^ (- e) in
  let half := 2 ^ (- e - 1) in
  if (half <? r) || ((r =? half) && Z.odd q) then q + 1 else q.
Definition float_text (bits : Z) : list Z :=
  (if Z.testbit bits 31 then [45] else []) ++
  match float_to_ld bits with
  | LNan => bytes_of_string "nan"
  | LInf _ => bytes_of_string "inf"
  | LFin m e => let n := micros m e in to_string (n / 10 ^ 6) ++ [46] ++ zero_pad 6 (n mod 10 ^ 6)
  end.

Definition col_str (record : list Z) (col : ColMeta) : list Z :=
  let rec_buf := drop (Z.to_nat (cm_offset col)) record in
  match cm_type col with
  | TYPE_INT => to_string (load_i32 0 rec_buf)
  | TYPE_BIGINT => to_string (load_i64 0 rec_buf)
  | TYPE_FLOAT => float_text (load_u32 0 rec_buf)
  | TYPE_DATETIME => format_datetime_value (load_i64 0 rec_buf)
  | TYPE_STRING => c_str (take (Z.to_nat (cm_len col)) rec_buf)
  end.

(** A line of output.txt *)
Definition out_line (columns : list (list Z)) : list Z :=
  [124] ++ concat ((λ c, [32] ++ c ++ [32; 124]) <$> columns) ++ [10].

Section Portal.
Context {R OS : Type} `{Replacer R, Posix OS}.
Variable buffer_size : Z.   (* LOG_BUFFER_SIZE *)
Abbreviation world := (Rmdb R OS).

(* ------------------------------------------------------------------ *)
(** ** Portal                                                           *)
(* ------------------------------------------------------------------ *)

(** The class of the object convert_plan_executor makes for a plan: a scan is
    of one of two classes, and what is no query plan gives a null pointer. *)
Fixpoint executor_of (plan : Plan) : Type :=
  match plan with
  | ProjectionPlan _ subplan _ => ProjectionExecutor (executor_of subplan)
  | ScanPlan _ _ _ _ _ _ => SeqScanExecutor + IndexScanExecutor
  | JoinPlan _ l r _ _ => NestedLoopJoinExecutor (executor_of l) (executor_of r)
  | SortPlan _ subplan _ _ => SortExecutor (executor_of subplan)
  | AggregatePlan _ subplan _ _ => AggregateExecutor (executor_of subplan)
  | _ => Empty_set
  end.
#[export] Instance executor_ops : ∀ plan, AbstractExecutor world (executor_of plan) :=
  fix ops plan := match plan with
  | ProjectionPlan _ subplan _ => ProjectionExecutor_ops (H := ops subplan)
  | ScanPlan _ _ _ _ _ _ => sum_ops
  | JoinPlan _ l r _ _ => NestedLoopJoinExecutor_ops (H := ops l) (H0 := ops r)
  | SortPlan _ subplan _ _ => SortExecutor_ops (H := ops subplan)
  | AggregatePlan _ subplan _ _ => AggregateExecutor_ops (H := ops subplan)
  | _ => null_ops world
  end.

(** A null child, which the planner does not make, is dereferenced. *)
Fixpoint convert_plan_executor (plan : Plan) (c : Context) : ST world (executor_of plan) :=
  match plan with
  | ProjectionPlan _ subplan sel_cols =>
      prev ← convert_plan_executor subplan c;
      lift_outcome (new_ProjectionExecutor prev sel_cols)
  | ScanPlan tag tab_name _ conds _ index_col_names =>
      if bool_decide (tag = T_SeqScan) then e ← new_SeqScanExecutor tab_name conds c; mret (inl e)
      else e ← new_IndexScanExecutor tab_name conds index_col_names c; mret (inr e)
  | JoinPlan _ l r conds _ =>
      left_ ← convert_plan_executor l c;
      right_ ← convert_plan_executor r c;
      mret (new_NestedLoopJoinExecutor left_ right_ conds)
  | SortPlan _ subplan sort_keys limit =>
      prev ← convert_plan_executor subplan c;
      lift_outcome (new_SortExecutor prev sort_keys limit)
  | AggregatePlan _ subplan aggregates _ =>
      prev ← convert_plan_executor subplan c;
      lift_outcome (new_AggregateExecutor prev aggregates)
  | _ => throw NullDeref
  end.

(** root of PortalStmt: an executor tree, or the executor of a data change *)
Inductive StmtRoot :=
  | NoRoot
  | QueryRoot (plan : Plan) (root : executor_of plan)
  | InsertRoot (root : InsertExecutor)
  | DeleteRoot (root : DeleteExecutor)
  | UpdateRoot (root : UpdateExecutor).

Inductive portalTag := PORTAL_ONE_SELECT | PORTAL_DML_WITHOUT_SELECT | PORTAL_MULTI_QUERY | PORTAL_CMD_UTILITY.

Record PortalStmt := mkPortalStmt {
  ps_tag : portalTag;
  ps_sel_cols : list TabCol;
  ps_root : StmtRoot;
  ps_plan : Plan
}.

(** for (; !scan->is_end(); scan->nextTuple()) rids.push_back(scan->rid()) *)
Fixpoint drain_rids {E} `{AbstractExecutor world E} (fuel turns : nat) (e : E) : ST world (list Rid) :=
  ended ← is_end e;
  if ended : bool then mret [] else
  match turns with
  | O => throw Diverge
  | Datatypes.S turns' =>
      let rid := rid_of e in
      e ← nextTuple fuel e;
      rids ← drain_rids fuel turns' e;
      mret (rid :: rids)
  end.

(** What Update and Delete do before their executor is made *)
Definition collect_rids (fuel : nat) (tab_name : string) (subplan : Plan) (c : Context) : ST world (list Rid) :=
  lock_on_table lock_exclusive_on_table c tab_name ;;
  scan ← convert_plan_executor subplan c;
  scan ← beginTuple fuel scan;
  drain_rids fuel fuel scan.

Definition portal_start (fuel : nat) (plan : Plan) (c : Context) : ST world PortalStmt :=
  match plan with
  | OtherPlan _ _ | SetKnobPlan _ _ => mret (mkPortalStmt PORTAL_CMD_UTILITY [] NoRoot plan)
  | DDLPlan _ _ _ _ => mret (mkPortalStmt PORTAL_MULTI_QUERY [] NoRoot plan)
  | DMLPlan T_select subplan _ _ _ _ =>
      match subplan with
      | ProjectionPlan _ _ sel_cols | AggregatePlan _ _ _ sel_cols =>
          root ← convert_plan_executor subplan c;
          mret (mkPortalStmt PORTAL_ONE_SELECT sel_cols (QueryRoot subplan root) plan)
      | _ => throw (InternalError "Unexpected select plan type")
      end
  | DMLPlan T_Update subplan tab_name _ _ set_clauses =>
      rids ← collect_rids fuel tab_name subplan c;
      root ← new_UpdateExecutor tab_name set_clauses rids c;
      mret (mkPortalStmt PORTAL_DML_WITHOUT_SELECT [] (UpdateRoot root) plan)
  | DMLPlan T_Delete subplan tab_name _ _ _ =>
      rids ← collect_rids fuel tab_name subplan c;
      root ← new_DeleteExecutor tab_name rids c;
      mret (mkPortalStmt PORTAL_DML_WITHOUT_SELECT [] (DeleteRoot root) plan)
  | DMLPlan T_Insert _ tab_name values _ _ =>
      root ← new_InsertExecutor tab_name values c;
      mret (mkPortalStmt PORTAL_DML_WITHOUT_SELECT [] (InsertRoot root) plan)
  | _ => throw (InternalError "Unexpected field type")
  end.

(* ------------------------------------------------------------------ *)
(** ** QlManager                                                        *)
(* ------------------------------------------------------------------ *)

(** What a statement works on: the server, the knobs, output.txt, the send
    buffer, the context and the client's *txn_id. *)
Record Session := mkSession {
  rmdb : world;
  knobs : Planner;
  output_txt : list Z;
  out : OutBuf;
  ctx : Context;
  client_txn : Z
}.

Definition on_rmdb {A} (m : ST world A) : ST Session A := λ s,
  let '(r, x) := m (rmdb s) in (r, mkSession x (knobs s) (output_txt s) (out s) (ctx s) (client_txn s)).
Definition on_sm_of {A} (m : ST (SmManager R OS) A) : ST Session A := on_rmdb (on_system m).
Definition set_out (b : OutBuf) (s : Session) : Session :=
  mkSession (rmdb s) (knobs s) (output_txt s) b (ctx s) (client_txn s).
Definition set_knobs (k : Planner) (s : Session) : Session :=
  mkSession (rmdb s) k (output_txt s) (out s) (ctx s) (client_txn s).
Definition set_ctx (c : Context) (s : Session) : Session :=
  mkSession (rmdb s) (knobs s) (output_txt s) (out s) c (client_txn s).
Definition set_client_txn (id : Z) (s : Session) : Session :=
  mkSession (rmdb s) (knobs s) (output_txt s) (out s) (ctx s) id.
Definition append_file (bytes : list Z) : ST Session unit := modify_st (λ s,
  mkSession (rmdb s) (knobs s) (output_txt s ++ bytes) (out s) (ctx s) (client_txn s)).
Definition print_out (f : OutBuf → outcome OutBuf) : ST Session unit :=
  s ← get_st; b ← lift_outcome (f (out s)); put_st (set_out b s).

Definition help_info : list Z := concat ((λ l, bytes_of_string l ++ [10]) <$> [
  "Supported SQL syntax:"; "  command ;"; "command:";
  "  CREATE TABLE table_name (column_name type [, column_name type ...])"; "  DROP TABLE table_name";
  "  CREATE INDEX table_name (column_name)"; "  DROP INDEX table_name (column_name)"; "  SHOW INDEX FROM table_name";
  "  INSERT INTO table_name VALUES (value [, value ...])"; "  DELETE FROM table_name [WHERE where_clause]";
  "  UPDATE table_name SET column_name = value [, column_name = value ...] [WHERE where_clause]";
  "  SELECT selector FROM table_name [WHERE where_clause]"; "type:"; "  {INT | BIGINT | FLOAT | CHAR(n) | DATETIME}";
  "where_clause:"; "  condition [AND condition ...]"; "condition:"; "  column op {column | value}"; "column:";
  "  [table_name.]column_name"; "op:"; "  {= | <> | < | > | <= | >=}"; "selector:";
  "  {* | column [, column ...]}"]%string).
(** memcpy at the offset; the offset becomes the length of the text *)
Definition print_help (b : OutBuf) : OutBuf :=
  mkOut (splice (Z.to_nat (out_offset b)) help_info (data_send b)) (Z.of_nat (length help_info)) (ellipsis b).

Definition run_mutli_query (plan : Plan) : ST Session unit :=
  match plan with
  | DDLPlan T_CreateTable tab_name _ cols => on_sm_of (create_table tab_name cols)
  | DDLPlan T_DropTable tab_name _ _ => on_sm_of (drop_table tab_name)
  | DDLPlan T_CreateIndex tab_name col_names _ => on_sm_of (sm_create_index tab_name col_names)
  | DDLPlan T_DropIndex tab_name col_names _ => on_sm_of (sm_drop_index tab_name col_names)
  | DDLPlan _ _ _ _ => throw (InternalError "Unexpected field type")
  | _ => mret tt
  end.

(** context->txn_ = txn_mgr_->get_transaction( *txn_id ), then commit or abort *)
Definition end_transaction (finish : option Z → bool → ST world unit) : ST Session unit :=
  s ← get_st;
  t ← on_rmdb (get_transaction (client_txn s));
  modify_st (set_ctx (mkContext (lock_mgr_ (ctx s)) (log_mgr_ (ctx s)) t)) ;;
  on_rmdb (finish t (log_mgr_ (ctx s))).

(** show_tables and show_index: the buffer and output.txt *)
Definition show (f : OutBuf → SmManager R OS → outcome (OutBuf * list Z)) : ST Session unit :=
  s ← get_st;
  '(b, lines) ← lift_outcome (f (out s) (sm (rmdb s)));
  modify_st (set_out b) ;;
  append_file lines.

Definition run_cmd_utility (plan : Plan) : ST Session unit :=
  match plan with
  | OtherPlan T_Help _ => print_out (λ b, Ret (print_help b))
  | OtherPlan T_ShowTable _ => show show_tables
  | OtherPlan T_DescTable tab_name => s ← get_st; print_out (λ b, desc_table tab_name b (sm (rmdb s)))
  | OtherPlan T_ShowIndex tab_name => show (show_index tab_name)
  | OtherPlan T_Transaction_begin _ =>
      s ← get_st;
      id ← lift_outcome (deref (txn_ (ctx s)));
      on_rmdb (modify_txn id (set_txn_mode true))
  | OtherPlan T_Transaction_commit _ => end_transaction (txn_commit buffer_size)
  | OtherPlan (T_Transaction_rollback | T_Transaction_abort) _ => end_transaction (txn_abort buffer_size)
  | OtherPlan _ _ => throw (InternalError "Unexpected field type")
  | SetKnobPlan EnableNestLoop b => modify_st (λ s, set_knobs (set_enable_nestedloop_join b (knobs s)) s)
  | SetKnobPlan EnableSortMerge b => modify_st (λ s, set_knobs (set_enable_sortmerge_join b (knobs s)) s)
  | _ => mret tt
  end.

(** The body of the loop of select_from *)
Definition print_tuple (num_cols : nat) (cols : list ColMeta) (tuple : list Z) : ST Session unit :=
  let columns := col_str tuple <$> cols in
  print_out (print_record num_cols columns) ;;
  append_file (out_line columns).

(** for (; !root->is_end(); root->nextTuple()), with num_rec *)
Fixpoint select_loop {E} `{AbstractExecutor world E} (fuel turns num_cols : nat) (e : E) (num_rec : Z) : ST Session Z :=
  ended ← on_rmdb (is_end e);
  if ended : bool then mret num_rec else
  match turns with
  | O => throw Diverge
  | Datatypes.S turns' =>
      r ← on_rmdb (Next e);
      tuple ← lift_outcome (deref r);
      print_tuple num_cols (cols_of e) tuple ;;
      e ← on_rmdb (nextTuple fuel e);
      select_loop fuel turns' num_cols e (num_rec + 1)
  end.

Definition select_from {E} `{AbstractExecutor world E} (fuel : nat) (root : E) (sel_cols : list TabCol) : ST Session unit :=
  let captions := bytes_of_string ∘ tc_col <$> sel_cols in
  let num_cols := length sel_cols in
  print_out (λ b,
    b ← print_record num_cols captions (print_separator num_cols b);
    Ret (print_separator num_cols b)) ;;
  append_file (out_line captions) ;;
  root ← on_rmdb (beginTuple fuel root);
  num_rec ← select_loop fuel fuel num_cols root 0;
  print_out (λ b, Ret (print_record_count num_rec (print_separator num_cols b))).

Definition run_dml (root : StmtRoot) (c : Context) : ST Session unit :=
  match root with
  | InsertRoot e => on_rmdb (insert_Next buffer_size e c) ;; mret tt
  | DeleteRoot e => on_rmdb (delete_Next buffer_size e c)
  | UpdateRoot e => on_rmdb (update_Next buffer_size e c)
  | _ => throw NullDeref
  end.

Definition portal_run (fuel : nat) (stmt : PortalStmt) : ST Session unit :=
  match ps_tag stmt with
  | PORTAL_ONE_SELECT =>
      match ps_root stmt with
      | QueryRoot _ root => select_from fuel root (ps_sel_cols stmt)
      | _ => throw NullDeref
      end
  | PORTAL_DML_WITHOUT_SELECT => s ← get_st; run_dml (ps_root stmt) (ctx s)
  | PORTAL_MULTI_QUERY => run_mutli_query (ps_plan stmt)
  | PORTAL_CMD_UTILITY => run_cmd_utility (ps_plan stmt)
  end.

End Portal.
Arguments Session : clear implicits.
