(* ===== verification/Server.v ===== *)
(** * The server loop (src/src/rmdb.cpp)

    What client_handler does with one request: the transaction it runs in, the
    pipeline parser, analyzer, planner, portal, the answer, and the commit of a
    single statement.  The parser is generated code, here the function
    [yyparse]: an exception, a syntax error ([Ret None]) or ast::parse_tree.
    Sockets, threads and the two mutexes are not modelled; [sent] says whether
    write() succeeded. *)

From S2P Require Import Prelude Defs Text SmMeta Values Replacer Posix DiskManager BufferPool SmManager Printer Txn LockManager LogManager TxnManager Recovery Executor Ast Analyze Planner Portal.

(** what() of an RMDBError; None for the exceptions of other classes *)
Definition col_list (names : list string) : string := String.concat ", " names.
Definition text_of (z : Z) : string := string_of_bytes (to_string z).

Section Server.
Variable strerror : string.   (* strerror(errno) *)

Definition what (e : exn) : option string :=
  (λ m, "Error: " +:+ m)%string <$>
  match e with
  | RMDBError msg | InternalError msg => Some msg
  | UnixError => Some strerror
  | FileNotOpenError fd => Some ("Invalid file descriptor: " +:+ text_of fd)
  | FileNotClosedError f => Some ("File is opened: " +:+ f)
  | FileExistsError f => Some ("File already exists: " +:+ f)
  | FileNotFoundError f => Some ("File not found: " +:+ f)
  | RecordNotFoundError p s => Some ("Record not found: (" +:+ text_of p +:+ "," +:+ text_of s +:+ ")")
  | InvalidRecordSizeError n => Some ("Invalid record size: " +:+ text_of n)
  | InvalidColLengthError n => Some ("Invalid column length: " +:+ text_of n)
  | IndexEntryNotFoundError => Some "Index entry not found"
  | DatabaseNotFoundError d => Some ("Database not found: " +:+ d)
  | DatabaseExistsError d => Some ("Database already exists: " +:+ d)
  | TableNotFoundError t => Some ("Table not found: " +:+ t)
  | TableExistsError t => Some ("Table already exists: " +:+ t)
  | ColumnNotFoundError c => Some ("Column not found: " +:+ c)
  | IndexNotFoundError t cs => Some ("Index not found: " +:+ t +:+ ".(" +:+ col_list cs +:+ ")")
  | IndexExistsError t cs => Some ("Index already exists: " +:+ t +:+ ".(" +:+ col_list cs +:+ ")")
  | InvalidValueCountError => Some "Invalid value count"
  | StringOverflowError => Some "String is too long"
  | IncompatibleTypeError l r => Some ("Incompatible type error: lhs " +:+ l +:+ ", rhs " +:+ r)
  | NumericOverflowError t => Some ("Numeric value out of range for " +:+ t)
  | InvalidDateTimeError v => Some ("Invalid datetime literal: " +:+ string_of_bytes v)
  | AmbiguousColumnError c => Some ("Ambiguous column: " +:+ c)
  | PageNotExistError t p => Some ("Page " +:+ text_of p +:+ " in table " +:+ t +:+ "not exits")
  | TransactionAbort _ _ | OutOfRange | AssertFail | NullDeref | Diverge => None
  end%string.

(** The answer is a text with "\n" and NUL copied to the start of data_send. *)
Definition out_message (msg : string) (b : OutBuf) : OutBuf :=
  let str := bytes_of_string msg in
  mkOut (splice 0 (str ++ [10; 0]) (data_send b)) (Z.of_nat (length str) + 1) (ellipsis b).

Context {R OS : Type} `{Replacer R, Posix OS}.
Variable buffer_size : Z.   (* LOG_BUFFER_SIZE *)
Variable yyparse : list Z → outcome (option (option TreeNode)).
Abbreviation session := (Session R OS).

(** SetTransaction *)
Definition SetTransaction : ST session unit :=
  s ← get_st;
  t ← on_rmdb (get_transaction (client_txn s));
  fin ← match t with
        | None => mret true
        | Some id => t ← on_rmdb (txn_obj id); mret (finished t)
        end;
  if fin : bool then
    id ← on_rmdb (txn_begin buffer_size None (log_mgr_ (ctx s)));
    modify_st (set_client_txn id) ;;
    on_rmdb (modify_txn id (set_txn_mode false)) ;;
    modify_st (λ s, set_ctx (mkContext (lock_mgr_ (ctx s)) (log_mgr_ (ctx s)) (Some id)) s)
  else modify_st (λ s, set_ctx (mkContext (lock_mgr_ (ctx s)) (log_mgr_ (ctx s)) t) s).

Definition answer (msg file : string) : ST session unit :=
  print_out (λ b, Ret (out_message msg b)) ;;
  append_file (bytes_of_string file ++ [10]).
Definition answer_failure (msg : string) : ST session unit := answer msg "failure".

(** The inner try block: analyze, plan, run *)
Definition run_tree (fuel : nat) (tree : TreeNode) : ST session unit :=
  s ← get_st;
  query ← lift_outcome (do_analyze (db_ (sm (rmdb s))) tree);
  plan ← lift_outcome (plan_query (db_ (sm (rmdb s))) (knobs s) query);
  stmt ← on_rmdb (portal_start fuel plan (ctx s));
  portal_run buffer_size fuel stmt.

(** Its handlers.  An exception of the rollback escapes: the outer handler would
    delete the scan buffer a second time. *)
Definition statement (fuel : nat) (tree : TreeNode) : ST session unit :=
  try_catch (run_tree fuel tree) (λ e,
    match e with
    | TransactionAbort _ _ =>
        print_out (λ b, Ret (mkOut (splice 0 (bytes_of_string "abort" ++ [10; 0]) (data_send b)) 6 (ellipsis b))) ;;
        s ← get_st;
        on_rmdb (txn_abort buffer_size (txn_ (ctx s)) true) ;;
        append_file (bytes_of_string "abort" ++ [10])
    | _ => match what e with
           | Some msg => answer_failure msg
           | None => throw e
           end
    end).

Definition execute (fuel : nat) (text : list Z) : ST session unit :=
  match yyparse text with
  | Ret (Some (Some tree)) => statement fuel tree
  | Ret (Some None) => mret tt
  | Ret None => answer_failure "syntax error"
  | Throw e => match what e with
               | Some msg => answer_failure msg
               | None => throw e
               end
  end.

(** One turn of the loop for a request, the C string in data_recv *)
Inductive Turn :=
  | Closed                        (* the loop ends *)
  | Exited                        (* exit(1) *)
  | Answered (bytes : list Z).    (* what is written to the socket *)
Definition empty_out : OutBuf := mkOut (replicate (Z.to_nat BUFFER_LENGTH) 0) 0 false.
Definition client_request (fuel : nat) (sent : bool) (text : list Z) : ST session Turn :=
  if bool_decide (text = bytes_of_string "exit") then mret Closed else
  if bool_decide (text = bytes_of_string "crash") then mret Exited else
  modify_st (λ s, set_ctx (mkContext true true None) (set_out empty_out s)) ;;
  SetTransaction ;;
  execute fuel text ;;
  s ← get_st;
  let response := take (Z.to_nat (out_offset (out s) + 1)) (data_send (out s)) in
  if negb sent then mret Closed else
  id ← lift_outcome (deref (txn_ (ctx s)));
  t ← on_rmdb (txn_obj id);
  (if txn_mode t then mret tt else on_rmdb (txn_commit buffer_size (Some id) (log_mgr_ (ctx s)))) ;;
  mret (Answered response).

(** What main does before start_server, [is_dir] and [chdir] as in open_db and
    the directory there: analyze() of the recovery reads the log. *)
Definition server_start (chdir : bool) (db_name : string) : ST (SmManager R OS) unit :=
  open_db true chdir db_name ;; redo ;; undo.

End Server.
