(* ===== verification/TxnSpec.v ===== *)
(** * Correctness of transactions

    Writing the log leaves the tables alone; abort undoes the writes of a
    transaction, newest first, and gives the tables as they would be without
    it; commit makes it durable and releases its locks. *)

From S2P Require Import Prelude Defs SmMeta Values Replacer Posix DiskManager BufferPool RmFile RmPage RmSpec RmManager IxNode IxIndex IxManager SmManager TableSpec Txn LockManager LogRecord LogManager TxnManager.

(* ------------------------------------------------------------------ *)
(** ** The log and the tables do not interfere                          *)
(* ------------------------------------------------------------------ *)

Section LogFrame.
Context {OS : Type} `{PosixLaws OS}.
Implicit Types d : DiskManager OS.

(** What access to the log file keeps of a disk. *)
Record log_quiet d d' : Prop := {
  lq_inv : dm_inv d';
  lq_open fd : dm_open d fd → dm_open d' fd;
  lq_pages : page_le (dm_page d) (dm_page d');
  lq_next fd : dm_open d fd → get_fd2pageno fd d' = get_fd2pageno fd d
}.

Lemma log_quiet_refl d : dm_inv d → log_quiet d d.
Proof. intros. by split. Qed.
Lemma log_quiet_trans d1 d2 d3 : log_quiet d1 d2 → log_quiet d2 d3 → log_quiet d1 d3.
Proof.
  intros [H1 H2 H3 H4] [H6 H7 H8 H9]. split; [done| | |].
  - intros fd Ho. by apply H7, H2.
  - intros p bs Hp. by apply H8, H3.
  - intros fd Ho. rewrite H9; [by apply H4|by apply H2].
Qed.

(** Opening the log file, if that has not been done. *)
Lemma ensure_log_quiet d r d' : dm_inv d → ensure_log d = (r, d') → log_quiet d d'.
Proof.
  intros Hd E. pose proof (ensure_log_spec d r d' Hd E) as (Hd' & Hle & _).
  unfold ensure_log, mbind, st_bind, get_st in E. destruct (log_fd d =? -1); [|inv E; by apply log_quiet_refl].
  destruct (open_file LOG_FILE_NAME d) as [r1 d1] eqn:Eo. pose proof (open_file_spec d _ _ _ Hd Eo) as (Hd1 & Hp & _).
  assert (∀ fd, dm_open d fd → dm_open d1 fd) as Ho.
  { intros fd [q Hq]. exists q. by apply (inv_tables d1 Hd1), Hp, (inv_tables d Hd). }
  assert (∀ fd, dm_open d fd → get_fd2pageno fd d1 = get_fd2pageno fd d) as Hn.
  { intros fd Hfd. unfold open_file, sys, mbind, st_bind, get_st in Eo. destruct (negb (is_file LOG_FILE_NAME d)); [by inv Eo|].
    destruct (path2fd d !! LOG_FILE_NAME); [by inv Eo|]. destruct (os_open _ (os d)) as [[g|] o1] eqn:E1; [|by inv Eo].
    apply os_open_ok in E1 as (_ & Hnone & _). inv Eo. unfold get_fd2pageno. simpl. rewrite lookup_insert_ne; [done|].
    intros <-. destruct Hfd as [q Hq]. destruct (inv_ino d Hd _ _ Hq) as (_ & [j Hj] & Ej). congruence. }
  destruct r1 as [fd|e]; inv E; by split.
Qed.

(** Appending to a file keeps the pages it has. *)
Lemma read_append (c bs : list Z) off n : (off + n ≤ length c)%nat →
  read_at off n (file_write c (length c) bs) = read_at off n c.
Proof.
  intros Hl. unfold file_write. destruct bs as [|b bs]; [done|]. rewrite Nat.sub_diag. cbn [replicate].
  rewrite app_nil_r. unfold splice. rewrite firstn_all. unfold read_at.
  rewrite drop_app_le by lia. rewrite take_app_le; [done|len].
Qed.

Lemma write_log_quiet d bs r d' : dm_inv d → write_log bs d = (r, d') → log_quiet d d'.
Proof.
  intros Hd0 Hw. pose proof (write_log_spec d bs r d' Hd0 Hw) as [Hd' _].
  unfold write_log in Hw. apply st_bind_inv in Hw as [([] & d1 & E & Hw)|(e & E & _)]; [|by eapply ensure_log_quiet].
  pose proof (ensure_log_spec d _ _ Hd0 E) as (Hd & _ & Hl). specialize (Hl eq_refl).
  apply ensure_log_quiet in E; [|done]. eapply log_quiet_trans; [exact E|]. clear E Hd0. rename d1 into d, d into d00.
  pose proof (inv_log d Hd Hl) as Hp. destruct (inv_ino d Hd _ _ Hp) as (_ & [i Hi] & Hino).
  unfold sys, mbind, st_bind, get_st in Hw. destruct (os_lseek_end (log_fd d) (os d)) as [b o1] eqn:E1.
  apply os_lseek_end_ok in E1 as (Hpos & Hi1 & Hn1 & Hd1). simpl in Hw.
  destruct (os_write (log_fd d) bs o1) as [k o2] eqn:E2.
  eapply os_write_ok in E2 as (Hk & Hdat & Hoth & Hi2 & Hn2); [|by rewrite Hi1, Hino].
  rewrite (Hpos i), Nat2Z.id, Hd1 in Hdat by by rewrite Hino.
  assert (d' = set_os d o2) as -> by (destruct (negb _); by inv Hw).
  split; try done; []. intros p c Hc. apply dm_page_Some in Hc as (Ho & Hno & Hlen & j & Hj & Ec).
  apply dm_page_Some. split_and!; try done. exists j. simpl. split; [by rewrite Hi2, Hi1|].
  destruct (decide (j = i)) as [->|]; [|by rewrite Hoth, Hd1].
  rewrite Hdat, read_append; [done|]. rewrite Ec in Hlen. unfold read_at in Hlen.
  rewrite length_take, length_drop in Hlen. unfold PAGE_SIZE in *. lia.
Qed.

(** A log operation appends once, or not at all. *)
Lemma add_log_quiet size rec (lm lm' : LogManager (DiskManager OS)) r :
  dm_inv (ldisk lm) → add_log_to_buffer size rec lm = (r, lm') → log_quiet (ldisk lm) (ldisk lm').
Proof.
  intros Hd E. destruct rec as [rec|]; [|injection E as _ <-; by apply log_quiet_refl].
  unfold add_log_to_buffer in E. rewrite (st_bind_ret get_st _ lm lm lm eq_refl) in E.
  destruct (is_full size (log_buffer lm) _).
  - unfold write_buffer, mbind, st_bind in E. cbn [ld_write DM_log] in E.
    destruct (write_log _ (ldisk lm)) as [[[]|e] d'] eqn:Ew; [|injection E as _ <-; simpl; by eapply write_log_quiet].
    apply write_log_quiet in Ew; [|done]. destruct (negb _); injection E as _ <-; done.
  - injection E as _ <-. by apply log_quiet_refl.
Qed.

Lemma flush_log_quiet size (lm lm' : LogManager (DiskManager OS)) r :
  dm_inv (ldisk lm) → flush_log_to_disk size lm = (r, lm') → log_quiet (ldisk lm) (ldisk lm').
Proof.
  intros Hd E. unfold flush_log_to_disk in E. rewrite (st_bind_ret get_st _ lm lm lm eq_refl) in E. cbv zeta in E.
  destruct (offset_ (log_buffer lm) =? 0); [injection E as _ <-; by apply log_quiet_refl|].
  unfold write_buffer, mbind, st_bind in E. cbn [ld_write DM_log] in E.
  destruct (write_log _ (ldisk lm)) as [[[]|e] d'] eqn:Ew; injection E as _ <-; simpl; by eapply write_log_quiet.
Qed.

(** On a working disk with the log open, no log operation fails. *)
Lemma write_log_live d bs r d' : dm_inv d → dm_live d → write_log bs d = (r, d') → r = Ret tt ∧ dm_live d'.
Proof.
  intros Hd (Hl & Hlog & Hf) Hw. pose proof (inv_log d Hd Hlog) as Hp. destruct (inv_ino d Hd _ _ Hp) as (_ & [i Hi] & Hino).
  unfold write_log, ensure_log, sys, mbind, st_bind, get_st in Hw. destruct (Z.eqb_spec (log_fd d) (-1)); [done|]. simpl in Hw.
  destruct (os_lseek_end (log_fd d) (os d)) as [b o1] eqn:E1. pose proof E1 as E1'. apply os_lseek_end_live in E1'; [|done].
  apply os_lseek_end_ok in E1 as (_ & Hi1 & _). simpl in Hw. destruct (os_write (log_fd d) bs o1) as [k o2] eqn:E2.
  apply os_write_live in E2 as [Hl2 ->]; [|by rewrite Hi1, Hino, Hi|done].
  rewrite Z.eqb_refl in Hw. by injection Hw as <- <-.
Qed.

Lemma write_buffer_live (lm lm' : LogManager (DiskManager OS)) r : dm_inv (ldisk lm) → dm_live (ldisk lm) →
  write_buffer lm = (r, lm') → r = Ret tt ∧ dm_live (ldisk lm').
Proof.
  intros Hd Hl E. unfold write_buffer in E. cbn [ld_write DM_log] in E. destruct (write_log _ _) as [r1 d1] eqn:Ew.
  apply write_log_live in Ew as [-> Hl1]; [|done|done]. by injection E as <- <-.
Qed.

Lemma add_log_live size rec (lm lm' : LogManager (DiskManager OS)) r : dm_inv (ldisk lm) → dm_live (ldisk lm) →
  add_log_to_buffer size (Some rec) lm = (r, lm') → (∃ l, r = Ret l) ∧ dm_live (ldisk lm').
Proof.
  intros Hd Hl E. unfold add_log_to_buffer in E. rewrite (st_bind_ret get_st _ lm lm lm eq_refl) in E.
  destruct (is_full size (log_buffer lm) _); [|injection E as <- <-; split; [by eexists|done]].
  destruct (write_buffer lm) as [r1 lm1] eqn:Ew. unfold mbind, st_bind in E. rewrite Ew in E.
  apply write_buffer_live in Ew as [-> Hl1]; [|done|done].
  destruct (negb _); injection E as <- <-; (split; [by eexists|done]).
Qed.

Lemma flush_log_live size (lm lm' : LogManager (DiskManager OS)) r : dm_inv (ldisk lm) → dm_live (ldisk lm) →
  flush_log_to_disk size lm = (r, lm') → r = Ret tt ∧ dm_live (ldisk lm').
Proof.
  intros Hd Hl E. unfold flush_log_to_disk in E. rewrite (st_bind_ret get_st _ lm lm lm eq_refl) in E. cbv zeta in E.
  destruct (offset_ (log_buffer lm) =? 0); [by injection E as <- <-|].
  destruct (write_buffer lm) as [r1 lm1] eqn:Ew. unfold mbind, st_bind in E. rewrite Ew in E.
  apply write_buffer_live in Ew as [-> Hl1]; [|done|done]. by injection E as <- <-.
Qed.

End LogFrame.

(* ------------------------------------------------------------------ *)
(** ** Undoing writes                                                   *)
(* ------------------------------------------------------------------ *)

(** The table and record of a write, and the effect of undoing it. *)
Definition wr_item (w : WriteRecord) : string * Rid := (wr_tab_name w, wr_rid w).
Definition undo1 (w : WriteRecord) (C : tables) : tables :=
  match wtype w with
  | INSERT_TUPLE => delete (wr_item w) C
  | DELETE_TUPLE => <[wr_item w := wr_record w]> C
  | UPDATE_TUPLE => if bool_decide (is_Some (C !! wr_item w)) then <[wr_item w := wr_record w]> C else C
  end.

(** [wrote P ws C]: the tables hold [C] after the writes [ws] of a transaction,
    and [P] is what they would hold without those writes.  Between its writes
    other transactions change records this one has not written. *)
Inductive wrote : tables → list WriteRecord → tables → Prop :=
  | wrote_nil C : wrote C [] C
  | wrote_insert P ws C tab rid v : wrote P ws C → C !! (tab, rid) = None →
      wrote P (ws ++ [write_record_insert tab rid]) (<[(tab, rid) := v]> C)
  | wrote_delete P ws C tab rid old : wrote P ws C → C !! (tab, rid) = Some old →
      wrote P (ws ++ [mkWriteRecord DELETE_TUPLE tab rid old]) (delete (tab, rid) C)
  | wrote_update P ws C tab rid old v : wrote P ws C → C !! (tab, rid) = Some old →
      wrote P (ws ++ [mkWriteRecord UPDATE_TUPLE tab rid old]) (<[(tab, rid) := v]> C)
  | wrote_other P ws C i x : wrote P ws C → i ∉ wr_item <$> ws →
      wrote (partial_alter (λ _, x) i P) ws (partial_alter (λ _, x) i C).

Definition undo_all (ws : list WriteRecord) (C : tables) : tables := foldr undo1 C ws.

Lemma undo_all_snoc ws w C : undo_all (ws ++ [w]) C = undo_all ws (undo1 w C).
Proof. unfold undo_all. by rewrite foldr_app. Qed.

Lemma undo1_other w i x C : wr_item w ≠ i → undo1 w (partial_alter (λ _, x) i C) = partial_alter (λ _, x) i (undo1 w C).
Proof.
  intros Hne. unfold undo1. destruct (wtype w).
  - unfold delete, map_delete. by apply partial_alter_partial_alter_ne.
  - unfold insert, map_insert. by apply partial_alter_partial_alter_ne.
  - rewrite lookup_partial_alter_ne by done. case_bool_decide; [|done].
    unfold insert, map_insert. by apply partial_alter_partial_alter_ne.
Qed.

Lemma undo_all_other ws i x C : i ∉ wr_item <$> ws →
  undo_all ws (partial_alter (λ _, x) i C) = partial_alter (λ _, x) i (undo_all ws C).
Proof.
  induction ws as [|w ws IH]; intros Hi; [done|]. rewrite fmap_cons, not_elem_of_cons in Hi. destruct Hi as [Hw Hi].
  simpl. by rewrite IH, undo1_other.
Qed.

(** Undoing a transaction's writes, newest first, takes it out of the tables. *)
Lemma wrote_undo P ws C : wrote P ws C → undo_all ws C = P.
Proof.
  induction 1 as [C|P ws C tab rid v _ IH Hn|P ws C tab rid old _ IH Ho|P ws C tab rid old v _ IH Ho|P ws C i x _ IH Hi].
  - done.
  - rewrite undo_all_snoc. unfold undo1. simpl. unfold wr_item. simpl. by rewrite delete_insert_id.
  - rewrite undo_all_snoc. unfold undo1. simpl. unfold wr_item. simpl. by rewrite insert_delete_id.
  - rewrite undo_all_snoc. unfold undo1. simpl. unfold wr_item. simpl. rewrite lookup_insert_eq, bool_decide_eq_true_2 by done.
    by rewrite insert_insert_eq, insert_id.
  - by rewrite undo_all_other, IH.
Qed.

Section Rollback.
Context {R OS : Type} `{ReplacerLaws R, PosixLaws OS}.
Variables (size : Z) (exact : bool).
Abbreviation sm_t := (SmManager R OS).
Abbreviation rmdb := (Rmdb R OS).

Lemma set_disk_ok (s : sm_t) C d : tables_ok exact s C → log_quiet (disk (bpm_ s)) d →
  tables_ok exact (set_bpm (set_disk d (bpm_ s)) s) C.
Proof.
  intros [[Hbp Hfull] Hinj Hf] [Hd Ho Hle Hnx].
  assert (ps_ok (set_disk d (bpm_ s))) as Hok.
  { split; [|exact Hfull]. split; simpl; try apply Hbp; [| |done].
    - intros q f Hq. apply (i_table _ Hbp) in Hq as (? & ? & ? & ?). split_and!; try done. by apply Ho.
    - intros f Hf'. destruct (i_evict _ Hbp f Hf') as (? & ? & ? & Hdr). split_and!; try done.
      intros Hc. by apply Hle, Hdr. }
  split; [exact Hok|exact Hinj|]. intros t fd h Ht. destruct (Hf t fd h Ht) as (pgs & l & Hi & Hc).
  exists pgs, l. split; [|done]. eapply (quiet_file fd exact (bpm_ s) (mkRmFile (bpm_ s) h)); [exact Hok| |exact Hi].
  split_and!; simpl; [by apply Ho|apply Hnx; apply Hi|]. intros n. split_and!; try done. intros c. unfold view. simpl.
  destruct (page_table (bpm_ s) !! _); [done|]. apply Hle.
Qed.

(** An undone write changes one record. *)
Definition wr_fits (s : sm_t) (w : WriteRecord) : Prop :=
  fits s (wr_tab_name w) (wr_rid w) ∧ (wtype w ≠ INSERT_TUPLE → fits_rec s (wr_tab_name w) (wr_record w)) ∧
  ∃ tab, db_tabs (db_ s) !! wr_tab_name w = Some tab ∧ tm_indexes tab = [].

Lemma wr_fits_same s s' w : same_tables s s' → wr_fits s w → wr_fits s' w.
Proof.
  intros Hs (Hf & Hr & tab & Ht & Hx). split_and!; [by eapply fits_same|intros; eapply fits_rec_same; eauto|].
  exists tab. by rewrite (proj1 Hs).
Qed.

Lemma undo_write_spec s C w r s' : tables_ok exact s C → wr_fits s w → undo_write w s = (r, s') →
  tab_call exact s r s' (undo1 w C) (λ _, True).
Proof.
  intros Ht (Hf & Hr & tab & Htab & Hx) E. unfold undo_write in E. cbv zeta in E.
  rewrite (st_bind_ret (sm_table _) _ s tab s) in E by (unfold sm_table, get_table; by rewrite Htab).
  destruct Hf as (fd & h & Hfd & Hin). rewrite (st_bind_ret _ _ _ _ _ (fh_hdr_spec _ _ _ _ Hfd)) in E.
  assert (fits s (wr_tab_name w) (wr_rid w)) as Hf by by exists fd, h. clear Hfd Hin.
  unfold undo1, wr_item. destruct (wtype w) eqn:Ew.
  - eapply tab_call_bind; [exact E|intros; by eapply fh_is_record|].
    clear E. intros b s1 -> Ht1 Hs1 E. apply (fits_same _ _ _ _ Hs1) in Hf.
    destruct (C !! _) as [v|] eqn:Hv; simpl in E; [|rewrite delete_id by done; by eapply tab_call_ret].
    eapply tab_call_bind; [exact E|intros; by eapply fh_get_record|].
    clear E. intros ? s2 <- Ht2 Hs2 E. apply (fits_same _ _ _ _ Hs2) in Hf.
    unfold delete_index_entries in E. rewrite Hx in E. rewrite (st_bind_ret (for_each _ []) _ _ tt _ eq_refl) in E.
    by eapply fh_delete_record.
  - specialize (Hr ltac:(done)). eapply tab_call_bind; [exact E|intros; by eapply fh_insert_record_at|].
    clear E. intros [] s1 _ Ht1 _ E. unfold insert_index_entries in E. rewrite Hx in E. by eapply tab_call_ret.
  - specialize (Hr ltac:(done)). eapply tab_call_bind; [exact E|intros; by eapply fh_is_record|].
    clear E. intros b s1 -> Ht1 Hs1 E. apply (fits_same _ _ _ _ Hs1) in Hf. apply (fits_rec_same _ _ _ _ Hs1) in Hr.
    case_bool_decide as Hc; [|by eapply tab_call_ret]. destruct Hc as [v Hv].
    eapply tab_call_bind; [exact E|intros; by eapply fh_get_record|].
    clear E. intros ? s2 <- Ht2 Hs2 E. apply (fits_same _ _ _ _ Hs2) in Hf. apply (fits_rec_same _ _ _ _ Hs2) in Hr.
    unfold restore_index_entries in E. rewrite Hx in E. rewrite (st_bind_ret (for_each _ []) _ _ tt _ eq_refl) in E.
    by eapply fh_update_record.
Qed.

(* ------------------------------------------------------------------ *)
(** ** Logging for a transaction                                        *)
(* ------------------------------------------------------------------ *)

Definition log_view (s : rmdb) : LogManager (DiskManager OS) :=
  mkLogManager (global_lsn (log s)) (log_buffer (log s)) (persist_lsn (log s)) (disk (bpm_ (sm s))).

(** A call on the log manager leaves all but the log and the disk alone. *)
Lemma on_log_inv {A} (m : ST (LogManager (DiskManager OS)) A) (s : rmdb) r s' : on_log m s = (r, s') →
  ∃ lm, m (log_view s) = (r, lm) ∧ log_view s' = lm ∧ sm s' = set_bpm (set_disk (ldisk lm) (bpm_ (sm s))) (sm s) ∧
    lock_tab s' = lock_tab s ∧ txn_map s' = txn_map s.
Proof.
  unfold on_log. fold (log_view s). destruct (m (log_view s)) as [r1 lm]. intros [= -> <-]. exists lm.
  split_and!; try done. by destruct lm.
Qed.

Lemma modify_txn_spec id f (s : rmdb) t : txn_map s !! id = Some t →
  modify_txn id f s = (Ret tt, set_txns (<[txn_id (f t) := f t]> (txn_map s)) s).
Proof. intros Ht. unfold modify_txn, txn_obj, mbind, st_bind. by rewrite Ht. Qed.

(** The log record of a commit or abort and the flush behind it. *)
Lemma log_flush_tables id rec (s : rmdb) C t r s' :
  tables_ok exact (sm s) C → txn_map s !! id = Some t → txn_id t = id →
  (log_for_txn size id rec ;; flush_log size) s = (r, s') →
  tables_ok exact (sm s') C ∧ lock_tab s' = lock_tab s ∧
  (∃ l, txn_map s' = <[id := set_prev_lsn l t]> (txn_map s)) ∧ (dm_live (disk (bpm_ (sm s))) → r = Ret tt).
Proof.
  intros Ht Hx Hid E.
  assert (∀ s1, sm s1 = set_bpm (set_disk (disk (bpm_ (sm s1))) (bpm_ (sm s))) (sm s) →
            log_quiet (disk (bpm_ (sm s))) (disk (bpm_ (sm s1))) → tables_ok exact (sm s1) C) as Hq.
  { intros s1 -> Hlq. by apply set_disk_ok. }
  assert (dm_inv (disk (bpm_ (sm s)))) as Hd by apply (t_ok _ _ _ Ht).
  assert (txn_map s = <[id := set_prev_lsn (prev_lsn t) t]> (txn_map s)) as Hsame by (rewrite insert_id; [done|rewrite Hx; by destruct t]).
  apply st_bind_inv in E as [([] & s1 & E1 & E)|(e & E1 & ->)]; unfold log_for_txn in E1;
    rewrite (st_bind_ret (txn_obj id) _ s t s) in E1 by (unfold txn_obj; by rewrite Hx).
  - apply st_bind_inv in E1 as [(l & s0 & E0 & E1)|(e & _ & ?)]; [|done].
    apply on_log_inv in E0 as (lm & E0 & El & Es & Ek & Em).
    pose proof (add_log_quiet size _ (log_view s) _ _ Hd E0) as Hq0.
    rewrite (modify_txn_spec _ _ s0 t) in E1 by by rewrite Em. injection E1 as <-. simpl in E.
    unfold flush_log in E. apply on_log_inv in E as (lm2 & E & El2 & Es2 & Ek2 & Em2). simpl in *.
    unfold log_view in E at 1. simpl in E. fold (log_view s0) in E. rewrite El in E.
    pose proof (flush_log_quiet size lm lm2 r ltac:(apply Hq0) E) as Hq2. split_and!.
    + rewrite <- El2 in Es2, Hq2. apply Hq; [by rewrite Es2, Es|]. by eapply log_quiet_trans.
    + congruence.
    + exists l. rewrite Em2, Em, Hid. done.
    + intros Hlv. destruct (add_log_live size _ (log_view s) lm _ Hd Hlv E0) as [_ Hl0].
      by destruct (flush_log_live size lm lm2 r (lq_inv _ _ Hq0) Hl0 E) as [-> _].
  - apply st_bind_inv in E1 as [(l & s0 & E0 & E1)|(e' & E0 & [= <-])].
    { apply on_log_inv in E0 as (lm & E0 & El & Es & Ek & Em). by rewrite (modify_txn_spec _ _ s0 t) in E1 by by rewrite Em. }
    apply on_log_inv in E0 as (lm & E0 & El & Es & Ek & Em).
    split_and!; [|done|eexists; by rewrite Em|].
    2:{ intros Hlv. by destruct (add_log_live size _ (log_view s) lm _ Hd Hlv E0) as [[l ?] _]. }
    apply Hq; [by rewrite Es, <- El|]. rewrite <- El in E0. by apply add_log_quiet in E0.
Qed.

(** ... and what it adds to the log. *)
Lemma log_flush_log id rec base fl pe (s : rmdb) t s' :
  0 ≤ size → log_inv size base fl pe (log_view s) → txn_map s !! id = Some t →
  log_wf (set_log_prev (prev_lsn t) rec) → log_tot_len rec ≤ size → global_lsn (log s) < int32_max →
  (log_for_txn size id rec ;; flush_log size) s = (Ret tt, s') →
  log_inv size base (fl ++ pe ++ [set_lsn (global_lsn (log s)) (set_log_prev (prev_lsn t) rec)]) [] (log_view s').
Proof.
  intros Hsz Hli Hx Hwf Hlen Hg E. mstep E. unfold log_for_txn in E0.
  rewrite (st_bind_ret (txn_obj id) _ s t s) in E0 by (unfold txn_obj; by rewrite Hx). mstep E0.
  apply on_log_inv in E1 as (lm & E1 & El & Es & Ek & Em).
  apply (add_log_spec size ltac:(done) base fl pe) in E1 as (-> & fl' & pe' & Happ & _ & Hli'); [|done..].
  rewrite (modify_txn_spec _ _ s1 t) in E0 by by rewrite Em. injection E0 as _ <-.
  unfold flush_log in E. apply on_log_inv in E as (lm2 & E & El2 & _). unfold log_view in E at 1. simpl in E.
  fold (log_view s1) in E. rewrite El in E. eapply flush_spec in E as [E _]; [|done|done].
  rewrite El2. rewrite !app_assoc in *. by rewrite Happ in E.
Qed.

(* ------------------------------------------------------------------ *)
(** ** Releasing the locks                                              *)
(* ------------------------------------------------------------------ *)

(** What the managers keep of a transaction when it loses locks *)
Definition same_work (t t' : Transaction) : Prop :=
  write_set t' = write_set t ∧ prev_lsn t' = prev_lsn t ∧ txn_mode t' = txn_mode t ∧ finished t' = finished t.

Lemma unlock_all_keeps ids t lt : same_work t (fst (unlock_all ids t lt)).
Proof.
  revert t lt. induction ids as [|id ids IH]; intros t lt; [done|]. cbn [unlock_all unlock].
  destruct (lt !! id) as [q|]; [|apply IH]. destruct (find_request _ _); [|apply IH]. case_bool_decide as Es; [|exact (IH (set_lock_set (lock_set t ∖ {[id]}) t) _)].
  destruct (IH (set_state SHRINKING (set_lock_set (lock_set t ∖ {[id]}) t))
    match erase_request (txn_id t) (request_queue q) with [] => delete id lt | _ => <[id := refresh_group_lock_mode (erase_request (txn_id t) (request_queue q))]> lt end)
    as (E1 & E2 & E3 & E4). split_and!; [exact E1|exact E2|exact E3|]. rewrite E4. simpl in Es. unfold finished. by rewrite Es.
Qed.

(** The lock table and the lock sets of the transactions agree. *)
Abbreviation locks_ok s := (sys_inv (mkSys (txn_map s) (lock_tab s))).

Lemma release_all_spec id (s : rmdb) t : lt_inv (lock_tab s) → txn_map s !! id = Some t → txn_id t = id →
  (∀ d m, holds_lock (lock_tab s) d id m → d ∈ lock_set t) →
  ∃ t' lt', release_all id s = (Ret tt, set_locks lt' (set_txns (<[id := t']> (txn_map s)) s)) ∧
    txn_id t' = id ∧ lock_set t' = ∅ ∧ same_work t t' ∧ lt_inv lt' ∧
    ∀ d j m, holds_lock lt' d j m ↔ holds_lock (lock_tab s) d j m ∧ j ≠ id.
Proof.
  intros Hlt Hx Hid Hh. unfold release_all. rewrite Hx. unfold release_locks.
  pose proof (unlock_all_keeps (elements (lock_set t)) t (lock_tab s)) as Hw.
  destruct (unlock_all _ t (lock_tab s)) as [t1 lt1] eqn:Eu. apply unlock_all_spec in Eu as (Hlt' & Ht' & _ & Hoth); [|done].
  eexists _, lt1. split; [reflexivity|]. simpl. split_and!; [congruence|done|exact Hw|done|].
  intros d j m. rewrite Hoth, elem_of_elements, Hid. naive_solver.
Qed.

(* ------------------------------------------------------------------ *)
(** ** Commit                                                           *)
(* ------------------------------------------------------------------ *)

(** What a running transaction is to the managers. *)
Record active (s : rmdb) (id : Z) (t : Transaction) : Prop := {
  ac_txn : txn_map s !! id = Some t;
  ac_locks : locks_ok s;
  ac_running : finished t = false;
  ac_id : is_int32 id;
  ac_prev : is_int32 (prev_lsn t)
}.

Lemma end_record_wf id t b : is_int32 id → is_int32 (prev_lsn t) → b = CommitLogRecord ∨ b = AbortLogRecord →
  log_wf (set_log_prev (prev_lsn t) (mkLog INVALID_LSN LOG_HEADER_SIZE id INVALID_LSN b)).
Proof.
  intros Hi Hp Hb. split; simpl; try done; try (by destruct Hb as [-> | ->]).
Qed.

(** The transaction [id] holds nothing any more; other locks are as before. *)
Definition released (s s' : rmdb) (id : Z) : Prop :=
  ∀ d j m, holds_lock (lock_tab s') d j m ↔ holds_lock (lock_tab s) d j m ∧ j ≠ id.

(** C7: commit.  When it returns, the commit record is in the log file behind all
    records appended before it, recovery reads them back in that order, the
    tables hold what they held, and the transaction is COMMITTED with no write
    and no lock left.  It fails only when the disk does not work or the log is not open; then the
    transaction is as before and keeps its locks. *)
Theorem commit_durable base fl pe (s : rmdb) C id t r s' (Hsz : LOG_HEADER_SIZE ≤ size)
    (Ht : tables_ok exact (sm s) C) (Hli : log_inv size base fl pe (log_view s)) (Ha : active s id t)
    (Hg : global_lsn (log s) < int32_max)
    (E : txn_commit size (Some id) true s = (r, s')) :
  let logs := base ++ fl ++ pe ++ [set_lsn (global_lsn (log s)) (set_log_prev (prev_lsn t) (new_commit id))] in
  tables_ok exact (sm s') C ∧
  match r with
  | Ret _ => ld_bytes (disk (bpm_ (sm s'))) = log_image logs ∧
      (Z.of_nat (length (log_image logs)) ≤ int32_max → fst (read_all_logs (disk (bpm_ (sm s')))) = Ret logs) ∧
      released s s' id ∧
      ∃ t', txn_map s' !! id = Some t' ∧ txn_state t' = COMMITTED ∧ write_set t' = [] ∧ lock_set t' = ∅
  | Throw e => ¬ dm_live (disk (bpm_ (sm s))) ∧ lock_tab s' = lock_tab s ∧ ∃ l, txn_map s' = <[id := set_prev_lsn l t]> (txn_map s)
  end.
Proof.
  intros logs. destruct Ha as [Hx [Hlt Htid Hheld] Hrun Hid Hprev]. pose proof (Htid id t Hx) as Hi. simpl in Hlt, Hheld.
  unfold txn_commit in E. rewrite (st_bind_ret (txn_obj id) _ s t s) in E by (unfold txn_obj; by rewrite Hx).
  rewrite Hrun in E. cbv iota in E.
  destruct ((log_for_txn size id (new_commit id) ;; flush_log size) s) as [r1 s1] eqn:E1.
  assert (log_wf (set_log_prev (prev_lsn t) (new_commit id))) as Hwf by (apply end_record_wf; auto).
  destruct (log_flush_tables id (new_commit id) s C t r1 s1) as (Ht1 & Hk1 & [l Hm1] & Hr1); try done.
  unfold mbind at 1, st_bind at 1 in E. rewrite E1 in E. destruct r1 as [[]|e].
  2:{ injection E as <- <-. split; [done|]. split; [intros Hlv; by specialize (Hr1 Hlv)|]. split; [done|]. by exists l. }
  clear Hr1. pose proof (log_flush_log id (new_commit id) base fl pe s t s1 ltac:(unfold LOG_HEADER_SIZE in Hsz; lia) Hli Hx Hwf Hsz Hg E1) as Hr1.
  assert (txn_map s1 !! id = Some (set_prev_lsn l t)) as Hx1 by by rewrite Hm1, lookup_insert_eq.
  rewrite (st_bind_ret _ _ _ _ _ (modify_txn_spec _ _ _ _ Hx1)) in E. simpl in E. rewrite Hi in E.
  destruct (release_all_spec id (set_txns (<[id := set_write_set [] (set_prev_lsn l t)]> (txn_map s1)) s1)
    (set_write_set [] (set_prev_lsn l t))) as (t' & lt' & Er & Htid' & Hls & (Hws & _) & _ & Hrel); simpl.
  { by rewrite Hk1. } { by rewrite lookup_insert_eq. } { done. }
  { intros d m Hd. rewrite Hk1 in Hd. destruct (Hheld id m d Hd) as (t2 & Ht2 & ?). naive_solver. }
  rewrite (st_bind_ret _ _ _ _ _ Er) in E. simpl in E.
  rewrite (modify_txn_spec id _ _ t') in E by (simpl; by rewrite lookup_insert_eq). injection E as <- <-. simpl.
  pose proof (li_disk _ _ _ _ _ Hr1) as Hd. rewrite Htid'. split_and!; [done|done| | |].
  - intros Hfit. destruct (read_all_logs_spec (ldisk (log_view s1)) logs []) as (d' & Erd & _).
    + apply Hr1.
    + by rewrite app_nil_r.
    + apply torn_nil.
    + pose proof (li_ok _ _ _ _ _ Hr1) as Hok. by rewrite app_nil_r in Hok.
    + by rewrite Hd.
    + simpl in Erd. by rewrite Erd.
  - intros d j m. simpl in Hrel. by rewrite Hrel, Hk1.
  - eexists. split; [by rewrite lookup_insert_eq|]. done.
Qed.

(* ------------------------------------------------------------------ *)
(** ** Abort                                                            *)
(* ------------------------------------------------------------------ *)

Lemma undo_all_rev ws C : fold_left (λ C w, undo1 w C) (reverse ws) C = undo_all ws C.
Proof. unfold reverse. by rewrite <- rev_alt, <- fold_left_rev_right, rev_involutive. Qed.

(** The loop over the write set. *)
Lemma undo_writes_spec id ws (s : rmdb) C t r s' :
  tables_ok exact (sm s) C → Forall (wr_fits (sm s)) ws → txn_map s !! id = Some t → txn_id t = id →
  write_set t = reverse ws → undo_writes id ws s = (r, s') →
  match r with
  | Ret _ => tables_ok exact (sm s') (fold_left (λ C w, undo1 w C) ws C) ∧
      txn_map s' = <[id := set_write_set [] t]> (txn_map s) ∧ lock_tab s' = lock_tab s ∧ same_tables (sm s) (sm s')
  | Throw e => ¬ roomy (sm s)
  end.
Proof.
  revert s C t. induction ws as [|w ws IH]; intros s C t Ht Hfit Hx Hid Hws E.
  { injection E as <- <-. split_and!; try done; [|apply same_tables_refl]. rewrite insert_id; [done|]. rewrite Hx. by destruct t; simpl in *; subst. }
  cbn [undo_writes] in E. apply Forall_cons in Hfit as [Hw Hfit].
  rewrite (st_bind_ret _ _ _ _ _ (modify_txn_spec _ _ _ _ Hx)) in E. cbn [txn_id set_write_set] in E. rewrite Hid in E.
  unfold mbind, st_bind, on_system in E. cbn [sm set_txns] in E. destruct (undo_write w (sm s)) as [r1 x] eqn:Eu.
  apply (undo_write_spec (sm s) C) in Eu; [|done|done]. destruct r1 as [[]|e]; [|by injection E as <- _].
  destruct Eu as (_ & Ht1 & Hs1). eapply (IH _ _ (set_write_set (reverse ws) t)) in E; simpl; [|done| |by rewrite lookup_insert_eq|done|done].
  - destruct r as [[]|e]; [|intros Hr; by apply E, Hs1]. destruct E as (? & Em & ? & Hs2).
    split_and!; [done| |done|by eapply same_tables_trans]. rewrite Em. simpl. by rewrite insert_insert_eq.
  - eapply Forall_impl; [exact Hfit|]. intros w'. by apply wr_fits_same.
Qed.

Lemma abort_spec (s : rmdb) P C id t r s' (Ht : tables_ok exact (sm s) C) (Ha : active s id t)
    (Hw : wrote P (write_set t) C) (Hfit : Forall (wr_fits (sm s)) (write_set t))
    (E : txn_abort size (Some id) true s = (r, s')) :
  match r with
  | Ret _ => tables_ok exact (sm s') P ∧ released s s' id ∧
      ∃ t', txn_map s' !! id = Some t' ∧ txn_state t' = ABORTED ∧ write_set t' = [] ∧ lock_set t' = ∅
  | Throw e => ¬ roomy (sm s)
  end.
Proof.
  destruct Ha as [Hx [Hlt Htid Hheld] Hrun Hid Hprev]. pose proof (Htid id t Hx) as Hi. simpl in Hlt, Hheld.
  unfold txn_abort in E. rewrite (st_bind_ret (txn_obj id) _ s t s) in E by (unfold txn_obj; by rewrite Hx).
  rewrite Hrun in E. cbv iota in E. unfold mbind at 1, st_bind at 1 in E.
  destruct (undo_writes id (reverse (write_set t)) s) as [r1 s1] eqn:E1.
  apply (undo_writes_spec id _ s C t) in E1; [|done|by apply Forall_reverse|done|done|by rewrite reverse_involutive].
  destruct r1 as [[]|e]; [|by injection E as <- _]. destruct E1 as (Ht1 & Hm1 & Hk1 & Hs1).
  rewrite undo_all_rev, (wrote_undo _ _ _ Hw) in Ht1. set (t1 := set_write_set [] t) in *.
  assert (txn_map s1 !! id = Some t1) as Hx1 by by rewrite Hm1, lookup_insert_eq.
  destruct (release_all_spec id s1 t1) as (t' & lt' & Er & Htid' & Hls & (Hws & _) & _ & Hrel); [by rewrite Hk1|done|done| |].
  { intros d m Hd. rewrite Hk1 in Hd. destruct (Hheld id m d Hd) as (t2 & Ht2 & ?). naive_solver. }
  rewrite (st_bind_ret _ _ _ _ _ Er) in E. set (s2 := set_locks lt' _) in *.
  assert (txn_map s2 !! id = Some t') as Hx2 by (simpl; by rewrite lookup_insert_eq).
  assert (released s s2 id) as Hrel2 by (intros d j m; simpl; by rewrite Hrel, Hk1).
  destruct ((log_for_txn size id (new_abort id) ;; flush_log size) s2) as [r3 s3] eqn:E3.
  destruct (log_flush_tables id (new_abort id) s2 P t' r3 s3) as (Ht3 & Hk3 & [l Hm3] & Hr3); try done.
  assert (released s s3 id) as Hrel3 by (intros d j m; by rewrite Hk3).
  unfold mbind at 1, st_bind at 1 in E. rewrite E3 in E. destruct r3 as [[]|e].
  - assert (txn_map s3 !! id = Some (set_prev_lsn l t')) as Hx3 by by rewrite Hm3, lookup_insert_eq.
    rewrite (modify_txn_spec _ _ _ _ Hx3) in E. injection E as <- <-. split_and!; [done|done|].
    eexists. simpl. rewrite Htid'. by rewrite lookup_insert_eq.
  - injection E as <- <-. intros Hroom. apply Hs1 in Hroom as [[Hdl _] _]. by specialize (Hr3 Hdl).
Qed.

(** C6: abort.  [wrote P (write_set t) C]: the tables hold [C], and would hold [P]
    without the writes of this transaction.  Abort leaves them holding [P] and the
    transaction ABORTED with no write and no lock left.  While the disk works and
    two frames are not pinned it always returns. *)
Theorem abort_restores (s : rmdb) P C id t r s' (Ht : tables_ok exact (sm s) C) (Ha : active s id t)
    (Hw : wrote P (write_set t) C) (Hfit : Forall (wr_fits (sm s)) (write_set t))
    (E : txn_abort size (Some id) true s = (r, s')) :
  match r with
  | Ret _ => tables_ok exact (sm s') P ∧ released s s' id ∧
      ∃ t', txn_map s' !! id = Some t' ∧ txn_state t' = ABORTED ∧ write_set t' = [] ∧ lock_set t' = ∅
  | Throw e => ¬ roomy (sm s)
  end.
Proof. exact (abort_spec s P C id t r s' Ht Ha Hw Hfit E). Qed.

End Rollback.

(* ------------------------------------------------------------------ *)
(** ** A transaction on one table                                       *)
(* ------------------------------------------------------------------ *)

Lemma sys_inv_same ts lt i t t' : sys_inv (mkSys ts lt) → ts !! i = Some t → txn_id t' = txn_id t → lock_set t' = lock_set t →
  sys_inv (mkSys (<[i := t']> ts) lt).
Proof.
  intros [H1 H2 H3] Hi Ei El. split; simpl in *; [done| |].
  - intros j x [[<- <-]|[_ Hx]]%lookup_insert_Some; [rewrite Ei; by apply H2|by apply H2].
  - intros j m d Hd. destruct (H3 j m d Hd) as (x & Hx & Hin). destruct (decide (j = i)) as [->|Hne].
    + exists t'. rewrite lookup_insert_eq, El. split; [done|]. by assert (x = t) as <- by congruence.
    + exists x. by rewrite lookup_insert_ne.
Qed.

(** Transaction 7 has inserted the one record of table t, which it has locked. *)
Module TxnWitness.
Import RmWitness.

Definition tab : TabMeta := mkTabMeta "t" [] [].
Definition rid0 : Rid := mkRid 1 0.
Definition lid : LockDataId := lock_record_id fd rid0.
Definition begun : gmap Z Transaction := {[7 := set_state GROWING (new_transaction 7)]}.
Definition locked : Transaction * lock_table :=
  match lock (begun !! 7) lid EXLUCSIVE ∅ with (_, (Some t, lt)) => (t, lt) | _ => (new_transaction 7, ∅) end.
Definition txn7 : Transaction := set_write_set [write_record_insert "t" rid0] (fst locked).
Definition sm0 : SmManager LRU.LRUReplacer MemFS.fs :=
  mkSm (store st1) (mkDbMeta "db" {["t" := tab]}) {["t" := (fd, file_hdr st1)]} ∅ None.
Definition lm0 : LogManager unit := mkLogManager 0 (empty_buffer 50) INVALID_LSN tt.
Definition s0 : Rmdb LRU.LRUReplacer MemFS.fs := mkRmdb sm0 lm0 (snd locked) {[7 := txn7]} 8 1.
Definition C1 : tables := {[("t", rid0) := rec 1]}.
Definition s_commit : Rmdb LRU.LRUReplacer MemFS.fs := snd (txn_commit 50 (Some 7) true s0).
Definition s_abort : Rmdb LRU.LRUReplacer MemFS.fs := snd (txn_abort 50 (Some 7) true s0).

Lemma sm0_ok : tables_ok true sm0 C1.
Proof.
  destruct st1_all as (pgs & l & Hi & Hc). destruct (reframe fd true sb st1 pgs l Hi) as [Hi2 _].
  assert (∀ t g h, fhs_ sm0 !! t = Some (g, h) → t = "t" ∧ g = fd ∧ h = file_hdr st1) as Hl.
  { intros t g h Ht. unfold sm0 in Ht. cbn [fhs_] in Ht. apply lookup_singleton_Some in Ht as [<- Ht]. apply pair_equal_spec in Ht as [<- <-].
    split; [reflexivity|split; reflexivity]. }
  split.
  - exact (b_ok _ _ _ _ _ (proj1 Hi)).
  - intros t1 t2 g h1 h2 (-> & _)%Hl (-> & _)%Hl. done.
  - intros t g h (-> & -> & ->)%Hl. exists pgs, l. split; [exact (file_eta _ _ _ _ _ _ Hi2)|]. intros r. rewrite Hc. unfold C1.
    case_decide as Hr; [by rewrite Hr, lookup_singleton_eq|]. rewrite lookup_singleton_ne; [done|]. intros E. apply Hr.
    by apply pair_equal_spec in E as [_ <-].
Qed.

Lemma s0_active : active s0 7 txn7.
Proof.
  split.
  - by vm_compute.
  - assert ({[7 := txn7]} = <[7 := txn7]> (<[7 := fst locked]> begun)) as Em.
    { unfold begun. by rewrite !insert_insert_eq. }
    unfold s0. simpl. rewrite Em. apply (sys_inv_same _ _ 7 (fst locked)); [|by rewrite lookup_insert_eq|done|done].
    apply reachable_inv. apply (rtc_l _ _ (mkSys begun ∅)).
    { exact (lm_begin ∅ ∅ 7 eq_refl). }
    apply rtc_once. refine (lm_lock begun ∅ 7 (set_state GROWING (new_transaction 7)) lid EXLUCSIVE (Ret true) _ _ eq_refl _).
    by vm_compute.
  - done.
  - by unfold is_int32, int32_min, int32_max.
  - by unfold is_int32, int32_min, int32_max.
Qed.

Lemma d_log_ok : log_inv 50 [] [] [] (log_view s0).
Proof.
  split.
  - split; [|by vm_compute]. exact (i_disk _ (proj1 (t_ok _ _ _ sm0_ok))).
  - vm_compute. reflexivity.
  - reflexivity.
  - reflexivity.
  - vm_compute. reflexivity.
  - vm_compute. discriminate.
  - constructor.
  - reflexivity.
  - vm_compute. split; discriminate.
Qed.

Lemma commit_durable_witness :
  fst (read_all_logs (disk (bpm_ (sm s_commit)))) = Ret [set_lsn 0 (new_commit 7)] ∧
  (∃ t', txn_map s_commit !! 7 = Some t' ∧ txn_state t' = COMMITTED ∧ write_set t' = [] ∧ lock_set t' = ∅).
Proof.
  destruct (commit_durable 50 true [] [] [] s0 C1 7 txn7 (Ret tt) s_commit) as (_ & _ & Hr & _ & Ht).
  - by vm_compute.
  - exact sm0_ok.
  - exact d_log_ok.
  - exact s0_active.
  - reflexivity.
  - unfold s_commit. apply run_eq. vm_compute. reflexivity.
  - split; [|exact Ht]. apply Hr. vm_compute. discriminate.
Defined.

Lemma abort_restores_witness :
  tables_ok true (sm s_abort) ∅ ∧
  (∃ t', txn_map s_abort !! 7 = Some t' ∧ txn_state t' = ABORTED ∧ write_set t' = [] ∧ lock_set t' = ∅).
Proof.
  destruct (abort_restores 50 true s0 ∅ C1 7 txn7 (Ret tt) s_abort) as (H1 & _ & H2).
  - exact sm0_ok.
  - exact s0_active.
  - exact (wrote_insert ∅ [] ∅ "t" rid0 (rec 1) (wrote_nil ∅) (lookup_empty _)).
  - constructor; [|constructor]. split; [|split; [done|]].
    + exists fd, (file_hdr st1). split; [reflexivity|]. by vm_compute.
    + exists tab. split; reflexivity.
  - unfold s_abort. apply run_eq. vm_compute. reflexivity.
  - split; [exact H1|exact H2].
Defined.

End TxnWitness.
