(* ===== verification/RecoverySpec.v ===== *)
(** * Correctness of crash recovery

    Recovery's operations on record files, redo and undo on the tables, and the
    theorem that they lead from whatever mixture of pages a crash left to the
    state of the committed transactions.  Recovery creates pages without
    linking all of them into the free list, so the files satisfy the weak form
    of the record file invariant here. *)

From S2P Require Import Prelude Defs SmMeta Replacer Posix DiskManager BufferPool RmFile RmPage RmSpec RmManager IxNode IxIndex IxManager SmManager TableSpec Txn LockManager LogRecord LogManager Recovery TxnSpec.

(* ------------------------------------------------------------------ *)
(** ** One record file                                                  *)
(* ------------------------------------------------------------------ *)

Section RecoverFile.
Context {R OS : Type} `{ReplacerLaws R, PosixLaws OS}.
Abbreviation pool := (BPM R (DiskManager OS)).
Variables (fd : Z) (before : pool).
Hypothesis Hroom : has_room fd before.
Implicit Types st : RmFile pool.
Abbreviation inv := (rm_inv fd false before).
Abbreviation call := (file_call fd false before).

Lemma contents_out h pgs rid : ¬ rid_in h rid → contents h pgs rid = None.
Proof.
  intros Hn. unfold contents. destruct (decide (page_in h (page_no rid))); [|by rewrite bool_decide_eq_false_2].
  destruct (decide (slot_in h (slot_no rid))); [by exfalso; apply Hn|].
  by rewrite (bool_decide_eq_false_2 (slot_in _ _)), andb_false_r.
Qed.

Lemma record_exists_call st pgs l rid r st' : inv st pgs l → record_exists fd rid st = (r, st') →
  call st r st' (contents (file_hdr st) pgs) (λ b, b = bool_decide (is_Some (contents (file_hdr st) pgs rid))).
Proof using Hroom.
  intros Hi E. unfold record_exists in E. rewrite (st_bind_ret get_hdr _ st (file_hdr st) st) in E by done.
  destruct (_ || _) eqn:Eb.
  - injection E as <- <-. split.
    + rewrite contents_out; [by rewrite bool_decide_eq_false_2 by (by intros [? ?])|].
      unfold rid_in, page_in, slot_in. intros [Hp Hs]. bool_prop. lia.
    + exists pgs, l. by split_and!.
  - assert (rid_in (file_hdr st) rid) as Hr by (unfold rid_in, page_in, slot_in; bool_prop; lia).
    unfold try_catch in E. destruct (is_record fd rid st) as [r1 s1] eqn:E1.
    apply (is_record_call fd false before st pgs l) in E1; [|done|done].
    destruct r1 as [b|e]; [by injection E as <- <-|done].
Qed.

(** create_new_page_handle, in any state of the free list. *)
Lemma create_new_call st pgs l : inv st pgs l → num_pages (file_hdr st) < int32_max →
  ∃ f st1 pgs1, create_new_page_handle fd st = (Ret f, st1) ∧
    page_no_of f st1 = (Ret (num_pages (file_hdr st)), st1) ∧
    ∃ st2, unpin_no fd (num_pages (file_hdr st)) true st1 = (Ret true, st2) ∧
      inv st2 pgs1 [num_pages (file_hdr st)] ∧ same_shape (file_hdr st) (file_hdr st2) ∧
      num_pages (file_hdr st2) = num_pages (file_hdr st) + 1 ∧
      ∀ x, contents (file_hdr st2) pgs1 x = contents (file_hdr st) pgs x.
Proof using Hroom.
  intros Hi Hlt. destruct (create_new_live fd false before st pgs l Hi Hroom) as (f & st1 & E).
  destruct (create_new_page_spec fd false before st pgs l f st1 Hi ltac:(done) Hlt E)
    as (pgs1 & Hb1 & Hm1 & Hh1 & Hsh & Hn & Hc). exists f, st1, pgs1. split; [done|].
  assert (page_in (file_hdr st1) (num_pages (file_hdr st))) as Hin.
  { destruct Hi as [_ Hm]. pose proof (m_num _ _ _ _ Hm). unfold page_in, RM_FIRST_RECORD_PAGE. lia. }
  split; [by apply (page_data_spec _ _ _ _ _ _ _ Hb1 Hin Hh1)|].
  destruct (unpin_no_spec fd before st1 _ pgs1 f _ true Hb1 Hh1 ltac:(done)) as (st2 & E2 & Hh2 & Hb2 & _).
  exists st2. split; [done|]. split; [split; [|by rewrite Hh2]|by rewrite Hh2].
  eapply busy_ext; [|done|exact Hb2]. intros m. rewrite upd_eq.
  destruct (decide (m = num_pages (file_hdr st))) as [->|]; [by rewrite upd_eq|by rewrite !upd_ne].
Qed.

(** ensure_page_exists ends, with the page there and no record changed. *)
Lemma ensure_loop_call k rid st pgs l r st' : inv st pgs l → page_no rid < int32_max →
  k = Z.to_nat (page_no rid + 1 - num_pages (file_hdr st)) → ensure_loop k fd rid st = (r, st') →
  call st r st' (contents (file_hdr st) pgs) (λ _, page_no rid < num_pages (file_hdr st')).
Proof using Hroom.
  revert st pgs l. induction k as [|k IH]; intros st pgs l Hi Hmax Hk E; cbn [ensure_loop] in E;
    rewrite (st_bind_ret get_hdr _ st (file_hdr st) st) in E by done;
    destruct (Z.leb_spec (num_pages (file_hdr st)) (page_no rid)) as [Hle|Hlt]; [lia| | |lia].
  { injection E as <- <-. split; [done|]. exists pgs, l. by split_and!. }
  destruct (create_new_call st pgs l Hi) as (f & st1 & pgs1 & E1 & E2 & st2 & E3 & Hi2 & Hsh & Hn & Hc); [lia|].
  rewrite (st_bind_ret _ _ _ _ _ E1), (st_bind_ret _ _ _ _ _ E2), (st_bind_ret _ _ _ _ _ E3) in E.
  apply (IH st2 pgs1 _ Hi2) in E; [|done|lia]. destruct r as [[]|e]; [|done].
  destruct E as (Hq & pgs3 & l3 & Hi3 & Hsh3 & Hn3 & Hc3). split; [done|]. exists pgs3, l3.
  split_and!; [done|by eapply same_shape_trans|lia|]. intros x. by rewrite Hc3, Hc.
Qed.

(** The record ids recovery can restore: any page below 2^31 - 1. *)
Definition rid_fits (h : RmFileHdr) (rid : Rid) : Prop :=
  RM_FIRST_RECORD_PAGE ≤ page_no rid < int32_max ∧ slot_in h (slot_no rid).

Lemma call_bind {A B} st (m : ST (RmFile pool) A) (k : A → ST (RmFile pool) B) r st' C1 C2 (Q1 : A → Prop) (Q2 : B → Prop) :
  (m ≫= k) st = (r, st') → (∀ r1 st1, m st = (r1, st1) → call st r1 st1 C1 Q1) →
  (∀ a st1 pgs l, m st = (Ret a, st1) → Q1 a → inv st1 pgs l → same_shape (file_hdr st) (file_hdr st1) →
     num_pages (file_hdr st) ≤ num_pages (file_hdr st1) → (∀ x, contents (file_hdr st1) pgs x = C1 x) →
     k a st1 = (r, st') → call st1 r st' C2 Q2) →
  call st r st' C2 Q2.
Proof using Hroom.
  intros E Hm Hk. apply st_bind_inv in E as [(a & st1 & E1 & E)|(e & E1 & ->)]; [|by apply Hm in E1].
  destruct (Hm _ _ E1) as (HQ & pgs & l & Hi & Hsh & Hn & Hc). specialize (Hk a st1 pgs l E1 HQ Hi Hsh Hn Hc E).
  destruct r as [b|e]; [|done]. destruct Hk as (HQ2 & pgs2 & l2 & Hi2 & Hsh2 & Hn2 & Hc2). split; [done|].
  exists pgs2, l2. split_and!; [done|by eapply same_shape_trans|lia|done].
Qed.

Lemma call_ext {A} st r st' C1 C2 (Q : A → Prop) : (∀ x, C1 x = C2 x) → call st r st' C1 Q → call st r st' C2 Q.
Proof.
  intros HC. destruct r as [a|e]; [|done]. intros (HQ & pgs & l & ? & ? & ? & Hc). split; [done|]. exists pgs, l.
  split_and!; try done. intros x. by rewrite Hc.
Qed.

Lemma put_record_at_call st pgs l rid buf r st' : inv st pgs l → rid_fits (file_hdr st) rid →
  length buf = Z.to_nat (record_size (file_hdr st)) → Forall is_byte buf → put_record_at fd rid buf st = (r, st') →
  call st r st' (λ x, if decide (x = rid) then Some buf else contents (file_hdr st) pgs x) (λ _, True).
Proof using Hroom.
  intros Hi [[Hp0 Hp1] Hs] Hl Hb E. unfold put_record_at in E.
  eapply (call_bind _ _ _ _ _ (contents (file_hdr st) pgs) _ (λ _, True)); [exact E| |].
  { intros r1 st1 E1. unfold ensure_page_exists in E1. rewrite (st_bind_ret get_hdr _ st (file_hdr st) st) in E1 by done.
    apply (ensure_loop_call _ rid st pgs l) in E1; [|done..]. destruct r1 as [a|e]; [|done].
    destruct E1 as (_ & ?). by split. }
  clear E. intros [] st1 pgs1 l1 E1 _ Hi1 Hsh1 Hn1 Hc1 E.
  assert (page_no rid < num_pages (file_hdr st1)) as Hin.
  { unfold ensure_page_exists in E1. rewrite (st_bind_ret get_hdr _ st (file_hdr st) st) in E1 by done.
    by apply (ensure_loop_call _ rid st pgs l) in E1 as [? _]. }
  assert (rid_in (file_hdr st1) rid) as Hr1.
  { split; [by split|]. unfold slot_in in *. by rewrite (proj1 (proj2 Hsh1)). }
  rewrite <- (proj1 Hsh1) in Hl.
  eapply (call_bind _ _ _ _ _ (contents (file_hdr st) pgs) _ (λ b, b = bool_decide (is_Some (contents (file_hdr st) pgs rid)))); [exact E| |].
  { intros r2 st2 E2. apply (record_exists_call st1 pgs1 l1) in E2; [|done]. rewrite Hc1 in E2. by eapply call_ext. }
  clear E. intros b st2 pgs2 l2 _ Hq Hi2 Hsh2 Hn2 Hc2 E.
  assert (rid_in (file_hdr st2) rid) as Hr2.
  { destruct Hr1 as [Ha Hc]. unfold rid_in, page_in, slot_in in *. rewrite (proj1 (proj2 Hsh2)). split; [lia|done]. }
  rewrite <- (proj1 Hsh2) in Hl. destruct b.
  - symmetry in Hq. apply bool_decide_eq_true in Hq as [v Hv]. rewrite <- Hc2 in Hv.
    apply (update_record_call fd false before st2 pgs2 l2 rid v) in E; [|done..].
    eapply call_ext; [|exact E]. intros x. simpl. by rewrite Hc2.
  - apply (insert_record_at_call fd false before st2 pgs2 l2) in E; [|done..].
    eapply call_ext; [|exact E]. intros x. simpl. by rewrite Hc2.
Qed.

Lemma remove_record_at_call st pgs l rid r st' : inv st pgs l → remove_record_at fd rid st = (r, st') →
  call st r st' (λ x, if decide (x = rid) then None else contents (file_hdr st) pgs x) (λ _, True).
Proof using Hroom.
  intros Hi E. unfold remove_record_at in E.
  eapply (call_bind _ _ _ _ _ (contents (file_hdr st) pgs) _ (λ b, b = bool_decide (is_Some (contents (file_hdr st) pgs rid)))); [exact E| |].
  { intros r1 st1. by eapply record_exists_call. }
  clear E. intros b st1 pgs1 l1 _ Hq Hi1 Hsh1 Hn1 Hc1 E. destruct b.
  - symmetry in Hq. apply bool_decide_eq_true in Hq as [v Hv]. rewrite <- Hc1 in Hv.
    assert (rid_in (file_hdr st1) rid) as Hr.
    { destruct (decide (page_in (file_hdr st1) (page_no rid))); destruct (decide (slot_in (file_hdr st1) (slot_no rid)));
        try by split. all: rewrite contents_out in Hv; [done|by intros [? ?]]. }
    apply (delete_record_call fd false before st1 pgs1 l1 rid v) in E; [|done..].
    eapply call_ext; [|exact E]. intros x. simpl. by rewrite Hc1.
  - injection E as <- <-. split; [done|]. exists pgs1, l1. split_and!; try done. intros x. rewrite Hc1. case_decide as Ex; [|done].
    subst. symmetry in Hq. apply bool_decide_eq_false in Hq. by apply eq_None_not_Some.
Qed.

End RecoverFile.

(* ------------------------------------------------------------------ *)
(** ** All tables                                                       *)
(* ------------------------------------------------------------------ *)

(** The record of a log record, its bytes before and after. *)
Definition log_item (r : LogRecord) : option (string * Rid) :=
  match body r with
  | InsertLogRecord _ rid name | DeleteLogRecord _ rid name | UpdateLogRecord _ _ rid name =>
      Some (table_name_from_log name, rid)
  | _ => None
  end.
Definition before_image (r : LogRecord) : option (list Z) :=
  match body r with DeleteLogRecord v _ _ => Some v | UpdateLogRecord old _ _ _ => Some old | _ => None end.
Definition after_image (r : LogRecord) : option (list Z) :=
  match body r with InsertLogRecord v _ _ => Some v | UpdateLogRecord _ new _ _ => Some new | _ => None end.

Definition put_image (r : LogRecord) (x : option (list Z)) (C : tables) : tables :=
  match log_item r with Some i => partial_alter (λ _, x) i C | None => C end.

Lemma put_image_lookup r x C i : put_image r x C !! i = if decide (log_item r = Some i) then x else C !! i.
Proof.
  unfold put_image. destruct (log_item r) as [j|]; [|done]. case_decide as E.
  - injection E as ->. apply lookup_partial_alter_eq.
  - apply lookup_partial_alter_ne. congruence.
Qed.

Section RecoverTables.
Context {R OS : Type} `{ReplacerLaws R, PosixLaws OS}.
Abbreviation sm_t := (SmManager R OS).
Implicit Types (s : sm_t) (C : tables).

(** A log record describes records of an open table. *)
Definition log_fits s (r : LogRecord) : Prop :=
  ∀ t rid, log_item r = Some (t, rid) →
    (∃ fd h, fhs_ s !! t = Some (fd, h) ∧ rid_fits h rid) ∧
    ∀ v, before_image r = Some v ∨ after_image r = Some v → fits_rec s t v.

Lemma log_fits_same s s' r : same_tables s s' → log_fits s r → log_fits s' r.
Proof.
  intros Hs Hf t rid Hi. destruct (Hf t rid Hi) as [(fd & h & Ht & Hp & Hsl) Hv]. split.
  - destruct Hs as (_ & _ & _ & _ & Hs). specialize (Hs t). rewrite Ht in Hs.
    destruct (fhs_ s' !! t) as [[fd' h']|]; [|done]. destruct Hs as (-> & (_ & Hn & _) & _).
    exists fd, h'. split; [done|]. split; [done|]. unfold slot_in in *. by rewrite Hn.
  - intros v Hx. eapply fits_rec_same; eauto.
Qed.

Lemma roomy_room s fd : roomy s → has_room fd (bpm_ s).
Proof. intros (Hl & X & HX & Hs). split; [done|]. exists X. split; [|done]. intros q _. apply HX. Qed.

(** put_record_at and remove_record_at with the handle of a table *)
Lemma restore_spec s C t rid fd h x r s' : tables_ok false s C → roomy s → fhs_ s !! t = Some (fd, h) → rid_fits h rid →
  (∀ v, x = Some v → fits_rec s t v) →
  with_fh t (λ fd, match x with Some v => put_record_at fd rid v | None => remove_record_at fd rid end) s = (r, s') →
  r = Ret tt ∧ tables_ok false s' (partial_alter (λ _, x) (t, rid) C) ∧ same_tables s s'.
Proof.
  intros Ht Hroom Hfd Hfit Hx E.
  assert (tab_call false s r s' (partial_alter (λ _, x) (t, rid) C) (λ _, True)) as Hc.
  { eapply with_fh_spec; [exact Ht|exact Hfd|exact E| |].
    { intros t' y Hne. apply lookup_partial_alter_ne. congruence. }
    assert (∀ y, (if decide (y = rid) then x else C !! (t, y)) = (partial_alter (λ _, x) (t, rid) C : tables) !! (t, y)) as Hy.
    { intros y. case_decide as Ey; [rewrite Ey; by rewrite lookup_partial_alter_eq|rewrite lookup_partial_alter_ne; congruence]. }
    intros pgs l r' st' Hinv Hc Em. pose proof (roomy_room s fd Hroom) as Hr. destruct x as [v|].
    - destruct (Hx v eq_refl fd h Hfd) as [Hl Hb].
      apply (put_record_at_call fd (bpm_ s) Hr _ pgs l) in Em; [|done..].
      eapply file_call_ext; [|exact Em]. intros y. simpl. by rewrite Hc.
    - apply (remove_record_at_call fd (bpm_ s) Hr _ pgs l) in Em; [|done..].
      eapply file_call_ext; [|exact Em]. intros y. simpl. by rewrite Hc. }
  destruct r as [[]|e]; [|by exfalso; apply Hc]. by destruct Hc as (_ & ? & ?).
Qed.

Lemma redo_record_spec s C rec r s' : tables_ok false s C → roomy s → log_fits s rec → redo_record rec s = (r, s') →
  r = Ret tt ∧ tables_ok false s' (put_image rec (after_image rec) C) ∧ same_tables s s'.
Proof.
  intros Ht Hroom Hfit E. unfold redo_record, log_fits, put_image, log_item, after_image in *.
  destruct (body rec) as [old new rid name|v rid name|v rid name| | |];
    try (injection E as <- <-; split_and!; [done|done|apply same_tables_refl]);
    destruct (Hfit _ _ eq_refl) as [(fd & h & Hfd & Hr) Hv].
  - apply (restore_spec s C _ rid fd h (Some new)) in E; [done|done|done|done|done|]. intros x [= <-]. by apply Hv; right.
  - apply (restore_spec s C _ rid fd h (Some v)) in E; [done|done|done|done|done|]. intros x [= <-]. by apply Hv; right.
  - by apply (restore_spec s C _ rid fd h None) in E.
Qed.

Lemma undo_record_spec s C rec r s' : tables_ok false s C → roomy s → log_fits s rec → undo_record rec s = (r, s') →
  r = Ret tt ∧ tables_ok false s' (put_image rec (before_image rec) C) ∧ same_tables s s'.
Proof.
  intros Ht Hroom Hfit E. unfold undo_record, log_fits, put_image, log_item, before_image in *.
  destruct (body rec) as [old new rid name|v rid name|v rid name| | |];
    try (injection E as <- <-; split_and!; [done|done|apply same_tables_refl]);
    destruct (Hfit _ _ eq_refl) as [(fd & h & Hfd & Hr) Hv].
  - apply (restore_spec s C _ rid fd h (Some old)) in E; [done|done|done|done|done|]. intros x [= <-]. by apply Hv; left.
  - by apply (restore_spec s C _ rid fd h None) in E.
  - apply (restore_spec s C _ rid fd h (Some v)) in E; [done|done|done|done|done|]. intros x [= <-]. by apply Hv; left.
Qed.

(** A loop over log records that restores an image of those selected. *)
Lemma replay_spec (f : LogRecord → ST sm_t unit) (sel : LogRecord → bool) (img : LogRecord → option (list Z)) logs s C r s' :
  (∀ rec s C r s', tables_ok false s C → roomy s → log_fits s rec → f rec s = (r, s') →
     r = Ret tt ∧ tables_ok false s' (if sel rec then put_image rec (img rec) C else C) ∧ same_tables s s') →
  tables_ok false s C → roomy s → Forall (log_fits s) logs → for_each f logs s = (r, s') →
  r = Ret tt ∧ tables_ok false s' (fold_left (λ C rec, if sel rec then put_image rec (img rec) C else C) logs C) ∧
  same_tables s s'.
Proof.
  intros Hf. revert s C. induction logs as [|rec logs IH]; intros s C Ht Hroom Hfit E.
  { injection E as <- <-. split_and!; [done|done|apply same_tables_refl]. }
  apply Forall_cons in Hfit as [Hr Hfit]. cbn [for_each] in E. unfold mbind, st_bind in E.
  destruct (f rec s) as [r1 s1] eqn:E1. apply (Hf rec s C) in E1 as (-> & Ht1 & Hs1); [|done..].
  eapply IH in E as (-> & Ht2 & Hs2); [|exact Ht1|by apply Hs1|].
  - split_and!; [done|done|by eapply same_tables_trans].
  - eapply Forall_impl; [exact Hfit|]. intros x. by apply log_fits_same.
Qed.

(** *** Reading the log *)

(** Reads leave everything but file offsets. *)
Definition only_read (d d' : DiskManager OS) : Prop :=
  ∃ o, d' = set_os d o ∧ (∀ g, os_ino o g = os_ino (os d) g) ∧ (∀ q, os_name o q = os_name (os d) q) ∧
    (∀ i, os_data o i = os_data (os d) i) ∧ (os_live (os d) → os_live o).

Lemma only_read_refl d : only_read d d.
Proof. exists (os d). split_and!; try done. by destruct d. Qed.

Lemma read_log_reads d n off r d' : log_fd d ≠ -1 → read_log n off d = (r, d') → only_read d d'.
Proof.
  intros Hl E. unfold read_log, ensure_log, sys, mbind, st_bind, get_st in E.
  destruct (Z.eqb_spec (log_fd d) (-1)); [done|]. simpl in E.
  destruct (_ <? off); [injection E as _ <-; apply only_read_refl|].
  destruct (_ =? 0); [injection E as _ <-; apply only_read_refl|].
  destruct (os_lseek _ _ _) as [b o1] eqn:E1. pose proof (os_lseek_live _ _ _ _ _ E1) as Hl1.
  apply os_lseek_ok in E1 as (_ & _ & Hi1 & Hn1 & Hd1). simpl in E.
  destruct (os_read _ _ _) as [bs o2] eqn:E2. pose proof (os_read_live _ _ _ _ _ E2) as Hl2.
  apply os_read_ok in E2 as (_ & Hi2 & Hn2 & Hd2). exists o2. split_and!.
  - unfold assert_that in E. destruct (_ =? _); by injection E as _ <-.
  - intros g. by rewrite Hi2.
  - intros q. by rewrite Hn2.
  - intros i. by rewrite Hd2.
  - auto.
Qed.

Lemma read_all_logs_reads d r d' : log_fd d ≠ -1 → read_all_logs d = (r, d') → only_read d d'.
Proof.
  intros Hl E. unfold read_all_logs in E. rewrite (st_bind_ret get_st _ d d d eq_refl) in E. cbv zeta in E.
  destruct (_ <=? 0); [injection E as _ <-; apply only_read_refl|]. cbn [ld_size ld_read DM_log] in E.
  unfold mbind, st_bind in E. destruct (read_log _ _ d) as [r1 d1] eqn:E1. apply read_log_reads in E1; [|done].
  destruct r1 as [[n bs]|e]; by injection E as _ <-.
Qed.

Lemma only_read_tables s C d : tables_ok false s C → only_read (disk (bpm_ s)) d →
  tables_ok false (set_bpm (set_disk d (bpm_ s)) s) C ∧ same_tables s (set_bpm (set_disk d (bpm_ s)) s).
Proof.
  intros Ht (o & -> & Hi & Hn & Hd & Hl). assert (dm_inv (disk (bpm_ s))) as Hdm by apply (t_ok _ _ _ Ht).
  split.
  - apply set_disk_ok; [done|]. split; try done; [by apply dm_inv_os|].
    intros q c Hq. by rewrite <- Hq; apply dm_page_same.
  - split_and!; try done.
    + intros ((Hlv & Hp) & HX). split; [|exact HX]. split; [|exact Hp]. destruct Hlv as (? & ? & ?). split_and!; try done. by apply Hl.
    + intros [Ha Hb]. assert (∀ g, ps_file_name g (set_disk (set_os (disk (bpm_ s)) o) (bpm_ s)) = ps_file_name g (bpm_ s)) as Hg.
      { intros g. cbn [ps_file_name BPM_store disk_file_name DM_disk]. by apply file_name_same. }
      split; [split; [intros q Hq; cbn [bpm_ set_bpm]; rewrite Hg; by apply Ha|intros t fd h Hf; cbn [bpm_ set_bpm]; rewrite Hg; by eapply Hb]|]. simpl. unfold file_bytes. simpl. rewrite Hn. by destruct (os_name _ _); rewrite ?Hd.
    + intros t. simpl. destruct (fhs_ s !! t) as [[fd h]|]; [|done]. by split_and!.
Qed.

(** The log on disk: whole records, and possibly a torn one. *)
Definition log_on_disk s (logs : list LogRecord) : Prop :=
  ∃ t, ps_bytes (bpm_ s) LOG_FILE_NAME = log_image logs ++ t ∧ torn t ∧ Forall log_wf logs ∧
    Z.of_nat (length (log_image logs ++ t)) ≤ int32_max.

Lemma log_on_disk_same s s' logs : same_tables s s' → log_apart s → log_on_disk s logs → log_apart s' ∧ log_on_disk s' logs.
Proof.
  intros (_ & _ & _ & Hs & _) Ha (t & Hb & H'). destruct (Hs Ha) as [Ha' Eb]. split; [done|]. exists t. by rewrite Eb.
Qed.

Lemma sm_read_logs_spec s C logs r s' : tables_ok false s C → roomy s → log_on_disk s logs → sm_read_logs s = (r, s') →
  r = Ret logs ∧ tables_ok false s' C ∧ same_tables s s'.
Proof.
  intros Ht Hroom (t & Hb & Htorn & Hwf & Hfit) E. unfold sm_read_logs, on_pool, on_disk in E.
  assert (dm_live (disk (bpm_ s))) as (_ & Hl & _) by apply Hroom.
  destruct (read_all_logs_spec (disk (bpm_ s)) logs t) as (d' & Er & _); try done.
  { split; [apply (t_ok _ _ _ Ht)|done]. }
  { simpl in Hb |- *. unfold log_bytes. by rewrite Hb. }
  rewrite Er in E. injection E as <- <-. split; [done|]. apply only_read_tables; [done|]. by eapply read_all_logs_reads.
Qed.

(** *** redo and undo *)

Definition is_committed (logs : list LogRecord) (rec : LogRecord) : bool := bool_decide (log_tid rec ∈ committed_txns logs).
Definition is_unfinished (logs : list LogRecord) (rec : LogRecord) : bool :=
  bool_decide (log_tid rec ∈ all_txns logs) && negb (bool_decide (log_tid rec ∈ finished_txns logs)).

(** The writes of committed transactions, in log order. *)
Definition committed_state (logs : list LogRecord) (C : tables) : tables :=
  fold_left (λ C rec, if is_committed logs rec then put_image rec (after_image rec) C else C) logs C.

Lemma redo_spec s C logs r s' : tables_ok false s C → roomy s → log_on_disk s logs → Forall (log_fits s) logs →
  redo s = (r, s') → r = Ret tt ∧ tables_ok false s' (committed_state logs C) ∧ same_tables s s'.
Proof.
  intros Ht Hroom Hlog Hfit E. unfold redo, mbind, st_bind in E. destruct (sm_read_logs s) as [r1 s1] eqn:E1.
  apply (sm_read_logs_spec s C logs) in E1 as (-> & Ht1 & Hs1); [|done..].
  apply (replay_spec _ (is_committed logs) after_image logs s1 C) in E as (-> & Ht2 & Hs2); [|clear E|done|by apply Hs1|].
  - split_and!; [done|exact Ht2|by eapply same_tables_trans].
  - intros rec s2 C2 r2 s3 Ht2 Hr2 Hf2 E. unfold is_committed. case_bool_decide; [by apply redo_record_spec|].
    injection E as <- <-. split_and!; [done|done|apply same_tables_refl].
  - eapply Forall_impl; [exact Hfit|]. intros x. by apply log_fits_same.
Qed.

Definition undone (logs : list LogRecord) (C : tables) : tables :=
  fold_left (λ C rec, if is_unfinished logs rec then put_image rec (before_image rec) C else C) (reverse logs) C.

Lemma undo_logs_spec s C logs r s' : tables_ok false s C → roomy s → log_on_disk s logs → Forall (log_fits s) logs →
  undo_logs s = (r, s') → r = Ret tt ∧ tables_ok false s' (undone logs C) ∧ same_tables s s'.
Proof.
  intros Ht Hroom Hlog Hfit E. unfold undo_logs, mbind, st_bind in E. destruct (sm_read_logs s) as [r1 s1] eqn:E1.
  apply (sm_read_logs_spec s C logs) in E1 as (-> & Ht1 & Hs1); [|done..].
  apply (replay_spec _ (is_unfinished logs) before_image (reverse logs) s1 C) in E as (-> & Ht2 & Hs2); [|clear E|done|by apply Hs1|].
  - split_and!; [done|exact Ht2|by eapply same_tables_trans].
  - intros rec s2 C2 r2 s3 Ht2 Hr2 Hf2 E. unfold is_unfinished. 
    destruct (bool_decide_reflect (log_tid rec ∈ all_txns logs)) as [Ha|Ha].
    + rewrite (bool_decide_eq_false_2 (_ ∉ _)) in E by naive_solver.
      destruct (bool_decide_reflect (log_tid rec ∈ finished_txns logs)); simpl in *; [|by apply undo_record_spec].
      injection E as <- <-. split_and!; [done|done|apply same_tables_refl].
    + rewrite (bool_decide_eq_true_2 (_ ∉ _)) in E by done. injection E as <- <-.
      split_and!; [done|done|apply same_tables_refl].
  - apply Forall_reverse. eapply Forall_impl; [exact Hfit|]. intros x. by apply log_fits_same.
Qed.

(** *** The history of one record *)

(** The log as it concerns record [i], which holds [v]: each write of a committed
    or unfinished transaction has the value it replaces as its before image, and
    no committed write follows an unfinished one ([dirty]), as strict two-phase
    locking ensures.  Aborted writes have been undone and are left out. *)
Fixpoint item_chain (cm un : LogRecord → bool) (i : string * Rid) (logs : list LogRecord)
    (v : option (list Z)) (dirty : bool) : Prop :=
  match logs with
  | [] => True
  | rec :: logs' =>
      if bool_decide (log_item rec = Some i) && (cm rec || un rec) then
        before_image rec = v ∧ (cm rec = true → dirty = false) ∧
        item_chain cm un i logs' (after_image rec) (dirty || un rec)
      else item_chain cm un i logs' v dirty
  end.

Definition item_redo (cm : LogRecord → bool) (i : string * Rid) (logs : list LogRecord) (v : option (list Z)) :=
  fold_left (λ v rec, if cm rec && bool_decide (log_item rec = Some i) then after_image rec else v) logs v.
Definition item_undo (un : LogRecord → bool) (i : string * Rid) (logs : list LogRecord) (v : option (list Z)) :=
  foldr (λ rec v, if un rec && bool_decide (log_item rec = Some i) then before_image rec else v) v logs.

Lemma fold_image_lookup (sel : LogRecord → bool) img logs C i :
  fold_left (λ C rec, if sel rec then put_image rec (img rec) C else C) logs C !! i =
  fold_left (λ v rec, if sel rec && bool_decide (log_item rec = Some i) then img rec else v) logs (C !! i).
Proof.
  revert C. induction logs as [|rec logs IH]; intros C; [done|]. simpl. rewrite IH. f_equal.
  destruct (sel rec); [|done]. simpl. rewrite put_image_lookup. by case_decide; case_bool_decide.
Qed.

Lemma chain_dirty cm un i logs v w : item_chain cm un i logs v true → (∀ rec, cm rec = true → un rec = false) →
  item_redo cm i logs w = w.
Proof.
  intros Hc Hx. revert v Hc. induction logs as [|rec logs IH]; intros v Hc; [done|]. unfold item_redo in *. simpl in *.
  destruct (bool_decide (log_item rec = Some i)); simpl in Hc; [|rewrite andb_false_r; by eapply IH].
  destruct (cm rec) eqn:Ec; simpl in *; [by destruct Hc as (_ & ? & _); naive_solver|].
  destruct (un rec); [by destruct Hc as (_ & _ & ?); eapply IH|by eapply IH].
Qed.

(** Redo from any value, then undo, gives the committed value. *)
Lemma chain_recovers cm un i logs v d : item_chain cm un i logs v false → (∀ rec, cm rec = true → un rec = false) →
  ((∀ rec, rec ∈ logs → log_item rec = Some i → cm rec = false ∧ un rec = false) → d = v) →
  item_undo un i logs (item_redo cm i logs d) = item_redo cm i logs v.
Proof.
  intros Hc Hx. revert v d Hc. induction logs as [|rec logs IH]; intros v d Hc Hd.
  { simpl. apply Hd. intros rec Hr. by apply elem_of_nil in Hr. }
  unfold item_redo, item_undo in *. simpl in *. case_bool_decide as Hi; simpl in Hc.
  - rewrite !andb_true_r. destruct (cm rec) eqn:Ec; simpl in Hc.
    + destruct Hc as (_ & _ & Hc). rewrite (Hx rec Ec) in *. by apply IH.
    + destruct (un rec) eqn:Eu; simpl in Hc.
      * destruct Hc as (-> & _ & Hc). symmetry. by eapply (chain_dirty cm un i logs _ v).
      * apply IH; [done|]. intros Hr. apply Hd. intros rec' [->|Hin]%elem_of_cons; [done|by apply Hr].
  - rewrite !andb_false_r. apply IH; [done|]. intros Hr. apply Hd. intros rec' [->|Hin]%elem_of_cons; [done|by apply Hr].
Qed.

Lemma committed_not_unfinished logs rec : is_committed logs rec = true → is_unfinished logs rec = false.
Proof.
  unfold is_committed, is_unfinished. intros Hc%bool_decide_eq_true. rewrite (bool_decide_eq_true_2 (_ ∈ finished_txns logs)).
  { by rewrite andb_false_r. }
  unfold committed_txns, finished_txns in *. rewrite elem_of_list_to_set, list_elem_of_fmap in *.
  destruct Hc as (x & -> & Hx). apply list_elem_of_filter in Hx as [Hb Hx]. exists x. split; [done|].
  apply list_elem_of_filter. split; [|done]. unfold is_commit, is_finish in *. by destruct (body x).
Qed.

Definition log_history (logs : list LogRecord) (C0 : tables) : Prop :=
  ∀ i, item_chain (is_committed logs) (is_unfinished logs) i logs (C0 !! i) false.

(** Neither committed nor unfinished transactions wrote record [i]. *)
Definition unwritten (logs : list LogRecord) (i : string * Rid) : Prop :=
  ∀ rec, rec ∈ logs → log_item rec = Some i → is_committed logs rec = false ∧ is_unfinished logs rec = false.

Lemma recovered_state logs C0 D : log_history logs C0 → (∀ i, unwritten logs i → D !! i = C0 !! i) →
  undone logs (committed_state logs D) = committed_state logs C0.
Proof.
  intros Hh Hd. apply map_eq. intros i. unfold undone. rewrite fold_image_lookup.
  unfold reverse. rewrite <- rev_alt, <- fold_left_rev_right, rev_involutive.
  unfold committed_state. rewrite !fold_image_lookup.
  apply (chain_recovers _ _ i logs _ _ (Hh i)); [apply committed_not_unfinished|apply Hd].
Qed.

(** The tables of the catalog are open and have no index. *)
Definition no_indexes (s : SmManager R OS) : Prop :=
  Forall (λ e, tm_indexes e.2 = [] ∧ is_Some (fhs_ s !! e.1)) (map_entries (db_tabs (db_ s))).

Lemma rebuild_none (s : sm_t) : no_indexes s → rebuild_indexes s = (Ret tt, s).
Proof.
  intros Hn. unfold rebuild_indexes, get_sm. rewrite (st_bind_ret get_st _ s s s) by done. unfold no_indexes in Hn.
  revert Hn. generalize (map_entries (db_tabs (db_ s))). intros l Hn. induction Hn as [|[t tab] l [Hx [[fd h] Hf]] Hn IH]; [done|]. cbn [for_each]. simpl in *.
  rewrite (st_bind_ret _ _ s tt s); [exact IH|]. by rewrite (st_bind_ret _ _ _ _ _ (fh_hdr_spec s t fd h Hf)), Hx.
Qed.

Lemma no_indexes_same (s s' : sm_t) : same_tables s s' → no_indexes s → no_indexes s'.
Proof.
  intros (Ed & _ & _ & _ & Hs) Hn. unfold no_indexes. rewrite Ed. eapply Forall_impl; [exact Hn|]. intros [t tab] [Hx [y Hy]].
  split; [done|]. specialize (Hs t). simpl in *. rewrite Hy in Hs. destruct y. by destruct (fhs_ s' !! t).
Qed.


End RecoverTables.

(** Every record of the file invariant in its strong form has it in the weak form. *)
Lemma tables_ok_weaken {R OS} `{ReplacerLaws R, PosixLaws OS} (s : SmManager R OS) C : tables_ok true s C → tables_ok false s C.
Proof.
  intros [Hok Hinj Hf]. split; [done|done|]. intros t fd h Ht. destruct (Hf t fd h Ht) as (pgs & l & [Hb Hm] & Hc).
  exists pgs, l. split; [|done]. split; [done|]. destruct Hm as [? ? ? ? ? Hfree]. split; try done.
  intros n. split; [apply Hfree|done].
Qed.

(** A crash with table t on disk: transaction 8 inserted record (1, 0) and did not
    finish; transaction 7 inserted record (1, 1) and committed, but its page was
    not written. *)
Module RecoveryWitness.
Import RmWitness TxnWitness.

Definition e1 : LogRecord := set_lsn 0 (new_insert 8 (rec 1) (mkRid 1 0) "t").
Definition e2 : LogRecord := set_lsn 1 (new_insert 7 (rec 5) (mkRid 1 1) "t").
Definition e3 : LogRecord := set_lsn 2 (new_commit 7).
Definition logs : list LogRecord := [e1; e2; e3].
Definition d1 : DiskManager MemFS.fs := snd (write_log (log_image logs) (disk (bpm_ sm0))).
Definition s1 : SmManager LRU.LRUReplacer MemFS.fs := set_bpm (set_disk d1 (bpm_ sm0)) sm0.

Lemma rid_int32 n i : 0 ≤ n < 100 → 0 ≤ i < 100 → rid_wf (mkRid n i).
Proof. unfold rid_wf, is_int32, int32_min, int32_max. simpl. lia. Qed.

Lemma log_wf_ok : Forall log_wf logs.
Proof.
  constructor; [|constructor; [|constructor; [|constructor]]];
    (split; [vm_compute; split; discriminate|vm_compute; split; discriminate|vm_compute; split; discriminate|
             vm_compute; reflexivity|vm_compute; discriminate|]).
  - intros rid [= <-]. by apply rid_int32.
  - intros rid [= <-]. by apply rid_int32.
  - discriminate.
Qed.

Lemma d1_quiet : log_quiet (disk (bpm_ sm0)) d1.
Proof.
  apply (write_log_quiet _ (log_image logs) (fst (write_log (log_image logs) (disk (bpm_ sm0))))).
  - exact (i_disk _ (proj1 (t_ok _ _ _ sm0_ok))).
  - unfold d1. by destruct (write_log _ _).
Qed.

Lemma s1_ok : tables_ok false s1 C1.
Proof. apply tables_ok_weaken. exact (set_disk_ok true sm0 C1 d1 sm0_ok d1_quiet). Qed.

(** The pool holds pages of table t only, none of them pinned. *)
Lemma s1_pool : map_Forall (λ p f, pid_fd p = fd ∧ 0 ≤ pid_no p ∧ pin_count (frame f (bpm_ s1)) = 0) (page_table (bpm_ s1)).
Proof. apply (bool_decide_unpack _). vm_compute. exact I. Qed.

Lemma s1_roomy : roomy s1.
Proof.
  split; [split; [split; [exact I|split; [vm_compute; discriminate|]]|]|].
  - assert (map_Forall (λ g _, 0 ≤ g < MAX_FD) (fd2path (disk (bpm_ s1)))) as Hf.
    { apply (bool_decide_unpack _). vm_compute. exact I. }
    intros g [p Hp]. exact (Hf g p Hp).
  - intros p f Hp. apply (s1_pool p f Hp).
  - exists ∅. split; [|vm_compute; lia]. intros q Hq. unfold ps_pins in Hq. cbn [BPM_store_laws] in Hq. unfold pins in Hq.
    destruct (page_table (bpm_ s1) !! q) as [f|] eqn:Eq; [|lia]. destruct (s1_pool q f Eq) as (_ & _ & Hz). lia.
Qed.

Lemma s1_apart : log_apart s1.
Proof.
  assert (ps_file_name fd (bpm_ s1) ≠ Ret LOG_FILE_NAME) as Hn by (vm_compute; discriminate). split.
  - intros q [f Hq]. destruct (s1_pool q f Hq) as (-> & _). exact Hn.
  - intros t g h Ht. unfold s1, sm0 in Ht. cbn [fhs_ set_bpm] in Ht. apply lookup_singleton_Some in Ht as [_ Ht].
    apply pair_equal_spec in Ht as [<- _]. exact Hn.
Qed.

Lemma s1_log : log_on_disk s1 logs.
Proof.
  exists []. split; [vm_compute; reflexivity|]. split; [apply torn_nil|]. split; [exact log_wf_ok|vm_compute; discriminate].
Qed.

Lemma rec_fits b : is_byte b → fits_rec s1 "t" (rec b).
Proof.
  intros Hb g h Ht. unfold s1, sm0 in Ht. cbn [fhs_ set_bpm] in Ht. apply lookup_singleton_Some in Ht as [_ Ht].
  apply pair_equal_spec in Ht as [_ <-]. split; [vm_compute; reflexivity|by apply rec_bytes].
Qed.

Lemma rid_fits_s1 i : 0 ≤ i < 10 → ∃ g h, fhs_ s1 !! "t" = Some (g, h) ∧ rid_fits h (mkRid 1 i).
Proof.
  intros Hi. exists fd, (file_hdr st1). split; [reflexivity|]. split; [by vm_compute|]. unfold slot_in. cbn [slot_no].
  assert (num_records_per_page (file_hdr st1) = 10) as -> by (vm_compute; reflexivity). exact Hi.
Qed.

Lemma s1_fits : Forall (log_fits s1) logs.
Proof.
  assert (log_item e1 = Some ("t", mkRid 1 0) ∧ log_item e2 = Some ("t", mkRid 1 1)) as [E1 E2] by by vm_compute.
  constructor; [|constructor; [|constructor; [|constructor]]]; intros t rid.
  - rewrite E1. intros [= <- <-]. split; [by apply rid_fits_s1|]. intros v [?|[= <-]]; [done|]. by apply rec_fits.
  - rewrite E2. intros [= <- <-]. split; [by apply rid_fits_s1|]. intros v [?|[= <-]]; [done|]. by apply rec_fits.
  - done.
Qed.

Lemma s1_plain : no_indexes s1.
Proof. unfold no_indexes. apply (bool_decide_unpack _). vm_compute. exact I. Qed.

Lemma logs_sets : is_committed logs e1 = false ∧ is_committed logs e2 = true ∧
  is_unfinished logs e1 = true ∧ is_unfinished logs e2 = false.
Proof. by vm_compute. Qed.

Lemma logs_history : log_history logs ∅.
Proof.
  destruct logs_sets as (A1 & A2 & A3 & A4). intros i. unfold logs at 3. cbn [item_chain].
  rewrite (bool_decide_eq_false_2 (log_item e3 = Some i)) by done.
  assert (log_item e1 ≠ log_item e2) as Hne by (vm_compute; discriminate).
  rewrite A1, A2, A3, A4, lookup_empty. simpl. do 2 case_bool_decide; simpl; try done. congruence.
Qed.


End RecoveryWitness.
