(* ===== verification/QuerySpec.v ===== *)
(** * Correctness of queries

    [denotes] gives the rows of a plan by relational algebra.  The executors
    convert_plan_executor makes for the plan are a source of these rows, and a
    SELECT prints exactly them. *)

From S2P Require Import Prelude Defs SmMeta Values Replacer Posix DiskManager BufferPool RmFile RmPage RmSpec RmManager SmManager TableSpec Printer Txn LockManager LogManager TxnManager Executor ExecutorSpec OperatorSpec ScanExec ScanSpec Ast Analyze Planner Portal TxnSpec RecoverySpec.

(* ------------------------------------------------------------------ *)
(** ** The rows of a plan                                               *)
(* ------------------------------------------------------------------ *)

Section Denotes.
Variables (C : tables) (db : DbMeta).
Implicit Types (p : Plan) (cols : list ColMeta) (len : Z) (rows : list row) (n : nat).

(** The records of a table are rows of [len] bytes, in which its columns lie. *)
Record table_shape (t : string) cols len : Prop := {
  sh_len : row_len cols = Ret len;
  sh_pos : 0 ≤ len;
  sh_cols : cols_in len cols;
  sh_rows r bs : C !! (t, r) = Some bs → length bs = Z.to_nat len
}.

(** A plan with its columns, its row length, its rows and the fuel its loops
    need.  Selection: the records that satisfy the conditions, in file order.
    Join: the pairs that do.  Sort: a stable sort, then the limit.  Projection:
    the named fields.  Aggregation: one row of totals. *)
Inductive denotes : Plan → list ColMeta → Z → list row → nat → Prop :=
  | den_scan t cs conds l idx tab len :
      get_table db t = Ret tab → table_shape t (tm_cols tab) len → conds_eval (tm_cols tab) conds →
      denotes (ScanPlan T_SeqScan t cs conds l idx) (tm_cols tab) len (scan_rows C t (tm_cols tab) conds) 0
  | den_join tag p1 p2 conds type cols1 len1 rows1 n1 cols2 len2 rows2 n2 :
      denotes p1 cols1 len1 rows1 n1 → denotes p2 cols2 len2 rows2 n2 →
      conds_eval (cols_join cols1 len1 cols2) conds →
      denotes (JoinPlan tag p1 p2 conds type) (cols_join cols1 len1 cols2) (len1 + len2)
        (join_rows conds cols1 len1 rows1 cols2 rows2) (join_fuel rows1 n1 rows2 n2)
  | den_sort tag p keys limit key_cols cols len rows n :
      denotes p cols len rows n → map_out (λ k, find_col_meta cols (sk_col k)) keys = Ret key_cols →
      denotes (SortPlan tag p keys limit) cols len (sorted_rows rows keys key_cols limit) (Nat.max n (length rows))
  | den_project tag p sel idxs pcols plen cols len rows n :
      denotes p cols len rows n → proj_cols cols 0 sel = Ret (idxs, pcols, plen) →
      denotes (ProjectionPlan tag p sel) pcols plen (project_row cols sel <$> rows) n
  | den_aggregate tag p aggs sel acols sources alen cols len rows n :
      denotes p cols len rows n → agg_cols cols 0 aggs = Ret (acols, sources, alen) →
      Forall2 agg_ok aggs sources → Forall (λ a, is_count_star a = true → agg_type a = AGG_COUNT) aggs →
      length sel = length aggs →
      denotes (AggregatePlan tag p aggs sel) acols alen [agg_row rows aggs sources] (Nat.max n (length rows)).

Lemma cols_in_mono len len' cols : len ≤ len' → cols_in len cols → cols_in len' cols.
Proof. intros Hl Hc. unfold cols_in in *. eapply Forall_impl; [exact Hc|]. intros c (? & ? & ?). lia. Qed.

Lemma cols_in_join len1 len2 cols1 cols2 : 0 ≤ len1 → 0 ≤ len2 → cols_in len1 cols1 → cols_in len2 cols2 →
  cols_in (len1 + len2) (cols_join cols1 len1 cols2).
Proof.
  intros H1 H2 C1 C2. unfold cols_join, cols_in in *. apply Forall_app. split; [apply (cols_in_mono len1); [lia|done]|].
  apply Forall_fmap. eapply Forall_impl; [exact C2|]. intros c (? & ? & ?). simpl. lia.
Qed.

Lemma proj_cols_in len prev_cols sel off idxs cols total : cols_in len prev_cols → 0 ≤ off →
  proj_cols prev_cols off sel = Ret (idxs, cols, total) → off ≤ total ∧ cols_in total cols ∧ length cols = length sel.
Proof.
  intros Hin. revert off idxs cols. induction sel as [|s sel IH]; intros off idxs cols Hoff E; cbn [proj_cols] in E.
  { injection E as <- <- <-. split_and!; [lia|by constructor|done]. }
  apply out_bind_ret_inv in E as (i & Hi & E). apply get_col_idx_spec in Hi as (c & Hi & _). rewrite Hi in E.
  cbn [deref of_option mbind outcome_bind] in E. apply out_bind_ret_inv in E as ([[idxs' cols'] total'] & E & [= <- <- <-]).
  assert (c ∈ prev_cols) as Hc by by eapply list_elem_of_lookup_2.
  unfold cols_in in Hin. rewrite Forall_forall in Hin. destruct (Hin c Hc) as (? & ? & _). cbn [cm_len with_offset] in E.
  destruct (IH (off + cm_len c) idxs' cols' ltac:(lia) E) as (? & ? & ?). split_and!; [lia| |simpl; lia].
  constructor; [simpl; lia|done].
Qed.

Lemma agg_cols_in len cols off aggs acols sources total : cols_in len cols → 0 ≤ off →
  agg_cols cols off aggs = Ret (acols, sources, total) → off ≤ total ∧ cols_in total acols ∧ length acols = length aggs.
Proof.
  intros Hin. revert off acols sources. induction aggs as [|agg aggs IH]; intros off acols sources Hoff E; cbn [agg_cols] in E.
  { injection E as <- <- <-. split_and!; [lia|by constructor|done]. }
  apply out_bind_ret_inv in E as (c & Hc & E). destruct (agg_out_type agg c) as [ty l] eqn:Eo.
  apply out_bind_ret_inv in E as ([[cols' sources'] total'] & E & [= <- <- <-]).
  assert (0 ≤ cm_len c) as Hl.
  { destruct (is_count_star agg); [by injection Hc as <-|]. apply find_col_elem in Hc. unfold cols_in in Hin.
    rewrite Forall_forall in Hin. by apply Hin. }
  assert (0 ≤ l). { unfold agg_out_type in Eo. destruct (agg_type agg); [injection Eo as _ <-; done|by injection Eo as _ <-..|].
    case_bool_decide; by injection Eo as _ <-. }
  destruct (IH (off + l) cols' sources' ltac:(lia) E) as (? & ? & ?). split_and!; [lia| |simpl; lia].
  constructor; [simpl; lia|done].
Qed.

Lemma denotes_shape p cols len rows n : denotes p cols len rows n → 0 ≤ len ∧ cols_in len cols.
Proof.
  induction 1 as [t cs conds l idx tab len Ht Hs He|tag p1 p2 conds type cols1 len1 rows1 n1 cols2 len2 rows2 n2 _ [] _ [] He
    |tag p keys limit kcs cols len rows n _ IH Hk|tag p sel idxs pcols plen cols len rows n _ IH Hp
    |tag p aggs sel acols sources alen cols len rows n _ IH Ha].
  - split; apply Hs.
  - split; [lia|by apply cols_in_join].
  - done.
  - destruct (proj_cols_in len cols sel 0 idxs pcols plen) as (? & ? & _); [by apply IH|done..].
  - destruct (agg_cols_in len cols 0 aggs acols sources alen) as (? & ? & _); [by apply IH|done..].
Qed.

(** The columns a SELECT selects *)
Definition select_cols p : option (list TabCol) :=
  match p with ProjectionPlan _ _ sel | AggregatePlan _ _ _ sel => Some sel | _ => None end.

Lemma denotes_select p cols len rows n sel : denotes p cols len rows n → select_cols p = Some sel → length cols = length sel.
Proof.
  intros Hd. destruct Hd as [| | |tag p sel' idxs pcols plen cols len rows n Hd Hp|tag p aggs sel' acols sources alen cols len rows n Hd Ha _ _ Hl];
    try done; intros [= ->]; apply denotes_shape in Hd as [_ Hin].
  - by destruct (proj_cols_in len cols sel 0 idxs pcols plen) as (_ & _ & ?).
  - destruct (agg_cols_in len cols 0 aggs acols sources alen) as (_ & _ & Hl'); [done..|]. by rewrite Hl'.
Qed.
End Denotes.

(* ------------------------------------------------------------------ *)
(** ** From plans to executors                                          *)
(* ------------------------------------------------------------------ *)

(** The transaction of a context exists. *)
Definition live {R OS} (c : Context) (w : Rmdb R OS) : Prop :=
  ∀ id, txn_ c = Some id → is_Some (txn_map w !! id).
(** The result of a refused lock *)
Definition refused (e : exn) : Prop := ∃ id why, e = TransactionAbort id why.

Section Convert.
Context {R OS : Type} `{ReplacerLaws R, PosixLaws OS}.
Variables (exact : bool) (C : tables).
Abbreviation world := (Rmdb R OS).
Implicit Types (w : world) (c : Context).

Lemma lock_result t id m lt : ∃ r t' lt', lock (Some t) id m lt = (r, (Some t', lt')) ∧
  match r with Ret _ => True | Throw e => refused e end.
Proof.
  unfold lock. repeat case_match; eexists _, _, _; (split; [reflexivity|]); try done; by eexists _, _.
Qed.

(** Taking a table lock: the lock table and the transaction change, or it is
    refused. *)
Lemma lock_on_table_spec m c t fd h w : fhs_ (sm w) !! t = Some (fd, h) → live c w →
  ∃ r w', lock_on_table (λ o fd, lock o (lock_table_id fd) m) c t w = (r, w') ∧ sm w' = sm w ∧ log w' = log w ∧ live c w' ∧
    match r with Ret _ => True | Throw e => refused e end.
Proof.
  intros Hf Hl. unfold lock_on_table. assert (on_fh t mret w = (Ret fd, w)) as E0.
  { unfold on_fh, on_system, with_fh. rewrite Hf. cbn [mret st_ret file_hdr store].
    unfold set_fhs, set_bpm. cbn [fhs_]. rewrite insert_id by done. by destruct w as [[] ? ? ? ? ?]. }
  run E0. destruct (txn_ c) as [id|] eqn:Ec; [|by exists (Ret tt), w]. destruct (lock_mgr_ c); [|by exists (Ret tt), w].
  destruct (Hl id Ec) as [tx Htx]. rewrite (st_bind_ret (txn_obj id) _ w tx w) by (unfold txn_obj; by rewrite Htx).
  unfold lock_step. destruct (lock_result tx (lock_table_id fd) m (lock_tab w)) as (r & t' & lt' & E & Hr). rewrite E.
  eexists _, _. split; [reflexivity|]. split_and!; [done|done| |by destruct r].
  intros id' Ei. rewrite Ec in Ei. injection Ei as <-. simpl. rewrite lookup_insert_eq. by eexists.
Qed.

(** The tables of the catalog are open. *)
Definition tables_open w : Prop :=
  ∀ t tab, get_table (db_ (sm w)) t = Ret tab → ∃ fd h, fhs_ (sm w) !! t = Some (fd, h).

Lemma new_seq_scan_spec c t conds tab len w : tables_open w → live c w → get_table (db_ (sm w)) t = Ret tab →
  row_len (tm_cols tab) = Ret len →
  ∃ r w', new_SeqScanExecutor t conds c w = (r, w') ∧ sm w' = sm w ∧ log w' = log w ∧ live c w' ∧
    match r with Ret e => seq_static t (tm_cols tab) len conds e | Throw e => refused e end.
Proof.
  intros Ho Hl Ht El. unfold new_SeqScanExecutor. destruct (Ho t tab Ht) as (fd & h & Hf).
  assert (find_table t w = (Ret tab, w)) as E0.
  { unfold find_table, on_system, sm_table. rewrite Ht. by destruct w. }
  run E0. rewrite El, (st_bind_ret (lift_outcome (Ret len)) _ w len w) by done.
  destruct (lock_on_table_spec SHARED c t fd h w Hf Hl) as (r & w' & E & Hs & Hg & Hl' & Hr).
  change (λ o fd, lock o (lock_table_id fd) SHARED) with lock_shared_on_table in E. destruct r as [a|e].
  - run E. by eexists _, w'.
  - exists (Throw e), w'. split; [by apply st_bind_throw|done].
Qed.

(** convert_plan_executor gives a source of the rows of the plan, unless a lock
    is refused. *)
Lemma convert_spec p cols len rows n c w : denotes C (db_ (sm w)) p cols len rows n → tables_open w → live c w →
  ∃ r w', convert_plan_executor p c w = (r, w') ∧ sm w' = sm w ∧ log w' = log w ∧ live c w' ∧
    match r with
    | Ret e => ∀ w0, sm w0 = sm w → ∃ ok at_, source (reading exact C w0) cols len rows n ok at_ ∧ ok e
    | Throw e => refused e
    end.
Proof.
  intros Hd. remember (db_ (sm w)) as db eqn:Edb. revert w Edb.
  induction Hd as [t cs conds l idx tab len Ht Hs He
    |tag p1 p2 conds type cols1 len1 rows1 n1 cols2 len2 rows2 n2 Hd1 IH1 Hd2 IH2 He
    |tag p keys limit kcs cols len rows n Hd IH Hk|tag p sel idxs pcols plen cols len rows n Hd IH Hp
    |tag p aggs sel acols sources alen cols len rows n Hd IH Ha Hok Hst Hls]; intros w Edb Ho Hl; cbn [convert_plan_executor].
  - rewrite bool_decide_eq_true_2 by done. rewrite Edb in Ht.
    destruct (new_seq_scan_spec c t conds tab len w Ho Hl Ht (sh_len _ _ _ _ Hs)) as (r & w' & E & Es & Eg & Hl' & Hr).
    destruct r as [e|e]; [|exists (Throw e), w'; by split; [apply st_bind_throw|]].
    run E. eexists _, w'. split_and!; [done..|]. intros w0 E0. destruct (Ho t tab Ht) as (fd & h & Hf). rewrite <- E0 in Hf.
    eexists _, _. split;
      [exact (inl_source _ _ _ _ _ _ _ (seq_source exact C w0 t fd h Hf _ _ _ He (sh_pos _ _ _ _ Hs) (sh_rows _ _ _ _ Hs)))|exact Hr].
  - destruct (IH1 w Edb Ho Hl) as (r & w1 & E1 & Es1 & Eg1 & Hl1 & Hr1).
    destruct r as [e1|e]; [|exists (Throw e), w1; by split; [apply st_bind_throw|]]. run E1.
    destruct (IH2 w1) as (r & w2 & E2 & Es2 & Eg2 & Hl2 & Hr2); [congruence|unfold tables_open; by rewrite Es1|done|].
    destruct r as [e2|e]; [|exists (Throw e), w2; split; [by apply st_bind_throw|split_and!; [congruence..|done|done]]]. run E2.
    eexists _, w2. split_and!; [done|congruence|congruence|done|]. intros w0 E0.
    destruct (Hr1 w0 E0) as (ok1 & at1 & S1 & Hok1). destruct (Hr2 w0 ltac:(congruence)) as (ok2 & at2 & S2 & Hok2).
    eexists _, _. split; [exact (join_source _ conds _ _ _ _ _ _ _ _ _ _ _ _ S1 S2 He)|].
    pose proof (src_len _ _ _ _ _ _ _ S1 _ Hok1) as L1. pose proof (src_len _ _ _ _ _ _ _ S2 _ Hok2) as L2.
    split; simpl; [done|done|by rewrite L1, L2| |done|].
    + unfold join_cols, cols_join. by rewrite (src_cols _ _ _ _ _ _ _ S1 _ Hok1), (src_cols _ _ _ _ _ _ _ S2 _ Hok2), L1.
    + unfold join_cap. rewrite L1. lia.
  - destruct (IH w Edb Ho Hl) as (r & w1 & E1 & Es1 & Eg1 & Hl1 & Hr1).
    destruct r as [e1|e]; [|exists (Throw e), w1; by split; [apply st_bind_throw|]]. run E1.
    destruct (Hr1 w eq_refl) as (ok0 & at0 & S0 & Hok0). pose proof (src_cols _ _ _ _ _ _ _ S0 _ Hok0) as Ec.
    unfold lift_outcome, new_SortExecutor, get_col_offset. rewrite Ec, Hk. eexists _, w1. split_and!; [done..|].
    intros w0 E0. destruct (Hr1 w0 E0) as (ok1 & at1 & S1 & Hok1). eexists _, _.
    split; [exact (sort_source _ _ _ _ _ _ _ keys kcs limit S1)|by split_and!].
  - destruct (IH w Edb Ho Hl) as (r & w1 & E1 & Es1 & Eg1 & Hl1 & Hr1).
    destruct r as [e1|e]; [|exists (Throw e), w1; by split; [apply st_bind_throw|]]. run E1.
    destruct (Hr1 w eq_refl) as (ok0 & at0 & S0 & Hok0). pose proof (src_cols _ _ _ _ _ _ _ S0 _ Hok0) as Ec.
    unfold lift_outcome, new_ProjectionExecutor. rewrite Ec, Hp. eexists _, w1. split_and!; [done..|].
    intros w0 E0. destruct (Hr1 w0 E0) as (ok1 & at1 & S1 & Hok1). apply denotes_shape in Hd as [_ Hin]. eexists _, _.
    split; [exact (proj_source _ _ _ _ _ _ _ sel idxs pcols plen S1 Hin Hp)|by split_and!].
  - destruct (IH w Edb Ho Hl) as (r & w1 & E1 & Es1 & Eg1 & Hl1 & Hr1).
    destruct r as [e1|e]; [|exists (Throw e), w1; by split; [apply st_bind_throw|]]. run E1.
    destruct (Hr1 w eq_refl) as (ok0 & at0 & S0 & Hok0). pose proof (src_cols _ _ _ _ _ _ _ S0 _ Hok0) as Ec.
    unfold lift_outcome, new_AggregateExecutor. rewrite Ec, Ha. eexists _, w1. split_and!; [done..|].
    intros w0 E0. destruct (Hr1 w0 E0) as (ok1 & at1 & S1 & Hok1). apply denotes_shape in Hd as [_ Hin]. eexists _, _.
    split; [exact (agg_source _ _ _ _ _ _ _ aggs acols sources alen S1 Hin Hok Hst Ha)|by split_and!].
Qed.

End Convert.

(* ------------------------------------------------------------------ *)
(** ** Printing                                                         *)
(* ------------------------------------------------------------------ *)

Section Select.
Context {R OS : Type} `{ReplacerLaws R, PosixLaws OS}.
Variables (buffer_size : Z) (exact : bool) (C : tables).
Abbreviation world := (Rmdb R OS).
Abbreviation session := (Session R OS).
Implicit Types (w : world) (s : session) (c : Context).

(** The session after a statement that printed [txt] to output.txt. *)
Definition after w (b : OutBuf) (txt : list Z) s : session :=
  mkSession w (knobs s) (output_txt s ++ txt) b (ctx s) (client_txn s).

Lemma after_id s : s = after (rmdb s) (out s) [] s.
Proof. unfold after. rewrite app_nil_r. by destruct s. Qed.
Lemma after_after w1 b1 t1 w2 b2 t2 s : after w2 b2 t2 (after w1 b1 t1 s) = after w2 b2 (t1 ++ t2) s.
Proof. unfold after. simpl. by rewrite app_assoc. Qed.

Lemma on_rmdb_run {A} (m : ST world A) s r w : m (rmdb s) = (r, w) → on_rmdb m s = (r, after w (out s) [] s).
Proof. intros E. unfold on_rmdb, after. by rewrite E, app_nil_r. Qed.

(** A printing call that succeeds and stays in the buffer. *)
Lemma print_out_run f s b : f (out s) = Ret b → print_out f s = (Ret tt, after (rmdb s) b [] s).
Proof.
  intros E. unfold print_out, after. run (eq_refl : get_st s = (Ret s, s)).
  rewrite (st_bind_ret (lift_outcome _) _ s b s) by (unfold lift_outcome; by rewrite E). by rewrite app_nil_r.
Qed.
Lemma append_file_run txt s : append_file txt s = (Ret tt, after (rmdb s) (out s) txt s).
Proof. done. Qed.

Section Source.
Context {E : Type} `{AbstractExecutor world E}.
Context (I : world → Prop) (cols : list ColMeta) (len : Z) (rows : list row) (n : nat) (ok : E → Prop) (at_ : E → list row → Prop).
Hypothesis Hsrc : source I cols len rows n ok at_.

Definition row_line (t : row) : list Z := out_line (col_str t <$> cols).

Lemma print_tuple_run t s : ∃ b, print_tuple (length cols) cols t s = (Ret tt, after (rmdb s) b (row_line t) s) ∧
  (out_ok RECORD_COUNT_LENGTH (out s) → out_ok RECORD_COUNT_LENGTH b).
Proof using.
  unfold print_tuple. destruct (print_record_ret (length cols) (col_str t <$> cols) (out s)) as [b E1]; [by rewrite length_fmap|].
  exists b. split; [|intros Hb; by eapply print_record_ok].
  rewrite (st_bind_ret _ _ _ _ _ (print_out_run _ s b E1)), append_file_run, after_after. done.
Qed.

Lemma select_loop_spec fuel turns e l k s : at_ e l → I (rmdb s) → (n ≤ fuel)%nat → (length l ≤ turns)%nat →
  ∃ w b, select_loop fuel turns (length cols) e k s = (Ret (k + Z.of_nat (length l)), after w b (concat (row_line <$> l)) s) ∧
    I w ∧ (out_ok RECORD_COUNT_LENGTH (out s) → out_ok RECORD_COUNT_LENGTH b).
Proof using Hsrc.
  intros Ha Hw Hf. revert e l k s Ha Hw.
  induction turns as [|m IH]; intros e l k s Ha Hw Hl; cbn [select_loop];
    destruct (src_end _ _ _ _ _ _ _ Hsrc e l _ Ha Hw) as (w1 & E1 & Hw1); run (on_rmdb_run _ _ _ _ E1).
  - destruct l; [|simpl in Hl; lia]. exists w1, (out s). split_and!; [|done|done]. simpl. by rewrite Z.add_0_r.
  - destruct l as [|t l]. { exists w1, (out s). split_and!; [|done|done]. simpl. by rewrite Z.add_0_r. }
    rewrite bool_decide_eq_false_2 by done. set (s1 := after w1 (out s) [] s).
    destruct (src_next _ _ _ _ _ _ _ Hsrc e t l w1 Ha Hw1) as (w2 & E2 & Hw2).
    run (on_rmdb_run (Next e) s1 _ _ E2). set (s2 := after w2 _ [] s1).
    rewrite (st_bind_ret (lift_outcome (deref (Some t))) _ s2 t s2) by done.
    rewrite (src_cols _ _ _ _ _ _ _ Hsrc e (src_ok _ _ _ _ _ _ _ Hsrc e _ Ha)).
    destruct (print_tuple_run t s2) as (b3 & E3 & Hb3). run E3. set (s3 := after _ b3 _ s2).
    destruct (src_step _ _ _ _ _ _ _ Hsrc e t l w2 fuel Ha Hw2 Hf) as (e' & w4 & E4 & Hw4 & Ha4).
    run (on_rmdb_run (nextTuple fuel e) s3 _ _ E4).
    destruct (IH e' l (k + 1) (after w4 (out s3) [] s3) Ha4 Hw4 ltac:(simpl in Hl; lia)) as (w5 & b5 & E5 & Hw5 & Hb5).
    exists w5, b5. split_and!; [|done|auto]. rewrite E5. unfold s3, s2, s1. rewrite !after_after. cbn [app fmap list_fmap concat].
    do 2 f_equal. cbn [length]. lia.
Qed.

(** What a SELECT appends to output.txt *)
Definition select_text (sel : list TabCol) : list Z :=
  out_line (bytes_of_string ∘ tc_col <$> sel) ++ concat (row_line <$> rows).

Lemma select_from_spec fuel e sel s : ok e → I (rmdb s) → length cols = length sel → (Nat.max n (length rows) ≤ fuel)%nat →
  ∃ w b, select_from fuel e sel s = (Ret tt, after w b (select_text sel) s) ∧ I w ∧
    (out_ok RECORD_COUNT_LENGTH (out s) → Z.of_nat (length rows) < 10 ^ 14 → out_ok 0 b).
Proof using Hsrc.
  intros Hok Hw Hl Hf. unfold select_from. cbv zeta.
  destruct (print_record_ret (length sel) (bytes_of_string ∘ tc_col <$> sel) (print_separator (length sel) (out s))) as [b1 E1];
    [by rewrite length_fmap|].
  pose proof (print_out_run (λ b, b ← print_record (length sel) (bytes_of_string ∘ tc_col <$> sel) (print_separator (length sel) b);
    Ret (print_separator (length sel) b)) s (print_separator (length sel) b1)) as E2. cbv beta in E2. rewrite E1 in E2. run (E2 eq_refl).
  clear E2.
  set (s1 := after _ _ [] s). run (append_file_run (out_line (bytes_of_string ∘ tc_col <$> sel)) s1). set (s2 := after _ _ _ s1).
  destruct (src_begin _ _ _ _ _ _ _ Hsrc e (rmdb s) fuel Hok Hw ltac:(lia)) as (e3 & w3 & E3 & Hw3 & Ha3).
  run (on_rmdb_run (beginTuple fuel e) s2 _ _ E3). set (s3 := after w3 _ [] s2). rewrite <- Hl.
  destruct (select_loop_spec fuel fuel e3 rows 0 s3 Ha3 Hw3 ltac:(lia) ltac:(lia)) as (w4 & b4 & E4 & Hw4 & Hb4). run E4.
  eexists w4, _. split_and!; [|done|].
  - erewrite print_out_run by reflexivity. unfold s3, s2, s1. rewrite !after_after. cbn [app]. by rewrite app_nil_r.
  - intros Hb Hn. apply print_record_count_ok; [|lia]. apply print_separator_ok, Hb4. cbn [out s3 s2 s1 after].
    apply print_separator_ok. eapply print_record_ok; [|exact E1]. by apply print_separator_ok.
Qed.

End Source.

(** Portal::start and run for a SELECT *)
Definition run_select (fuel : nat) (p : Plan) : ST session unit :=
  s ← get_st;
  stmt ← on_rmdb (portal_start fuel (DMLPlan T_select p "" [] [] []) (ctx s));
  portal_run buffer_size fuel stmt.

Lemma select_plan_spec fuel p cols len rows n sel s (Hd : denotes C (db_ (sm (rmdb s))) p cols len rows n)
    (Hsel : select_cols p = Some sel) (Ht : tables_ok exact (sm (rmdb s)) C) (Hr : roomy (sm (rmdb s)))
    (Ho : tables_open (rmdb s)) (Hl : live (ctx s) (rmdb s)) (Hf : (Nat.max n (length rows) ≤ fuel)%nat) :
  ∃ r w b txt, run_select fuel p s = (r, after w b txt s) ∧ tables_ok exact (sm w) C ∧ roomy (sm w) ∧
    db_ (sm w) = db_ (sm (rmdb s)) ∧
    match r with
    | Ret _ => txt = select_text cols rows sel ∧
        (out_ok RECORD_COUNT_LENGTH (out s) → Z.of_nat (length rows) < 10 ^ 14 → out_ok 0 b)
    | Throw e => refused e ∧ txt = [] ∧ b = out s
    end.
Proof.
  unfold run_select. run (eq_refl : get_st s = (Ret s, s)).
  destruct (convert_spec exact C p cols len rows n (ctx s) (rmdb s) Hd Ho Hl) as (r & w1 & E1 & Es1 & _ & _ & Hr1).
  assert (∃ plan, portal_start fuel (DMLPlan T_select p "" [] [] []) (ctx s) (rmdb s) =
    (match r with Ret e => Ret (mkPortalStmt PORTAL_ONE_SELECT sel (QueryRoot p e) plan) | Throw e => Throw e end, w1)) as [plan E2].
  { exists (DMLPlan T_select p "" [] [] []). destruct p; try done; injection Hsel as ->; cbn [portal_start];
      (destruct r as [e|e]; [by run E1|by apply st_bind_throw]). }
  destruct r as [e|e].
  - run (on_rmdb_run _ _ _ _ E2). unfold portal_run. cbn [ps_tag ps_root ps_sel_cols].
    destruct (Hr1 w1 Es1) as (ok & at_ & Hs & Hok). set (s1 := after w1 (out s) [] s).
    destruct (select_from_spec (E := executor_of p) _ cols len rows n ok at_ Hs fuel e sel s1 Hok) as (w2 & b & E3 & Hw2 & Hb);
      [apply reading_init; simpl; by rewrite Es1|by eapply denotes_select|done|].
    exists (Ret tt), w2, b, (select_text cols rows sel). unfold s1 in E3. rewrite after_after in E3.
    destruct Hw2 as (Ew & Ht2 & Hr2). split_and!; [exact E3|done|done| |done|exact Hb]. by rewrite Ew, <- Es1.
  - exists (Throw e), w1, (out s), []. split; [apply st_bind_throw; by apply on_rmdb_run|]. rewrite Es1. by split_and!.
Qed.

(** C9: a SELECT runs the relational algebra.  For a plan of sequential scans,
    joins, a sort with limit, and a projection or aggregates over them, start and
    run end, given fuel for the rows: either a table lock is refused and nothing is
    printed, or output.txt gets the caption line and one line per row of the plan,
    in order, and the send buffer is not overrun.  Tables and catalog are
    unchanged. *)
Theorem select_correct fuel p cols len rows n sel s (Hd : denotes C (db_ (sm (rmdb s))) p cols len rows n)
    (Hsel : select_cols p = Some sel) (Ht : tables_ok exact (sm (rmdb s)) C) (Hr : roomy (sm (rmdb s)))
    (Ho : tables_open (rmdb s)) (Hl : live (ctx s) (rmdb s)) (Hf : (Nat.max n (length rows) ≤ fuel)%nat) :
  ∃ r w b txt, run_select fuel p s = (r, after w b txt s) ∧ tables_ok exact (sm w) C ∧ roomy (sm w) ∧
    db_ (sm w) = db_ (sm (rmdb s)) ∧
    match r with
    | Ret _ => txt = select_text cols rows sel ∧
        (out_ok RECORD_COUNT_LENGTH (out s) → Z.of_nat (length rows) < 10 ^ 14 → out_ok 0 b)
    | Throw e => refused e ∧ txt = [] ∧ b = out s
    end.
Proof. exact (select_plan_spec fuel p cols len rows n sel s Hd Hsel Ht Hr Ho Hl Hf). Qed.

End Select.

(** SELECT COUNT over the product of a table with itself, sorted. *)
Module QueryWitness.
Import RmWitness TxnWitness RecoveryWitness.

Definition id_col : ColMeta := mkColMeta "t" "id" TYPE_INT 4 0 false.
Definition name_col : ColMeta := mkColMeta "t" "name" TYPE_STRING 396 4 false.
Definition q_tab : TabMeta := mkTabMeta "t" [id_col; name_col] [].
Definition q_db : DbMeta := mkDbMeta "db" {["t" := q_tab]}.
Definition q_world : Rmdb LRU.LRUReplacer MemFS.fs :=
  mkRmdb (set_db q_db s1) lm0 ∅ {[7 := set_state GROWING (new_transaction 7)]} 8 1.
Definition q_session : Session LRU.LRUReplacer MemFS.fs :=
  mkSession q_world new_Planner [] (mkOut (replicate (Z.to_nat BUFFER_LENGTH) 0) 0 false) (mkContext true true (Some 7)) 7.
Definition scan : Plan := ScanPlan T_SeqScan "t" [id_col; name_col] [] 400 [].
Definition count_star : AggregateExpr := mkAgg AGG_COUNT true no_col "COUNT".
Definition sel : list TabCol := [mkTabCol "" "COUNT"].
Definition q_plan : Plan :=
  AggregatePlan T_Aggregate (SortPlan T_Sort (JoinPlan T_NestLoop scan scan [] INNER_JOIN) [mkSortKey (mkTabCol "t" "id") true] 5)
    [count_star] sel.
Definition q_rows : list row := [le_bytes 8 1].

Lemma q_shape : table_shape C1 "t" (tm_cols q_tab) 400.
Proof.
  split; [reflexivity|done| |].
  - repeat constructor; simpl; lia.
  - intros r bs Hr. unfold C1 in Hr. apply lookup_singleton_Some in Hr as [_ <-]. by vm_compute.
Qed.
Lemma scan_denotes : denotes C1 q_db scan (tm_cols q_tab) 400 (scan_rows C1 "t" (tm_cols q_tab) []) 0.
Proof. apply den_scan; [vm_compute; reflexivity|exact q_shape|done]. Qed.

Lemma plan_denotes : ∃ cols len n, denotes C1 q_db q_plan cols len q_rows n ∧ (Nat.max n 1 ≤ 10)%nat ∧ map cm_type cols = [TYPE_BIGINT] ∧
  cm_offset <$> cols = [0].
Proof.
  eexists _, _, _. split; [|split; [|split]].
  - pose proof (den_join C1 q_db T_NestLoop _ _ [] INNER_JOIN _ _ _ _ _ _ _ _ scan_denotes scan_denotes (λ _, eq_refl)) as Hj.
    pose proof (den_sort C1 q_db T_Sort _ [mkSortKey (mkTabCol "t" "id") true] 5 [id_col] _ _ _ _ Hj eq_refl) as Hs.
    pose proof (λ H1 H2, den_aggregate C1 q_db T_Aggregate _ [count_star] sel _ _ _ _ _ _ _ Hs eq_refl H1 H2 eq_refl) as Ha.
    assert (∀ p cols len r n r', denotes C1 q_db p cols len r n → r = r' → denotes C1 q_db p cols len r' n) as Hr by by intros * ? <-.
    eapply Hr; [apply Ha|].
    + repeat constructor; discriminate.
    + repeat constructor.
    + vm_compute. reflexivity.
  - vm_compute. lia.
  - reflexivity.
  - reflexivity.
Qed.

Lemma q_text cols : map cm_type cols = [TYPE_BIGINT] → cm_offset <$> cols = [0] →
  select_text cols q_rows sel = out_line [bytes_of_string "COUNT"] ++ out_line [bytes_of_string "1"].
Proof.
  intros Ht Ho. destruct cols as [|c [|]]; [done| |done]. injection Ht as Ht. injection Ho as Ho.
  unfold select_text, row_line, q_rows. cbn [fmap list_fmap concat]. unfold col_str. rewrite Ht, Ho, app_nil_r. by vm_compute.
Qed.

Lemma q_tables_ok : tables_ok false (sm (rmdb q_session)) C1.
Proof. split; [exact (t_ok _ _ _ s1_ok)|exact (t_inj _ _ _ s1_ok)|exact (t_file _ _ _ s1_ok)]. Qed.
Lemma q_open : tables_open (rmdb q_session).
Proof.
  intros t tab Et. exists fd, (file_hdr st1). assert (t = "t"%string) as ->; [|reflexivity].
  unfold get_table in Et. cbn [sm rmdb q_session q_world db_ set_db q_db db_tabs] in Et.
  destruct (decide (t = "t"%string)) as [|Hne]; [done|]. by rewrite lookup_singleton_ne in Et.
Qed.
Lemma q_live : live (ctx q_session) (rmdb q_session).
Proof. intros id [= <-]. vm_compute. by eexists. Qed.

Lemma select_correct_witness : ∃ w b,
  run_select 50 10 q_plan q_session =
    (Ret tt, after w b (out_line [bytes_of_string "COUNT"] ++ out_line [bytes_of_string "1"]) q_session) ∧
  tables_ok false (sm w) C1.
Proof.
  destruct plan_denotes as (cols & len & n & Hd & Hn & Ht & Ho).
  destruct (select_correct 50 false C1 10 q_plan cols len q_rows n sel q_session) as (r & w & b & txt & E & Htab & _ & _ & Hr).
  - exact Hd.
  - reflexivity.
  - exact q_tables_ok.
  - exact s1_roomy.
  - exact q_open.
  - exact q_live.
  - exact Hn.
  - assert (fst (run_select 50 10 q_plan q_session) = Ret tt) as Er by (vm_compute; reflexivity). rewrite E in Er. cbn [fst] in Er.
    destruct r as [[]|e]; [|discriminate Er]. destruct Hr as [Etxt _]. exists w, b. split; [|exact Htab]. rewrite E, Etxt.
    by rewrite (q_text cols Ht Ho).
Defined.

End QueryWitness.
