(* ===== verification/PlanSem.v ===== *)
(** * The meaning of queries

    An assignment gives a row to every table of a query.  A condition holds of an
    assignment or not, wherever the rows are laid out; [sem] gives the
    assignments a plan of scans and joins produces, which are those of the product
    of its tables that satisfy its conditions. *)

From S2P Require Import Prelude Defs SmMeta Values SmManager TableSpec Executor ExecutorSpec OperatorSpec ScanExec ScanSpec Ast Analyze Planner QuerySpec.

(* ------------------------------------------------------------------ *)
(** ** Comparing fields                                                 *)
(* ------------------------------------------------------------------ *)

Definition comparable (a b : ColType) : bool := (is_numeric_type a && is_numeric_type b) || bool_decide (a = b).

(** The width of a type *)
Definition wide (t : ColType) (n : Z) : Prop :=
  match t with
  | TYPE_INT | TYPE_FLOAT => n = 4
  | TYPE_BIGINT | TYPE_DATETIME => n = 8
  | TYPE_STRING => 0 ≤ n
  end.

Lemma compare_raw_ret p t n q t' n' : comparable t t' = true → ∃ c, compare_raw_data p t n q t' n' = Ret c.
Proof. intros Hc. destruct t, t'; try discriminate Hc; by eexists. Qed.

Lemma compare_raw_sym p t n q t' n' : compare_raw_data q t' n' p t n =
  match compare_raw_data p t n q t' n' with
  | Ret c => Ret (- c)
  | Throw _ => Throw (IncompatibleTypeError (coltype2str t') (coltype2str t))
  end.
Proof.
  destruct t, t'; try reflexivity; unfold compare_raw_data; cbn [is_numeric_type is_integral_type andb negb bool_decide decide_rel];
    rewrite ?(bool_decide_eq_true_2 (TYPE_STRING = TYPE_STRING)), ?(bool_decide_eq_true_2 (TYPE_DATETIME = TYPE_DATETIME)) by done;
    cbn [negb]; f_equal; auto using cmp3_antisym, ld_cmp3_antisym.
  rewrite (Z.min_comm n' n), (Z.eqb_sym n' n), (memcmp_antisym _ p q).
  destruct (Z.eqb_spec (memcmp (Z.to_nat (Z.min n n')) p q) 0) as [->|Hne].
  - change (- 0 =? 0) with true. cbn [negb]. destruct (Z.eqb_spec n n') as [->|Hn]; [done|].
    destruct (Z.ltb_spec n' n), (Z.ltb_spec n n'); try lia; by destruct (any_nonzero _ _ _).
  - rewrite (proj2 (Z.eqb_neq (- memcmp (Z.to_nat (Z.min n n')) p q) 0)) by lia. done.
Qed.

Lemma load_take t n p : wide t n → is_numeric_type t = true →
  load_numeric t (take (Z.to_nat n) p) = load_numeric t p ∧
  (is_integral_type t = true → load_integral t (take (Z.to_nat n) p) = load_integral t p).
Proof.
  unfold load_numeric, load_integral, load_i32, load_i64, load_u32, le_int, le_uint. rewrite ?drop_0.
  destruct t; cbn [wide is_numeric_type]; intros Hn ?; try done; subst n; by rewrite ?take_take.
Qed.

Lemma memcmp_take2 k n m p q : (k ≤ n)%nat → (k ≤ m)%nat → memcmp k (take n p) (take m q) = memcmp k p q.
Proof.
  intros Hn Hm. rewrite <- (memcmp_take k (take n p)), take_take, Nat.min_l, memcmp_take by done.
  rewrite <- (Z.opp_involutive (memcmp k p (take m q))), <- memcmp_antisym.
  rewrite <- (memcmp_take k (take m q)), take_take, Nat.min_l, memcmp_take by done. by rewrite <- memcmp_antisym.
Qed.

Lemma any_nonzero_take a b n p : 0 ≤ a → b ≤ n → any_nonzero a b (take (Z.to_nat n) p) = any_nonzero a b p.
Proof.
  intros Ha Hb. unfold any_nonzero, read_at. f_equal.
  destruct (Z.le_gt_cases b a); [by replace (Z.to_nat (b - a)) with 0%nat by lia|].
  rewrite !take_drop_commute, take_take. do 2 f_equal. lia.
Qed.

(** Only the bytes of the fields matter. *)
Lemma compare_raw_take p t n q t' n' : wide t n → wide t' n' →
  compare_raw_data (take (Z.to_nat n) p) t n (take (Z.to_nat n') q) t' n' = compare_raw_data p t n q t' n'.
Proof.
  intros Hw Hw'. unfold compare_raw_data. destruct (is_numeric_type t) eqn:Et; cbn [andb].
  - destruct (load_take t n p Hw Et) as [E1 E2]. destruct (is_numeric_type t') eqn:Et'; [|by destruct (negb _) eqn:En; [done|]; apply negb_false_iff, bool_decide_eq_true in En; congruence].
    destruct (load_take t' n' q Hw' Et') as [E1' E2']. destruct (is_integral_type t) eqn:Ei; [|by rewrite E1, E1'].
    destruct (is_integral_type t') eqn:Ei'; cbn [andb]; [|by rewrite E1, E1']. by rewrite E2, E2'.
  - destruct (bool_decide (t = t')) eqn:Eb; [|done]. apply bool_decide_eq_true in Eb as <-. cbn [negb]. destruct t; try discriminate Et.
    + simpl in Hw, Hw'. rewrite memcmp_take2 by lia. f_equal. rewrite !any_nonzero_take by lia. done.
    + simpl in Hw, Hw'. subst n n'. unfold load_i64, le_int. rewrite !drop_0, !take_take. done.
Qed.

(* ------------------------------------------------------------------ *)
(** ** Assignments and conditions                                       *)
(* ------------------------------------------------------------------ *)

Abbreviation asg := (gmap string row).

Section Sem.
Variables (C : tables) (db : DbMeta).
Implicit Types (a b : asg) (ts : list string) (t : string) (c : Condition) (p : Plan).

(** The columns of a table, and the row an assignment gives to it. *)
Definition tcols t : list ColMeta := match get_table db t with Ret tab => tm_cols tab | Throw _ => [] end.
Definition tlen t : Z := match row_len (tcols t) with Ret n => n | Throw _ => 0 end.
Definition row_of a t : row := default [] (a !! t).

(** A table of the catalog with its records: the columns have its name and the
    width of their type, and lie in its rows. *)
Record known t : Prop := {
  kn_table : is_Some (db_tabs db !! t);
  kn_shape : table_shape C t (tcols t) (tlen t);
  kn_cols : Forall (λ m, cm_tab_name m = t ∧ wide (cm_type m) (cm_len m)) (tcols t)
}.

(** The type, length and bytes of a column. *)
Definition col_value a (x : TabCol) : ColType * Z * list Z :=
  match find_col_meta (tcols (tc_tab x)) x with
  | Ret m => (cm_type m, cm_len m, field_of (row_of a (tc_tab x)) m)
  | Throw _ => (TYPE_INT, 0, [])
  end.
Definition raw_value (v : Value) : ColType * Z * list Z :=
  let bs := default [] (raw v) in (val_type v, Z.of_nat (length bs), bs).
Definition cond_holds a c : bool :=
  let '(t, n, x) := col_value a (lhs_col c) in
  let '(t', n', y) := if is_rhs_val c then raw_value (rhs_val c) else col_value a (rhs_col c) in
  match compare_raw_data x t n y t' n' with
  | Ret r => evaluate_compare_result r (op c)
  | Throw _ => false
  end.
Definition conds_hold a (conds : list Condition) : bool := forallb (cond_holds a) conds.

Lemma evaluate_swap r o : evaluate_compare_result (- r) (swap_op o) = evaluate_compare_result r o.
Proof.
  assert ((- r =? 0) = (r =? 0)) as He by (destruct (Z.eqb_spec (- r) 0), (Z.eqb_spec r 0); done || lia).
  destruct o; simpl; rewrite ?He; try done;
    repeat match goal with |- context [Z.leb ?x ?y] => destruct (Z.leb_spec x y) | |- context [Z.ltb ?x ?y] => destruct (Z.ltb_spec x y) end;
    done || lia.
Qed.

Lemma cond_holds_swap a c : is_rhs_val c = false → cond_holds a (swap_cond c) = cond_holds a c.
Proof.
  intros Hv. unfold cond_holds, swap_cond. cbn [lhs_col op is_rhs_val rhs_col rhs_val]. rewrite Hv.
  destruct (col_value a (rhs_col c)) as [[t' n'] y], (col_value a (lhs_col c)) as [[t n] x].
  rewrite (compare_raw_sym x t n y t' n'). destruct (compare_raw_data x t n y t' n'); [apply evaluate_swap|done].
Qed.

(** A condition over columns of [ts], of types that can be compared. *)
Definition col_typed ts (x : TabCol) (m : ColMeta) : Prop :=
  tc_tab x ∈ ts ∧ find_col_meta (tcols (tc_tab x)) x = Ret m.
Definition cond_typed ts c : Prop :=
  ∃ m, col_typed ts (lhs_col c) m ∧
  if is_rhs_val c then
    ∃ bs, raw (rhs_val c) = Some bs ∧ val_type (rhs_val c) = cm_type m ∧ wide (cm_type m) (Z.of_nat (length bs))
  else ∃ m', col_typed ts (rhs_col c) m' ∧ comparable (cm_type m) (cm_type m') = true.

Lemma cond_typed_mono ts ts' c : (∀ t, t ∈ ts → t ∈ ts') → cond_typed ts c → cond_typed ts' c.
Proof.
  intros Hs (m & [Hm ?] & Hc). exists m. split; [by split; [apply Hs|]|]. destruct (is_rhs_val c); [done|].
  destruct Hc as (m' & [Hm' ?] & ?). exists m'. split; [by split; [apply Hs|]|done].
Qed.

(** A condition looks at the rows of its tables only. *)
Lemma cond_holds_same ts a b c : cond_typed ts c → (∀ t, t ∈ ts → row_of a t = row_of b t) → cond_holds a c = cond_holds b c.
Proof.
  intros (m & [Hm Hf] & Hc) Hab. unfold cond_holds, col_value. rewrite Hf, (Hab _ Hm). destruct (is_rhs_val c); [done|].
  destruct Hc as (m' & [Hm' Hf'] & _). by rewrite Hf', (Hab _ Hm').
Qed.
Lemma conds_hold_same ts a b conds : Forall (cond_typed ts) conds → (∀ t, t ∈ ts → row_of a t = row_of b t) →
  conds_hold a conds = conds_hold b conds.
Proof.
  intros Hc Hab. unfold conds_hold. induction Hc as [|c conds Hc _ IH]; [done|]. simpl. by rewrite IH, (cond_holds_same ts a b).
Qed.

Lemma conds_hold_app a l1 l2 : conds_hold a (l1 ++ l2) = conds_hold a l1 && conds_hold a l2.
Proof. apply forallb_app. Qed.
Lemma conds_hold_perm a l1 l2 : l1 ≡ₚ l2 → conds_hold a l1 = conds_hold a l2.
Proof.
  induction 1 as [|c l1 l2 _ IH|c1 c2 l|l1 l2 l3 _ IH1 _ IH2]; [done|simpl; by rewrite IH| |congruence].
  simpl. by rewrite !andb_assoc, (andb_comm (cond_holds a c2)).
Qed.

(* ------------------------------------------------------------------ *)
(** ** Layouts                                                          *)
(* ------------------------------------------------------------------ *)

(** The rows of the tables [ts] side by side, with the columns moved. *)
Definition leaf_cols ts : list ColMeta := foldr (λ t cs, tcols t ++ (shift_col (tlen t) <$> cs)) [] ts.
Definition leaf_len ts : Z := foldr (λ t n, tlen t + n) 0 ts.
Definition flat ts a : row := concat (row_of a <$> ts).
(** The rows have the length of their tables. *)
Definition fits ts a : Prop := ∀ t, t ∈ ts → length (row_of a t) = Z.to_nat (tlen t).

Lemma shift_shift i j m : shift_col i (shift_col j m) = shift_col (i + j) m.
Proof. unfold shift_col, with_offset. simpl. f_equal. lia. Qed.
Lemma shift_zero m : shift_col 0 m = m.
Proof. destruct m. unfold shift_col, with_offset. simpl. f_equal. lia. Qed.

Lemma leaf_cols_app ts1 ts2 : leaf_cols (ts1 ++ ts2) = cols_join (leaf_cols ts1) (leaf_len ts1) (leaf_cols ts2).
Proof.
  unfold cols_join. induction ts1 as [|t ts1 IH]; simpl.
  - rewrite <- (list_fmap_id (leaf_cols ts2)) at 1. apply list_fmap_ext. intros. by rewrite shift_zero.
  - rewrite IH, fmap_app, <- app_assoc, <- list_fmap_compose. do 2 f_equal. apply list_fmap_ext. intros. simpl.
    by rewrite shift_shift.
Qed.
Lemma leaf_len_app ts1 ts2 : leaf_len (ts1 ++ ts2) = leaf_len ts1 + leaf_len ts2.
Proof. induction ts1 as [|t ts1 IH]; simpl; [done|]. rewrite IH. lia. Qed.
Lemma flat_app ts1 ts2 a : flat (ts1 ++ ts2) a = flat ts1 a ++ flat ts2 a.
Proof. unfold flat. by rewrite fmap_app, concat_app. Qed.

Lemma find_col_app l1 l2 x : find_col_meta (l1 ++ l2) x = match find_col_meta l1 x with Ret m => Ret m | Throw _ => find_col_meta l2 x end.
Proof. unfold find_col_meta. induction l1 as [|m l1 IH]; [done|]. simpl. by destruct (_ && _). Qed.
Lemma find_col_shift k l x : find_col_meta (shift_col k <$> l) x =
  match find_col_meta l x with Ret m => Ret (shift_col k m) | Throw e => Throw e end.
Proof.
  unfold find_col_meta. induction l as [|m l IH]; [done|]. cbn [fmap list_fmap find].
  change (cm_tab_name (shift_col k m)) with (cm_tab_name m). change (cm_name (shift_col k m)) with (cm_name m).
  by destruct (bool_decide _ && bool_decide _).
Qed.
Lemma find_col_other t x : known t → tc_tab x ≠ t → find_col_meta (tcols t) x = Throw (ColumnNotFoundError (tc_tab x +:+ "." +:+ tc_col x)).
Proof.
  intros [_ _ Hk] Hx. unfold find_col_meta. induction Hk as [|m l [Hm _] _ IH]; [done|]. simpl.
  by rewrite bool_decide_eq_false_2 by congruence.
Qed.

(** A column is found in the layout, moved, and its bytes are those of its table. *)
Lemma find_leaf ts x m : Forall known ts → col_typed ts x m →
  ∃ k, find_col_meta (leaf_cols ts) x = Ret (shift_col k m) ∧ 0 ≤ k ∧
    ∀ a, fits ts a → field_of (flat ts a) (shift_col k m) = field_of (row_of a (tc_tab x)) m.
Proof.
  intros Hk [Hin Hm]. induction Hk as [|t ts Ht Hts IH]; [by apply elem_of_nil in Hin|].
  change (leaf_cols (t :: ts)) with (tcols t ++ (shift_col (tlen t) <$> leaf_cols ts)). rewrite find_col_app.
  destruct (decide (tc_tab x = t)) as [<-|Hne].
  - rewrite Hm. exists 0. rewrite shift_zero. split_and!; [done|done|]. intros a Ha. cbn [flat fmap list_fmap concat].
    pose proof (sh_cols _ _ _ _ (kn_shape _ Ht)) as Hc. unfold cols_in in Hc. rewrite Forall_forall in Hc.
    destruct (Hc m (find_col_elem _ _ _ Hm)) as (H1 & H2 & H3). pose proof (Ha (tc_tab x) ltac:(left)) as Hl.
    unfold field_of, read_at, flat. cbn [fmap list_fmap concat]. rewrite drop_app_le, take_app_le by (rewrite ?length_drop; lia). done.
  - rewrite find_col_other by done. rewrite find_col_shift. apply elem_of_cons in Hin as [?|Hin]; [done|].
    destruct (IH Hin) as (k & E & Hk0 & Hf). rewrite E. pose proof (sh_pos _ _ _ _ (kn_shape _ Ht)) as Hl0.
    exists (tlen t + k). rewrite shift_shift. split_and!; [done|lia|]. intros a Ha.
    rewrite <- (Hf a) by (intros t' Ht'; apply Ha; by right). pose proof (Ha t ltac:(left)) as Hl.
    assert (0 ≤ cm_offset m) as Hm0.
    { rewrite Forall_forall in Hts. pose proof (Hts _ Hin) as Hx. apply find_col_elem in Hm.
      pose proof (sh_cols _ _ _ _ (kn_shape _ Hx)) as Hc. unfold cols_in in Hc. rewrite Forall_forall in Hc. by apply Hc. }
    change (flat (t :: ts) a) with (row_of a t ++ flat ts a).
    unfold field_of, read_at. cbn [cm_offset cm_len shift_col with_offset].
    replace (Z.to_nat (cm_offset m + (tlen t + k))) with (length (row_of a t) + Z.to_nat (cm_offset m + k))%nat by lia.
    by rewrite drop_app_add.
Qed.

Lemma known_wide t x m : known t → find_col_meta (tcols t) x = Ret m → wide (cm_type m) (cm_len m).
Proof. intros [_ _ Hk] Hm%find_col_elem. rewrite Forall_forall in Hk. by apply Hk. Qed.

Lemma compare_fields u v (m m' : ColMeta) : wide (cm_type m) (cm_len m) → wide (cm_type m') (cm_len m') →
  compare_raw_data (drop (Z.to_nat (cm_offset m)) u) (cm_type m) (cm_len m) (drop (Z.to_nat (cm_offset m')) v) (cm_type m') (cm_len m') =
  compare_raw_data (field_of u m) (cm_type m) (cm_len m) (field_of v m') (cm_type m') (cm_len m').
Proof. intros Hm Hm'. unfold field_of, read_at. by rewrite compare_raw_take. Qed.
Lemma compare_field_raw u (m : ColMeta) bs (ty : ColType) : wide (cm_type m) (cm_len m) → wide ty (Z.of_nat (length bs)) →
  compare_raw_data (drop (Z.to_nat (cm_offset m)) u) (cm_type m) (cm_len m) bs ty (Z.of_nat (length bs)) =
  compare_raw_data (field_of u m) (cm_type m) (cm_len m) bs ty (Z.of_nat (length bs)).
Proof.
  intros Hm Ht. unfold field_of, read_at. rewrite <- (compare_raw_take _ _ _ bs) by done.
  by rewrite Nat2Z.id, firstn_all.
Qed.

(** A typed condition evaluates on every row of the layout of its tables, and on
    the row of an assignment to its value there. *)
Lemma check_condition_flat ts c : Forall known ts → cond_typed ts c →
  (∀ u, ∃ r, check_condition u (leaf_cols ts) c = Ret r) ∧
  (∀ a, fits ts a → check_condition (flat ts a) (leaf_cols ts) c = Ret (cond_holds a c)).
Proof.
  intros Hk (m & Hm & Hc). destruct (find_leaf ts (lhs_col c) m Hk Hm) as (k & E & _ & Hf). unfold check_condition, cond_holds, col_value.
  rewrite E, (proj2 Hm). cbn [mbind outcome_bind].
  assert (∀ x m, col_typed ts x m → wide (cm_type m) (cm_len m)) as Hw.
  { intros x m1 [Hx Hm1]. rewrite Forall_forall in Hk. apply (known_wide (tc_tab x) x); auto. }
  destruct (is_rhs_val c).
  - destruct Hc as (bs & Eb & Et & Hwb). unfold raw_value. rewrite Eb. cbn [mbind outcome_bind from_option id]. split.
    + intros u. rewrite Et. cbn [cm_type cm_len shift_col with_offset].
      edestruct compare_raw_ret as [r ->]; [destruct (cm_type m); reflexivity|]. by eexists.
    + intros a Ha. rewrite compare_field_raw .
      2: exact (Hw _ _ Hm). 2: { rewrite Et. exact Hwb. } rewrite Hf by done.
      cbn [cm_type cm_len shift_col with_offset]. rewrite Et.
      edestruct compare_raw_ret as [r ->]; [destruct (cm_type m); reflexivity|done].
  - destruct Hc as (m' & Hm' & Hcomp). destruct (find_leaf ts (rhs_col c) m' Hk Hm') as (k' & E' & _ & Hf').
    rewrite E', (proj2 Hm'). cbn [mbind outcome_bind]. split.
    + intros u. cbn [cm_type cm_len shift_col with_offset]. edestruct (compare_raw_ret) as [r ->]; [exact Hcomp|]. by eexists.
    + intros a Ha. rewrite compare_fields by (first [by apply (Hw _ _ Hm)|by apply (Hw _ _ Hm')]). rewrite Hf, Hf' by done.
      cbn [cm_type cm_len shift_col with_offset]. edestruct (compare_raw_ret) as [r ->]; [exact Hcomp|done].
Qed.

Lemma conds_eval_typed ts conds : Forall known ts → Forall (cond_typed ts) conds → conds_eval (leaf_cols ts) conds.
Proof.
  intros Hk Hc u. unfold satisfies. induction Hc as [|c conds Hc _ IH]; [done|]. cbn [record_satisfies_conditions].
  destruct (proj1 (check_condition_flat ts c Hk Hc) u) as [r ->]. cbn [mbind outcome_bind]. destruct r; [|done]. exact IH.
Qed.
Lemma satisfies_flat ts conds a : Forall known ts → Forall (cond_typed ts) conds → fits ts a →
  satisfies (leaf_cols ts) conds (flat ts a) = conds_hold a conds.
Proof.
  intros Hk Hc Ha. unfold satisfies, conds_hold. induction Hc as [|c conds Hc _ IH]; [done|]. cbn [record_satisfies_conditions forallb].
  rewrite (proj2 (check_condition_flat ts c Hk Hc) a Ha). cbn [mbind outcome_bind]. by destruct (cond_holds a c).
Qed.

(* ------------------------------------------------------------------ *)
(** ** Products of tables and plans                                     *)
(* ------------------------------------------------------------------ *)

Definition pairs (X Y : list asg) : list asg := concat ((λ b, (λ a, a ∪ b) <$> X) <$> Y).
Definition singles t (rows : list row) : list asg := (λ r, {[t := r]}) <$> rows.
(** All assignments of rows to the tables. *)
Definition prod ts : list asg := foldr (λ t acc, pairs (singles t (table_rows C t)) acc) [∅] ts.

Fixpoint leaves p : list string :=
  match p with
  | ScanPlan _ t _ _ _ _ => [t]
  | JoinPlan _ l r _ _ => leaves l ++ leaves r
  | _ => []
  end.
Fixpoint plan_conds p : list Condition :=
  match p with
  | ScanPlan _ _ _ conds _ _ => conds
  | JoinPlan _ l r conds _ => plan_conds l ++ plan_conds r ++ conds
  | _ => []
  end.
(** The assignments a plan of scans and joins produces. *)
Fixpoint sem p : list asg :=
  match p with
  | ScanPlan _ t _ conds _ _ => filter (λ a, conds_hold a conds = true) (singles t (table_rows C t))
  | JoinPlan _ l r conds _ => filter (λ a, conds_hold a conds = true) (pairs (sem l) (sem r))
  | _ => []
  end.

(** Sequential scans of different tables, and conditions over the tables below. *)
Inductive placed : Plan → Prop :=
  | placed_scan t cs conds n idx : known t → Forall (cond_typed [t]) conds → placed (ScanPlan T_SeqScan t cs conds n idx)
  | placed_join tag l r conds type : placed l → placed r → (∀ t, t ∈ leaves l → t ∉ leaves r) →
      Forall (cond_typed (leaves l ++ leaves r)) conds → placed (JoinPlan tag l r conds type).

Lemma placed_known p : placed p → Forall known (leaves p).
Proof. induction 1; simpl; [by constructor|by apply Forall_app]. Qed.

Lemma elem_pairs X Y a : a ∈ pairs X Y ↔ ∃ x y, x ∈ X ∧ y ∈ Y ∧ a = x ∪ y.
Proof.
  unfold pairs. rewrite elem_concat. split.
  - intros (i & l & Hl%list_elem_of_lookup_2%list_elem_of_fmap & Ha). destruct Hl as (y & -> & Hy).
    apply list_elem_of_fmap in Ha as (x & -> & Hx). by exists x, y.
  - intros (x & y & Hx & Hy & ->).
    assert ((λ a, a ∪ y) <$> X ∈ (λ b, (λ a, a ∪ b) <$> X) <$> Y) as Hin by (apply list_elem_of_fmap; by exists y).
    apply list_elem_of_lookup in Hin as [i Hi]. exists i, ((λ a, a ∪ y) <$> X). split; [done|]. apply list_elem_of_fmap. by exists x.
Qed.

(** An assignment to exactly the tables [ts], with rows of their lengths. *)
Definition total_on ts a : Prop := fits ts a ∧ ∀ t, is_Some (a !! t) ↔ t ∈ ts.

Lemma row_of_union_l a b t : is_Some (a !! t) → row_of (a ∪ b) t = row_of a t.
Proof. intros [r Hr]. unfold row_of. by rewrite (lookup_union_Some_l _ _ _ _ Hr), Hr. Qed.
Lemma row_of_union_r a b t : a !! t = None → row_of (a ∪ b) t = row_of b t.
Proof. intros Hr. unfold row_of. by rewrite lookup_union_r. Qed.

Lemma total_union ts1 ts2 a b : (∀ t, t ∈ ts1 → t ∉ ts2) → total_on ts1 a → total_on ts2 b →
  total_on (ts1 ++ ts2) (a ∪ b) ∧ (∀ t, t ∈ ts1 → row_of (a ∪ b) t = row_of a t) ∧ (∀ t, t ∈ ts2 → row_of (a ∪ b) t = row_of b t).
Proof.
  intros Hd [Fa Da] [Fb Db].
  assert (∀ t, t ∈ ts1 → row_of (a ∪ b) t = row_of a t) as H1 by (intros t Ht; apply row_of_union_l; by apply Da).
  assert (∀ t, t ∈ ts2 → row_of (a ∪ b) t = row_of b t) as H2.
  { intros t Ht. apply row_of_union_r, eq_None_not_Some. intros Hs%Da. by apply (Hd t). }
  split_and!; [|done|done]. split.
  - intros t [Ht|Ht]%elem_of_app; [rewrite H1 by done; by apply Fa|rewrite H2 by done; by apply Fb].
  - intros t. rewrite lookup_union_is_Some, elem_of_app, Da, Db. done.
Qed.

Lemma flat_same ts a b : (∀ t, t ∈ ts → row_of a t = row_of b t) → flat ts a = flat ts b.
Proof. intros Hab. unfold flat. f_equal. by apply list_fmap_ext_in || (apply Forall_fmap_ext_1, Forall_forall; exact Hab). Qed.

Lemma singles_total t a : known t → a ∈ singles t (table_rows C t) → total_on [t] a.
Proof.
  intros [_ Hs _] Ha. unfold singles in Ha. apply list_elem_of_fmap in Ha as (r & -> & Hr).
  unfold table_rows in Hr. apply list_elem_of_omap in Hr as (rid & _ & Hr). split.
  - intros t' ->%list_elem_of_singleton. unfold row_of. rewrite lookup_singleton_eq. by apply (sh_rows _ _ _ _ Hs rid).
  - intros t'. rewrite list_elem_of_singleton, lookup_singleton_is_Some. naive_solver.
Qed.

Lemma sem_total p a : placed p → a ∈ sem p → total_on (leaves p) a.
Proof.
  intros Hp. revert a. induction Hp as [t cs conds n idx Ht Hc|tag l r conds type Hl IHl Hr IHr Hd Hc]; intros a Ha; simpl in *.
  - apply list_elem_of_filter in Ha as [_ Ha]. by apply singles_total.
  - apply list_elem_of_filter in Ha as [_ Ha]. apply elem_pairs in Ha as (x & y & Hx & Hy & ->).
    by apply total_union; [|apply IHl|apply IHr].
Qed.

Lemma pairs_app_r X Y1 Y2 : pairs X (Y1 ++ Y2) = pairs X Y1 ++ pairs X Y2.
Proof. unfold pairs. by rewrite fmap_app, concat_app. Qed.
Lemma pairs_cons X b Y : pairs X (b :: Y) = ((λ a, a ∪ b) <$> X) ++ pairs X Y.
Proof. done. Qed.

Lemma pairs_assoc X Y Z : pairs (pairs X Y) Z = pairs X (pairs Y Z).
Proof.
  induction Z as [|c Z IH]; [done|]. rewrite !pairs_cons, pairs_app_r, IH. f_equal. clear IH.
  induction Y as [|b Y IH]; [done|]. cbn [fmap list_fmap]. rewrite !pairs_cons, fmap_app, IH, <- list_fmap_compose. f_equal.
  apply list_fmap_ext. intros i a _. simpl. by rewrite (assoc_L (∪)).
Qed.

Lemma pairs_perm X X' Y Y' : X ≡ₚ X' → Y ≡ₚ Y' → pairs X Y ≡ₚ pairs X' Y'.
Proof.
  intros HX HY. trans (pairs X' Y).
  - clear HY. induction Y as [|b Y IH]; [done|]. rewrite !pairs_cons. apply Permutation_app; [by rewrite HX|exact IH].
  - clear HX. induction HY as [|b Y Y' _ IH|b b' Y|Y1 Y2 Y3 _ IH1 _ IH2]; [done|by rewrite !pairs_cons, IH| |by rewrite IH1].
    rewrite !pairs_cons, !app_assoc. by rewrite (Permutation_app_comm ((λ a, a ∪ b') <$> X')).
Qed.

Lemma pairs_nil_l Y : pairs [] Y = [].
Proof. unfold pairs. by induction Y. Qed.
Lemma pairs_cons_l a X Y : pairs (a :: X) Y ≡ₚ ((λ b, a ∪ b) <$> Y) ++ pairs X Y.
Proof.
  induction Y as [|b Y IH]; [done|]. rewrite !pairs_cons. cbn [fmap list_fmap app]. rewrite IH. f_equiv.
  rewrite !app_assoc. by rewrite (Permutation_app_comm ((λ a, a ∪ b) <$> X)).
Qed.
Lemma pairs_comm X Y : (∀ a b, a ∈ X → b ∈ Y → a ##ₘ b) → pairs X Y ≡ₚ pairs Y X.
Proof.
  induction X as [|a X IH]; intros Hd; [by rewrite pairs_nil_l|]. rewrite pairs_cons_l, pairs_cons, IH.
  - f_equiv. erewrite (list_fmap_ext (λ b, a ∪ b) (λ b, b ∪ a)); [done|]. intros i b Hb. simpl.
    apply map_union_comm, Hd; [by left|by eapply list_elem_of_lookup_2].
  - intros. apply Hd; [by right|done].
Qed.

Lemma filter_pairs_split (P L R : asg → bool) X Y : (∀ a b, a ∈ X → b ∈ Y → P (a ∪ b) = L a && R b) →
  filter (λ u, P u = true) (pairs X Y) = pairs (filter (λ a, L a = true) X) (filter (λ b, R b = true) Y).
Proof.
  induction Y as [|b Y IH]; intros HP; [done|]. rewrite pairs_cons, filter_app, IH by (intros; apply HP; [done|by right]). clear IH.
  assert (filter (λ u, P u = true) ((λ a, a ∪ b) <$> X) = if R b then (λ a, a ∪ b) <$> filter (λ a, L a = true) X else []) as ->.
  { induction X as [|a X IH]; [by destruct (R b)|]. cbn [fmap list_fmap]. rewrite !filter_cons.
    rewrite IH by (intros; apply HP; [by right|done]). rewrite (HP a b) by (by left).
    destruct (R b), (L a); simpl; repeat case_decide; try done. }
  rewrite filter_cons. destruct (R b) eqn:Eb; [by rewrite decide_True|by rewrite decide_False]. 
Qed.

Lemma prod_cons t ts : prod (t :: ts) = pairs (singles t (table_rows C t)) (prod ts).
Proof. done. Qed.
Lemma pairs_unit X : pairs X [∅] = X.
Proof.
  unfold pairs. simpl. rewrite app_nil_r. rewrite (list_fmap_ext _ id); [by rewrite list_fmap_id|]. intros. simpl. by rewrite (right_id_L ∅ (∪)).
Qed.
Lemma pairs_unit_l Y : pairs [∅] Y = Y.
Proof. induction Y as [|b Y IH]; [done|]. rewrite pairs_cons, IH. simpl. by rewrite (left_id_L ∅ (∪)). Qed.

Lemma prod_app ts1 ts2 : prod (ts1 ++ ts2) = pairs (prod ts1) (prod ts2).
Proof. induction ts1 as [|t ts1 IH]; simpl; [by rewrite pairs_unit_l|]. by rewrite IH, pairs_assoc. Qed.

Lemma prod_total ts a : Forall known ts → NoDup ts → a ∈ prod ts → total_on ts a.
Proof.
  intros Hk. revert a. induction Hk as [|t ts Ht Hk IH]; intros a Hn Ha; simpl in Ha.
  - apply list_elem_of_singleton in Ha as ->. split; [by intros t ?%elem_of_nil|]. intros t. rewrite lookup_empty, elem_of_nil.
    split; [by intros [? ?]|done].
  - apply NoDup_cons in Hn as [Hnt Hn]. apply elem_pairs in Ha as (x & y & Hx & Hy & ->).
    apply (total_union [t] ts); [by intros t' ->%list_elem_of_singleton|by apply singles_total|by apply IH].
Qed.

Lemma total_disjoint ts1 ts2 a b : (∀ t, t ∈ ts1 → t ∉ ts2) → total_on ts1 a → total_on ts2 b → a ##ₘ b.
Proof.
  intros Hd [_ Da] [_ Db]. apply map_disjoint_alt. intros t. destruct (a !! t) as [x|] eqn:Ea; [right|by left].
  apply eq_None_not_Some. intros Hs%Db. apply (Hd t); [apply Da; by eexists|done].
Qed.

Lemma prod_perm ts1 ts2 : Forall known ts1 → NoDup ts1 → ts1 ≡ₚ ts2 → prod ts1 ≡ₚ prod ts2.
Proof.
  intros Hk Hn Hp. induction Hp as [|t ts1 ts2 Hp IH|t1 t2 ts|ts1 ts2 ts3 H1 IH1 H2 IH2].
  - done.
  - apply Forall_cons in Hk as [Ht Hk]. apply NoDup_cons in Hn as [_ Hn]. rewrite !prod_cons. apply pairs_perm; [done|auto].
  - rewrite !prod_cons, <- !pairs_assoc. apply pairs_perm; [|done]. apply Forall_cons in Hk as [Ht1 Hk].
    apply Forall_cons in Hk as [Ht2 Hk]. apply NoDup_cons in Hn as [Hn _]. rewrite elem_of_cons in Hn. apply pairs_comm. intros a b Ha Hb.
    apply (total_disjoint [t2] [t1]); [|by apply singles_total..]. intros t ->%list_elem_of_singleton ->%list_elem_of_singleton. tauto.
  - rewrite IH1 by done. apply IH2; [by rewrite <- H1|by rewrite <- H1].
Qed.

Lemma placed_conds p : placed p → Forall (cond_typed (leaves p)) (plan_conds p).
Proof.
  induction 1 as [t cs conds n idx Ht Hc|tag l r conds type Hl IHl Hr IHr Hd Hc]; simpl; [done|].
  rewrite !Forall_app. split_and!; [| |done]; eapply Forall_impl; try eassumption; intros c; apply cond_typed_mono; intros t; rewrite elem_of_app; auto.
Qed.
Lemma placed_nodup p : placed p → NoDup (leaves p).
Proof.
  induction 1 as [t cs conds n idx Ht Hc|tag l r conds type Hl IHl Hr IHr Hd Hc]; simpl; [apply NoDup_singleton|].
  apply NoDup_app. split_and!; [done|by apply Hd|done].
Qed.

(** A plan produces the assignments of the product that satisfy its conditions. *)
Lemma sem_prod p : placed p → sem p = filter (λ a, conds_hold a (plan_conds p) = true) (prod (leaves p)).
Proof.
  induction 1 as [t cs conds n idx Ht Hc|tag l r conds type Hl IHl Hr IHr Hd Hc]; simpl.
  - by rewrite pairs_unit.
  - rewrite IHl, IHr, prod_app.
    rewrite <- (filter_pairs_split (λ u, conds_hold u (plan_conds l) && conds_hold u (plan_conds r))).
    + rewrite list_filter_filter. apply list_filter_iff. intros a. rewrite app_assoc, !conds_hold_app, !andb_true_iff. tauto.
    + intros a b Ha Hb. apply prod_total in Ha; [|by apply placed_known|by apply placed_nodup].
      apply prod_total in Hb; [|by apply placed_known|by apply placed_nodup].
      destruct (total_union _ _ a b Hd Ha Hb) as (_ & H1 & H2).
      by rewrite (conds_hold_same (leaves l) (a ∪ b) a), (conds_hold_same (leaves r) (a ∪ b) b) by (done || by apply placed_conds).
Qed.

(** The rows of a plan are its assignments, laid out in the order of its leaves. *)
Lemma scan_rows_filter t cols conds : scan_rows C t cols conds = filter (λ u, satisfies cols conds u = true) (table_rows C t).
Proof.
  unfold scan_rows, scan_rids, rows_of, table_rows. induction (table_rids C t) as [|rid l IH]; [done|]. cbn [omap list_omap].
  assert (rid_matches C t cols conds rid = match C !! (t, rid) with Some bs => satisfies cols conds bs | None => false end) as Em by done.
  destruct (C !! (t, rid)) as [bs|] eqn:E.
  - destruct (satisfies cols conds bs) eqn:Es; [rewrite !filter_cons_True by done|by rewrite !filter_cons_False by congruence].
    cbn [omap list_omap]. by rewrite E, IH.
  - by rewrite filter_cons_False by congruence.
Qed.

Lemma filter_layout (P : row → bool) (Q : asg → bool) (f : asg → row) (l : list asg) : (∀ a, a ∈ l → P (f a) = Q a) →
  filter (λ u, P u = true) (f <$> l) = f <$> filter (λ a, Q a = true) l.
Proof.
  induction l as [|a l IH]; intros HP; [done|]. cbn [fmap list_fmap]. rewrite !filter_cons, IH by (intros; apply HP; by right).
  rewrite (HP a) by by left. by case_decide.
Qed.

Lemma block_pairs_perm X X' Y Y' : X ≡ₚ X' → Y ≡ₚ Y' → block_pairs X Y ≡ₚ block_pairs X' Y'.
Proof.
  intros HX HY. trans (block_pairs X' Y).
  - clear HY. induction Y as [|b Y IH]; [done|]. rewrite !block_pairs_cons. apply Permutation_app; [by rewrite HX|exact IH].
  - clear HX. induction HY as [|b Y Y' _ IH|b b' Y|Y1 Y2 Y3 _ IH1 _ IH2]; [done|by rewrite !block_pairs_cons, IH| |by rewrite IH1].
    rewrite !block_pairs_cons, !app_assoc. by rewrite (Permutation_app_comm ((λ l, l ++ b') <$> X')).
Qed.

Lemma block_pairs_layout ts1 ts2 X Y : (∀ t, t ∈ ts1 → t ∉ ts2) → (∀ a, a ∈ X → total_on ts1 a) → (∀ b, b ∈ Y → total_on ts2 b) →
  block_pairs (flat ts1 <$> X) (flat ts2 <$> Y) = flat (ts1 ++ ts2) <$> pairs X Y.
Proof.
  intros Hd HX HY. induction Y as [|b Y IH]; [done|]. cbn [fmap list_fmap]. rewrite block_pairs_cons, pairs_cons, fmap_app.
  rewrite IH by (intros; apply HY; by right). f_equal. rewrite <- !list_fmap_compose. apply list_fmap_ext. intros i a Ha. simpl.
  destruct (total_union ts1 ts2 a b Hd) as (_ & H1 & H2); [by eapply HX, list_elem_of_lookup_2|apply HY; by left|].
  rewrite flat_app. by rewrite (flat_same ts1 (a ∪ b) a), (flat_same ts2 (a ∪ b) b).
Qed.

Lemma placed_denotes p : placed p →
  ∃ rows n, denotes C db p (leaf_cols (leaves p)) (leaf_len (leaves p)) rows n ∧ rows ≡ₚ flat (leaves p) <$> sem p.
Proof.
  induction 1 as [t cs conds n idx Ht Hc|tag l r conds type Hl IHl Hr IHr Hd Hc].
  - exists (scan_rows C t (leaf_cols [t]) conds), 0%nat. cbn [leaves]. assert (leaf_cols [t] = tcols t) as Ec by apply app_nil_r.
    assert (leaf_len [t] = tlen t) as El by apply Z.add_0_r. pose proof (conds_eval_typed [t] conds) as He. rewrite Ec in He. split.
    + rewrite Ec, El. pose proof (kn_table _ Ht) as [tab Htab]. pose proof (kn_shape _ Ht) as Hs.
      assert (tcols t = tm_cols tab) as Et by (unfold tcols, get_table; by rewrite Htab).
      rewrite Et in He, Hs |- *. apply den_scan; [unfold get_table; by rewrite Htab|exact Hs|]. apply He; [by constructor|done].
    + rewrite scan_rows_filter. cbn [sem]. assert (flat [t] <$> singles t (table_rows C t) = table_rows C t) as Ef.
      { unfold singles. rewrite <- list_fmap_compose. rewrite <- (list_fmap_id (table_rows C t)) at 2. apply list_fmap_ext. intros i u _.
        unfold flat, row_of. simpl. by rewrite lookup_singleton_eq, app_nil_r. }
      rewrite <- Ef at 1. rewrite (filter_layout _ (λ a, conds_hold a conds)); [done|]. intros a Ha. apply satisfies_flat; [by constructor|done|].
      by apply (singles_total t a Ht).
  - destruct IHl as (rows1 & n1 & D1 & P1), IHr as (rows2 & n2 & D2 & P2). cbn [leaves sem].
    pose proof (placed_known _ Hl) as Kl. pose proof (placed_known _ Hr) as Kr.
    assert (Forall known (leaves l ++ leaves r)) as Kk by by apply Forall_app.
    eexists _, _. rewrite leaf_len_app. split.
    + rewrite leaf_cols_app. apply den_join; [exact D1|exact D2|]. rewrite <- leaf_cols_app. by apply conds_eval_typed.
    + unfold join_rows. rewrite join_pairs_product by apply join_cap_pos.
      rewrite (block_pairs_perm _ _ _ _ P1 P2), block_pairs_layout; [|done|intros; by apply sem_total..].
      rewrite <- leaf_cols_app. rewrite (filter_layout _ (λ a, conds_hold a conds)); [done|]. intros a Ha. apply satisfies_flat; [done|done|].
      apply elem_pairs in Ha as (x & y & Hx & Hy & ->). by apply total_union; [|apply sem_total..].
Qed.
End Sem.
