(* ===== verification/PlannerSpec.v ===== *)
(** * Correctness of the planner

    make_one_rel turns the tables and the conditions of a query into a tree of
    scans and joins: every table is scanned once, and every condition is checked
    at a node below which its tables are. *)

From S2P Require Import Prelude Defs SmMeta Values SmManager TableSpec Executor ExecutorSpec OperatorSpec ScanExec ScanSpec Ast Analyze Planner QuerySpec PlanSem.

Section PlannerSpec.
Variables (C : tables) (db : DbMeta).
Abbreviation known := (known C db).
Abbreviation placed := (placed C db).
Abbreviation cond_typed := (cond_typed db).
Abbreviation conds_hold := (conds_hold db).
Implicit Types (a : asg) (ts : list string) (t : string) (c : Condition) (p : Plan).

(* ------------------------------------------------------------------ *)
(** ** Conditions of a tree                                             *)
(* ------------------------------------------------------------------ *)

(** The scans of a tree, and the conditions at its joins. *)
Fixpoint scans p : list Plan :=
  match p with
  | ScanPlan _ _ _ _ _ _ => [p]
  | JoinPlan _ l r _ _ => scans l ++ scans r
  | _ => []
  end.
Fixpoint join_conds p : list Condition :=
  match p with
  | JoinPlan _ l r conds _ => join_conds l ++ join_conds r ++ conds
  | _ => []
  end.

Lemma leaves_scans p : leaves p = plan_tab <$> scans p.
Proof. induction p as [| |tag l IHl r IHr conds type| | | | | | |]; try done. simpl. by rewrite fmap_app, IHl, IHr. Qed.
Lemma plan_conds_scans p : plan_conds p ≡ₚ concat (plan_conds <$> scans p) ++ join_conds p.
Proof.
  induction p as [|tag t cs conds n idx|tag l IHl r IHr conds type| | | | | | |]; try done; simpl; [by rewrite !app_nil_r|].
  rewrite fmap_app, concat_app, IHl, IHr. solve_Permutation.
Qed.

(** Lists of conditions with the same meaning. *)
Definition conds_equiv (l1 l2 : list Condition) : Prop := ∀ a, conds_hold a l1 = conds_hold a l2.
#[local] Instance conds_equiv_equivalence : Equivalence conds_equiv.
Proof. split; unfold conds_equiv; [done|by intros ? ?|intros x y z H1 H2 a; by rewrite H1]. Qed.
#[local] Instance conds_equiv_app : Proper (conds_equiv ==> conds_equiv ==> conds_equiv) app.
Proof. intros x x' Hx y y' Hy a. rewrite !conds_hold_app. by rewrite Hx, Hy. Qed.
#[local] Instance conds_equiv_perm : subrelation Permutation conds_equiv.
Proof. intros x y Hp a. by apply conds_hold_perm. Qed.
Lemma conds_equiv_swap c : is_rhs_val c = false → conds_equiv [swap_cond c] [c].
Proof. intros Hv a. unfold PlanSem.conds_hold. simpl. by rewrite cond_holds_swap. Qed.

(** Conditions between two different tables. *)
Definition joins ts c : Prop :=
  is_rhs_val c = false ∧ tc_tab (lhs_col c) ≠ tc_tab (rhs_col c) ∧ cond_typed ts c.

Lemma joins_tabs ts c : joins ts c → tc_tab (lhs_col c) ∈ ts ∧ tc_tab (rhs_col c) ∈ ts.
Proof. intros (Hv & _ & m & [Hm _] & Hc). rewrite Hv in Hc. destruct Hc as (m' & [Hm' _] & _). done. Qed.
Lemma joins_typed ts ts' c : joins ts c → tc_tab (lhs_col c) ∈ ts' → tc_tab (rhs_col c) ∈ ts' → cond_typed ts' c.
Proof.
  intros (Hv & _ & m & [_ Hm] & Hc) Hl Hr. exists m. rewrite Hv in *. destruct Hc as (m' & [_ Hm'] & ?).
  split; [by split|]. exists m'. split; [by split|done].
Qed.
Lemma comparable_sym x y : comparable x y = comparable y x.
Proof. by destruct x, y. Qed.
Lemma joins_swap ts c : joins ts c → joins ts (swap_cond c).
Proof.
  intros (Hv & Hne & m & Hm & Hc). rewrite Hv in Hc. destruct Hc as (m' & Hm' & Hcomp). split; [done|]. split; [by intros E; apply Hne|].
  exists m'. split; [done|]. simpl. rewrite Hv. exists m. split; [done|]. by rewrite comparable_sym.
Qed.

(* ------------------------------------------------------------------ *)
(** ** Pushing a condition into a tree                                  *)
(* ------------------------------------------------------------------ *)

Definition pushed p c (r : Z * Plan) : Prop :=
  let l := bool_decide (tc_tab (lhs_col c) ∈ leaves p) in
  let r' := bool_decide (tc_tab (rhs_col c) ∈ leaves p) in
  if l && r' then r.1 = 3 ∧ placed r.2 ∧ scans r.2 = scans p ∧ conds_equiv (join_conds r.2) (join_conds p ++ [c])
  else r.1 = (if l then 1 else if r' then 2 else 0).

Lemma placed_weaken tag l r conds type c : placed (JoinPlan tag l r conds type) → cond_typed (leaves l ++ leaves r) c →
  placed (JoinPlan tag l r (conds ++ [c]) type).
Proof. intros Hp Hc. inversion Hp; subst. constructor; try done. rewrite Forall_app. by split; [|constructor]. Qed.

Lemma push_conds_spec ts p c : joins ts c → placed p → pushed p c (push_conds c p).
Proof.
  intros Hj Hp. induction Hp as [t cs conds n idx Ht Hc|tag l r conds type Hl IHl Hr IHr Hd Hc].
  - unfold pushed. simpl. destruct Hj as (_ & Hne & _). rewrite !(bool_decide_ext (_ ∈ [t]) _ (list_elem_of_singleton _ _)).
    repeat case_bool_decide; simpl; congruence.
  - assert (placed (JoinPlan tag l r conds type)) as Hp by by constructor.
    unfold pushed in *. cbn [push_conds leaves]. destruct (push_conds c l) as [lr l'], (push_conds c r) as [rr r']. cbn [fst snd] in *.
    assert (∀ t, bool_decide (t ∈ leaves l ++ leaves r) = bool_decide (t ∈ leaves l) || bool_decide (t ∈ leaves r)) as Hor.
    { intros t. rewrite <- bool_decide_or. apply bool_decide_ext. apply elem_of_app. }
    rewrite !Hor. pose proof (Hd (tc_tab (lhs_col c))) as H1. pose proof (Hd (tc_tab (rhs_col c))) as H2.
    assert (∀ q q', scans q' = scans q → leaves q' = leaves q) as Hsl by (intros q q' E; by rewrite !leaves_scans, E).
    destruct (bool_decide_reflect (tc_tab (lhs_col c) ∈ leaves l)) as [Ll|Ll], (bool_decide_reflect (tc_tab (rhs_col c) ∈ leaves l)) as [Rl|Rl];
      cbn [andb orb] in *.
    + destruct IHl as (-> & Hl' & Es & Ec). change (3 =? 3) with true. cbn [fst snd scans join_conds]. rewrite Es. split_and!; try done.
      * constructor; try done; rewrite (Hsl l l' Es); done.
      * rewrite Ec. intros a. apply conds_hold_perm. solve_Permutation.
    + rewrite IHl. change (1 =? 3) with false. cbn [orb andb]. destruct (bool_decide_reflect (tc_tab (lhs_col c) ∈ leaves r)) as [|_]; [naive_solver|].
      cbn [andb orb] in *. destruct (bool_decide_reflect (tc_tab (rhs_col c) ∈ leaves r)) as [Rr|Rr]; cbn [andb orb] in *; rewrite IHr.
      * change (2 =? 3) with false. change ((1 =? 0) || (2 =? 0)) with false. change (1 =? 2) with false. cbn [fst snd scans join_conds].
        split_and!; [done| |done|].
        -- apply placed_weaken; [done|]. eapply joins_typed; [exact Hj|apply elem_of_app; by left|apply elem_of_app; by right].
        -- intros a. apply conds_hold_perm. solve_Permutation.
      * done.
    + rewrite IHl. change (2 =? 3) with false. cbn [orb andb]. destruct (bool_decide_reflect (tc_tab (rhs_col c) ∈ leaves r)) as [|_]; [naive_solver|].
      cbn [andb orb] in *. destruct (bool_decide_reflect (tc_tab (lhs_col c) ∈ leaves r)) as [Lr|Lr]; cbn [andb orb] in *; rewrite IHr.
      * change (1 =? 3) with false. change ((2 =? 0) || (1 =? 0)) with false. change (2 =? 2) with true. cbn [fst snd scans join_conds].
        split_and!; [done| |done|].
        -- apply placed_weaken; [done|]. eapply joins_typed; [apply joins_swap; exact Hj|apply elem_of_app; by left|apply elem_of_app; by right].
        -- rewrite !app_assoc. f_equiv. by apply conds_equiv_swap, Hj.
      * done.
    + rewrite IHl. change (0 =? 3) with false. cbn [orb andb].
      destruct (bool_decide (tc_tab (lhs_col c) ∈ leaves r)), (bool_decide (tc_tab (rhs_col c) ∈ leaves r)); cbn [andb orb] in *; try (by rewrite IHr).
      destruct IHr as (-> & Hr' & Es & Ec). change (3 =? 3) with true. cbn [fst snd scans join_conds]. rewrite Es. split_and!; try done.
      * constructor; try done; rewrite (Hsl r r' Es); done.
      * rewrite Ec. intros a. apply conds_hold_perm. solve_Permutation.
Qed.

(* ------------------------------------------------------------------ *)
(** ** The join tree                                                    *)
(* ------------------------------------------------------------------ *)

Section Joins.
(** The tables of the query and their scans. *)
Variables (tables : list string) (plans : list Plan).
Hypotheses (Hplans : plan_tab <$> plans = tables) (Hscan : Forall (λ p, placed p ∧ scans p = [p]) plans)
  (Hnodup : NoDup tables) (Hempty : ""%string ∉ tables).

Definition flag p t : Z := if decide (t ∈ leaves p) then 1 else -1.
Definition flags p : list Z := flag p <$> tables.

(** The tree so far: its scans are of the tables that are marked as joined, and it
    checks the conditions [done]. *)
Record joined p (st : JoinState) (done : list Condition) : Prop := {
  j_placed : placed p;
  j_scans : ∃ rest, scans p ++ rest ≡ₚ plans;
  j_tabs t : t ∈ tables → (t ∈ joined_tables st ↔ t ∈ leaves p);
  j_flags : scantbl st = flags p;
  j_conds : conds_equiv (join_conds p) done
}.

Lemma scan_leaves p : p ∈ plans → placed p ∧ leaves p = [plan_tab p] ∧ scans p = [p] ∧ is_null p = false ∧ join_conds p = [].
Proof using Hscan.
  rewrite Forall_forall in Hscan. intros Hp. destruct (Hscan p Hp) as [Hpl Hs]. split_and!; [done| |done|..].
  - by rewrite leaves_scans, Hs.
  - by inversion Hpl.
  - destruct Hpl as [|tag l r conds type Hl Hr Hd Hc]; [done|]. exfalso. simpl in Hs. clear -Hs Hl Hr.
    assert (∀ q, placed q → scans q ≠ []) as Hq.
    { induction 1 as [|tag' l' r' conds' type' _ IH _ _ _ _]; [done|]. simpl. intros [? _]%app_nil. done. }
    pose proof (f_equal length Hs) as E. rewrite length_app in E. simpl in E. pose proof (Hq l Hl). pose proof (Hq r Hr).
    destruct (scans l), (scans r); simpl in *; try done; lia.
Qed.

Lemma pop_scan_spec t st : t ∈ tables →
  ∃ i p, pop_scan t plans st = (p, mkJoinState (<[i := 1]> (scantbl st)) (joined_tables st ++ [t])) ∧
    tables !! i = Some t ∧ p ∈ plans ∧ plan_tab p = t.
Proof using Hplans Hnodup.
  intros Ht. unfold pop_scan. rewrite <- Hplans in Ht. apply list_elem_of_fmap in Ht as (p & -> & Hp).
  destruct (list_find_elem_of (λ q, plan_tab q = plan_tab p) plans p Hp eq_refl) as [[i q] E]. rewrite E.
  apply list_find_Some in E as (Hi & Eq & _). exists i, q. rewrite Eq. split_and!; [done| |by eapply list_elem_of_lookup_2|done].
  rewrite <- Hplans, list_lookup_fmap, Hi. simpl. by rewrite Eq.
Qed.

(** A table joined to the tree: its flag is set. *)
Lemma flags_insert p p' i t : tables !! i = Some t → (∀ t', t' ∈ tables → (t' ∈ leaves p' ↔ t' = t ∨ t' ∈ leaves p)) →
  <[i := 1]> (flags p) = flags p'.
Proof using Hnodup.
  intros Hi Hl. apply list_eq. intros j. unfold flags. destruct (decide (j = i)) as [->|Hne].
  - rewrite list_lookup_insert_eq by (rewrite length_fmap; by eapply lookup_lt_Some). rewrite list_lookup_fmap, Hi. simpl.
    unfold flag. rewrite decide_True; [done|]. apply Hl; [by eapply list_elem_of_lookup_2|by left].
  - rewrite list_lookup_insert_ne by done. rewrite !list_lookup_fmap. destruct (tables !! j) as [t'|] eqn:Ej; [|done]. simpl. f_equal.
    unfold flag. assert (t' ≠ t) by (intros ->; apply Hne; by eapply NoDup_lookup).
    assert (t' ∈ leaves p ↔ t' ∈ leaves p') as Hiff by (rewrite (Hl t') by (by eapply list_elem_of_lookup_2); split; [by right|by intros [?|?]]).
    by apply decide_ext.
Qed.

Lemma scans_disjoint p q rest : scans p ++ rest ≡ₚ plans → q ∈ plans → plan_tab q ∉ leaves p → ∃ rest', rest ≡ₚ q :: rest'.
Proof using.
  intros Hp Hq Hn. rewrite <- Hp, elem_of_app in Hq. destruct Hq as [Hq|Hq].
  - exfalso. apply Hn. rewrite leaves_scans. by apply list_elem_of_fmap_2.
  - apply elem_of_Permutation in Hq as [rest' Hr]. by exists rest'.
Qed.

(** A scan joined to the left of the tree, with the conditions of the join. *)
Lemma joined_scan q p st done conds i : joined p st done → q ∈ plans → plan_tab q ∉ leaves p → tables !! i = Some (plan_tab q) →
  Forall (cond_typed (plan_tab q :: leaves p)) conds →
  joined (nest_loop q p conds) (mkJoinState (<[i := 1]> (scantbl st)) (joined_tables st ++ [plan_tab q])) (done ++ conds).
Proof using Hscan Hnodup.
  intros [Jp [rest Js] Jt Jf Jc] Hq Hn Hi Hc. destruct (scan_leaves q Hq) as (Pq & Lq & Sq & _ & Cq). split.
  - constructor; try done; rewrite Lq; [by intros t ->%list_elem_of_singleton|done].
  - destruct (scans_disjoint p q rest Js Hq Hn) as [rest' Hr]. exists rest'. simpl. rewrite Sq. rewrite <- Js, Hr. solve_Permutation.
  - intros t Ht. simpl. rewrite Lq, !elem_of_app, list_elem_of_singleton, Jt by done. tauto.
  - simpl. rewrite Jf. apply (flags_insert p _ i (plan_tab q) Hi). intros t Ht. simpl. rewrite Lq, elem_of_app, list_elem_of_singleton. tauto.
  - simpl. rewrite Cq. simpl. by rewrite Jc.
Qed.

(** The shape of the tree does not matter. *)
Lemma joined_reshape p p' st done : joined p st done → placed p' → scans p' ≡ₚ scans p →
  conds_equiv (join_conds p') (join_conds p) → joined p' st done.
Proof using.
  intros [Jp [rest Js] Jt Jf Jc] Hp' Hs Hc.
  assert (∀ t, t ∈ leaves p' ↔ t ∈ leaves p) as Hl by (intros t; by rewrite !leaves_scans, Hs).
  split; [done|exists rest; by rewrite Hs|intros t Ht; by rewrite Hl, Jt| |by rewrite Hc].
  rewrite Jf. unfold flags. apply list_fmap_ext. intros i t _. unfold flag. by apply decide_ext.
Qed.

Lemma next_join_spec p st done c : joined p st done → joins tables c →
  ∃ p' st', next_join plans c p st = (p', st') ∧ joined p' st' (done ++ [c]).
Proof using Hplans Hscan Hnodup.
  intros J Hj. pose proof (joins_tabs _ _ Hj) as [Hl Hr]. pose proof Hj as (Hv & Hne & _). unfold next_join.
  pose proof (j_tabs _ _ _ J) as Jt.
  assert (∀ t, t ∈ tables → negb (bool_decide (t ∈ joined_tables st)) = negb (bool_decide (t ∈ leaves p))) as Hun.
  { intros t Ht. f_equal. by apply bool_decide_ext, Jt. }
  rewrite (Hun _ Hl). destruct (bool_decide_reflect (tc_tab (lhs_col c) ∈ leaves p)) as [Ll|Ll]; cbn [negb].
  - rewrite (Hun _ Hr). destruct (bool_decide_reflect (tc_tab (rhs_col c) ∈ leaves p)) as [Lr|Lr]; cbn [negb is_null andb orb].
    + pose proof (push_conds_spec tables p c Hj (j_placed _ _ _ J)) as Hp. unfold pushed in Hp.
      rewrite !bool_decide_eq_true_2 in Hp by done. destruct Hp as (_ & Hp & Es & Ec).
      eexists _, st. split; [done|]. destruct J as [Jp Js _ Jf Jc].
      assert (leaves (push_conds c p).2 = leaves p) as El by by rewrite !leaves_scans, Es.
      split; rewrite ?El; try done; [by rewrite Es| |by rewrite Ec, Jc].
      rewrite Jf. unfold flags, flag. by rewrite El.
    + destruct (pop_scan_spec _ st Hr) as (i & q & E & Hi & Hq & Eq). rewrite E.
      destruct (scan_leaves q Hq) as (_ & _ & _ & -> & _). cbn [negb andb orb].
      eexists _, _. split; [done|]. rewrite <- Eq in *. destruct (joined_scan q p st done [swap_cond c] i J Hq Lr Hi) as [? ? ? ? Hc].
      { constructor; [|constructor]. eapply joins_typed; [by apply joins_swap|simpl; rewrite <- Eq; by left|by right]. }
      split; try done. rewrite Hc. f_equiv. by apply conds_equiv_swap.
  - destruct (pop_scan_spec _ st Hl) as (i & q & E & Hi & Hq & Eq). rewrite E. cbn [joined_tables].
    assert (bool_decide (tc_tab (rhs_col c) ∈ joined_tables st ++ [tc_tab (lhs_col c)]) = bool_decide (tc_tab (rhs_col c) ∈ leaves p)) as Hr'.
    { apply bool_decide_ext. rewrite elem_of_app, list_elem_of_singleton, Jt by done. naive_solver. }
    rewrite Hr'. destruct (scan_leaves q Hq) as (_ & _ & _ & Nq & _). rewrite <- Eq in Hi, Ll.
    destruct (bool_decide_reflect (tc_tab (rhs_col c) ∈ leaves p)) as [Lr|Lr]; cbn [negb].
    + rewrite Nq. cbn [negb is_null andb orb]. eexists _, _. split; [done|]. rewrite <- Eq. apply joined_scan; try done.
      constructor; [|constructor]. eapply joins_typed; [done|rewrite <- Eq; by left|by right].
    + destruct (pop_scan_spec (tc_tab (rhs_col c)) (mkJoinState (<[i:=1]> (scantbl st)) (joined_tables st ++ [tc_tab (lhs_col c)])) Hr)
        as (j & q' & E' & Hi' & Hq' & Eq'). rewrite E'. destruct (scan_leaves q' Hq') as (_ & _ & _ & Nq' & _).
      rewrite Nq, Nq'. cbn [negb andb]. eexists _, _. split; [done|]. rewrite <- Eq' in Hi', Lr.
      destruct (scan_leaves q Hq) as (Pq & Lq & Sq & _ & Cq), (scan_leaves q' Hq') as (Pq' & Lq' & Sq' & _ & Cq').
      assert (plan_tab q ≠ plan_tab q') as Hqq by congruence.
      assert (joined (nest_loop q p []) (mkJoinState (<[i := 1]> (scantbl st)) (joined_tables st ++ [plan_tab q])) (done ++ [])) as J1
        by by apply joined_scan.
      assert (plan_tab q' ∉ leaves (nest_loop q p [])) as Hn by (simpl; rewrite Lq, elem_of_app, list_elem_of_singleton; naive_solver).
      assert (Forall (cond_typed (plan_tab q' :: leaves (nest_loop q p []))) [c]) as Hct.
      { constructor; [|constructor]. eapply joins_typed; [done|rewrite <- Eq|rewrite <- Eq'; by left]. right. simpl. rewrite Lq. by left. }
      pose proof (joined_scan q' _ _ _ [c] j J1 Hq' Hn Hi' Hct) as J2. cbn [scantbl joined_tables] in J2 |- *.
      rewrite app_nil_r, Eq, Eq' in J2. apply (joined_reshape _ _ _ _ J2).
      * constructor; [|apply J| |done].
        -- constructor; [done|done| |].
           ++ rewrite Lq, Lq'. by intros t ->%list_elem_of_singleton ?%list_elem_of_singleton.
           ++ constructor; [|constructor]. rewrite Lq, Lq'. eapply joins_typed; [done|rewrite <- Eq; by left|rewrite <- Eq'; right; by left].
        -- simpl. rewrite Lq, Lq'. simpl. intros t [->|[->|[]%elem_of_nil]%elem_of_cons]%elem_of_cons; congruence.
      * simpl. rewrite Sq, Sq'. solve_Permutation.
      * simpl. rewrite Cq, Cq'. simpl. intros a. apply conds_hold_perm. solve_Permutation.
Qed.
Lemma next_joins_spec conds p st done : joined p st done → Forall (joins tables) conds →
  ∃ p' st', next_joins plans conds p st = (p', st') ∧ joined p' st' (done ++ conds).
Proof using Hplans Hscan Hnodup.
  intros J Hc. revert p st done J. induction Hc as [|c conds Hc _ IH]; intros p st done J; cbn [next_joins].
  - exists p, st. by rewrite app_nil_r.
  - destruct (next_join_spec p st done c J Hc) as (p1 & st1 & E1 & J1). rewrite E1.
    destruct (IH p1 st1 (done ++ [c]) J1) as (p2 & st2 & E2 & J2). exists p2, st2. by rewrite E2, <- app_assoc in *.
Qed.

Definition no_joins : JoinState := mkJoinState (replicate (length tables) (-1)) (replicate (length tables) ""%string).

Lemma flags_none : (λ _ : string, -1) <$> tables = replicate (length tables) (-1).
Proof using. clear. induction tables as [|t ts IH]; [done|]. cbn [fmap list_fmap length replicate]. by f_equal. Qed.

(** A tree of one scan. *)
Lemma joined_one q i : q ∈ plans → tables !! i = Some (plan_tab q) →
  joined q (mkJoinState (<[i := 1]> (scantbl no_joins)) (joined_tables no_joins ++ [plan_tab q])) [].
Proof using Hscan Hnodup Hempty Hplans.
  intros Hq Hi. destruct (scan_leaves q Hq) as (Pq & Lq & Sq & _ & Cq). split; simpl.
  - done.
  - apply elem_of_Permutation in Hq as [rest Hr]. exists rest. rewrite Sq. by rewrite Hr.
  - intros t Ht. rewrite Lq, elem_of_app, elem_of_replicate. split; [intros [[-> _]|?]; [done|done]|by right].
  - rewrite <- flags_none. symmetry. apply list_eq. intros j. unfold flags. destruct (decide (j = i)) as [->|Hne].
    + rewrite list_lookup_insert_eq by (rewrite length_fmap; by eapply lookup_lt_Some). rewrite list_lookup_fmap, Hi. simpl.
      unfold flag. rewrite Lq, decide_True; [done|by left].
    + rewrite list_lookup_insert_ne by done. rewrite !list_lookup_fmap. destruct (tables !! j) as [t'|] eqn:Ej; [|done]. simpl. f_equal.
      unfold flag. rewrite Lq, decide_False; [done|]. intros ->%list_elem_of_singleton. apply Hne. by eapply NoDup_lookup.
  - rewrite Cq. done.
Qed.

Lemma first_join_spec pl c : joins tables c → enable_nestedloop_join pl || enable_sortmerge_join pl = true →
  ∃ p st, first_join pl plans c no_joins = Ret (p, st) ∧ joined p st [c].
Proof using Hplans Hscan Hnodup Hempty.
  intros Hj He. pose proof (joins_tabs _ _ Hj) as [Hl Hr]. pose proof Hj as (Hv & Hne & _). unfold first_join.
  destruct (pop_scan_spec _ no_joins Hl) as (i & q & E & Hi & Hq & Eq). rewrite E.
  destruct (pop_scan_spec (tc_tab (rhs_col c)) (mkJoinState (<[i:=1]> (scantbl no_joins)) (joined_tables no_joins ++ [tc_tab (lhs_col c)])) Hr)
    as (j & q' & E' & Hj' & Hq' & Eq'). rewrite E'. rewrite <- Eq in Hi. rewrite <- Eq' in Hj'.
  destruct (scan_leaves q Hq) as (Pq & Lq & Sq & _ & Cq), (scan_leaves q' Hq') as (Pq' & Lq' & Sq' & _ & Cq').
  pose proof (joined_one q i Hq Hi) as J1.
  assert (plan_tab q' ∉ leaves q) as Hn by (rewrite Lq; intros ?%list_elem_of_singleton; congruence).
  assert (Forall (cond_typed (plan_tab q' :: leaves q)) [c]) as Hct.
  { constructor; [|constructor]. eapply joins_typed; [done|rewrite <- Eq, Lq; right; by left|rewrite <- Eq'; by left]. }
  pose proof (joined_scan q' _ _ _ [c] j J1 Hq' Hn Hj' Hct) as J2. rewrite Eq, Eq' in J2. cbn [scantbl joined_tables app] in J2 |- *.
  assert (∀ tag, joined (JoinPlan tag q q' [c] INNER_JOIN)
    (mkJoinState (<[j:=1]> (<[i:=1]> (replicate (length tables) (-1))))
       ((replicate (length tables) ""%string ++ [tc_tab (lhs_col c)]) ++ [tc_tab (rhs_col c)])) [c]) as J3.
  { intros tag. apply (joined_reshape _ _ _ _ J2).
    - constructor; [done|done| |].
      + rewrite Lq, Lq'. intros t ->%list_elem_of_singleton ?%list_elem_of_singleton. congruence.
      + constructor; [|constructor]. rewrite Lq, Lq'. eapply joins_typed; [done|rewrite <- Eq; by left|rewrite <- Eq'; right; by left].
    - simpl. rewrite Sq, Sq'. solve_Permutation.
    - simpl. by rewrite Cq, Cq'. }
  destruct (enable_nestedloop_join pl); [eexists _, _; split; [reflexivity|apply J3]|].
  destruct (enable_sortmerge_join pl); [eexists _, _; split; [reflexivity|apply J3]|done].
Qed.

(** The tables left are joined without a condition. *)
Lemma join_rest_spec ps fl p : placed p → (∀ q, q ∈ ps → q ∈ plans) → NoDup (plan_tab <$> ps) →
  fl = (λ q, flag p (plan_tab q)) <$> ps →
  placed (join_rest ps fl p) ∧ conds_equiv (join_conds (join_rest ps fl p)) (join_conds p) ∧
  scans (join_rest ps fl p) ≡ₚ scans p ++ filter (λ q, plan_tab q ∉ leaves p) ps.
Proof using Hscan.
  revert fl p. induction ps as [|q ps IH]; intros fl p Hp Hin Hn ->; rewrite ?fmap_cons in *; cbn [join_rest].
  { split_and!; [done|done|by rewrite app_nil_r]. }
  apply NoDup_cons in Hn as [Hq Hn]. destruct (scan_leaves q (Hin q ltac:(left))) as (Pq & Lq & Sq & _ & Cq).
  rewrite filter_cons. destruct (decide (plan_tab q ∈ leaves p)) as [Hqp|Hqp].
  - rewrite decide_False by tauto. assert (flag p (plan_tab q) = 1) as -> by (unfold flag; by rewrite decide_True). apply IH; try done. intros. apply Hin. by right.
  - rewrite decide_True by done. assert (flag p (plan_tab q) = -1) as -> by (unfold flag; by rewrite decide_False).
    change (-1 =? -1) with true. cbn iota.
    assert (placed (nest_loop q p [])) as Hp' by (constructor; try done; rewrite Lq; by intros t ->%list_elem_of_singleton).
    assert (∀ q', q' ∈ ps → plan_tab q' ∈ leaves (nest_loop q p []) ↔ plan_tab q' ∈ leaves p) as Hl.
    { intros q' Hq'. simpl. rewrite Lq, elem_of_app, list_elem_of_singleton. split; [intros [E|?]|by right]; [|done].
      exfalso. apply Hq. rewrite <- E. by apply list_elem_of_fmap_2. }
    destruct (IH ((λ q, flag p (plan_tab q)) <$> ps) (nest_loop q p []) Hp') as (H1 & H2 & H3).
    + intros. apply Hin. by right.
    + done.
    + apply list_fmap_ext. intros i q' Hi. unfold flag. apply decide_ext. symmetry. apply Hl. by eapply list_elem_of_lookup_2.
    + split_and!; [done|rewrite H2; simpl; rewrite Cq; simpl; by rewrite app_nil_r|]. rewrite H3.
      assert (filter (λ q', plan_tab q' ∉ leaves (nest_loop q p [])) ps = filter (λ q', plan_tab q' ∉ leaves p) ps) as ->; [|simpl; rewrite Sq; solve_Permutation].
      clear -Hl. induction ps as [|q' ps IH]; [done|]. rewrite !filter_cons, IH by (intros; apply Hl; by right).
      pose proof (Hl q' ltac:(left)). by repeat case_decide; try tauto.
Qed.

(** All tables are joined in the end. *)
Lemma join_all_spec p st done : joined p st done →
  let p' := join_rest plans (scantbl st) p in
  placed p' ∧ conds_equiv (join_conds p') done ∧ scans p' ≡ₚ plans.
Proof using Hplans Hscan Hnodup.
  intros [Jp [rest Js] Jt Jf Jc]. simpl. destruct (join_rest_spec plans (scantbl st) p) as (H1 & H2 & H3); [done|done|by rewrite Hplans| |].
  { rewrite Jf. unfold flags. rewrite <- Hplans. by rewrite <- list_fmap_compose. }
  split_and!; [done|by rewrite H2|]. rewrite H3.
  assert (filter (λ q, plan_tab q ∉ leaves p) plans ≡ₚ rest) as ->; [|done].
  rewrite <- Js, filter_app.
  assert (NoDup (plan_tab <$> (scans p ++ rest))) as Hn by (rewrite Js, Hplans; done). rewrite fmap_app, NoDup_app in Hn.
  destruct Hn as (_ & Hd & _). rewrite <- leaves_scans in Hd.
  assert (∀ l : list Plan, (∀ q, q ∈ l → plan_tab q ∈ leaves p) → filter (λ q, plan_tab q ∉ leaves p) l = []) as F1.
  { clear. induction l as [|q l IH]; intros Hl; [done|]. rewrite filter_cons_False; [|intros Hq; apply Hq, Hl; by left].
    apply IH. intros. apply Hl. by right. }
  assert (∀ l : list Plan, (∀ q, q ∈ l → plan_tab q ∉ leaves p) → filter (λ q, plan_tab q ∉ leaves p) l = l) as F2.
  { clear. induction l as [|q l IH]; intros Hl; [done|]. rewrite filter_cons_True by (apply Hl; by left). f_equal.
    apply IH. intros. apply Hl. by right. }
  rewrite F1, F2; [done| |].
  - intros q Hq Hin. apply (Hd _ Hin). by apply list_elem_of_fmap_2.
  - intros q Hq. rewrite leaves_scans. by apply list_elem_of_fmap_2.
Qed.

End Joins.

(* ------------------------------------------------------------------ *)
(** ** make_one_rel                                                     *)
(* ------------------------------------------------------------------ *)

(** The conditions of a query: typed over its tables; two columns of one table
    only if that is the first table, as pop_conds gives them to it. *)
Definition where_ok ts ts0 c : Prop :=
  cond_typed ts0 c ∧
  if is_rhs_val c then tc_tab (lhs_col c) ≠ tc_tab (rhs_col c)
  else tc_tab (lhs_col c) = tc_tab (rhs_col c) → head ts = Some (tc_tab (lhs_col c)).
Definition no_index t : Prop := ∀ tab, get_table db t = Ret tab → tm_indexes tab = [].

Lemma cond_typed_in ts ts' c : cond_typed ts c → tc_tab (lhs_col c) ∈ ts' → (is_rhs_val c = false → tc_tab (rhs_col c) ∈ ts') →
  cond_typed ts' c.
Proof.
  intros (m & [_ Hm] & Hc) Hl Hr. exists m. split; [by split|]. destruct (is_rhs_val c); [done|].
  destruct Hc as (m' & [_ Hm'] & ?). exists m'. split; [split; auto|done].
Qed.

Lemma scan_plan_spec t conds : known t → no_index t → Forall (cond_typed [t]) conds →
  ∃ cs n, scan_plan db t conds = Ret (ScanPlan T_SeqScan t cs conds n []).
Proof.
  intros Ht Hi Hc. pose proof (kn_table _ _ _ Ht) as [tab Htab].
  assert (get_table db t = Ret tab) as E by (unfold get_table; by rewrite Htab).
  pose proof (sh_len _ _ _ _ (kn_shape _ _ _ Ht)) as Hl. unfold tcols in Hl. rewrite E in Hl.
  unfold scan_plan, get_index_cols, new_ScanPlan. rewrite E. cbn [mbind outcome_bind]. rewrite (Hi tab E). simpl. rewrite Hl. by eexists _, _.
Qed.

Lemma solved_by_spec t c : solved_by t c = true ↔ (t = tc_tab (lhs_col c) ∧ is_rhs_val c = true) ∨ tc_tab (lhs_col c) = tc_tab (rhs_col c).
Proof. unfold solved_by. by rewrite orb_true_iff, andb_true_iff, !bool_decide_eq_true. Qed.

Lemma scan_plans_spec ts0 ts conds : Forall known ts → Forall no_index ts → Forall (where_ok ts ts0) conds →
  ∃ ps rest, scan_plans db ts conds = Ret (ps, rest) ∧ Forall (λ p, placed p ∧ scans p = [p]) ps ∧ plan_tab <$> ps = ts ∧
    concat (plan_conds <$> ps) ++ rest ≡ₚ conds ∧ (∀ c, c ∈ rest → c ∈ conds ∧ ∀ t, t ∈ ts → solved_by t c = false).
Proof.
  revert conds. induction ts as [|t ts IH]; intros conds Hk Hi Hc; cbn [scan_plans].
  { exists [], conds. split_and!; [done|done|done|done|]. intros c ?. split; [done|]. by intros t ?%elem_of_nil. }
  apply Forall_cons in Hk as [Ht Hk]. apply Forall_cons in Hi as [Hit Hi]. unfold pop_conds.
  set (curr := filter (λ c, solved_by t c = true) conds). set (left_ := filter (λ c, solved_by t c = false) conds). cbn iota beta.
  rewrite Forall_forall in Hc.
  assert (Forall (cond_typed [t]) curr) as Hcurr.
  { apply Forall_forall. intros c [Hs Hin]%list_elem_of_filter. destruct (Hc c Hin) as [Hty Hw].
    assert (tc_tab (lhs_col c) = t ∧ (is_rhs_val c = false → tc_tab (rhs_col c) = t)) as [E1 E2].
    { apply solved_by_spec in Hs. destruct (is_rhs_val c).
      - destruct Hs as [[-> _]|Hs]; [done|by destruct Hw].
      - destruct Hs as [[_ ?]|Hs]; [done|]. specialize (Hw Hs). injection Hw as ->. by rewrite <- Hs. }
    eapply cond_typed_in; [exact Hty|rewrite E1; by left|]. intros Hv. rewrite (E2 Hv). by left. }
  destruct (scan_plan_spec t curr Ht Hit Hcurr) as (cs & n & ->). cbn [mbind outcome_bind].
  destruct (IH left_) as (ps & rest & -> & Hps & Htabs & Hperm & Hrest); [done|done| |].
  { apply Forall_forall. intros c [Hs Hin]%list_elem_of_filter. destruct (Hc c Hin) as [Hty Hw]. split; [done|].
    assert (tc_tab (lhs_col c) ≠ tc_tab (rhs_col c)) as Hne.
    { intros E. apply not_true_iff_false in Hs. apply Hs, solved_by_spec. by right. }
    by destruct (is_rhs_val c). }
  cbn [mbind outcome_bind]. eexists _, rest. split; [done|]. split_and!.
  - constructor; [|done]. split; [by constructor|done].
  - by rewrite fmap_cons, Htabs.
  - rewrite fmap_cons. cbn [concat plan_conds]. rewrite <- app_assoc, Hperm. unfold curr, left_. clear.
    induction conds as [|c conds IH]; [done|]. destruct (solved_by t c) eqn:E.
    + rewrite filter_cons_True, filter_cons_False by congruence. simpl. by rewrite IH.
    + rewrite filter_cons_False, filter_cons_True by congruence. by rewrite <- Permutation_middle, IH.
  - intros c Hr. destruct (Hrest c Hr) as [Hin Hs]. apply list_elem_of_filter in Hin as [Hst Hin]. split; [done|].
    intros t' [->|Ht']%elem_of_cons; [done|by apply Hs].
Qed.

(** The tree scans every table of the query once and checks its conditions. *)
Lemma make_one_rel_spec pl q : let ts := q_tables q in
  Forall known ts → Forall no_index ts → NoDup ts → ts ≠ [] → ""%string ∉ ts → Forall (where_ok ts ts) (q_conds q) →
  enable_nestedloop_join pl || enable_sortmerge_join pl = true →
  ∃ p, make_one_rel db pl q = Ret p ∧ placed p ∧ leaves p ≡ₚ ts ∧ conds_equiv (plan_conds p) (q_conds q).
Proof.
  intros ts Hk Hi Hn Hne He Hc Hpl. destruct (scan_plans_spec ts ts (q_conds q) Hk Hi Hc) as (ps & rest & Es & Hps & Htabs & Hperm & Hrest).
  unfold make_one_rel. fold ts. rewrite Es. cbn [mbind outcome_bind].
  assert (Forall (joins ts) rest) as Hj.
  { rewrite Forall_forall in Hc. apply Forall_forall. intros c Hin. destruct (Hrest c Hin) as [Hin' Hs]. destruct (Hc c Hin') as [Hty Hw].
    pose proof Hty as (m & [Hm _] & _). specialize (Hs _ Hm). apply not_true_iff_false in Hs. rewrite solved_by_spec in Hs.
    split_and!; [|tauto|done]. apply not_true_iff_false. tauto. }
  assert (∀ p, placed p → scans p ≡ₚ ps → conds_equiv (join_conds p) rest →
    placed p ∧ leaves p ≡ₚ ts ∧ conds_equiv (plan_conds p) (q_conds q)) as Hfin.
  { intros p Hp Hs Hcp. split_and!; [done|by rewrite leaves_scans, Hs, Htabs|].
    intros a. rewrite (conds_hold_perm _ _ _ _ (plan_conds_scans p)), conds_hold_app, (Hcp a), <- conds_hold_app.
    apply conds_hold_perm. by rewrite Hs. }
  destruct ts as [|t ts'] eqn:Ets; [done|]. destruct ps as [|q0 ps']; [done|]. destruct (Nat.eqb_spec (length (t :: ts')) 1) as [H1|_].
  - destruct ts'; [|done]. destruct ps'; [|by destruct ps']. exists q0. split; [done|]. apply Forall_cons in Hps as [[Hp0 Hs0] _].
    destruct rest as [|c rest].
    + apply Hfin; [done|by rewrite Hs0|]. by destruct (scan_leaves [q0] ltac:(by constructor) q0 ltac:(by left)) as (_ & _ & _ & _ & ->).
    + exfalso. apply Forall_cons in Hj as [Hj _]. pose proof (joins_tabs _ _ Hj) as [?%list_elem_of_singleton ?%list_elem_of_singleton].
      destruct Hj as (_ & Hj & _). congruence.
  - rewrite <- Ets in *. destruct rest as [|c rest].
    + pose proof (joined_one ts (q0 :: ps') Htabs Hps Hn He q0 0%nat ltac:(by left)) as J. rewrite <- Htabs in J at 1.
      specialize (J eq_refl). apply (join_all_spec ts (q0 :: ps') Htabs Hps Hn) in J as (P1 & P2 & P3).
      eexists. split; [cbn [lookup list_lookup deref of_option mbind outcome_bind]; reflexivity|]. by apply Hfin.
    + apply Forall_cons in Hj as [Hjc Hj].
      destruct (first_join_spec ts (q0 :: ps') Htabs Hps Hn He pl c Hjc Hpl) as (p1 & st1 & E1 & J1). unfold no_joins in E1. rewrite E1.
      cbn [mbind outcome_bind]. destruct (next_joins_spec ts (q0 :: ps') Htabs Hps Hn rest p1 st1 [c] J1 Hj) as (p2 & st2 & E2 & J2). rewrite E2.
      apply (join_all_spec ts (q0 :: ps') Htabs Hps Hn) in J2 as (P1 & P2 & P3). eexists. split; [reflexivity|]. by apply Hfin.
Qed.

End PlannerSpec.

(** a JOIN b ON b.id = a.id, a.id >= 0 *)
Module PlannerWitness.
Definition col (t n : string) (ty : ColType) (off : Z) : ColMeta := mkColMeta t n ty 4 off false.
Definition db : DbMeta := mkDbMeta "db"
  {["a" := mkTabMeta "a" [col "a" "id" TYPE_INT 0] []; "b" := mkTabMeta "b" [col "b" "id" TYPE_INT 0; col "b" "f" TYPE_FLOAT 4] []]}.
Definition C : tables := {[("a", mkRid 1 0) := le_bytes 4 7; ("b", mkRid 1 2) := le_bytes 4 7 ++ le_bytes 4 0]}.
Definition conds : list Condition :=
  [mkCond (mkTabCol "b" "id") OP_EQ false (mkTabCol "a" "id") (mkValue (VInt 0) None);
   mkCond (mkTabCol "a" "id") OP_GE true (mkTabCol "" "") (mkValue (VInt 0) (Some (le_bytes 4 0)))].
Definition q : Query := mkQuery (SelectNode (mkSelect [] [] ["a"%string; "b"%string] [] [] (-1))) conds [] [] false ["a"%string; "b"%string] [] [].

Lemma known_tables : Forall (known C db) ["a"%string; "b"%string].
Proof.
  assert (∀ t r bs, C !! (t, r) = Some bs → (t = "a"%string ∧ length bs = 4%nat) ∨ (t = "b"%string ∧ length bs = 8%nat)) as HC.
  { unfold C. intros t r bs [[[= <- <-] <-]|[_ [[= <- <-] <-]%lookup_singleton_Some]]%lookup_insert_Some; [left|right]; by split. }
  apply Forall_cons; split; [|apply Forall_singleton]; split.
  1, 4: by eexists.
  1, 3: split; [reflexivity|vm_compute; congruence|unfold cols_in; apply (bool_decide_unpack _); vm_compute; exact I|].
  1, 2: intros r bs Hr; apply HC in Hr as [[Et Hl]|[Et Hl]]; try discriminate; by rewrite Hl.
  all: repeat constructor.
Qed.

Lemma conds_ok : Forall (where_ok db (q_tables q) (q_tables q)) (q_conds q).
Proof.
  assert (∀ t m, t ∈ q_tables q → find_col_meta (tcols db t) (mkTabCol t "id") = Ret m → col_typed db (q_tables q) (mkTabCol t "id") m) as Hid by by split.
  assert ("a"%string ∈ q_tables q ∧ "b"%string ∈ q_tables q) as [Ha Hb] by (split; [by left|by right; left]).
  repeat constructor; simpl; try done.
  - exists (col "b" "id" TYPE_INT 0). split; [by apply Hid|]. exists (col "a" "id" TYPE_INT 0). split; [by apply Hid|done].
  - exists (col "a" "id" TYPE_INT 0). split; [by apply Hid|]. exists (le_bytes 4 0). by split_and!.
Qed.

End PlannerWitness.
