(* ===== verification/AnalyzeSpec.v ===== *)
(** * Correctness of the semantic analysis

    The conditions and columns of an analyzed query name columns of its tables,
    and the values in conditions have the type and the width of the column they
    are compared with. *)

From S2P Require Import Prelude Defs Text Datetime SmMeta Values SmManager TableSpec Executor ExecutorSpec OperatorSpec Ast Analyze Planner TxnSpec RecoverySpec QuerySpec PlanSem PlannerSpec.

Section AnalyzeSpec.
Variables (C : tables) (db : DbMeta).
Abbreviation known := (known C db).
Abbreviation tcols := (tcols db).
Implicit Types (ts : list string) (t : string) (x : TabCol) (m : ColMeta).

(* ------------------------------------------------------------------ *)
(** ** Names                                                            *)
(* ------------------------------------------------------------------ *)

Lemma get_all_cols_spec ts all : get_all_cols db ts = Ret all → all = concat (tcols <$> ts).
Proof.
  unfold get_all_cols. intros E. apply out_bind_ret_inv in E as (cols & E & [= <-]). f_equal. revert cols E.
  induction ts as [|t ts IH]; intros cols E; cbn [map_out] in E; [by injection E as <-|].
  apply out_bind_ret_inv in E as (c & Ec & E). apply out_bind_ret_inv in E as (cs & E & [= <-]).
  apply out_bind_ret_inv in Ec as (tab & Et & [= <-]). rewrite fmap_cons, (IH cs E). unfold PlanSem.tcols. by rewrite Et.
Qed.

(** A name found among the columns of the tables is a column of its table. *)
Lemma find_in_all ts x m : Forall known ts → find_col_meta (concat (tcols <$> ts)) x = Ret m → col_typed db ts x m.
Proof.
  intros Hk. induction Hk as [|t ts Ht Hts IH]; intros E; [done|]. rewrite fmap_cons in E. cbn [concat] in E. rewrite find_col_app in E.
  destruct (decide (tc_tab x = t)) as [<-|Hne].
  - destruct (find_col_meta (tcols (tc_tab x)) x) as [m'|e] eqn:E'; [injection E as ->; split; [by left|done]|].
    destruct (IH E) as [_ E2]. congruence.
  - rewrite (find_col_other C db t x Ht Hne) in E. destruct (IH E) as [Hin E2]. split; [by right|done].
Qed.

Lemma infer_table_spec all col found t : infer_table all col found = Ret t →
  t = found ∨ ∃ m, m ∈ all ∧ cm_name m = col ∧ cm_tab_name m = t.
Proof.
  revert found. induction all as [|m all IH]; intros found E; cbn [infer_table] in E; [injection E as <-; by left|].
  case_bool_decide as Hn.
  - destruct (negb _); [done|]. destruct (IH _ E) as [->|(m' & ? & ? & ?)]; right; [exists m|exists m']; split_and!; try done; [by left|by right].
  - destruct (IH _ E) as [->|(m' & ? & ? & ?)]; [by left|right; exists m'; split_and!; try done; by right].
Qed.

Lemma find_col_in cols m : m ∈ cols → ∃ m', find_col_meta cols (mkTabCol (cm_tab_name m) (cm_name m)) = Ret m'.
Proof.
  unfold find_col_meta. induction cols as [|m0 cols IH]; [by intros ?%elem_of_nil|]. intros [<-|Hm]%elem_of_cons; cbn [find tc_tab tc_col].
  - rewrite !bool_decide_eq_true_2 by done. by exists m.
  - destruct (_ && _); [by eexists|auto].
Qed.

Lemma check_column_spec ts target x : Forall known ts → check_column (concat (tcols <$> ts)) target = Ret x →
  (∃ m, col_typed db ts x m) ∧ tc_col x = tc_col target.
Proof.
  intros Hk. unfold check_column. case_bool_decide as Ht; intros E.
  - apply out_bind_ret_inv in E as (t & Ei & E). case_bool_decide as He; [done|]. injection E as <-. split; [|done].
    apply infer_table_spec in Ei as [->|(m & Hm & <- & <-)]; [done|]. apply find_col_in in Hm as [m' Hm]. exists m'. by apply find_in_all.
  - apply out_bind_ret_inv in E as (m & Em & [= <-]). split; [|done]. exists m. by apply find_in_all.
Qed.

Lemma lookup_col_known x m m' : known (tc_tab x) → find_col_meta (tcols (tc_tab x)) x = Ret m → lookup_col db x = Ret m' → m' = m.
Proof.
  intros [_ _ Hk] Em El. unfold lookup_col in El. apply out_bind_ret_inv in El as (tab & Et & El).
  assert (tcols (tc_tab x) = tm_cols tab) as Ec by (unfold PlanSem.tcols; by rewrite Et). rewrite Ec in *. clear Ec Et.
  unfold get_col, find_col, find_col_meta in *. induction Hk as [|m0 cols [Hm0 _] _ IH]; [done|]. cbn [find] in *.
  rewrite (bool_decide_eq_true_2 (cm_tab_name m0 = tc_tab x)) in Em by done. cbn [andb] in Em.
  destruct (bool_decide (cm_name m0 = tc_col x)); [|auto]. simpl in *. congruence.
Qed.

(* ------------------------------------------------------------------ *)
(** ** Values                                                           *)
(* ------------------------------------------------------------------ *)

Lemma cast_value_type v (ty : ColType) v' : cast_value_to_type v ty = Ret v' → val_type v' = ty.
Proof.
  unfold cast_value_to_type. case_bool_decide as E1; [by intros [= <-]|]. case_bool_decide as E2.
  - destruct (val v); try done. intros E. by apply out_bind_ret_inv in E as (e & _ & [= <-]).
  - destruct (negb _); [done|]. intros E. apply out_bind_ret_inv in E as (n & _ & E).
    destruct ty; try done; try (by injection E as <-); destruct (_ || _); try done; by injection E as <-.
Qed.

Lemma init_raw_spec len v v' : 0 ≤ len → init_raw len v = Ret v' →
  val_type v' = val_type v ∧ ∃ bs, raw v' = Some bs ∧ length bs = Z.to_nat len.
Proof.
  intros Hl. unfold init_raw. destruct (raw v); [done|]. intros E. apply out_bind_ret_inv in E as (bs & E & [= <-]).
  split; [done|]. exists bs. split; [done|]. unfold encode_value in E. destruct (val v).
  - destruct (Z.eqb_spec len 4); [|done]. subst len. by injection E as <-.
  - destruct (Z.eqb_spec len 8); [|done]. subst len. by injection E as <-.
  - destruct (Z.eqb_spec len 4); [|done]. subst len. by injection E as <-.
  - destruct (Z.ltb_spec len (Z.of_nat (length str_val))); [done|]. injection E as <-. rewrite length_app, length_replicate. lia.
  - destruct (Z.eqb_spec len 8); [|done]. subst len. by injection E as <-.
Qed.

(* ------------------------------------------------------------------ *)
(** ** Conditions                                                       *)
(* ------------------------------------------------------------------ *)

(** What the analyzer ensures of a condition: as [cond_typed], but a DATETIME and
    a STRING column pass as well. *)
Definition cond_checked ts (c : Condition) : Prop :=
  ∃ m, col_typed db ts (lhs_col c) m ∧
  if is_rhs_val c then
    rhs_col c = no_col ∧
    ∃ bs, raw (rhs_val c) = Some bs ∧ val_type (rhs_val c) = cm_type m ∧ length bs = Z.to_nat (cm_len m)
  else ∃ m', col_typed db ts (rhs_col c) m' ∧ is_compatible_type (cm_type m) (cm_type m') = true.

Lemma check_cond_spec ts cond c : Forall known ts → (is_rhs_val cond = true → rhs_col cond = no_col) →
  check_cond db (concat (tcols <$> ts)) cond = Ret c → cond_checked ts c.
Proof.
  intros Hk Hv E. unfold check_cond in E. apply out_bind_ret_inv in E as (lhs & El & E). apply out_bind_ret_inv in E as (rhs & Er & E).
  apply check_column_spec in El as [[m Hm] _]; [|done]. apply out_bind_ret_inv in E as (m' & Em & E).
  assert (known (tc_tab lhs)) as Hkl by (rewrite Forall_forall in Hk; apply Hk, Hm).
  pose proof (lookup_col_known lhs m m' Hkl (proj2 Hm) Em) as ->. apply out_bind_ret_inv in E as ([v rt] & Ev & E).
  destruct (negb (is_compatible_type _ _)) eqn:Ec; [done|]. injection E as <-. apply negb_false_iff in Ec.
  exists m. split; [exact Hm|]. cbn [lhs_col is_rhs_val rhs_col rhs_val]. destruct (is_rhs_val cond).
  - injection Er as <-. split; [auto|]. apply out_bind_ret_inv in Ev as (v1 & E1 & Ev). apply out_bind_ret_inv in Ev as (v2 & E2 & [= <- <-]).
    assert (0 ≤ cm_len m) as Hl.
    { pose proof (sh_cols _ _ _ _ (kn_shape _ _ _ Hkl)) as Hc. unfold cols_in in Hc. rewrite Forall_forall in Hc.
      by apply Hc, (find_col_elem _ lhs), Hm. }
    apply init_raw_spec in E2 as (E2 & bs & Eb & Hb); [|done]. exists bs. split_and!; [done| |done]. rewrite E2. by eapply cast_value_type.
  - apply check_column_spec in Er as [[mr Hmr] _]; [|done]. apply out_bind_ret_inv in Ev as (m2 & E2 & [= <- <-]). exists mr.
    assert (known (tc_tab rhs)) as Hkr by (rewrite Forall_forall in Hk; apply Hk, Hmr).
    pose proof (lookup_col_known rhs mr m2 Hkr (proj2 Hmr) E2) as ->. done.
Qed.

Lemma map_out_forall {A B} (f : A → outcome B) (P : A → Prop) (Q : B → Prop) l l' :
  (∀ (u : A) (v : B), P u → f u = Ret v → Q v) → Forall P l → map_out f l = Ret l' → Forall Q l'.
Proof.
  intros Hf Hl. revert l'. induction Hl as [|u l Hu _ IH]; intros l' E; cbn [map_out] in E; [injection E as <-; constructor|].
  apply out_bind_ret_inv in E as (y & Ey & E). apply out_bind_ret_inv in E as (ys & Eys & [= <-]). constructor; eauto.
Qed.
Lemma map_out_length {A B} (f : A → outcome B) l l' : map_out f l = Ret l' → length l' = length l.
Proof.
  revert l'. induction l as [|x l IH]; intros l' E; cbn [map_out] in E; [by injection E as <-|].
  apply out_bind_ret_inv in E as (y & Ey & E). apply out_bind_ret_inv in E as (ys & Eys & [= <-]). simpl. f_equal. by apply IH.
Qed.

Lemma where_clause_spec ts sv conds : Forall known ts → where_clause db ts sv = Ret conds → Forall (cond_checked ts) conds.
Proof.
  intros Hk E. unfold where_clause, get_clause, check_clause in E. apply out_bind_ret_inv in E as (cs & Eg & E).
  apply out_bind_ret_inv in E as (all & Ea & E). apply get_all_cols_spec in Ea as ->.
  eapply (map_out_forall _ (λ c, is_rhs_val c = true → rhs_col c = no_col)); [|eapply (map_out_forall _ (λ _, True)); [|by apply Forall_true|exact Eg]|exact E].
  - intros c c' Hc E'. by eapply check_cond_spec.
  - intros e c _ E'. unfold get_clause1 in E'. destruct (be_rhs e); [apply out_bind_ret_inv in E' as (v' & _ & [= <-])|injection E' as <-]; done.
Qed.

(** A checked condition is typed unless it compares a DATETIME with a STRING
    column. *)
Definition mixed (a b : ColType) : bool :=
  (bool_decide (a = TYPE_DATETIME) && bool_decide (b = TYPE_STRING)) || (bool_decide (a = TYPE_STRING) && bool_decide (b = TYPE_DATETIME)).
Lemma compatible_comparable a b : is_compatible_type a b = comparable a b || mixed a b.
Proof. by destruct a, b. Qed.

Definition not_mixed (c : Condition) : Prop := is_rhs_val c = false →
  ∀ m m', find_col_meta (tcols (tc_tab (lhs_col c))) (lhs_col c) = Ret m → find_col_meta (tcols (tc_tab (rhs_col c))) (rhs_col c) = Ret m' →
  mixed (cm_type m) (cm_type m') = false.

Lemma checked_typed ts c : Forall known ts → cond_checked ts c → not_mixed c → cond_typed db ts c.
Proof.
  intros Hk (m & Hm & Hc) Hmix. exists m. split; [done|]. destruct (is_rhs_val c) eqn:Ev.
  - destruct Hc as (_ & bs & Eb & Et & Hl). exists bs. split_and!; [done|done|]. rewrite Forall_forall in Hk.
    pose proof (known_wide C db _ _ _ (Hk _ (proj1 Hm)) (proj2 Hm)) as Hw. rewrite Hl. unfold wide in *.
    destruct (cm_type m); try (rewrite Hw; done). lia.
  - destruct Hc as (m' & Hm' & Hcomp). exists m'. split; [done|]. rewrite compatible_comparable in Hcomp.
    rewrite (Hmix Ev m m' (proj2 Hm) (proj2 Hm')) in Hcomp. by rewrite orb_false_r in Hcomp.
Qed.


(** A condition between a DATETIME and a STRING column *)
Definition mixed_cond (c : Condition) : bool :=
  negb (is_rhs_val c) && mixed (col_value db ∅ (lhs_col c)).1.1 (col_value db ∅ (rhs_col c)).1.1.

Lemma checked_mixed ts c : Forall known ts → cond_checked ts c → mixed_cond c = true →
  ∀ u, ∃ l r, check_condition u (leaf_cols db ts) c = Throw (IncompatibleTypeError l r).
Proof.
  intros Hk (m & Hm & Hc) Hmix u. unfold mixed_cond in Hmix. apply andb_true_iff in Hmix as [Hv Hmix]. apply negb_true_iff in Hv. rewrite Hv in Hc.
  destruct Hc as (m' & Hm' & _). unfold col_value in Hmix. rewrite (proj2 Hm), (proj2 Hm') in Hmix. cbn [fst] in Hmix.
  destruct (find_leaf C db ts _ m Hk Hm) as (k & E & _), (find_leaf C db ts _ m' Hk Hm') as (k' & E' & _).
  unfold check_condition. rewrite E, Hv, E'. cbn [mbind outcome_bind cm_type shift_col with_offset].
  destruct (cm_type m), (cm_type m'); try done; by eexists _, _.
Qed.

Lemma unmixed ts c : cond_checked ts c → mixed_cond c = false → not_mixed c.
Proof.
  intros _ Hmix Hv m m' Em Em'. unfold mixed_cond, col_value in Hmix. by rewrite Hv, Em, Em' in Hmix.
Qed.

End AnalyzeSpec.

(** id >= 0 AND id <= t.id *)
Module AnalyzeWitness.
Import TxnWitness RecoveryWitness QueryWitness.
Definition sv : list BinaryExpr :=
  [mkBinary (mkAstCol "" "id") SV_OP_GE (ExprValue (IntLit 0)); mkBinary (mkAstCol "" "id") SV_OP_LE (ExprCol (mkAstCol "t" "id"))].

Lemma q_known : known C1 q_db "t".
Proof. split; [by eexists|exact q_shape|]. repeat constructor; simpl; lia. Qed.

End AnalyzeWitness.
