(* ===== verification/SelectSpec.v ===== *)
(** * SELECT from the statement to the printed lines

    The analyzer, the planner, the portal and the executors together: a SELECT
    prints the selected columns of the assignments of rows to its tables that
    satisfy its conditions, in the order it asks for, up to its limit. *)

From Stdlib Require Import Permutation.
From stdpp Require Import sorting.
From S2P Require Import Prelude Defs Text Datetime SmMeta Values Replacer Posix DiskManager BufferPool RmFile RmPage RmSpec RmManager Txn LockManager LogManager Printer SmManager TableSpec TxnManager Executor ExecutorSpec OperatorSpec ScanExec ScanSpec Ast Analyze Planner Portal Server TxnSpec RecoverySpec QuerySpec PlanSem PlannerSpec AnalyzeSpec.

Lemma Forall2_and_l {A B} (P : A → Prop) (Q : A → B → Prop) l k : Forall P l → Forall2 Q l k → Forall2 (λ x y, P x ∧ Q x y) l k.
Proof. intros Hl. induction 1; [constructor|]. apply Forall_cons in Hl as [? ?]. constructor; auto. Qed.

Section Fields.
Variables (C : tables) (db : DbMeta).
Implicit Types (ts : list string) (t : string) (x : TabCol) (m : ColMeta) (a b : asg).

(* ------------------------------------------------------------------ *)
(** ** Fields of a projection                                           *)
(* ------------------------------------------------------------------ *)

(** The text of a field *)
Definition field_text (ty : ColType) (n : Z) (bytes : list Z) : list Z := col_str bytes (mkColMeta "" "" ty n 0 false).

Lemma col_str_field record c : wide (cm_type c) (cm_len c) → col_str record c = field_text (cm_type c) (cm_len c) (field_of record c).
Proof.
  intros Hw. unfold field_text, col_str, field_of, read_at. cbn [cm_type cm_len cm_offset]. rewrite drop_0.
  unfold load_i32, load_i64, load_u32, le_int, le_uint. rewrite !drop_0.
  destruct (cm_type c); cbn [wide] in Hw; try (rewrite Hw; change (Z.to_nat 4) with 4%nat; change (Z.to_nat 8) with 8%nat); by rewrite take_take, ?Nat.min_id.
Qed.

Lemma get_col_idx_ret cols x m : find_col_meta cols x = Ret m → ∃ i, get_col_idx cols x = Ret i ∧ cols !! i = Some m.
Proof.
  intros E. destruct (get_col_idx cols x) as [i|e] eqn:Ei.
  - apply get_col_idx_spec in Ei as (c & Hi & E'). rewrite E in E'. injection E' as <-. by exists i.
  - exfalso. unfold get_col_idx in Ei. destruct (list_find _ cols) as [[i c]|] eqn:El; [done|]. apply list_find_None in El.
    unfold find_col_meta in E. destruct (find _ cols) as [c|] eqn:Ef; [|done]. apply find_some in Ef as [Hin Hc].
    rewrite Forall_forall in El. apply list_elem_of_In in Hin. apply (El c Hin). by rewrite andb_true_iff, !bool_decide_eq_true in Hc.
Qed.

(** A projection on columns that are there, and its fields. *)
Lemma proj_cols_ret cols off sel : Forall (λ x, ∃ m, find_col_meta cols x = Ret m) sel →
  ∃ idxs pcols plen, proj_cols cols off sel = Ret (idxs, pcols, plen).
Proof.
  intros Hs. revert off. induction Hs as [|x sel [m Hm] _ IH]; intros off; cbn [proj_cols]; [by eexists _, _, _|].
  destruct (get_col_idx_ret _ _ _ Hm) as (i & -> & Hi). cbn [mbind outcome_bind]. rewrite Hi. cbn [deref of_option mbind outcome_bind].
  destruct (IH (off + cm_len (with_offset off m))) as (idxs & pcols & plen & ->). by eexists _, _, _.
Qed.

Definition is_field cols (len off : Z) sel x (c : ColMeta) : Prop :=
  ∃ m, find_col_meta cols x = Ret m ∧ cm_type c = cm_type m ∧ cm_len c = cm_len m ∧
    ∀ pre u, length pre = Z.to_nat off → length u = Z.to_nat len → field_of (pre ++ project_row cols sel u) c = field_of u m.

Lemma proj_fields cols len off sel idxs pcols plen : cols_in len cols → 0 ≤ off → proj_cols cols off sel = Ret (idxs, pcols, plen) →
  Forall2 (is_field cols len off sel) sel pcols.
Proof.
  intros Hin. revert off idxs pcols plen. induction sel as [|x sel IH]; intros off idxs pcols plen Hoff E; cbn [proj_cols] in E.
  { injection E as _ <- _. constructor. }
  apply out_bind_ret_inv in E as (i & Hi & E). apply get_col_idx_spec in Hi as (m & Hi & Hm). rewrite Hi in E.
  cbn [deref of_option mbind outcome_bind] in E. apply out_bind_ret_inv in E as ([[idxs' cols'] plen'] & E & [= _ <- _]).
  cbn [cm_len with_offset] in E. pose proof (find_col_elem _ _ _ Hm) as Hc. pose proof Hin as Hin'. unfold cols_in in Hin'.
  rewrite Forall_forall in Hin'. destruct (Hin' m Hc) as (H1 & H2 & H3).
  assert (∀ u, named_field cols u x = field_of u m) as Hn by (intros u; unfold named_field; by rewrite Hm).
  assert (∀ u, project_row cols (x :: sel) u = field_of u m ++ project_row cols sel u) as Hr.
  { intros u. unfold project_row. cbn [fmap list_fmap concat]. by rewrite Hn. }
  constructor.
  - exists m. split_and!; [done..|]. intros pre u Hp Hu. rewrite Hr. pose proof (length_field len cols u m Hin Hu Hc) as Hl.
    unfold field_of at 1, read_at. cbn [cm_offset cm_len with_offset]. rewrite <- Hp, drop_app_length, <- Hl. by rewrite take_app_length.
  - eapply Forall2_impl; [apply (IH (off + cm_len m) idxs' cols' plen'); [lia|exact E]|]. intros y c (m' & Em' & Et & El & Hf). exists m'. split_and!; [done..|].
    intros pre u Hp Hu. rewrite Hr, app_assoc. apply Hf; [|done]. rewrite length_app, (length_field len cols u m Hin Hu Hc). lia.
Qed.

(* ------------------------------------------------------------------ *)
(** ** Lines and order of assignments                                   *)
(* ------------------------------------------------------------------ *)

(** The line of output.txt for an assignment *)
Definition asg_line (sel : list TabCol) a : list Z :=
  out_line ((λ x, let '(ty, n, bytes) := col_value db a x in field_text ty n bytes) <$> sel).

(** ORDER BY: the comparison of two assignments by the keys *)
Fixpoint asg_cmp (keys : list SortKey) a b : Z :=
  match keys with
  | [] => 0
  | k :: keys' =>
      let '(ty, n, u) := col_value db a (sk_col k) in
      let r := field_cmp ty n u (col_value db b (sk_col k)).2 in
      if r =? 0 then asg_cmp keys' a b else if is_desc k then - r else r
  end.
Definition key_ok a (k : SortKey) : Prop := let '(ty, n, u) := col_value db a (sk_col k) in not_nan ty u.

Definition sel_typed ts x : Prop := ∃ m, col_typed db ts x m.

Lemma sel_found ts x : Forall (known C db) ts → sel_typed ts x → ∃ m, find_col_meta (leaf_cols db ts) x = Ret m.
Proof. intros Hk [m Hm]. destruct (find_leaf C db ts x m Hk Hm) as (k & E & _). by eexists. Qed.

Lemma row_line_asg ts sel idxs pcols plen a : Forall (known C db) ts → cols_in (leaf_len db ts) (leaf_cols db ts) →
  Forall (sel_typed ts) sel → proj_cols (leaf_cols db ts) 0 sel = Ret (idxs, pcols, plen) → fits db ts a →
  length (flat ts a) = Z.to_nat (leaf_len db ts) →
  row_line pcols (project_row (leaf_cols db ts) sel (flat ts a)) = asg_line sel a.
Proof.
  intros Hk Hin Hs Hp Ha Hl. pose proof (proj_fields _ _ 0 sel idxs pcols plen Hin ltac:(done) Hp) as Hf.
  unfold row_line, asg_line. f_equal. set (u := flat ts a) in *. set (r := project_row (leaf_cols db ts) sel u).
  assert (Forall2 (λ x c, sel_typed ts x ∧ is_field (leaf_cols db ts) (leaf_len db ts) 0 sel x c) sel pcols) as Hf2.
  { by apply Forall2_and_l. }
  clear Hf. assert (∀ sel' pcols', Forall2 (λ x c, sel_typed ts x ∧ is_field (leaf_cols db ts) (leaf_len db ts) 0 sel x c) sel' pcols' →
    col_str r <$> pcols' = (λ x, let '(ty, n, bytes) := col_value db a x in field_text ty n bytes) <$> sel') as Hg; [|by apply Hg].
  induction 1 as [|x c sel' pcols' [[m Hm] (m1 & Em1 & Et & El & Hfield)] _ IH]; [done|]. rewrite !fmap_cons, IH. f_equal.
  destruct (find_leaf C db ts x m Hk Hm) as (k & E & _ & Hlf). rewrite E in Em1. injection Em1 as <-.
  specialize (Hfield [] u eq_refl Hl). cbn [app] in Hfield. fold r in Hfield.
  assert (known C db (tc_tab x)) as Hkx by (rewrite Forall_forall in Hk; apply Hk, Hm).
  rewrite col_str_field by (rewrite Et, El; exact (known_wide C db _ _ _ Hkx (proj2 Hm))).
  rewrite Et, El, Hfield. unfold u. rewrite (Hlf a Ha). unfold col_value. by rewrite (proj2 Hm).
Qed.

Lemma field_cmp_fields ty n u v : wide ty n → field_cmp ty n (take (Z.to_nat n) u) (take (Z.to_nat n) v) = field_cmp ty n u v.
Proof.
  intros Hw. pose proof (compare_raw_take u ty n v ty n Hw Hw) as E. rewrite !compare_raw_field in E. by injection E.
Qed.

Lemma row_cmp_flat ts keys kcs a b : Forall (known C db) ts → Forall (λ k, sel_typed ts (sk_col k)) keys →
  map_out (λ k, find_col_meta (leaf_cols db ts) (sk_col k)) keys = Ret kcs → fits db ts a → fits db ts b →
  row_cmp (zip keys kcs) (flat ts a) (flat ts b) = asg_cmp keys a b.
Proof.
  intros Hk Hs. revert kcs. induction Hs as [|k keys [m Hm] _ IH]; intros kcs E Ha Hb; cbn [map_out] in E; [by injection E as <-|].
  apply out_bind_ret_inv in E as (c & Ec & E). apply out_bind_ret_inv in E as (cs & Ecs & [= <-]).
  destruct (find_leaf C db ts _ m Hk Hm) as (i & E & _ & Hf). rewrite E in Ec. injection Ec as <-.
  assert (known C db (tc_tab (sk_col k))) as Hkx by (rewrite Forall_forall in Hk; apply Hk, Hm).
  pose proof (known_wide C db _ _ _ Hkx (proj2 Hm)) as Hw. cbn [zip zip_with row_cmp asg_cmp]. unfold col_value. rewrite (proj2 Hm).
  cbn [snd]. rewrite <- (field_cmp_fields _ _ (drop _ (flat ts a))) by exact Hw.
  change (take (Z.to_nat (cm_len (shift_col i m))) (drop (Z.to_nat (cm_offset (shift_col i m))) (flat ts a))) with (field_of (flat ts a) (shift_col i m)).
  change (take (Z.to_nat (cm_len (shift_col i m))) (drop (Z.to_nat (cm_offset (shift_col i m))) (flat ts b))) with (field_of (flat ts b) (shift_col i m)).
  rewrite !Hf by done. cbn [cm_type cm_len shift_col with_offset]. by rewrite IH.
Qed.

Lemma keys_ok_flat ts keys kcs a : Forall (known C db) ts → Forall (λ k, sel_typed ts (sk_col k)) keys →
  map_out (λ k, find_col_meta (leaf_cols db ts) (sk_col k)) keys = Ret kcs → fits db ts a → Forall (key_ok a) keys →
  keys_ok (zip keys kcs) (flat ts a).
Proof.
  intros Hk Hs. revert kcs. induction Hs as [|k keys [m Hm] _ IH]; intros kcs E Ha Hok; cbn [map_out] in E; [injection E as <-; constructor|].
  apply out_bind_ret_inv in E as (c & Ec & E). apply out_bind_ret_inv in E as (cs & Ecs & [= <-]).
  destruct (find_leaf C db ts _ m Hk Hm) as (i & E & _ & Hf). rewrite E in Ec. injection Ec as <-. apply Forall_cons in Hok as [Hok1 Hok].
  assert (known C db (tc_tab (sk_col k))) as Hkx by (rewrite Forall_forall in Hk; apply Hk, Hm).
  pose proof (known_wide C db _ _ _ Hkx (proj2 Hm)) as Hw. constructor; [|by apply IH]. unfold key_ok, col_value in Hok1. rewrite (proj2 Hm) in Hok1.
  cbn [snd]. intros Et. change (cm_type (shift_col i m)) with (cm_type m) in Et. specialize (Hok1 Et). rewrite <- (Hf a Ha) in Hok1.
  rewrite Et in Hw. simpl in Hw. unfold field_of, read_at in Hok1. cbn [cm_len shift_col with_offset] in Hok1. rewrite Hw in Hok1.
  unfold load_u32, le_uint in Hok1 |- *. rewrite !drop_0 in *. change (Z.to_nat 4) with 4%nat in Hok1. by rewrite take_take in Hok1.
Qed.

(** Sorting rows sorts the assignments they come from. *)
Lemma insert_row_map {A B} (f : A → B) (lt : B → B → bool) u l :
  insert_row lt (f u) (f <$> l) = f <$> insert_row (λ v w, lt (f v) (f w)) u l.
Proof. induction l as [|v l IH]; [done|]. rewrite fmap_cons. cbn [insert_row]. destruct (lt (f v) (f u)); [|done]. by rewrite fmap_cons, IH. Qed.
Lemma sort_rows_map {A B} (f : A → B) (lt : B → B → bool) l : sort_rows lt (f <$> l) = f <$> sort_rows (λ v w, lt (f v) (f w)) l.
Proof.
  induction l as [|u l IH]; [done|]. rewrite fmap_cons. unfold sort_rows in *. cbn [foldr]. by rewrite IH, insert_row_map.
Qed.
Lemma cut_limit_map {A B} (f : A → B) k (l : list A) : cut_limit k (f <$> l) = f <$> cut_limit k l.
Proof. unfold cut_limit. rewrite length_fmap. destruct (_ && _); [by rewrite fmap_take|done]. Qed.
Lemma sort_rows_nil (l : list row) : sort_rows (row_less []) l = l.
Proof. induction l as [|u l IH]; [done|]. simpl. rewrite IH. by destruct l. Qed.

End Fields.

(* ------------------------------------------------------------------ *)
(** ** Analysis of a SELECT without aggregates                          *)
(* ------------------------------------------------------------------ *)

Section Statement.
Variables (C : tables) (db : DbMeta).
Implicit Types (x : SelectStmt) (q : Query) (keys : list SortKey) (a b : asg).

(** Every table of the catalog has its records. *)
Definition catalog : Prop := ∀ t, is_Some (db_tabs db !! t) → known C db t.

(** The keys of ORDER BY *)
Definition order_keys x : outcome (list SortKey) :=
  all_cols ← get_all_cols db (sel_tabs x);
  map_out (λ o, c ← resolve_order_col all_cols (ob_col o);
                Ret (mkSortKey c (bool_decide (orderby_dir o = OrderBy_DESC)))) (sel_orders x).

(** A SELECT that analysis accepts: no aggregates, different tables without
    indexes, no DATETIME compared with a STRING, two columns of one table
    compared for the first table only, and columns to sort by that exist. *)
Record plain x q keys : Prop := {
  pl_query : do_analyze db (SelectNode x) = Ret q;
  pl_aggs : sel_aggs x = [];
  pl_tabs : sel_tabs x ≠ [] ∧ NoDup (sel_tabs x) ∧ ""%string ∉ sel_tabs x;
  pl_index : Forall (no_index db) (sel_tabs x);
  pl_conds : Forall (λ c, not_mixed db c ∧ (is_rhs_val c = false → tc_tab (lhs_col c) = tc_tab (rhs_col c) →
    head (sel_tabs x) = Some (tc_tab (lhs_col c)))) (q_conds q);
  pl_keys : order_keys x = Ret keys;
  pl_key_cols : Forall (λ k, sel_typed db (sel_tabs x) (sk_col k)) keys
}.

Lemma map_out_all {A B} (f : A → outcome B) l l' : map_out f l = Ret l' → Forall (λ u, ∃ v, f u = Ret v) l.
Proof.
  revert l'. induction l as [|u l IH]; intros l' E; [constructor|]. cbn [map_out] in E.
  apply out_bind_ret_inv in E as (v & Ev & E). apply out_bind_ret_inv in E as (vs & Evs & _). constructor; eauto.
Qed.

Lemma analyzed_known ts l : catalog → map_out (get_table db) ts = Ret l → Forall (known C db) ts.
Proof.
  intros Hcat E. eapply Forall_impl; [by eapply map_out_all|]. intros t [tab Et]. apply Hcat. unfold get_table in Et.
  destruct (db_tabs db !! t); [by eexists|done].
Qed.

Lemma all_cols_typed ts : Forall (known C db) ts →
  Forall (sel_typed db ts) (map (λ c, mkTabCol (cm_tab_name c) (cm_name c)) (concat (tcols db <$> ts))).
Proof.
  intros Hk. apply Forall_map, Forall_forall. intros m Hm. destruct (find_col_in _ _ Hm) as [m' E]. exists m'. by eapply find_in_all.
Qed.

Lemma select_list_spec ts x cols aggs : Forall (known C db) ts → sel_aggs x = [] →
  select_list db (concat (tcols db <$> ts)) x = Ret (cols, aggs) → Forall (sel_typed db ts) cols.
Proof.
  intros Hk Ha E. unfold select_list, sel_has_aggregate in E. rewrite Ha in E. cbn [negb] in E.
  apply out_bind_ret_inv in E as (cols' & E & [= <- _]). destruct (sel_cols x) as [|c l]; [injection E as <-; by apply all_cols_typed|].
  eapply (map_out_forall _ (λ _, True)); [|by apply Forall_true|exact E]. intros u v _ Ev. by apply (check_column_spec C) in Ev as [[m Hm] _]; [exists m|].
Qed.

Lemma analyze_select_spec x q : catalog → do_analyze db (SelectNode x) = Ret q → sel_aggs x = [] →
  Forall (known C db) (sel_tabs x) ∧ q_parse q = SelectNode x ∧ q_tables q = sel_tabs x ∧ q_has_aggregate q = false ∧
  Forall (cond_checked db (sel_tabs x)) (q_conds q) ∧ Forall (sel_typed db (sel_tabs x)) (q_cols q) ∧
  get_all_cols db (sel_tabs x) = Ret (concat (tcols db <$> sel_tabs x)).
Proof.
  intros Hcat E Ha. cbn [do_analyze] in E. unfold analyze_select in E. apply out_bind_ret_inv in E as (l & El & E).
  pose proof (analyzed_known _ _ Hcat El) as Hk. apply out_bind_ret_inv in E as (all & Eall & E).
  pose proof (get_all_cols_spec _ _ _ Eall) as ->. apply out_bind_ret_inv in E as ([cols aggs] & Es & E).
  apply out_bind_ret_inv in E as (conds & Ec & [= <-]). cbn [q_parse q_tables q_has_aggregate q_conds q_cols].
  split_and!; [done|done|done|unfold sel_has_aggregate; by rewrite Ha| | |exact Eall].
  - by apply (where_clause_spec C) in Ec.
  - by eapply select_list_spec.
Qed.

Lemma plain_where x q keys : catalog → plain x q keys → Forall (where_ok db (sel_tabs x) (sel_tabs x)) (q_conds q).
Proof.
  intros Hcat []. destruct (analyze_select_spec x q Hcat) as (Hk & _ & _ & _ & Hc & _); [done..|]. destruct pl_tabs0 as (_ & _ & He).
  rewrite Forall_forall in Hc, pl_conds0. apply Forall_forall. intros c Hin. destruct (pl_conds0 c Hin) as [Hm Hh]. specialize (Hc c Hin).
  split; [by apply (checked_typed C)|]. destruct (is_rhs_val c) eqn:Ev; [|by apply Hh]. destruct Hc as (m & [Hl _] & Hc). rewrite Ev in Hc.
  destruct Hc as [-> _]. cbn [tc_tab no_col]. by intros E; rewrite E in Hl.
Qed.

(* ------------------------------------------------------------------ *)
(** ** The plan and its rows                                            *)
(* ------------------------------------------------------------------ *)

Lemma key_cols_found ts keys : Forall (known C db) ts → Forall (λ k, sel_typed db ts (sk_col k)) keys →
  ∃ kcs, map_out (λ k, find_col_meta (leaf_cols db ts) (sk_col k)) keys = Ret kcs.
Proof.
  intros Hk Hs. induction Hs as [|k keys Hs _ [kcs IH]]; [by eexists|]. destruct (sel_found C db ts _ Hk Hs) as [m Em].
  cbn [map_out]. rewrite Em. cbn [mbind outcome_bind]. rewrite IH. by eexists.
Qed.

Lemma sel_typed_perm ts ts' y : ts ≡ₚ ts' → sel_typed db ts y → sel_typed db ts' y.
Proof. intros Hp [m [Hin Hm]]. exists m. split; [by rewrite <- Hp|done]. Qed.

(** The assignments in the order asked for *)
Definition ordered x q keys (l : list asg) : Prop :=
  l ≡ₚ filter (λ a, conds_hold db a (q_conds q) = true) (prod C (sel_tabs x)) ∧
  (Forall (λ a, Forall (key_ok db a) keys) l → StronglySorted (λ a b, asg_cmp db keys a b ≤ 0) l).

Lemma sort_layout ts keys kcs (rows : list row) (L : list asg) lim : Forall (known C db) ts → Forall (λ k, sel_typed db ts (sk_col k)) keys →
  map_out (λ k, find_col_meta (leaf_cols db ts) (sk_col k)) keys = Ret kcs → (∀ a, a ∈ L → fits db ts a) → rows ≡ₚ flat ts <$> L →
  ∃ l, l ≡ₚ L ∧ sorted_rows rows keys kcs lim = flat ts <$> cut_limit lim l ∧
    (Forall (λ a, Forall (key_ok db a) keys) l → StronglySorted (λ a b, asg_cmp db keys a b ≤ 0) l).
Proof.
  intros Hk Hs Ek Hfit Hp. apply Permutation_map_inv in Hp as (l0 & -> & Hp).
  assert (∀ a, a ∈ l0 → fits db ts a) as Hfit0 by (intros a Ha; apply Hfit; by rewrite Hp).
  set (lt := row_less (zip keys kcs)). exists (sort_rows (λ u v, lt (flat ts u) (flat ts v)) l0). split_and!.
  - by rewrite sort_rows_perm.
  - unfold sorted_rows. change (map (flat ts) l0) with (flat ts <$> l0). rewrite <- cut_limit_map, <- sort_rows_map. fold lt. f_equal.
    case_bool_decide as E; [|done]. subst keys. injection Ek as <-. by rewrite sort_rows_nil.
  - intros Hok. rewrite sort_rows_perm in Hok.
    assert (weak_order (λ a, fits db ts a ∧ Forall (key_ok db a) keys) (λ u v, lt (flat ts u) (flat ts v))) as Hwo.
    { pose proof (row_less_weak (zip keys kcs)) as [Ha Ht]. split; [intros a b; apply Ha|]. intros a b c [F1 K1] [F2 K2] [F3 K3].
      apply Ht; by eapply keys_ok_flat. }
    pose proof (sort_rows_sorted _ _ Hwo l0) as Hsort. specialize (Hsort ltac:(rewrite Forall_forall in Hok |- *; auto)).
    assert (∀ a, a ∈ sort_rows (λ u v, lt (flat ts u) (flat ts v)) l0 → fits db ts a) as Hf by (intros a; rewrite sort_rows_perm; auto).
    revert Hf Hsort. generalize (sort_rows (λ u v, lt (flat ts u) (flat ts v)) l0). clear -Hk Hs Ek. intros l Hf Hsort.
    induction Hsort as [|a l _ IH Ha]; constructor; [by apply IH; intros; apply Hf; right|].
    rewrite Forall_forall in Ha |- *. intros b Hb. specialize (Ha b Hb). unfold not_after, lt in Ha.
    rewrite row_less_cmp, row_cmp_antisym, (row_cmp_flat C db ts keys kcs a b) in Ha by (done || apply Hf; by left || by right).
    apply Z.ltb_ge in Ha. lia.
Qed.
End Statement.

Section Sql.
Context {R OS : Type} `{ReplacerLaws R, PosixLaws OS}.
Variables (buffer_size : Z) (exact : bool) (C : tables).
Abbreviation session := (Session R OS).
Implicit Types (s : session) (x : SelectStmt) (q : Query) (keys : list SortKey).

(** The plan of a SELECT: its rows are the ordered assignments, projected. *)
Lemma select_plan_rows db pl x q keys : catalog C db → plain db x q keys → enable_nestedloop_join pl || enable_sortmerge_join pl = true →
  ∃ p cols len rows n l, plan_query db pl q = Ret (DMLPlan T_select p "" [] [] []) ∧ denotes C db p cols len rows n ∧
    select_cols p = Some (q_cols q) ∧ ordered C db x q keys l ∧
    concat (row_line cols <$> rows) = concat (asg_line db (q_cols q) <$> cut_limit (sel_limit x) l).
Proof using.
  intros Hcat Hp Hpl. pose proof (plain_where _ _ _ _ _ Hcat Hp) as Hw. destruct Hp as [Hq Ha (Hne & Hnd & Hem) Hidx _ Hkeys Hkc].
  destruct (analyze_select_spec C db x q Hcat Hq Ha) as (Hk & Eparse & Et & Eagg & Hc & Hsel & Eall).
  destruct (make_one_rel_spec C db pl q) as (p & Ep & Hpl' & Hlv & Hcv); rewrite ?Et; [done..|]. rewrite Et in Hlv.
  destruct (placed_denotes C db p Hpl') as (rows & n & Hd & Hr). set (ts := leaves p) in *.
  assert (Forall (known C db) ts) as Hkt by by apply placed_known.
  assert (Forall (λ k, sel_typed db ts (sk_col k)) keys) as Hkc' by (eapply Forall_impl; [exact Hkc|intros k; apply sel_typed_perm; by symmetry]).
  assert (Forall (sel_typed db ts) (q_cols q)) as Hsel' by (eapply Forall_impl; [exact Hsel|intros k; apply sel_typed_perm; by symmetry]).
  destruct (key_cols_found C db ts keys Hkt Hkc') as [kcs Ekc].
  destruct (sort_layout C db ts keys kcs rows (sem C db p) (sel_limit x)) as (l & Hl & El & Hsorted); [done|done|done| |done|].
  { intros a Hin. by apply (sem_total C db p a Hpl'). }
  assert (ordered C db x q keys l) as Hord.
  { split; [|exact Hsorted]. rewrite Hl, (sem_prod C db p Hpl'). fold ts. rewrite (prod_perm C db ts (sel_tabs x)); [|done| |done].
    - apply list_filter_iff || erewrite list_filter_iff; [reflexivity|]. intros a. by rewrite (Hcv a).
    - rewrite Hlv. done. }
  destruct (denotes_shape _ _ _ _ _ _ _ Hd) as [Hlen Hin].
  assert (∃ p1 n1, generate_sort_plan db x q p = Ret p1 ∧ denotes C db p1 (leaf_cols db ts) (leaf_len db ts) (flat ts <$> cut_limit (sel_limit x) l) n1)
    as (p1 & n1 & E1 & Hd1).
  { unfold generate_sort_plan. rewrite Et, Eall. unfold order_keys in Hkeys. rewrite Eall in Hkeys. rewrite <- El.
    cbn [mbind outcome_bind] in Hkeys |- *. destruct (negb (sel_has_sort x) && negb (sel_has_limit x)) eqn:Es.
    - apply andb_true_iff in Es as [Eo Elim]. exists p, n. split; [done|]. unfold sel_has_sort in Eo. destruct (sel_orders x); [|done].
      injection Hkeys as <-. injection Ekc as <-. unfold sorted_rows. rewrite bool_decide_eq_true_2 by done.
      unfold sel_has_limit in Elim. unfold cut_limit. destruct (Z.leb_spec 0 (sel_limit x)); [done|]. exact Hd.
    - rewrite Hkeys. cbn [mbind outcome_bind]. eexists _, _. split; [done|]. by apply den_sort. }
  destruct (proj_cols_ret (leaf_cols db ts) 0 (q_cols q)) as (idxs & pcols & plen & Epc).
  { eapply Forall_impl; [exact Hsel'|]. intros y. by apply (sel_found C). }
  exists (ProjectionPlan T_Projection p1 (q_cols q)), pcols, plen, (project_row (leaf_cols db ts) (q_cols q) <$> (flat ts <$> cut_limit (sel_limit x) l)), n1, l.
  split_and!; [|by eapply den_project|done|done|].
  - unfold plan_query, do_planner, generate_select_plan, physical_optimization. rewrite Eparse, Ep. cbn [mbind outcome_bind].
    rewrite E1, Eagg. done.
  - f_equal. rewrite <- !list_fmap_compose. apply list_fmap_ext. intros i a Hi. simpl. apply list_elem_of_lookup_2 in Hi.
    assert (fits db ts a) as Hfit.
    { destruct (cut_limit_sub (sel_limit x) l) as [l' El']. apply (sem_total C db p a Hpl'). rewrite <- Hl, El'. apply elem_of_app. by left. }
    eapply (row_line_asg C); try done. clear -Hfit Hkt. unfold flat, leaf_len. induction ts as [|t ts IH]; [done|]. cbn [fmap list_fmap concat foldr].
    apply Forall_cons in Hkt as [Ht Hkt]. rewrite length_app, IH by (done || intros ? ?; apply Hfit; by right). rewrite (Hfit t) by by left.
    pose proof (sh_pos _ _ _ _ (kn_shape _ _ _ Ht)). assert (0 ≤ foldr (λ t n, tlen db t + n) 0 ts); [|lia]. clear -Hkt.
    induction Hkt as [|t ts [_ [_ ? _ _] _] _ IH]; simpl; lia.
Qed.

End Sql.

(** SELECT name, id FROM t WHERE id >= 0 AND id <= t.id ORDER BY id DESC LIMIT 3 *)
Module SelectWitness.
Import RmWitness TxnWitness RecoveryWitness QueryWitness AnalyzeWitness.

Definition x : SelectStmt :=
  mkSelect [mkAstCol "" "name"; mkAstCol "t" "id"] [] ["t"%string]
    [mkBinary (mkAstCol "" "id") SV_OP_GE (ExprValue (IntLit 0)); mkBinary (mkAstCol "" "id") SV_OP_LE (ExprCol (mkAstCol "t" "id"))]
    [mkOrderBy (mkAstCol "" "id") OrderBy_DESC] 3.
Definition q : Query := match do_analyze q_db (SelectNode x) with Ret q => q | Throw _ => mkQuery (SelectNode x) [] [] [] false [] [] [] end.
Definition keys : list SortKey := [mkSortKey (mkTabCol "t" "id") true].

Lemma q_catalog : catalog C1 q_db.
Proof.
  intros t [tab Et]. assert (t = "t"%string) as ->; [|exact q_known]. unfold q_db in Et. cbn [db_tabs] in Et.
  destruct (decide (t = "t"%string)) as [|Hne]; [done|]. by rewrite lookup_singleton_ne in Et.
Qed.
Lemma x_plain : plain q_db x q keys.
Proof.
  split.
  - vm_compute. reflexivity.
  - reflexivity.
  - split_and!; [done|apply NoDup_singleton|by intros E%list_elem_of_singleton].
  - repeat constructor. by intros tab [= <-].
  - assert (∀ c, c ∈ q_conds q → not_mixed q_db c) as Hm.
    { intros c Hc. assert (lhs_col c = mkTabCol "t" "id" ∧ (is_rhs_val c = false → rhs_col c = mkTabCol "t" "id")) as [El Er].
      { revert Hc. vm_compute q_conds. rewrite !elem_of_cons, elem_of_nil. by intros [->|[->|[]]]. }
      intros Ev m m'. rewrite El, (Er Ev). intros -> [= <-]. by destruct (cm_type m). }
    apply Forall_forall. intros c Hc. split; [by apply Hm|]. intros _ _. revert Hc. vm_compute q_conds. rewrite !elem_of_cons, elem_of_nil.
    by intros [->|[->|[]]].
  - vm_compute. reflexivity.
  - repeat constructor. exists id_col. split; [by apply list_elem_of_singleton|reflexivity].
Qed.

Definition a1 : asg := {["t" := default [] (C1 !! ("t"%string, mkRid 1 0))]}.


End SelectWitness.
