(* ===== verification/DmlSpec.v ===== *)
(** * The executors of data changes, on tables without indexes

    What a record of a table becomes when values are written into its columns,
    and what the executors of [Dml] do to the tables, to the log and to the
    write set of a running transaction. *)

From S2P Require Import Prelude Defs SmMeta Values Replacer Posix DiskManager BufferPool RmFile RmPage RmSpec RmManager SmManager TableSpec Printer Txn LockManager LogRecord LogManager TxnManager Executor ExecutorSpec OperatorSpec ScanExec ScanSpec Dml Ast Analyze Planner Portal Server TxnSpec RecoverySpec QuerySpec PlanSem PlannerSpec AnalyzeSpec.

(* ------------------------------------------------------------------ *)
(** ** Fields of a record                                               *)
(* ------------------------------------------------------------------ *)

(** The characters of a value are bytes. *)
Definition val_bytes (v : Value) : Prop := match val v with VStr s => Forall is_byte s | _ => True end.

(** The bytes of a value in a column *)
Definition field_bytes (v : Value) (col : ColMeta) : outcome (list Z) :=
  v ← cast_value_to_col_type v col; v ← init_raw (cm_len col) v; bs ← deref (raw v); Ret (take (Z.to_nat (cm_len col)) bs).
Definition put_field (record : list Z) (u : ColMeta * list Z) : list Z := splice (Z.to_nat (cm_offset u.1)) u.2 record.

Lemma write_value_eq v col record : write_value v col record =
  match field_bytes v col with Ret bs => Ret (put_field record (col, bs)) | Throw e => Throw e end.
Proof.
  unfold write_value, field_bytes. destruct (cast_value_to_col_type v col) as [v1|e]; [|done]. cbn [mbind outcome_bind].
  destruct (init_raw (cm_len col) v1) as [v2|e]; [|done]. cbn [mbind outcome_bind]. by destruct (raw v2).
Qed.

(** INSERT: every value in its column; UPDATE: every SET clause in its column.  What
    is written, and whether it can be, does not depend on the record. *)
Fixpoint row_fields (values : list Value) (cols : list ColMeta) : outcome (list (ColMeta * list Z)) :=
  match values, cols with
  | [], _ => Ret []
  | v :: values', col :: cols' => bs ← field_bytes v col; us ← row_fields values' cols'; Ret ((col, bs) :: us)
  | _, [] => Throw OutOfRange
  end.
Definition set_fields (tab : TabMeta) (sets : list SetClause) : outcome (list (ColMeta * list Z)) :=
  map_out (λ sc, col ← get_col tab (tc_col (sc_lhs sc)); bs ← field_bytes (sc_rhs sc) col; Ret (col, bs)) sets.
Definition put_fields (us : list (ColMeta * list Z)) (record : list Z) : list Z := fold_left put_field us record.

Lemma write_values_eq values cols record : write_values values cols record =
  match row_fields values cols with Ret us => Ret (put_fields us record) | Throw e => Throw e end.
Proof.
  revert cols record. induction values as [|v values IH]; intros [|col cols] record; try done. cbn [write_values row_fields].
  rewrite write_value_eq. destruct (field_bytes v col) as [bs|e]; [|done]. cbn [mbind outcome_bind]. rewrite IH. by destruct (row_fields values cols).
Qed.
Lemma apply_sets_eq tab sets record : apply_sets tab sets record =
  match set_fields tab sets with Ret us => Ret (put_fields us record) | Throw e => Throw e end.
Proof.
  revert record. induction sets as [|sc sets IH]; intros record; [done|]. unfold set_fields in *. cbn [apply_sets map_out].
  destruct (get_col tab _) as [col|e]; [|done]. cbn [mbind outcome_bind]. rewrite write_value_eq.
  destruct (field_bytes _ col) as [bs|e]; [|done]. cbn [mbind outcome_bind]. rewrite IH. by destruct (map_out _ sets).
Qed.

(** A field that lies in rows of [n] bytes *)
Definition field_ok (n : Z) (u : ColMeta * list Z) : Prop :=
  0 ≤ cm_offset u.1 ∧ Z.of_nat (length u.2) = cm_len u.1 ∧ cm_offset u.1 + cm_len u.1 ≤ n ∧ Forall is_byte u.2.

Lemma cast_bytes v col v' : cast_value_to_col_type v col = Ret v' → val_bytes v → val_bytes v' ∧ raw v' = raw v.
Proof.
  unfold cast_value_to_col_type, val_bytes. intros E Hv. case_bool_decide; [by injection E as <-|]. case_bool_decide.
  { destruct (val v); try done. apply out_bind_ret_inv in E as (z & _ & [= <-]). done. }
  destruct (_ || _); [done|]. apply out_bind_ret_inv in E as (z & _ & E).
  destruct (cm_type col); try done; try (destruct (_ || _); [done|]); injection E as <-; done.
Qed.

Lemma encode_bytes v n bs : 0 ≤ n → encode_value v n = Ret bs → match v with VStr s => Forall is_byte s | _ => True end →
  Z.of_nat (length bs) = n ∧ Forall is_byte bs.
Proof.
  assert (∀ k z, n = Z.of_nat k → Ret (le_bytes k z) = Ret bs → Z.of_nat (length bs) = n ∧ Forall is_byte bs) as Hle.
  { intros k z -> E. assert (bs = le_bytes k z) as -> by congruence. rewrite length_le_bytes. split; [lia|apply le_bytes_byte]. }
  intros Hn E Hv. destruct v as [z|z|z|s|z]; cbn [encode_value] in E; try (destruct (Z.eqb_spec n 4); [|done]); try (destruct (Z.eqb_spec n 8); [|done]);
    try (eapply Hle; [|exact E]; lia).
  destruct (Z.ltb_spec n (Z.of_nat (length s))); [done|]. injection E as <-. rewrite length_app, length_replicate. split; [lia|].
  apply Forall_app. split; [done|]. by apply Forall_replicate.
Qed.

Lemma field_bytes_ok v col n bs : 0 ≤ cm_offset col → 0 ≤ cm_len col → cm_offset col + cm_len col ≤ n → val_bytes v →
  field_bytes v col = Ret bs → field_ok n (col, bs).
Proof.
  intros Ho Hl Hn Hv E. unfold field_bytes in E. apply out_bind_ret_inv in E as (v1 & E1 & E). apply cast_bytes in E1 as [Hv1 _]; [|done].
  apply out_bind_ret_inv in E as (v2 & E2 & E). unfold init_raw in E2. destruct (raw v1); [done|].
  apply out_bind_ret_inv in E2 as (bs2 & E2 & [= <-]). apply encode_bytes in E2 as [Hlb Hby]; [|done|exact Hv1].
  injection E as <-. unfold field_ok. simpl. rewrite take_ge by lia. done.
Qed.

Lemma put_fields_ok n us record : Forall (field_ok n) us → Z.of_nat (length record) = n → Forall is_byte record →
  length (put_fields us record) = length record ∧ Forall is_byte (put_fields us record).
Proof.
  intros Hu. revert record. induction Hu as [|u us (Ho & Hl & Hn & Hb) _ IH]; intros record Hr Hby; [done|].
  assert (length (put_field record u) = length record) as El by (apply length_splice; lia).
  destruct (IH (put_field record u)) as [H1 H2]; [by rewrite El|by apply splice_bytes|]. cbn [put_fields fold_left]. split; [|exact H2].
  unfold put_fields in H1. by rewrite H1.
Qed.

Lemma row_fields_ok n values cols us : cols_in n cols → Forall val_bytes values → row_fields values cols = Ret us → Forall (field_ok n) us.
Proof.
  intros Hc Hv. revert cols us Hc. induction Hv as [|v values Hv _ IH]; intros cols us Hc E; [injection E as <-; constructor|].
  destruct cols as [|col cols]; [done|]. cbn [row_fields] in E. apply out_bind_ret_inv in E as (bs & Eb & E).
  apply out_bind_ret_inv in E as (us' & Eu & [= <-]). apply Forall_cons in Hc as [(? & ? & ?) Hc]. constructor; [by eapply field_bytes_ok|by eapply IH].
Qed.

Lemma set_fields_ok n tab sets us : cols_in n (tm_cols tab) → Forall (λ sc, val_bytes (sc_rhs sc)) sets → set_fields tab sets = Ret us →
  Forall (field_ok n) us.
Proof.
  intros Hc Hv E. eapply (map_out_forall _ (λ sc, val_bytes (sc_rhs sc))); [|exact Hv|exact E]. clear E. intros sc u Hs E.
  apply out_bind_ret_inv in E as (col & Ec & E).
  apply out_bind_ret_inv in E as (bs & Eb & [= <-]). unfold cols_in in Hc. rewrite Forall_forall in Hc.
  destruct (Hc col) as (? & ? & ?); [|by eapply field_bytes_ok]. unfold get_col, find_col in Ec. destruct (find _ _) as [c|] eqn:Ef; [|done].
  injection Ec as <-. apply find_some in Ef as [Hin _]. by apply list_elem_of_In.
Qed.

(* ------------------------------------------------------------------ *)
(** ** A running transaction                                            *)
(* ------------------------------------------------------------------ *)

(** How the log manager counts *)
Lemma write_buffer_lsn `{LogDisk D} (lm lm' : LogManager D) r : write_buffer lm = (r, lm') → global_lsn lm' = global_lsn lm.
Proof. unfold write_buffer. destruct (ld_write _ _). by intros [= _ <-]. Qed.
Lemma add_log_lsn `{LogDisk D} size rec (lm lm' : LogManager D) l : add_log_to_buffer size (Some rec) lm = (Ret l, lm') →
  l = global_lsn lm ∧ global_lsn lm' = wrap_s 32 (global_lsn lm + 1).
Proof.
  intros E. unfold add_log_to_buffer in E. mstep E. injection E0 as <- <-. mstep E.
  assert (global_lsn s = global_lsn lm) as Es.
  { destruct (is_full _ _ _); [|by injection E0 as _ <-]. mstep E0. apply write_buffer_lsn in E1. mstep E0. injection E0 as _ <-.
    cbn [set_buffer modify_st global_lsn]. destruct (negb _); by injection E2 as _ <-. }
  mstep E. injection E1 as <- <-. mstep E. injection E1 as <- <-. mstep E. injection E1 as _ <-. injection E as <- <-. simpl. by rewrite Es.
Qed.
Lemma flush_log_lsn `{LogDisk D} size (lm lm' : LogManager D) r : flush_log_to_disk size lm = (r, lm') → global_lsn lm' = global_lsn lm.
Proof.
  intros E. unfold flush_log_to_disk in E. rewrite (st_bind_ret get_st _ lm lm lm eq_refl) in E. cbv zeta in E.
  destruct (_ =? 0); [by injection E as _ <-|]. apply st_bind_inv in E as [([] & s1 & E1 & E)|(e & E1 & _)]; apply write_buffer_lsn in E1; [|done].
  unfold set_persist, set_buffer, modify_st, mbind, st_bind in E. by injection E as _ <-.
Qed.
Lemma wrap_s32_int32 z : is_int32 (wrap_s 32 z).
Proof. unfold is_int32, wrap_s, int32_min, int32_max. pose proof (Z.mod_pos_bound (z + 2 ^ (32 - 1)) (2 ^ 32) ltac:(lia)). lia. Qed.

Section Running.
Context {R OS : Type} `{ReplacerLaws R, PosixLaws OS}.
Variables (size : Z) (exact explicit : bool).
Abbreviation world := (Rmdb R OS).
Implicit Types (w : world) (C P : tables) (id : Z) (t : Transaction) (c : Context) (name : string).

(** The next transaction id is new. *)
Definition ids_ok w : Prop := ∀ j, is_Some (txn_map w !! j) → j < next_txn_id w.

(** The tables hold [C], pages can be fetched, and [t] is the object of the
    running transaction [id], explicit or of a single statement. *)
Record running C id t w : Prop := {
  rn_tables : tables_ok exact (sm w) C;
  rn_roomy : roomy (sm w);
  rn_active : active w id t;
  rn_lsn : is_int32 (global_lsn (log w));
  rn_ids : ids_ok w;
  rn_mode : txn_mode t = explicit
}.

(** Moreover its write set says how to get from [C] back to [P]. *)
Definition writing P C id t w : Prop :=
  running C id t w ∧ wrote P (write_set t) C ∧ Forall (wr_fits (sm w)) (write_set t).

(** The same open files and catalog *)
Definition same_files w w' : Prop := fhs_ (sm w') = fhs_ (sm w) ∧ db_ (sm w') = db_ (sm w).

Lemma wr_fits_files (s s' : SmManager R OS) u : fhs_ s' = fhs_ s → db_ s' = db_ s → wr_fits s u → wr_fits s' u.
Proof. intros Ef Ed. unfold wr_fits, TableSpec.fits, fits_rec. by rewrite Ef, Ed. Qed.

Lemma active_update id t t' w : active w id t → txn_id t' = txn_id t → lock_set t' = lock_set t → finished t' = finished t →
  is_int32 (prev_lsn t') → active (set_txns (<[id := t']> (txn_map w)) w) id t'.
Proof using.
  intros [Hx Hl Hrun Hid Hprev] Ei El Es Hp. split; simpl; [by rewrite lookup_insert_eq|by eapply sys_inv_same|by rewrite Es|done|done].
Qed.

Lemma ids_update id t t' w : txn_map w !! id = Some t → ids_ok w → ids_ok (set_txns (<[id := t']> (txn_map w)) w).
Proof using.
  intros Hx Hi j Hj. simpl in *. destruct (decide (j = id)) as [->|Hne]; [apply Hi; by eexists|]. rewrite lookup_insert_ne in Hj by done. by apply Hi.
Qed.

Lemma running_txn_id C id t w : running C id t w → txn_map w !! id = Some t ∧ txn_id t = id.
Proof. intros [_ _ [Hx [_ Htid _] _ _ _] _ _ _]. split; [done|]. by apply (Htid id t). Qed.

(** Appending to the write set *)
Lemma remember_spec C id t wr w : running C id t w →
  ∃ w', remember id wr w = (Ret tt, w') ∧ running C id (append_write_record wr t) w' ∧ sm w' = sm w.
Proof.
  intros Hr. destruct (running_txn_id _ _ _ _ Hr) as [Hx Hid]. unfold remember. rewrite (modify_txn_spec _ _ _ _ Hx).
  cbn [append_write_record txn_id set_write_set]. rewrite Hid. eexists. split; [done|]. split; [|done].
  destruct Hr as [Ht Hroom Ha Hl Hids Hm]. split; [done|done| |done|by eapply ids_update|done]. pose proof (ac_prev _ _ _ Ha). by eapply active_update.
Qed.

(** Calls on the log: the log file and the log manager change, nothing else. *)
Record logged C w w' : Prop := {
  lg_tables : tables_ok exact (sm w') C;
  lg_roomy : roomy (sm w');
  lg_lsn : is_int32 (global_lsn (log w'));
  lg_locks : lock_tab w' = lock_tab w;
  lg_txns : txn_map w' = txn_map w;
  lg_next : next_txn_id w' = next_txn_id w;
  lg_files : same_files w w'
}.

Lemma logged_trans C w1 w2 w3 : logged C w1 w2 → logged C w2 w3 → logged C w1 w3.
Proof using. intros [? ? ? ? ? ? [? ?]] [? ? ? ? ? ? [? ?]]. split; [done..|congruence|congruence|congruence|split; congruence]. Qed.

Lemma on_log_run {A} C (m : ST (LogManager (DiskManager OS)) A) w r w' : tables_ok exact (sm w) C → roomy (sm w) → on_log m w = (r, w') →
  (∀ lm, m (log_view w) = (r, lm) → log_quiet (disk (bpm_ (sm w))) (ldisk lm) ∧ dm_live (ldisk lm) ∧ is_int32 (global_lsn lm)) → logged C w w'.
Proof.
  intros Ht [[_ Hpl] Hroom] E Hm. assert (next_txn_id w' = next_txn_id w) as En by (unfold on_log in E; destruct (m _); by injection E as _ <-).
  apply on_log_inv in E as (lm & Em & V & Es & Ek & Ex). destruct (Hm lm Em) as (Hq & Hl & Hn). split; try done.
  - rewrite Es. by apply set_disk_ok.
  - rewrite Es. split; [by split|exact Hroom].
  - by rewrite <- V in Hn.
  - unfold same_files. by rewrite Es.
Qed.

Lemma add_log_run C rec w : tables_ok exact (sm w) C → roomy (sm w) → is_int32 (global_lsn (log w)) →
  ∃ w', on_log (add_log_to_buffer size (Some rec)) w = (Ret (global_lsn (log w)), w') ∧ logged C w w'.
Proof.
  intros Ht Hr Hl. assert (dm_inv (disk (bpm_ (sm w)))) as Hd by apply (t_ok _ _ _ Ht). destruct Hr as [[Hdl Hpl] Hroom].
  destruct (on_log (add_log_to_buffer size (Some rec)) w) as [r w'] eqn:E. pose proof E as E'. apply on_log_inv in E' as (lm & Em & _).
  pose proof (add_log_quiet size (Some rec) (log_view w) lm r Hd Em) as Hq. destruct (add_log_live size rec (log_view w) lm r Hd Hdl Em) as [[l ->] Hl'].
  pose proof (add_log_lsn _ _ _ _ _ Em) as [-> Hg]. exists w'. split; [done|]. eapply on_log_run; [done|by split|exact E|].
  intros lm2 Em2. rewrite Em in Em2. injection Em2 as <-. split_and!; [done|done|]. rewrite Hg. apply wrap_s32_int32.
Qed.

Lemma flush_log_run C w : tables_ok exact (sm w) C → roomy (sm w) → is_int32 (global_lsn (log w)) →
  ∃ w', flush_log size w = (Ret tt, w') ∧ logged C w w'.
Proof.
  intros Ht Hr Hl. assert (dm_inv (disk (bpm_ (sm w)))) as Hd by apply (t_ok _ _ _ Ht). destruct Hr as [[Hdl Hpl] Hroom]. unfold flush_log.
  destruct (on_log (flush_log_to_disk size) w) as [r w'] eqn:E. pose proof E as E'. apply on_log_inv in E' as (lm & Em & _).
  pose proof (flush_log_quiet size (log_view w) lm r Hd Em) as Hq. destruct (flush_log_live size (log_view w) lm r Hd Hdl Em) as [-> Hl'].
  pose proof (flush_log_lsn _ _ _ _ Em) as Hg. exists w'. split; [done|]. eapply on_log_run; [done|by split|exact E|].
  intros lm2 Em2. rewrite Em in Em2. injection Em2 as <-. split_and!; [done|done|by rewrite Hg].
Qed.

(** Logging for the transaction *)
Lemma log_for_txn_spec C id t record w : running C id t w →
  ∃ w' l, (log_for_txn size id record ;; flush_log size) w = (Ret tt, w') ∧ running C id (set_prev_lsn l t) w' ∧ same_files w w'.
Proof.
  intros Hr. destruct (running_txn_id _ _ _ _ Hr) as [Hx Hid]. pose proof Hr as [Ht Hroom Ha Hl Hids Hmode].
  destruct (add_log_run C (set_log_prev (prev_lsn t) record) w Ht Hroom Hl) as (w1 & E1 & L1).
  set (t' := set_prev_lsn (global_lsn (log w)) t). set (w2 := set_txns (<[id := t']> (txn_map w1)) w1).
  assert (log_for_txn size id record w = (Ret tt, w2)) as E2.
  { unfold log_for_txn. rewrite (st_bind_ret (txn_obj id) _ w t w) by (unfold txn_obj; by rewrite Hx).
    rewrite (st_bind_ret _ _ _ _ _ E1), (modify_txn_spec id _ w1 t) by by rewrite (lg_txns _ _ _ L1). cbn [txn_id set_prev_lsn]. by rewrite Hid. }
  destruct (flush_log_run C w2) as (w3 & E3 & L3); [apply L1..|]. exists w3, (global_lsn (log w)).
  rewrite (st_bind_ret _ _ _ _ _ E2). split; [exact E3|]. destruct L1 as [_ _ _ K1 X1 N1 [F1 D1]], L3 as [Ht3 Hr3 Hl3 K3 X3 N3 [F3 D3]].
  simpl in *. rewrite X1 in X3. split; [|split; congruence]. split; [done|done| |done| |done].
  - destruct (active_update id t t' w Ha eq_refl eq_refl eq_refl Hl) as [A1 A2 A3 A4 A5]. simpl in *. split; rewrite ?X3, ?K3, ?K1; done.
  - pose proof (ids_update id t t' w Hx Hids) as Hi. intros j Hj. rewrite N3, N1. apply Hi. simpl. by rewrite X3 in Hj.
Qed.

(** What the calls of a statement keep: the catalog, and which records fit the
    open tables. *)
Record kept (s s' : SmManager R OS) : Prop := {
  kp_db : db_ s' = db_ s;
  kp_fits name r : TableSpec.fits s name r → TableSpec.fits s' name r;
  kp_rec name bs : fits_rec s name bs → fits_rec s' name bs;
  kp_open name fd h : fhs_ s !! name = Some (fd, h) → ∃ h', fhs_ s' !! name = Some (fd, h') ∧ record_size h' = record_size h
}.
Lemma kept_trans s1 s2 s3 : kept s1 s2 → kept s2 s3 → kept s1 s3.
Proof.
  intros [E1 F1 R1 O1] [E2 F2 R2 O2]. split; [congruence|auto|auto|]. intros name fd h Hf. destruct (O1 name fd h Hf) as (h1 & Hf1 & Er1).
  destruct (O2 name fd h1 Hf1) as (h2 & Hf2 & Er2). exists h2. split; [done|congruence].
Qed.
Lemma kept_files w w' : same_files w w' → kept (sm w) (sm w').
Proof. intros [Ef Ed]. split; [done|intros name r; unfold TableSpec.fits; by rewrite Ef|intros name bs; unfold fits_rec; by rewrite Ef|]. intros name fd h Hf. exists h. by rewrite Ef. Qed.
Lemma kept_tables s s' : same_tables s s' → kept s s'.
Proof.
  intros Hs. split; [apply Hs|intros name r; by apply fits_same|intros name bs; by apply fits_rec_same|]. intros name fd h Hf.
  destruct Hs as (_ & _ & _ & _ & Hs). specialize (Hs name). rewrite Hf in Hs. destruct (fhs_ s' !! name) as [[fd' h']|]; [|done].
  destruct Hs as (-> & (Er & _) & _). by exists h'.
Qed.
Lemma kept_writes s s' u : kept s s' → wr_fits s u → wr_fits s' u.
Proof. intros [Ed Hf Hr _] (Hu1 & Hu2 & tab & Hu3 & Hu4). split_and!; [auto|auto|]. exists tab. by rewrite Ed. Qed.

(** Logging a write and remembering it *)
Lemma record_write C id t c (record : Z → LogRecord) wr w : running C id t w → txn_ c = Some id →
  ∃ w' t', for_txn c (λ id, log_write size c id (record id) ;; remember id wr) w = (Ret tt, w') ∧ running C id t' w' ∧
    write_set t' = write_set t ++ [wr] ∧ kept (sm w) (sm w').
Proof.
  intros Hr Ec. unfold for_txn, log_write. rewrite Ec. destruct (log_mgr_ c).
  - destruct (log_for_txn_spec C id t (record id) w Hr) as (w1 & l & E1 & Hr1 & Hf1).
    destruct (remember_spec C id _ wr w1 Hr1) as (w2 & E2 & Hr2 & Es2). exists w2, (append_write_record wr (set_prev_lsn l t)).
    split; [unfold mbind, st_bind in *; by rewrite E1, E2|]. split_and!; [done|done|]. rewrite Es2. by apply kept_files.
  - destruct (remember_spec C id _ wr w Hr) as (w2 & E2 & Hr2 & Es2). exists w2, (append_write_record wr t). split_and!; [exact E2|done|done|].
    rewrite Es2. by apply kept_files.
Qed.

(** A call on a table *)
Lemma run_fh {A} name (m : Z → ST (RmFile (BPM R (DiskManager OS))) A) C (C' : A → tables) (Q : A → SmManager R OS → Prop) id t w :
  running C id t w →
  (∀ r s', with_fh name m (sm w) = (r, s') →
     match r with Ret a => tab_call exact (sm w) (Ret a) s' (C' a) (λ a, Q a s') | Throw _ => ¬ roomy (sm w) end) →
  ∃ a w', on_fh name m w = (Ret a, w') ∧ running (C' a) id t w' ∧ Q a (sm w') ∧ kept (sm w) (sm w').
Proof.
  intros [Ht Hroom Ha Hl Hids Hmode] Hm. unfold on_fh, on_system. destruct (with_fh name m (sm w)) as [r s'] eqn:E. specialize (Hm r s' eq_refl).
  destruct r as [a|e]; [|done]. destruct Hm as (HQ & Ht' & Hs). exists a. eexists. split; [done|]. split_and!; [|exact HQ|by apply kept_tables].
  split; [done|by apply Hs|by destruct Ha as [X1 X2 X3 X4 X5]; split|done|done|done].
Qed.

Lemma table_hdr_run name fd h w : fhs_ (sm w) !! name = Some (fd, h) → table_hdr name w = (Ret h, w).
Proof.
  intros Hf. unfold table_hdr, on_fh, on_system. pose proof (fh_hdr_spec _ _ _ _ Hf) as E. unfold fh_hdr in E. rewrite E. by destruct w.
Qed.
Lemma find_table_run name tab w : get_table (db_ (sm w)) name = Ret tab → find_table name w = (Ret tab, w).
Proof. intros E. unfold find_table, on_system, sm_table. rewrite E. by destruct w. Qed.

(** A table without indexes: where it is, and the shape of its rows *)
Record plain_table w name tab : Prop := {
  pt_tab : get_table (db_ (sm w)) name = Ret tab;
  pt_index : tm_indexes tab = [];
  pt_open : ∃ fd h, fhs_ (sm w) !! name = Some (fd, h) ∧ cols_in (record_size h) (tm_cols tab) ∧ 0 ≤ record_size h
}.
Lemma plain_kept w w' name tab : kept (sm w) (sm w') → plain_table w name tab → plain_table w' name tab.
Proof.
  intros Hk [Ht Hi (fd & h & Hf & Hc & Hn)]. split; [by rewrite (kp_db _ _ Hk)|done|]. destruct (kp_open _ _ Hk _ _ _ Hf) as (h' & Hf' & Er).
  exists fd, h'. by rewrite Er.
Qed.

(** A stored record fits its table. *)
Lemma stored_fits C s name fd h r bs : tables_ok exact s C → fhs_ s !! name = Some (fd, h) → C !! (name, r) = Some bs →
  TableSpec.fits s name r ∧ fits_rec s name bs.
Proof.
  intros Ht Hf Hb. destruct (t_file _ _ _ Ht name fd h Hf) as (pgs & l & [_ Hm] & Hc). simpl in Hm. specialize (Hc r). rewrite Hb in Hc.
  unfold contents in Hc. destruct (bool_decide (page_in h (page_no r)) && _) eqn:Ei; [|done]. apply andb_true_iff in Ei as [Hp Hs].
  apply bool_decide_eq_true in Hp, Hs. unfold rec_at in Hc. destruct (used _ _) eqn:Eu; [|done]. injection Hc as <-.
  split; [by exists fd, h|]. intros fd' h' Hf'. rewrite Hf in Hf'. injection Hf' as <- <-.
  destruct (m_pages exact h pgs l Hm _ Hp) as (Hlen & Hby & _). destruct (slot_bounds h (m_layout _ _ _ _ Hm) _ Hs) as (_ & _ & Hend).
  unfold read_slot, read_at. split; [|by apply Forall_take, Forall_drop]. rewrite length_take, length_drop. unfold page_len in Hlen. lia.
Qed.

(* ------------------------------------------------------------------ *)
(** ** The executors                                                    *)
(* ------------------------------------------------------------------ *)

Lemma get_table_tabs db name tab : get_table db name = Ret tab → db_tabs db !! name = Some tab.
Proof. unfold get_table. destruct (db_tabs db !! name); [by intros [= ->]|done]. Qed.

(** INSERT.  The values do not fit their columns, and nothing has changed; or a new
    record holds them, and the transaction remembers it. *)
Lemma insert_spec P C id t c e w : writing P C id t w → txn_ c = Some id → plain_table w (in_tab_name e) (in_tab e) →
  (∀ fd h, fhs_ (sm w) !! in_tab_name e = Some (fd, h) → num_pages h < int32_max) → Forall val_bytes (in_values e) →
  ∃ r w', insert_Next size e c w = (r, w') ∧
    match r with
    | Ret rid => ∃ us n t', row_fields (in_values e) (tm_cols (in_tab e)) = Ret us ∧
        (∀ fd h, fhs_ (sm w) !! in_tab_name e = Some (fd, h) → n = Z.to_nat (record_size h)) ∧
        C !! (in_tab_name e, rid) = None ∧
        writing P (<[(in_tab_name e, rid) := put_fields us (replicate n 0)]> C) id t' w' ∧
        write_set t' = write_set t ++ [write_record_insert (in_tab_name e) rid] ∧ kept (sm w) (sm w')
    | Throw x => row_fields (in_values e) (tm_cols (in_tab e)) = Throw x ∧ w' = w
    end.
Proof.
  intros (Hr & Hw & Hfit) Ec [Htab Hix (fd & h & Hf & Hc & Hn)] Hmax Hv. unfold insert_Next. cbv zeta.
  rewrite (st_bind_ret _ _ _ _ _ (table_hdr_run _ _ _ _ Hf)), write_values_eq.
  destruct (row_fields (in_values e) (tm_cols (in_tab e))) as [us|x] eqn:Eu; [|by exists (Throw x), w].
  rewrite (st_bind_ret (lift_outcome _) _ w _ w eq_refl), Hix. rewrite (st_bind_ret (for_each _ []) _ w tt w eq_refl).
  set (rec := put_fields us (replicate (Z.to_nat (record_size h)) 0)).
  assert (fits_rec (sm w) (in_tab_name e) rec) as Hrec.
  { intros fd' h' Hf'. rewrite Hf in Hf'. injection Hf' as <- <-. destruct (put_fields_ok (record_size h) us (replicate (Z.to_nat (record_size h)) 0)) as [El Eb].
    - by eapply row_fields_ok.
    - rewrite length_replicate. lia.
    - by apply Forall_replicate.
    - split; [unfold rec; by rewrite El, length_replicate|exact Eb]. }
  destruct (run_fh (in_tab_name e) (λ fd, insert_record fd rec) C (λ rid, <[(in_tab_name e, rid) := rec]> C)
    (λ rid s', C !! (in_tab_name e, rid) = None ∧ TableSpec.fits s' (in_tab_name e) rid) id t w Hr) as (rid & w1 & E1 & Hr1 & [Hnone Hfr] & Hk1).
  { intros r s' E. pose proof (fh_insert_record exact (sm w) s' C (in_tab_name e) fd h rec r (rn_tables _ _ _ _ Hr) Hf (Hmax fd h Hf) Hrec E) as Hcall.
    by destruct r. }
  rewrite (st_bind_ret _ _ _ _ _ E1).
  destruct (record_write _ id t c (λ id, new_insert id rec rid (in_tab_name e)) (write_record_insert (in_tab_name e) rid) w1 Hr1 Ec) as (w2 & t2 & E2 & Hr2 & Ew2 & Hk2).
  rewrite (st_bind_ret _ _ _ _ _ E2), (st_bind_ret (for_each _ []) _ w2 tt w2 eq_refl). exists (Ret rid), w2. split; [done|].
  exists us, (Z.to_nat (record_size h)), t2. split_and!; [done| |done| |done|by eapply kept_trans].
  { intros fd' h' Hf'. rewrite Hf in Hf'. by injection Hf' as <- <-. }
  split_and!; [exact Hr2|rewrite Ew2; by constructor|]. rewrite Ew2. apply Forall_app. split.
  - eapply Forall_impl; [exact Hfit|]. intros u. apply kept_writes. by eapply kept_trans.
  - constructor; [|constructor]. split_and!; [by apply Hk2|done|]. exists (in_tab e). split; [|done]. apply get_table_tabs.
    by rewrite (kp_db _ _ Hk2), (kp_db _ _ Hk1).
Qed.

(** Reading a record before it is changed *)
Lemma read_stored C id t name tab rid old w : running C id t w → plain_table w name tab → C !! (name, rid) = Some old →
  TableSpec.fits (sm w) name rid ∧ fits_rec (sm w) name old ∧
  ∃ w', on_fh name (λ fd, get_record fd rid) w = (Ret old, w') ∧ running C id t w' ∧ kept (sm w) (sm w').
Proof.
  intros Hr [_ _ (fd & h & Hf & _)] Ho. destruct (stored_fits C (sm w) name fd h rid old (rn_tables _ _ _ _ Hr) Hf Ho) as [Hfit Hrec].
  split_and!; [done|done|]. destruct (run_fh name (λ fd, get_record fd rid) C (λ _, C) (λ v _, old = v) id t w Hr) as (v & w' & E & Hr' & <- & Hk).
  - intros r s' E. pose proof (fh_get_record exact (sm w) s' C name rid (rn_tables _ _ _ _ Hr) Hfit old r Ho E) as Hc. by destruct r.
  - by exists w'.
Qed.

Lemma wr_fits_new w name tab rid ty bs : plain_table w name tab → TableSpec.fits (sm w) name rid → fits_rec (sm w) name bs →
  wr_fits (sm w) (mkWriteRecord ty name rid bs).
Proof. intros [Ht Hi _] Hf Hb. split_and!; [done|done|]. exists tab. split; [by apply get_table_tabs|done]. Qed.

(** DELETE of one record *)
Lemma delete_one_spec P C id t c name tab rid old w : writing P C id t w → txn_ c = Some id → plain_table w name tab → C !! (name, rid) = Some old →
  ∃ w' t', delete_one size tab name c rid w = (Ret tt, w') ∧ writing P (delete (name, rid) C) id t' w' ∧ kept (sm w) (sm w').
Proof.
  intros (Hr & Hw & Hfit) Ec Hpt Ho. destruct (read_stored C id t name tab rid old w Hr Hpt Ho) as (Hf & Hrec & w1 & E1 & Hr1 & Hk1).
  destruct (record_write C id t c (λ id, new_delete id old rid name) (mkWriteRecord DELETE_TUPLE name rid old) w1 Hr1 Ec)
    as (w2 & t2 & E2 & Hr2 & Ew2 & Hk2).
  pose proof (kept_trans _ _ _ Hk1 Hk2) as Hk. pose proof (kp_fits _ _ Hk _ _ Hf) as Hf2.
  destruct (run_fh name (λ fd, delete_record fd rid) C (λ _, delete (name, rid) C) (λ _ _, True) id t2 w2 Hr2) as ([] & w3 & E3 & Hr3 & _ & Hk3).
  { intros r s' E. pose proof (fh_delete_record exact (sm w2) s' C name rid (rn_tables _ _ _ _ Hr2) Hf2 old r Ho E) as Hc. by destruct r. }
  exists w3, t2. split.
  - unfold delete_one. rewrite (st_bind_ret _ _ _ _ _ E1), (st_bind_ret _ _ _ _ _ E2). unfold delete_index_entries. rewrite (pt_index _ _ _ Hpt).
    rewrite (st_bind_ret (on_system _) _ w2 tt w2) by (by destruct w2). exact E3.
  - split; [|by eapply kept_trans]. split_and!; [done|rewrite Ew2; by constructor|]. rewrite Ew2. apply Forall_app. split.
    + eapply Forall_impl; [exact Hfit|]. intros u. apply kept_writes. by eapply kept_trans.
    + constructor; [|constructor]. pose proof (kept_trans _ _ _ Hk Hk3) as Hk'. apply (wr_fits_new w3 name tab); [by eapply plain_kept|by apply Hk'|by apply Hk'].
Qed.

(** UPDATE of one record.  A value that does not fit its column is noticed before
    the record changes. *)
Lemma update_one_spec P C id t c e rid old w : writing P C id t w → txn_ c = Some id → plain_table w (up_tab_name e) (up_tab e) →
  Forall (λ sc, val_bytes (sc_rhs sc)) (set_clauses_ e) → C !! (up_tab_name e, rid) = Some old →
  ∃ r w' t' C', update_one size e c rid w = (r, w') ∧ writing P C' id t' w' ∧ kept (sm w) (sm w') ∧
    match set_fields (up_tab e) (set_clauses_ e) with
    | Ret us => r = Ret tt ∧ C' = <[(up_tab_name e, rid) := put_fields us old]> C
    | Throw x => r = Throw x ∧ C' = C
    end.
Proof.
  set (name := up_tab_name e). set (tab := up_tab e). intros (Hr & Hw & Hfit) Ec Hpt Hv Ho.
  destruct (read_stored C id t name tab rid old w Hr Hpt Ho) as (Hf & Hrec & w1 & E1 & Hr1 & Hk1).
  destruct (remember_spec C id t (mkWriteRecord UPDATE_TUPLE name rid old) w1 Hr1) as (w2 & E2 & Hr2 & Es2).
  assert (for_txn c (λ id, remember id (mkWriteRecord UPDATE_TUPLE name rid old)) w1 = (Ret tt, w2)) as E2' by (unfold for_txn; by rewrite Ec).
  assert (kept (sm w) (sm w2)) as Hk2 by by rewrite Es2. set (t2 := append_write_record _ t) in *.
  assert (∀ w', kept (sm w2) (sm w') → Forall (wr_fits (sm w')) (write_set t2)) as Hfits.
  { intros w' Hk. pose proof (kept_trans _ _ _ Hk2 Hk) as Hk'. apply Forall_app. split; [eapply Forall_impl; [exact Hfit|intros u; by apply kept_writes]|].
    constructor; [|constructor]. apply (wr_fits_new w' name tab); [by eapply plain_kept|by apply Hk'|by apply Hk']. }
  unfold update_one. fold name tab. cbv zeta. rewrite (st_bind_ret _ _ _ _ _ E1), (st_bind_ret _ _ _ _ _ E2'), apply_sets_eq.
  destruct (set_fields tab (set_clauses_ e)) as [us|x] eqn:Eu.
  2:{ exists (Throw x), w2, t2, C. split; [done|]. split; [|done]. split_and!; [done| |by apply Hfits, kept_files].
      pose proof (wrote_update P (write_set t) C name rid old old Hw Ho) as Hu. rewrite insert_id in Hu by done. exact Hu. }
  rewrite (st_bind_ret (lift_outcome _) _ w2 _ w2 eq_refl). unfold for_changed_keys. rewrite (pt_index _ _ _ Hpt).
  rewrite (st_bind_ret (on_system _) _ w2 tt w2) by (by destruct w2). rewrite (st_bind_ret (on_system _) _ w2 tt w2) by (by destruct w2).
  set (new := put_fields us old).
  assert (∃ w3 t3, for_txn c (λ id, log_write size c id (new_update id old new rid name)) w2 = (Ret tt, w3) ∧ running C id t3 w3 ∧
            write_set t3 = write_set t2 ∧ kept (sm w2) (sm w3)) as (w3 & t3 & E3 & Hr3 & Ew3 & Hk3).
  { unfold for_txn, log_write. rewrite Ec. destruct (log_mgr_ c); [|exists w2, t2; split_and!; [done|done|done|by apply kept_files]].
    destruct (log_for_txn_spec C id t2 (new_update id old new rid name) w2 Hr2) as (w3 & l & E3 & Hr3 & Hf3).
    exists w3, (set_prev_lsn l t2). split_and!; [exact E3|done|done|by apply kept_files]. }
  rewrite (st_bind_ret _ _ _ _ _ E3). pose proof (kept_trans _ _ _ Hk2 Hk3) as Hk.
  assert (fits_rec (sm w3) name new) as Hnew.
  { apply (kp_rec _ _ Hk). intros fd h Hfd. destruct (Hrec fd h Hfd) as [Hl Hb]. destruct (pt_open _ _ _ Hpt) as (fd' & h' & Hfd' & Hc & Hn).
    fold name in Hfd'. rewrite Hfd in Hfd'. injection Hfd' as <- <-.
    destruct (put_fields_ok (record_size h) us old) as [El Eb]; [by eapply set_fields_ok|lia|done|]. unfold new. by rewrite El. }
  destruct (run_fh name (λ fd, update_record fd rid new) C (λ _, <[(name, rid) := new]> C) (λ _ _, True) id t3 w3 Hr3) as ([] & w4 & E4 & Hr4 & _ & Hk4).
  { intros r s' E. pose proof (fh_update_record exact (sm w3) s' C name rid (rn_tables _ _ _ _ Hr3) (kp_fits _ _ Hk _ _ Hf) old new r Ho Hnew E) as Hc.
    by destruct r. }
  exists (Ret tt), w4, t3, (<[(name, rid) := new]> C). split; [exact E4|]. split; [|split; [by eapply kept_trans|done]].
  split_and!; [done|rewrite Ew3; by constructor|rewrite Ew3; apply Hfits; by eapply kept_trans].
Qed.

(** The records [l] of a table deleted; the records [l] changed by [f] *)
Definition delete_rows name (l : list Rid) C : tables := fold_left (λ C r, delete (name, r) C) l C.
Definition update_rows name (f : list Z → list Z) (l : list Rid) C : tables := fold_left (λ C r, alter f (name, r) C) l C.

Lemma lookup_delete_rows name l C k : delete_rows name l C !! k = if bool_decide (k.1 = name ∧ k.2 ∈ l) then None else C !! k.
Proof using.
  revert C. induction l as [|r l IH]; intros C.
  { rewrite bool_decide_eq_false_2; [done|]. by intros [_ ?%elem_of_nil]. }
  cbn [delete_rows fold_left]. fold (delete_rows name l (delete (name, r) C)). rewrite IH. destruct (decide (k = (name, r))) as [->|Hne].
  - rewrite lookup_delete_eq, (bool_decide_eq_true_2 (_ ∧ _ ∈ r :: l)) by (split; [done|by left]). by case_bool_decide.
  - rewrite lookup_delete_ne by done. assert (k.1 = name → k.2 ≠ r) as Hr by (destruct k; simpl; naive_solver).
    erewrite bool_decide_ext; [reflexivity|]. rewrite elem_of_cons. naive_solver.
Qed.

Lemma lookup_update_rows name f l C k : NoDup l →
  update_rows name f l C !! k = if bool_decide (k.1 = name ∧ k.2 ∈ l) then f <$> C !! k else C !! k.
Proof using.
  intros Hn. revert C. induction Hn as [|r l Hr _ IH]; intros C.
  { rewrite bool_decide_eq_false_2; [done|]. by intros [_ ?%elem_of_nil]. }
  cbn [update_rows fold_left]. fold (update_rows name f l (alter f (name, r) C)). rewrite IH. destruct (decide (k = (name, r))) as [->|Hne].
  - rewrite bool_decide_eq_false_2, lookup_alter_eq, bool_decide_eq_true_2; [done|split; [done|by left]|by intros [_ ?]].
  - rewrite lookup_alter_ne by done. assert (k.1 = name → k.2 ≠ r) as Hr' by (destruct k; simpl; naive_solver).
    erewrite bool_decide_ext; [reflexivity|]. rewrite elem_of_cons. naive_solver.
Qed.

Lemma delete_loop P C id t c name tab l w : writing P C id t w → txn_ c = Some id → plain_table w name tab →
  NoDup l → (∀ r, r ∈ l → is_Some (C !! (name, r))) →
  ∃ w' t', for_each (delete_one size tab name c) l w = (Ret tt, w') ∧ writing P (delete_rows name l C) id t' w' ∧ kept (sm w) (sm w').
Proof.
  intros Hw Ec Hpt Hn. revert C t w Hw Hpt. induction Hn as [|r l Hr _ IH]; intros C t w Hw Hpt Hin.
  { exists w, t. split_and!; [done|done|by apply kept_files]. }
  destruct (Hin r) as [old Ho]; [by left|]. destruct (delete_one_spec P C id t c name tab r old w Hw Ec Hpt Ho) as (w1 & t1 & E1 & Hw1 & Hk1).
  destruct (IH _ t1 w1 Hw1) as (w2 & t2 & E2 & Hw2 & Hk2); [by eapply plain_kept| |].
  - intros r' Hr'. rewrite lookup_delete_ne by congruence. apply Hin. by right.
  - exists w2, t2. cbn [for_each]. rewrite (st_bind_ret _ _ _ _ _ E1). split_and!; [exact E2|exact Hw2|by eapply kept_trans].
Qed.

Lemma alter_insert_id C (f : list Z → list Z) k old : C !! k = Some old → alter f k C = <[k := f old]> C.
Proof using.
  intros Ho. apply map_eq. intros j. destruct (decide (j = k)) as [->|Hne].
  - by rewrite lookup_alter_eq, lookup_insert_eq, Ho.
  - by rewrite lookup_alter_ne, lookup_insert_ne.
Qed.

Lemma update_loop P C id t c e l w : writing P C id t w → txn_ c = Some id → plain_table w (up_tab_name e) (up_tab e) →
  Forall (λ sc, val_bytes (sc_rhs sc)) (set_clauses_ e) → (∀ r, r ∈ l → is_Some (C !! (up_tab_name e, r))) →
  ∃ r w' t' C', for_each (update_one size e c) l w = (r, w') ∧ writing P C' id t' w' ∧ kept (sm w) (sm w') ∧
    match set_fields (up_tab e) (set_clauses_ e) with
    | Ret us => r = Ret tt ∧ C' = update_rows (up_tab_name e) (put_fields us) l C
    | Throw x => r = match l with [] => Ret tt | _ => Throw x end ∧ C' = C
    end.
Proof.
  intros Hw Ec Hpt Hv. revert C t w Hw Hpt. induction l as [|r l IH]; intros C t w Hw Hpt Hin.
  { exists (Ret tt), w, t, C. split_and!; [done|done|by apply kept_files|]. by destruct (set_fields _ _). }
  destruct (Hin r) as [old Ho]; [by left|]. destruct (update_one_spec P C id t c e r old w Hw Ec Hpt Hv Ho) as (x & w1 & t1 & C1 & E1 & Hw1 & Hk1 & Hx).
  cbn [for_each]. destruct (set_fields (up_tab e) (set_clauses_ e)) as [us|err].
  - destruct Hx as [-> ->]. rewrite (st_bind_ret _ _ _ _ _ E1). rewrite <- (alter_insert_id C (put_fields us) _ old Ho) in Hw1.
    destruct (IH _ t1 w1 Hw1) as (y & w2 & t2 & C2 & E2 & Hw2 & Hk2 & -> & ->); [by eapply plain_kept| |].
    + intros r' Hr'. destruct (decide (r' = r)) as [->|Hne]; [rewrite lookup_alter_eq, Ho; by eexists|].
      rewrite lookup_alter_ne by congruence. apply Hin. by right.
    + exists (Ret tt), w2, t2. eexists. split_and!; [exact E2|exact Hw2|by eapply kept_trans|done|done].
  - destruct Hx as [-> ->]. exists (Throw err), w1, t1, C. split_and!; [by apply st_bind_throw|done|done|done|done].
Qed.

(* ------------------------------------------------------------------ *)
(** ** Locks and scans                                                  *)
(* ------------------------------------------------------------------ *)

Lemma lock_keeps t (d : LockDataId) m lt r t' lt' : lock (Some t) d m lt = (r, (Some t', lt')) →
  txn_id t' = txn_id t ∧ txn_state t' = txn_state t ∧ write_set t' = write_set t ∧ prev_lsn t' = prev_lsn t ∧ txn_mode t' = txn_mode t.
Proof using. unfold lock. intros E. repeat case_match; simplify_eq; done. Qed.

Lemma lock_writing P C id t c m name fd h w : writing P C id t w → txn_ c = Some id → fhs_ (sm w) !! name = Some (fd, h) →
  ∃ r w' t', lock_on_table (λ o fd, lock o (lock_table_id fd) m) c name w = (r, w') ∧ writing P C id t' w' ∧ sm w' = sm w ∧
    match r with Ret _ => True | Throw e => refused e end.
Proof.
  intros Hw Ec Hf. pose proof Hw as ([Ht Hroom [Hx Hlk Hfin Hid Hprev] Hl Hids Hmode] & Hwr & Hfit). unfold lock_on_table.
  assert (on_fh name mret w = (Ret fd, w)) as E0.
  { unfold on_fh, on_system, with_fh. rewrite Hf. cbn [mret st_ret file_hdr store]. unfold set_fhs, set_bpm. cbn [fhs_].
    rewrite insert_id by done. by destruct w as [[] ? ? ? ? ?]. }
  rewrite (st_bind_ret _ _ _ _ _ E0), Ec. destruct (lock_mgr_ c); [|by exists (Ret tt), w, t].
  rewrite (st_bind_ret (txn_obj id) _ w t w) by (unfold txn_obj; by rewrite Hx).
  unfold lock_step. destruct (lock_result t (lock_table_id fd) m (lock_tab w)) as (r & t' & lt' & E & Hr). rewrite E.
  pose proof (lm_step_inv _ _ (lm_lock (txn_map w) (lock_tab w) id t _ m r t' lt' Hx E) Hlk) as Hlk'.
  destruct (lock_keeps _ _ _ _ _ _ _ E) as (E1 & E2 & E3 & E4 & E5).
  eexists _, _, t'. split; [reflexivity|]. split; [|split; [done|by destruct r]].
  split; [|by rewrite E3]. split; [done|done| |done|exact (ids_update id t t' w Hx Hids)|congruence]. split; [by simpl; rewrite lookup_insert_eq|exact Hlk'|unfold finished; by rewrite E2|done|by rewrite E4].
Qed.

(** Scans keep what the transaction has written. *)
Lemma reading_writing P C id t w w' : writing P C id t w → reading exact C w w' → writing P C id t w' ∧ fhs_ (sm w') = fhs_ (sm w) ∧ db_ (sm w') = db_ (sm w).
Proof.
  intros ([Ht Hroom [Hx Hlk Hfin Hid Hprev] Hl Hids Hmode] & Hwr & Hfit) (Ew & Ht' & Hr'). rewrite Ew in Ht', Hr' |- *. split; [|done].
  split; [by split|]. split; [done|]. eapply Forall_impl; [exact Hfit|]. intros u. by apply wr_fits_files.
Qed.
End Running.
