(* ===== verification/DmlSql.v ===== *)
(** * INSERT, DELETE and UPDATE from the statement to the records

    The analyzer, the planner, the portal and the executors of data changes
    together, for a running transaction: what the tables hold afterwards, and
    what abort gives back. *)

From S2P Require Import Prelude Defs Text SmMeta Values Replacer Posix DiskManager BufferPool RmFile RmPage RmSpec RmManager SmManager TableSpec Printer Txn LockManager LogRecord LogManager TxnManager Executor ExecutorSpec OperatorSpec ScanExec ScanSpec Dml Ast Analyze Planner Portal Server TxnSpec RecoverySpec QuerySpec PlanSem PlannerSpec AnalyzeSpec SelectSpec DmlSpec.

Section Statements.
Context {R OS : Type} `{ReplacerLaws R, PosixLaws OS}.
Variables (size : Z) (exact explicit : bool).
Abbreviation world := (Rmdb R OS).
Abbreviation session := (Session R OS).
Implicit Types (w : world) (s : session) (C P : tables) (id : Z) (t : Transaction) (c : Context) (name : string).
Abbreviation writing := (writing exact explicit).

(* ------------------------------------------------------------------ *)
(** ** Ready for data changes                                           *)
(* ------------------------------------------------------------------ *)

(** Every table is open, with records as long as its rows. *)
Definition laid_out w : Prop :=
  ∀ name tab, get_table (db_ (sm w)) name = Ret tab →
    ∃ fd h, fhs_ (sm w) !! name = Some (fd, h) ∧ row_len (tm_cols tab) = Ret (record_size h).

Record ready P C id t w : Prop := {
  rd_writing : writing P C id t w;
  rd_catalog : catalog C (db_ (sm w));
  rd_files : laid_out w
}.

Lemma laid_out_open w : laid_out w → tables_open w.
Proof using. intros Hl name tab E. destruct (Hl name tab E) as (fd & h & Hf & _). by exists fd, h. Qed.

Lemma laid_out_kept w w' : kept (sm w) (sm w') → laid_out w → laid_out w'.
Proof using.
  intros Hk Hl name tab E. rewrite (kp_db _ _ Hk) in E. destruct (Hl name tab E) as (fd & h & Hf & El).
  destruct (kp_open _ _ Hk _ _ _ Hf) as (h' & Hf' & Er). exists fd, h'. by rewrite Er.
Qed.

(** The catalog describes the records whatever they are. *)
Lemma catalog_change w C C' : tables_ok exact (sm w) C' → laid_out w → catalog C (db_ (sm w)) → catalog C' (db_ (sm w)).
Proof.
  intros Ht Hl Hc name Hn. destruct (Hc name Hn) as [Htab [E Hp Hcols Hrows] Hty]. split; [done| |done]. split; [done..|].
  intros r bs Hb. destruct Htab as [tab Etab]. assert (get_table (db_ (sm w)) name = Ret tab) as Eg by (unfold get_table; by rewrite Etab).
  destruct (Hl name tab Eg) as (fd & h & Hf & El). unfold tlen, tcols. rewrite Eg, El.
  destruct (stored_fits exact C' (sm w) name fd h r bs Ht Hf Hb) as [_ Hfr]. destruct (Hfr fd h Hf) as [Hlen _]. lia.
Qed.

Lemma ready_kept P C id t w P' C' t' w' : ready P C id t w → writing P' C' id t' w' → kept (sm w) (sm w') → ready P' C' id t' w'.
Proof.
  intros [Hw Hc Hl] Hw' Hk. pose proof (laid_out_kept _ _ Hk Hl) as Hl'. split; [done| |done].
  apply (catalog_change w' C); [apply Hw'|done|]. by rewrite (kp_db _ _ Hk).
Qed.

Lemma plain_ready P C id t w name tab : ready P C id t w → get_table (db_ (sm w)) name = Ret tab → tm_indexes tab = [] →
  plain_table w name tab.
Proof.
  intros [Hw Hc Hl] Eg Hi. split; [done|done|]. destruct (Hl name tab Eg) as (fd & h & Hf & El). exists fd, h. split; [done|].
  destruct (Hc name) as [_ [_ Hp Hcols _] _]; [apply get_table_tabs in Eg; by eexists|]. unfold tlen, tcols in Hp, Hcols. rewrite Eg, El in Hp, Hcols. done.
Qed.

(** A lock, granted or refused *)
Lemma lock_ready P C id t c m name tab w : ready P C id t w → txn_ c = Some id → get_table (db_ (sm w)) name = Ret tab →
  ∃ r w' t', lock_on_table (λ o fd, lock o (lock_table_id fd) m) c name w = (r, w') ∧ ready P C id t' w' ∧ sm w' = sm w ∧
    match r with Ret _ => True | Throw e => refused e end.
Proof.
  intros [Hw Hc Hl] Ec Eg. destruct (Hl name tab Eg) as (fd & h & Hf & _).
  destruct (lock_writing exact explicit P C id t c m name fd h w Hw Ec Hf) as (r & w' & t' & E & Hw' & Es & Hr). exists r, w', t'.
  split_and!; [done| |done|done]. split; [done|by rewrite Es|]. unfold laid_out. by rewrite Es.
Qed.

Lemma reading_ready P C id t w w' : ready P C id t w → reading exact C w w' → ready P C id t w' ∧ db_ (sm w') = db_ (sm w).
Proof.
  intros [Hw Hc Hl] Hr. destruct (reading_writing exact explicit P C id t w w' Hw Hr) as (Hw' & Ef & Ed). split; [|done].
  split; [done|by rewrite Ed|]. unfold laid_out. by rewrite Ef, Ed.
Qed.

(* ------------------------------------------------------------------ *)
(** ** Finding the records                                              *)
(* ------------------------------------------------------------------ *)

Lemma drain_rids_spec C w0 name fd h cols len conds cs n idx : fhs_ (sm w0) !! name = Some (fd, h) → conds_eval cols conds →
  ∀ l (e : SeqScanExecutor) w, seq_at_rids C name h cols len conds e l → reading exact C w0 w →
  ∃ w', (∀ fuel turns, (length l ≤ turns)%nat →
    drain_rids (E := executor_of (ScanPlan T_SeqScan name cs conds n idx)) fuel turns (inl e) w = (Ret l, w')) ∧ reading exact C w0 w'.
Proof.
  intros Hf Hc l. induction l as [|r l IH]; intros e w Ha Hr.
  - pose proof (seq_at_end exact C w0 name fd h Hf cols len conds e _ w ltac:(by eexists) Hr) as E0. exists w. split; [|done].
    intros fuel turns _. destruct turns; cbn [drain_rids]; by run E0.
  - assert (rows_of C name (r :: l) ≠ []) as Hne.
    { destruct (seq_at_rids_cons C name h cols len conds e r l Ha) as (_ & l0 & l1 & _ & El & _).
      destruct (table_rid_in C name r l0 l1 El) as [bs Hb]. unfold rows_of. simpl. by rewrite Hb. }
    pose proof (seq_at_end exact C w0 name fd h Hf cols len conds e _ w ltac:(by eexists) Hr) as E0. rewrite bool_decide_eq_false_2 in E0 by done.
    destruct (seq_rids_next exact C w0 name fd h Hf cols len conds Hc e r l w Ha Hr) as (e' & w1 & E1 & Hr1 & Ha1).
    pose proof (proj1 (seq_at_rids_cons C name h cols len conds e r l Ha)) as Er.
    destruct (IH e' w1 Ha1 Hr1) as (w2 & E3 & Hr2). exists w2. split; [|done]. intros fuel turns Hn.
    destruct turns as [|k]; [simpl in Hn; lia|]. cbn [drain_rids]. run E0. specialize (E3 fuel k ltac:(simpl in Hn; lia)).
    assert (∀ x : SeqScanExecutor + IndexScanExecutor, x = inl e → nextTuple fuel x w = (Ret (inl e'), w1)) as E2.
    { intros x ->. simpl. by run E1. }
    cbn [executor_of]. rewrite (st_bind_ret _ _ _ _ _ (E2 _ eq_refl)).
    cbn [executor_of] in E3. rewrite (st_bind_ret _ _ _ _ _ E3). simpl. by rewrite Er.
Qed.

(** The ids of the records of a table that satisfy conditions *)
Definition hits C name tab conds : list Rid := scan_rids C name (tm_cols tab) conds.

Lemma new_scan_ready P C id t c name tab conds w : ready P C id t w → txn_ c = Some id → get_table (db_ (sm w)) name = Ret tab →
  ∃ r w' t', new_SeqScanExecutor name conds c w = (r, w') ∧ ready P C id t' w' ∧ sm w' = sm w ∧
    match r with
    | Ret e => ∃ fd h, fhs_ (sm w) !! name = Some (fd, h) ∧ seq_static name (tm_cols tab) (record_size h) conds e
    | Throw e => refused e
    end.
Proof.
  intros Hr Ec Eg. destruct (rd_files _ _ _ _ _ Hr name tab Eg) as (fd & h & Hf & El).
  destruct (lock_ready P C id t c SHARED name tab w Hr Ec Eg) as (r2 & w2 & t2 & E2 & Hr2 & Es2 & Hx).
  change (λ o fd, lock o (lock_table_id fd) SHARED) with lock_shared_on_table in E2.
  unfold new_SeqScanExecutor. run (find_table_run name tab w Eg). rewrite El, (st_bind_ret (lift_outcome _) _ w _ w) by done.
  destruct r2 as [[]|e]; [|exists (Throw e), w2, t2; by split_and!; [apply st_bind_throw| | |]].
  run E2. eexists (Ret _), w2, t2. split_and!; [done|done|done|]. exists fd, h. split; [done|]. by split_and!.
Qed.

Lemma collect_rids_spec P C id t c name tab cs n idx conds w : ready P C id t w → txn_ c = Some id →
  get_table (db_ (sm w)) name = Ret tab → conds_eval (tm_cols tab) conds →
  ∃ r w' t', (∀ fuel, (length (hits C name tab conds) ≤ fuel)%nat →
      collect_rids fuel name (ScanPlan T_SeqScan name cs conds n idx) c w = (r, w')) ∧ ready P C id t' w' ∧
    db_ (sm w') = db_ (sm w) ∧ match r with Ret l => l = hits C name tab conds | Throw e => refused e end.
Proof.
  intros Hr Ec Eg Hc.
  destruct (lock_ready P C id t c EXLUCSIVE name tab w Hr Ec Eg) as (r1 & w1 & t1 & E1 & Hr1 & Es1 & H1').
  change (λ o fd, lock o (lock_table_id fd) EXLUCSIVE) with lock_exclusive_on_table in E1.
  destruct r1 as [[]|e]; [|exists (Throw e), w1, t1; rewrite Es1; split_and!; [by intros; apply st_bind_throw|done|done|done]].
  rewrite <- Es1 in Eg |- *. destruct (new_scan_ready P C id t1 c name tab conds w1 Hr1 Ec Eg) as (r2 & w2 & t2 & E2 & Hr2 & Es2 & Hx).
  assert (∀ fuel, collect_rids fuel name (ScanPlan T_SeqScan name cs conds n idx) c w =
    (e ← (e ← new_SeqScanExecutor name conds c; mret (inl e)); e ← beginTuple fuel e;
     drain_rids (E := executor_of (ScanPlan T_SeqScan name cs conds n idx)) fuel fuel e) w1) as Ek.
  { intros fuel. unfold collect_rids. run E1. cbn [convert_plan_executor executor_of]. by rewrite bool_decide_eq_true_2. }
  destruct r2 as [e0|e].
  2:{ exists (Throw e), w2, t2. rewrite Es2. split_and!; [|done|done|done]. intros fuel _. rewrite Ek. by apply st_bind_throw, st_bind_throw. }
  destruct Hx as (fd & h & Hf & Hst). rewrite <- Es2 in Hf.
  assert (reading exact C w2 w2) as Hrd by (apply reading_init; apply (rd_writing _ _ _ _ _ Hr2)).
  destruct (seq_begin_spec exact C w2 name fd h Hf (tm_cols tab) (record_size h) conds Hc e0 w2 Hst Hrd) as (e & w3 & E3 & Hrd3 & Ha3).
  destruct (drain_rids_spec C w2 name fd h (tm_cols tab) (record_size h) conds cs n idx Hf Hc _ e w3 Ha3 Hrd3) as (w4 & E4 & Hrd4).
  destruct (reading_ready P C id t2 w2 w4 Hr2 Hrd4) as [Hr4 Ed4]. exists (Ret (hits C name tab conds)), w4, t2.
  split_and!; [|done|by rewrite Ed4, Es2|done]. intros fuel Hfuel. rewrite Ek.
  assert (∀ x : SeqScanExecutor + IndexScanExecutor, x = inl e0 → beginTuple fuel x w2 = (Ret (inl e), w3)) as E5 by (intros x ->; simpl; by run E3).
  eapply eq_trans; [apply (st_bind_ret _ _ _ (inl e0) w2); by eapply eq_trans; [eapply st_bind_ret; exact E2|]|].
  rewrite (st_bind_ret _ _ _ _ _ (E5 _ eq_refl)). by apply E4.
Qed.

(** The WHERE clause of a statement on one table, for one record *)
Definition where_holds (db : DbMeta) name (conds : list Condition) (record : list Z) : bool := conds_hold db {[name := record]} conds.

Lemma where_satisfies C db name conds record r : known C db name → Forall (cond_typed db [name]) conds → C !! (name, r) = Some record →
  satisfies (tcols db name) conds record = where_holds db name conds record.
Proof using.
  intros Hk Hc Hb. unfold where_holds. rewrite <- (satisfies_flat C db [name] conds); [|by constructor|done|].
  - assert (leaf_cols db [name] = tcols db name) as -> by apply app_nil_r. f_equal. unfold flat, row_of. simpl. by rewrite lookup_singleton_eq, app_nil_r.
  - intros t' ->%list_elem_of_singleton. unfold row_of. rewrite lookup_singleton_eq. exact (sh_rows _ _ _ _ (kn_shape _ _ _ Hk) r record Hb).
Qed.

Lemma elem_hits C db name tab conds r : known C db name → get_table db name = Ret tab → Forall (cond_typed db [name]) conds →
  r ∈ hits C name tab conds ↔ ∃ record, C !! (name, r) = Some record ∧ where_holds db name conds record = true.
Proof using.
  intros Hk Eg Hc. unfold hits, scan_rids, rid_matches. rewrite list_elem_of_filter, elem_table_rids.
  assert (tm_cols tab = tcols db name) as -> by (unfold tcols; by rewrite Eg). split.
  - intros [Hm [record Hb]]. exists record. split; [done|]. by rewrite Hb, (where_satisfies C db name conds record r Hk Hc Hb) in Hm.
  - intros (record & Hb & Hw). rewrite Hb, (where_satisfies C db name conds record r Hk Hc Hb). split; [done|by eexists].
Qed.

Lemma hits_nodup C name tab conds : NoDup (hits C name tab conds).
Proof using.
  apply NoDup_filter. pose proof (table_rids_sorted C name) as Hs. induction Hs as [|x l _ IH Hx]; constructor; [|done].
  intros Hin. rewrite Forall_forall in Hx. specialize (Hx x Hin). unfold rid_lt in Hx. lia.
Qed.

(** The tables after a DELETE and an UPDATE *)
Definition is_hit (db : DbMeta) name (conds : list Condition) (k : string * Rid) (record : list Z) : bool :=
  bool_decide (k.1 = name) && where_holds db name conds record.
Definition deleted (db : DbMeta) name (conds : list Condition) C : tables :=
  map_imap (λ k record, if is_hit db name conds k record then None else Some record) C.
Definition updated (db : DbMeta) name (conds : list Condition) (f : list Z → list Z) C : tables :=
  map_imap (λ k record, Some (if is_hit db name conds k record then f record else record)) C.

Lemma hit_decide C db name tab conds k record : known C db name → get_table db name = Ret tab → Forall (cond_typed db [name]) conds →
  C !! k = Some record → bool_decide (k.1 = name ∧ k.2 ∈ hits C name tab conds) = is_hit db name conds k record.
Proof using.
  intros Hk Eg Hc Hb. unfold is_hit. destruct k as [name' r]. cbn [fst snd]. destruct (decide (name' = name)) as [->|Hne].
  - rewrite (bool_decide_eq_true_2 (name = name)) by done. cbn [andb]. destruct (where_holds db name conds record) eqn:Ew.
    + apply bool_decide_eq_true_2. split; [done|]. apply (elem_hits C db name tab conds r Hk Eg Hc). by exists record.
    + apply bool_decide_eq_false_2. intros [_ (b & Hb' & Hw)%(elem_hits C db name tab conds r Hk Eg Hc)]. congruence.
  - rewrite !bool_decide_eq_false_2; [done|done|]. by intros [? _].
Qed.

Lemma update_rows_ext name f g l C : (∀ record, f record = g record) → update_rows name f l C = update_rows name g l C.
Proof using.
  intros Hfg. revert C. induction l as [|r l IH]; intros C; [done|]. cbn [update_rows fold_left]. unfold update_rows in IH. rewrite <- IH. f_equal.
  apply alter_ext. intros x _. apply Hfg.
Qed.

Lemma delete_hits C db name tab conds : known C db name → get_table db name = Ret tab → Forall (cond_typed db [name]) conds →
  delete_rows name (hits C name tab conds) C = deleted db name conds C.
Proof using.
  intros Hk Eg Hc. apply map_eq. intros k. rewrite lookup_delete_rows. unfold deleted. rewrite map_lookup_imap.
  destruct (C !! k) as [record|] eqn:Hb; [|by case_bool_decide]. rewrite (hit_decide C db name tab conds k record Hk Eg Hc Hb). cbn [mbind option_bind]. by destruct (is_hit _ _ _ _ _).
Qed.

Lemma update_hits C db name tab conds f : known C db name → get_table db name = Ret tab → Forall (cond_typed db [name]) conds →
  update_rows name f (hits C name tab conds) C = updated db name conds f C.
Proof using.
  intros Hk Eg Hc. apply map_eq. intros k. rewrite lookup_update_rows by apply hits_nodup. unfold updated. rewrite map_lookup_imap.
  destruct (C !! k) as [record|] eqn:Hb; [|by case_bool_decide]. rewrite (hit_decide C db name tab conds k record Hk Eg Hc Hb). cbn [mbind option_bind]. by destruct (is_hit _ _ _ _ _).
Qed.

(** What analysis and planning of the WHERE clause give *)
Lemma where_plan C db name sv conds tab : catalog C db → where_clause db [name] sv = Ret conds → get_table db name = Ret tab →
  no_index db name → Forall (not_mixed db) conds →
  known C db name ∧ Forall (cond_typed db [name]) conds ∧ conds_eval (tm_cols tab) conds ∧
  ∃ cs n, scan_plan db name conds = Ret (ScanPlan T_SeqScan name cs conds n []).
Proof using.
  intros Hcat Ew Eg Hi Hm. assert (known C db name) as Hk by (apply Hcat; apply get_table_tabs in Eg; by eexists).
  assert (Forall (cond_typed db [name]) conds) as Hc.
  { pose proof (where_clause_spec C db [name] sv conds ltac:(by constructor) Ew) as Hch. rewrite Forall_forall in Hch, Hm |- *.
    intros c Hin. apply (checked_typed C); [by constructor|by apply Hch|by apply Hm]. }
  split_and!; [done|done| |by apply (scan_plan_spec C)]. pose proof (conds_eval_typed C db [name] conds ltac:(by constructor) Hc) as He.
  assert (leaf_cols db [name] = tm_cols tab) as <-; [|done]. unfold leaf_cols. simpl. rewrite app_nil_r. unfold tcols. by rewrite Eg.
Qed.

(* ------------------------------------------------------------------ *)
(** ** The statements                                                   *)
(* ------------------------------------------------------------------ *)

(** The executors of DELETE and UPDATE are made for the records found. *)
Lemma find_lock {A} P C id t c name tab (k : TabMeta → A) w : ready P C id t w → txn_ c = Some id → get_table (db_ (sm w)) name = Ret tab →
  ∃ r w' t', (tab ← find_table name; lock_on_table lock_exclusive_on_table c name ;; mret (k tab)) w = (r, w') ∧
    ready P C id t' w' ∧ sm w' = sm w ∧ match r with Ret a => a = k tab | Throw e => refused e end.
Proof.
  intros Hr Ec Eg. run (find_table_run name tab w Eg).
  destruct (lock_ready P C id t c EXLUCSIVE name tab w Hr Ec Eg) as (r1 & w1 & t1 & E1 & Hr1 & Es1 & Hx).
  change (λ o fd, lock o (lock_table_id fd) EXLUCSIVE) with lock_exclusive_on_table in E1.
  destruct r1 as [[]|e]; [run E1; by exists (Ret (k tab)), w1, t1|exists (Throw e), w1, t1; split_and!; [by apply st_bind_throw|done|done|done]].
Qed.

Lemma found_start {A B} P C id t c name tab cs n idx conds (k : list Rid → TabMeta → A) (g : A → B) w :
  ready P C id t w → txn_ c = Some id →
  get_table (db_ (sm w)) name = Ret tab → conds_eval (tm_cols tab) conds →
  ∃ r w' t', (∀ fuel, (length (hits C name tab conds) ≤ fuel)%nat →
             (rids ← collect_rids fuel name (ScanPlan T_SeqScan name cs conds n idx) c;
              root ← (tab ← find_table name; lock_on_table lock_exclusive_on_table c name ;; mret (k rids tab)); mret (g root)) w = (r, w')) ∧
    ready P C id t' w' ∧ db_ (sm w') = db_ (sm w) ∧
    match r with Ret a => a = g (k (hits C name tab conds) tab) | Throw e => refused e end.
Proof.
  intros Hr Ec Eg Hc. destruct (collect_rids_spec P C id t c name tab cs n idx conds w Hr Ec Eg Hc) as (r1 & w1 & t1 & E1 & Hr1 & Ed1 & Hl).
  destruct r1 as [l|e]; [|exists (Throw e), w1, t1; split_and!; [intros; apply st_bind_throw; auto|done|done|done]]. subst l. rewrite <- Ed1 in Eg |- *.
  destruct (find_lock P C id t1 c name tab (k (hits C name tab conds)) w1 Hr1 Ec Eg) as (r2 & w2 & t2 & E2 & Hr2 & Es2 & Ha). rewrite <- Es2.
  destruct r2 as [a|e]; [|exists (Throw e), w2, t2; split_and!; [intros fuel Hf; run (E1 fuel Hf); by apply st_bind_throw|done|done|done]].
  subst a. eexists (Ret _), w2, t2. split_and!; [|done|done|reflexivity]. intros fuel Hf. run (E1 fuel Hf). by run E2.
Qed.

(** The statement, once it is planned and started. *)
Lemma run_started s tree q p fuel r w : do_analyze (db_ (sm (rmdb s))) tree = Ret q → plan_query (db_ (sm (rmdb s))) (knobs s) q = Ret p →
  portal_start fuel p (ctx s) (rmdb s) = (r, w) →
  run_tree size fuel tree s =
    match r with Ret stmt => portal_run size fuel stmt (after w (out s) [] s) | Throw e => (Throw e, after w (out s) [] s) end.
Proof using.
  intros Eq Ep E. unfold run_tree. run (eq_refl : get_st s = (Ret s, s)). rewrite Eq, (st_bind_ret (lift_outcome _) _ s q s) by done.
  rewrite Ep, (st_bind_ret (lift_outcome _) _ s p s) by done. apply on_rmdb_run in E. destruct r; [by run E|by apply st_bind_throw].
Qed.

(** DELETE removes exactly the records that satisfy its WHERE clause.  For enough
    fuel the statement of a running transaction ends: a table lock is refused and
    the tables are as before, or the records of the table that satisfy the
    conditions are gone and all others kept, and the write set of the transaction
    still leads back to what the tables would hold without it. *)
Lemma delete_statement P C id t name sv q s (Hr : ready P C id t (rmdb s)) (Hx : txn_ (ctx s) = Some id)
    (Hq : do_analyze (db_ (sm (rmdb s))) (DeleteStmt name sv) = Ret q) (Hi : no_index (db_ (sm (rmdb s))) name)
    (Hm : Forall (not_mixed (db_ (sm (rmdb s)))) (q_conds q)) :
  ∃ n r w t', (∀ fuel, (n ≤ fuel)%nat → run_tree size fuel (DeleteStmt name sv) s = (r, after w (out s) [] s)) ∧
    db_ (sm w) = db_ (sm (rmdb s)) ∧
    match r with
    | Ret _ => ready P (deleted (db_ (sm (rmdb s))) name (q_conds q) C) id t' w
    | Throw e => refused e ∧ ready P C id t' w
    end.
Proof.
  pose proof (rd_catalog _ _ _ _ _ Hr) as Hcat. pose proof Hq as Hq'. cbn [do_analyze] in Hq'. apply out_bind_ret_inv in Hq' as (tab & Eg & Hq').
  apply out_bind_ret_inv in Hq' as (conds & Ew & Eq). assert (q_conds q = conds) as Ec by by injection Eq as <-. rewrite Ec in *.
  destruct (where_plan C _ name sv conds tab Hcat Ew Eg Hi Hm) as (Hk & Hc & He & cs & n & Es).
  exists (length (hits C name tab conds)).
  set (plan := DMLPlan T_Delete (ScanPlan T_SeqScan name cs conds n []) name [] conds []).
  destruct (found_start P C id t (ctx s) name tab cs n [] conds (λ rids tab, mkDelete tab rids name)
    (λ root, mkPortalStmt PORTAL_DML_WITHOUT_SELECT [] (DeleteRoot root) plan) (rmdb s) Hr Hx Eg He) as (r1 & w1 & t1 & E1 & Hr1 & Ed1 & Hp).
  assert (plan_query (db_ (sm (rmdb s))) (knobs s) q = Ret plan) as Ep by (injection Eq as <-; unfold plan_query, do_planner; simpl; by rewrite Es).
  pose proof (λ fuel Hf, run_started s _ q plan fuel r1 w1 Hq Ep (E1 fuel Hf)) as Es'. clear E1. destruct r1 as [stmt|e]; [|by exists (Throw e), w1, t1]. subst stmt.
  rewrite <- Ed1 in Eg, Hi. destruct (delete_loop size exact explicit P C id t1 (ctx s) name tab (hits C name tab conds) w1) as (w2 & t2 & E2 & Hw2 & Hk2).
  - apply Hr1.
  - done.
  - apply (plain_ready P C id t1 w1); [done|done|by apply Hi].
  - apply hits_nodup.
  - intros r Hin. apply (elem_hits C (db_ (sm (rmdb s))) name tab conds r Hk) in Hin as (b & Hb & _); [by exists b|by rewrite <- Ed1|done].
  - exists (Ret tt), w2, t2. split_and!; [|by rewrite (kp_db _ _ Hk2)|].
    + intros fuel Hf. rewrite (Es' fuel Hf). unfold portal_run. cbn [ps_tag ps_root]. run (eq_refl : get_st (after w1 (out s) [] s) = (Ret (after w1 (out s) [] s), after w1 (out s) [] s)).
      cbn [run_dml]. pose proof (on_rmdb_run _ (after w1 (out s) [] s) _ _ E2) as E3. by rewrite after_after in E3.
    + rewrite <- (delete_hits C _ name tab conds Hk ltac:(by rewrite <- Ed1) Hc). by apply (ready_kept P C id t1 w1).
Qed.

(** UPDATE changes exactly the records that satisfy its WHERE clause.  For enough
    fuel the statement of a running transaction ends: a table lock is refused or a
    value does not fit its column, and the tables are as before; or the SET
    clauses are written into the records that satisfied the conditions before
    the statement, each once, and all others are kept; the write set still leads
    back to what the tables would hold without the transaction. *)
Lemma update_statement P C id t name sets sv tab q s (Hr : ready P C id t (rmdb s)) (Hx : txn_ (ctx s) = Some id)
    (Hg : get_table (db_ (sm (rmdb s))) name = Ret tab)
    (Hq : do_analyze (db_ (sm (rmdb s))) (UpdateStmt name sets sv) = Ret q) (Hi : no_index (db_ (sm (rmdb s))) name)
    (Hm : Forall (not_mixed (db_ (sm (rmdb s)))) (q_conds q)) (Hv : Forall (λ sc, val_bytes (sc_rhs sc)) (q_set_clauses q)) :
  ∃ n r w t', (∀ fuel, (n ≤ fuel)%nat → run_tree size fuel (UpdateStmt name sets sv) s = (r, after w (out s) [] s)) ∧
    db_ (sm w) = db_ (sm (rmdb s)) ∧
    match r with
    | Ret _ => ready P (updated (db_ (sm (rmdb s))) name (q_conds q)
                 (λ record, match apply_sets tab (q_set_clauses q) record with Ret new => new | Throw _ => record end) C) id t' w
    | Throw e => (refused e ∨ ∀ record, apply_sets tab (q_set_clauses q) record = Throw e) ∧ ready P C id t' w
    end.
Proof.
  pose proof (rd_catalog _ _ _ _ _ Hr) as Hcat. pose proof Hq as Hq'. cbn [do_analyze] in Hq'. apply out_bind_ret_inv in Hq' as (tab' & Eg & Hq').
  rewrite Hg in Eg. injection Eg as <-. rename Hg into Eg. apply out_bind_ret_inv in Hq' as (clauses & Esc & Hq').
  apply out_bind_ret_inv in Hq' as (conds & Ew & Eq). assert (q_conds q = conds ∧ q_set_clauses q = clauses) as [Ec Ecl] by by injection Eq as <-. rewrite Ec, Ecl in *.
  destruct (where_plan C _ name sv conds tab Hcat Ew Eg Hi Hm) as (Hk & Hc & He & cs & n & Es).
  exists (length (hits C name tab conds)).
  set (plan := DMLPlan T_Update (ScanPlan T_SeqScan name cs conds n []) name [] conds clauses).
  destruct (found_start P C id t (ctx s) name tab cs n [] conds (λ rids tab, mkUpdate tab rids name clauses)
    (λ root, mkPortalStmt PORTAL_DML_WITHOUT_SELECT [] (UpdateRoot root) plan) (rmdb s) Hr Hx Eg He) as (r1 & w1 & t1 & E1 & Hr1 & Ed1 & Hp).
  assert (plan_query (db_ (sm (rmdb s))) (knobs s) q = Ret plan) as Ep by (injection Eq as <-; unfold plan_query, do_planner; simpl; by rewrite Es).
  pose proof (λ fuel Hf, run_started s _ q plan fuel r1 w1 Hq Ep (E1 fuel Hf)) as Es'. clear E1. destruct r1 as [stmt|e]; [|exists (Throw e), w1, t1; split_and!; [done|done|by left|done]]. subst stmt.
  rewrite <- Ed1 in Eg, Hi. set (e := mkUpdate tab (hits C name tab conds) name clauses).
  destruct (update_loop size exact explicit P C id t1 (ctx s) e (hits C name tab conds) w1) as (r2 & w2 & t2 & C2 & E2 & Hw2 & Hk2 & Hres).
  - apply Hr1.
  - done.
  - apply (plain_ready P C id t1 w1); [done|done|by apply Hi].
  - exact Hv.
  - intros r Hin. apply (elem_hits C (db_ (sm (rmdb s))) name tab conds r Hk) in Hin as (b & Hb & _); [by exists b|by rewrite <- Ed1|done].
  - pose proof (ready_kept P C id t1 w1 P C2 t2 w2 Hr1 Hw2 Hk2) as Hr2. exists r2, w2, t2. split_and!; [|by rewrite (kp_db _ _ Hk2)|].
    + intros fuel Hf. rewrite (Es' fuel Hf). unfold portal_run. cbn [ps_tag ps_root]. run (eq_refl : get_st (after w1 (out s) [] s) = (Ret (after w1 (out s) [] s), after w1 (out s) [] s)).
      cbn [run_dml]. pose proof (on_rmdb_run _ (after w1 (out s) [] s) _ _ E2) as E3. by rewrite after_after in E3.
    + cbn [e up_tab set_clauses_ up_tab_name] in Hres. assert (∀ record, apply_sets tab clauses record = match set_fields tab clauses with Ret us => Ret (put_fields us record) | Throw e => Throw e end) as Ea by (intros; apply apply_sets_eq).
      rewrite <- (update_hits C _ name tab conds _ Hk ltac:(by rewrite <- Ed1) Hc). destruct (set_fields tab clauses) as [us|x].
      * destruct Hres as [-> ->]. erewrite update_rows_ext; [exact Hr2|]. intros record. by rewrite Ea.
      * destruct Hres as [-> ->]. destruct (hits C name tab conds); [exact Hr2|]. split; [|done]. right. intros record. by rewrite Ea.
Qed.

Lemma insert_start P C id t c name tab vals fuel p w : ready P C id t w → txn_ c = Some id → get_table (db_ (sm w)) name = Ret tab →
  ∃ r w' t', portal_start fuel (DMLPlan T_Insert p name vals [] []) c w = (r, w') ∧ ready P C id t' w' ∧ sm w' = sm w ∧
    match r with
    | Ret stmt => length vals = length (tm_cols tab) ∧
        stmt = mkPortalStmt PORTAL_DML_WITHOUT_SELECT [] (InsertRoot (mkInsert tab vals name)) (DMLPlan T_Insert p name vals [] [])
    | Throw e => refused e ∨ (length vals ≠ length (tm_cols tab) ∧ e = InvalidValueCountError)
    end.
Proof.
  intros Hr Ec Eg. cbn [portal_start]. unfold new_InsertExecutor. destruct (Nat.eqb_spec (length vals) (length (tm_cols tab))) as [El|Hne].
  - destruct (find_lock P C id t c name tab (λ tab, mkInsert tab vals name) w Hr Ec Eg) as (r & w1 & t1 & E1 & Hr1 & Es1 & Hx).
    assert ((root ← (tab ← find_table name; if negb (length vals =? length (tm_cols tab))%nat then throw InvalidValueCountError else
      lock_on_table lock_exclusive_on_table c name ;; mret (mkInsert tab vals name)); mret root) w = (r, w1)) as E2.
    { rewrite (st_bind_ret _ _ _ _ _ (find_table_run name tab w Eg)) in E1. unfold mbind at 1, st_bind at 1. run (find_table_run name tab w Eg).
      rewrite (proj2 (Nat.eqb_eq _ _) El). cbn [negb]. rewrite E1. by destruct r. }
    destruct r as [e|e].
    + subst e. eexists (Ret _), w1, t1. split_and!; [|done|done|done|reflexivity]. apply st_bind_inv in E2 as [(e & w2 & E2 & [= -> ->])|(x & _ & ?)]; [|done]. by run E2.
    + exists (Throw e), w1, t1. split_and!; [|done|done|by left]. apply st_bind_inv in E2 as [(x & w2 & _ & ?)|(x & E2 & [= <-])]; [done|]. by apply st_bind_throw.
  - exists (Throw InvalidValueCountError), w, t. split_and!; [|done|done|by right]. apply st_bind_throw. run (find_table_run name tab w Eg).
    by rewrite (proj2 (Nat.eqb_neq _ _) Hne).
Qed.

(** INSERT adds one record with the values.  The statement of a running
    transaction ends: a table lock is refused, the number of values is wrong or a
    value does not fit its column, and the tables are as before; or a record id
    that was free holds the encoded values, all records are kept, and the write
    set still leads back to what the tables would hold without the transaction. *)
Lemma insert_statement P C id t name vals tab q s (Hr : ready P C id t (rmdb s)) (Hx : txn_ (ctx s) = Some id)
    (Hg : get_table (db_ (sm (rmdb s))) name = Ret tab)
    (Hq : do_analyze (db_ (sm (rmdb s))) (InsertStmt name vals) = Ret q) (Hi : no_index (db_ (sm (rmdb s))) name)
    (Hmax : ∀ fd h, fhs_ (sm (rmdb s)) !! name = Some (fd, h) → num_pages h < int32_max) (Hv : Forall val_bytes (q_values q)) :
  let empty_row := replicate (Z.to_nat (tlen (db_ (sm (rmdb s))) name)) 0 in
  ∃ r w t', (∀ fuel, run_tree size fuel (InsertStmt name vals) s = (r, after w (out s) [] s)) ∧ db_ (sm w) = db_ (sm (rmdb s)) ∧
    match r with
    | Ret _ => ∃ rid record, C !! (name, rid) = None ∧ write_values (q_values q) (tm_cols tab) empty_row = Ret record ∧
        ready P (<[(name, rid) := record]> C) id t' w
    | Throw e => (refused e ∨ (length (q_values q) ≠ length (tm_cols tab) ∧ e = InvalidValueCountError) ∨
                  write_values (q_values q) (tm_cols tab) empty_row = Throw e) ∧ ready P C id t' w
    end.
Proof.
  intros empty_row. pose proof Hq as Hq'. cbn [do_analyze] in Hq'. apply out_bind_ret_inv in Hq' as (tab' & Eg & Hq').
  rewrite Hg in Eg. injection Eg as <-. rename Hg into Eg. apply out_bind_ret_inv in Hq' as (values & Eval & Eq).
  assert (q_values q = values) as Ev by by injection Eq as <-. rewrite Ev in *.
  destruct (insert_start P C id t (ctx s) name tab values 0 NoPlan (rmdb s) Hr Hx Eg) as (r1 & w1 & t1 & E1 & Hr1 & Es1 & Hp).
  assert (plan_query (db_ (sm (rmdb s))) (knobs s) q = Ret (DMLPlan T_Insert NoPlan name values [] [])) as Ep by by injection Eq as <-.
  pose proof (λ fuel, run_started s _ q _ fuel r1 w1 Hq Ep E1) as Es. clear E1.
  destruct r1 as [stmt|e]; [|exists (Throw e), w1, t1; split_and!; [done|by rewrite Es1|by destruct Hp as [|]; [left|right; left]|done]].
  destruct Hp as [El ->]. destruct (rd_files _ _ _ _ _ Hr name tab Eg) as (fd & h & Hf & Elen).
  assert (tlen (db_ (sm (rmdb s))) name = record_size h) as Etl by (unfold tlen, tcols; by rewrite Eg, Elen).
  destruct (insert_spec size exact explicit P C id t1 (ctx s) (mkInsert tab values name) w1) as (r2 & w2 & E2 & Hres).
  - apply Hr1.
  - done.
  - apply (plain_ready P C id t1 w1); rewrite ?Es1; [done|done|by apply Hi].
  - rewrite Es1. exact Hmax.
  - exact Hv.
  - cbn [in_tab in_values in_tab_name] in Hres.
    assert (write_values values (tm_cols tab) empty_row = match row_fields values (tm_cols tab) with Ret us => Ret (put_fields us empty_row) | Throw e => Throw e end) as Ew
      by apply write_values_eq.
    assert (∀ fuel r, insert_Next size (mkInsert tab values name) (ctx s) w1 = (r, w2) →
      portal_run size fuel (mkPortalStmt PORTAL_DML_WITHOUT_SELECT [] (InsertRoot (mkInsert tab values name)) (DMLPlan T_Insert NoPlan name values [] []))
        (after w1 (out s) [] s) = (match r with Ret _ => Ret tt | Throw e => Throw e end, after w2 (out s) [] s)) as Erun.
    { intros fuel r E. unfold portal_run. cbn [ps_tag ps_root]. run (eq_refl : get_st (after w1 (out s) [] s) = (Ret (after w1 (out s) [] s), after w1 (out s) [] s)).
      cbn [run_dml]. pose proof (on_rmdb_run _ (after w1 (out s) [] s) _ _ E) as E3. rewrite after_after in E3.
      destruct r; [by run E3|by apply st_bind_throw]. }
    assert (∀ fuel, run_tree size fuel (InsertStmt name vals) s = (match r2 with Ret _ => Ret tt | Throw e => Throw e end, after w2 (out s) [] s)) as Er2
      by (intros fuel; rewrite Es; by apply Erun).
    destruct r2 as [rid|e].
    + destruct Hres as (us & n & t2 & Eu & Hn & Hnone & Hw2 & _ & Hk2). exists (Ret tt), w2, t2. split_and!; [done|by rewrite (kp_db _ _ Hk2), Es1|].
      rewrite (Hn fd h) in Hw2 by by rewrite Es1. unfold empty_row in Ew |- *. rewrite Etl, Eu in Ew. rewrite Etl.
      eexists rid, _. split_and!; [done|exact Ew|]. by apply (ready_kept P C id t1 w1).
    + destruct Hres as [Eu ->]. exists (Throw e), w1, t1. split_and!; [done|by rewrite Es1| |done]. right. right. by rewrite Ew, Eu.
Qed.

(* ------------------------------------------------------------------ *)
(** ** Data changes as changes of tables                                *)
(* ------------------------------------------------------------------ *)

(** The specification: what a data change makes of the tables.  It may always be
    refused a lock. *)
Inductive change (db : DbMeta) (q : Query) C : TreeNode → outcome unit → tables → Prop :=
  | change_refused tree e : refused e → change db q C tree (Throw e) C
  | change_delete name sv : change db q C (DeleteStmt name sv) (Ret tt) (deleted db name (q_conds q) C)
  | change_update name sets sv tab : get_table db name = Ret tab →
      change db q C (UpdateStmt name sets sv) (Ret tt)
        (updated db name (q_conds q) (λ record, match apply_sets tab (q_set_clauses q) record with Ret new => new | Throw _ => record end) C)
  | change_update_fails name sets sv tab e : get_table db name = Ret tab →
      (∀ record, apply_sets tab (q_set_clauses q) record = Throw e) → change db q C (UpdateStmt name sets sv) (Throw e) C
  | change_insert name vals tab rid record : get_table db name = Ret tab → C !! (name, rid) = None →
      write_values (q_values q) (tm_cols tab) (replicate (Z.to_nat (tlen db name)) 0) = Ret record →
      change db q C (InsertStmt name vals) (Ret tt) (<[(name, rid) := record]> C)
  | change_insert_count name vals tab : get_table db name = Ret tab → length (q_values q) ≠ length (tm_cols tab) →
      change db q C (InsertStmt name vals) (Throw InvalidValueCountError) C
  | change_insert_fails name vals tab e : get_table db name = Ret tab →
      write_values (q_values q) (tm_cols tab) (replicate (Z.to_nat (tlen db name)) 0) = Throw e →
      change db q C (InsertStmt name vals) (Throw e) C.

(** The table a data change is about *)
Definition changed_table (tree : TreeNode) : option string :=
  match tree with InsertStmt name _ | DeleteStmt name _ | UpdateStmt name _ _ => Some name | _ => None end.

(** A data change that analysis accepts, on a table without indexes, no DATETIME
    compared with a STRING, and page numbers left if it inserts. *)
Record accepted s (tree : TreeNode) (q : Query) : Prop := {
  ap_query : do_analyze (db_ (sm (rmdb s))) tree = Ret q;
  ap_table : ∃ name, changed_table tree = Some name ∧ no_index (db_ (sm (rmdb s))) name ∧
    match tree with InsertStmt _ _ => ∀ fd h, fhs_ (sm (rmdb s)) !! name = Some (fd, h) → num_pages h < int32_max | _ => True end;
  ap_conds : Forall (not_mixed (db_ (sm (rmdb s)))) (q_conds q);
  ap_sets : Forall (λ sc, val_bytes (sc_rhs sc)) (q_set_clauses q);
  ap_values : Forall val_bytes (q_values q)
}.

(** The statement ends with [r] in [s'], for all fuel that is enough. *)
Definition ends s tree r s' : Prop := ∃ n, ∀ fuel, (n ≤ fuel)%nat → run_tree size fuel tree s = (r, s').

Lemma change_spec P C id t s tree q : ready P C id t (rmdb s) → txn_ (ctx s) = Some id → accepted s tree q →
  ∃ r w t' C', ends s tree r (after w (out s) [] s) ∧ db_ (sm w) = db_ (sm (rmdb s)) ∧
    change (db_ (sm (rmdb s))) q C tree r C' ∧ ready P C' id t' w.
Proof.
  intros Hr Hx [Hq (name & Et & Hi & Hmax) Hm Hs Hv]. destruct tree as [| | | | | | | | | | | |name' vals|name' sv|name' sets sv| |]; try discriminate Et; injection Et as ->.
  - pose proof Hq as Hq'. cbn [do_analyze] in Hq'. apply out_bind_ret_inv in Hq' as (tab & Eg & _). 
    destruct (insert_statement P C id t name vals tab q s Hr Hx Eg Hq Hi Hmax Hv) as (r & w & t' & E0 & Ed & Hres). exists r, w, t'.
    assert (ends s (InsertStmt name vals) r (after w (out s) [] s)) as E by (by exists 0%nat).
    destruct r as [[]|e].
    + destruct Hres as (rid & record & Hn & Ew & Hr'). eexists. split_and!; [done|done|by eapply change_insert|done].
    + destruct Hres as [[Hf|[[Hc ->]|Hf]] Hr']; exists C; split_and!; try done; [by constructor|by eapply change_insert_count|by eapply change_insert_fails].
  - destruct (delete_statement P C id t name sv q s Hr Hx Hq Hi Hm) as (n & r & w & t' & E0 & Ed & Hres). exists r, w, t'.
    assert (ends s (DeleteStmt name sv) r (after w (out s) [] s)) as E by (by exists n). destruct r as [[]|e].
    + eexists. split_and!; [done|done|by constructor|done].
    + destruct Hres as [He Hr']. exists C. split_and!; [done|done|by constructor|done].
  - pose proof Hq as Hq'. cbn [do_analyze] in Hq'. apply out_bind_ret_inv in Hq' as (tab & Eg & _).
    destruct (update_statement P C id t name sets sv tab q s Hr Hx Eg Hq Hi Hm Hs) as (n & r & w & t' & E0 & Ed & Hres). exists r, w, t'.
    assert (ends s (UpdateStmt name sets sv) r (after w (out s) [] s)) as E by (by exists n). destruct r as [[]|e].
    + eexists. split_and!; [done|done|by constructor|done].
    + destruct Hres as [[He|He] Hr']; exists C; split_and!; try done; [by constructor|by eapply change_update_fails].
Qed.

(** C3: data changes refine their specification.  For enough fuel an accepted
    INSERT, DELETE or UPDATE of a running transaction ends with the result and the
    tables the specification allows: the records that satisfy the WHERE clause
    removed or rewritten, one record added under a free id, or, when a lock is
    refused or a value does not fit, no change at all.  The write set still leads
    back to what the tables would hold without the transaction. *)
Theorem sql_change_correct P C id t s tree q (Hr : ready P C id t (rmdb s)) (Hx : txn_ (ctx s) = Some id) (Ha : accepted s tree q) :
  ∃ r w t' C', ends s tree r (after w (out s) [] s) ∧ db_ (sm w) = db_ (sm (rmdb s)) ∧
    change (db_ (sm (rmdb s))) q C tree r C' ∧ ready P C' id t' w.
Proof. exact (change_spec P C id t s tree q Hr Hx Ha). Qed.

(** Statements of a transaction one after the other, failing or not *)
Inductive script : session → session → Prop :=
  | script_nil s : script s s
  | script_cons s tree q r s1 s2 : accepted s tree q → ends s tree r s1 → script s1 s2 → script s s2.

Lemma script_ready P C id t s s' : script s s' → ready P C id t (rmdb s) → txn_ (ctx s) = Some id →
  ∃ C' t', ready P C' id t' (rmdb s').
Proof.
  intros Hs. revert C t. induction Hs as [s|s tree q r s1 s2 Ha [n1 He] _ IH]; intros C t Hr Hx; [by exists C, t|].
  destruct (change_spec P C id t s tree q Hr Hx Ha) as (r' & w & t' & C' & [n2 E] & _ & _ & Hr'). specialize (E (Nat.max n1 n2) ltac:(lia)).
  rewrite (He (Nat.max n1 n2)) in E by lia. injection E as -> ->. by apply (IH C' t').
Qed.

(** C4: a transaction that is rolled back has had no effect.  After any accepted data
    changes, failed ones among them, abort returns, the tables hold what they held
    when the transaction began (with what other transactions have changed
    meanwhile), and its locks are released. *)
Theorem rollback_undoes P C id t s s' (Hr : ready P C id t (rmdb s)) (Hx : txn_ (ctx s) = Some id) (Hs : script s s') :
  ∃ w t', txn_abort size (Some id) true (rmdb s') = (Ret tt, w) ∧ tables_ok exact (sm w) P ∧
    txn_map w !! id = Some t' ∧ txn_state t' = ABORTED ∧ write_set t' = [] ∧ lock_set t' = ∅.
Proof.
  destruct (script_ready P C id t s s' Hs Hr Hx) as (C' & t' & [([Ht Hroom Ha _ _ _] & Hw & Hfit) _ _]).
  destruct (txn_abort size (Some id) true (rmdb s')) as [r w] eqn:E. apply (abort_spec size exact (rmdb s') P C' id t') in E; [|done..].
  destruct r as [[]|e]; [|done]. destruct E as (Ht' & _ & t1 & Hx1 & Es & Ew & El). by exists w, t1.
Qed.
End Statements.

(** DELETE FROM t WHERE id >= 0, and INSERT INTO t VALUES (9, 'bob') before it *)
Module DmlWitness.
Import RmWitness TxnWitness RecoveryWitness QueryWitness AnalyzeWitness SelectWitness.

Definition all_ids : list BinaryExpr := [mkBinary (mkAstCol "" "id") SV_OP_GE (ExprValue (IntLit 0))].
Definition del : TreeNode := DeleteStmt "t" all_ids.
Definition ins : TreeNode := InsertStmt "t" [IntLit 9; StringLit (bytes_of_string "bob")].
Definition query tree : Query := match do_analyze q_db tree with Ret q => q | Throw _ => mkQuery tree [] [] [] false [] [] [] end.
Definition t7 : Transaction := set_state GROWING (new_transaction 7).

Lemma q_active : active q_world 7 t7.
Proof.
  split.
  - by vm_compute.
  - apply reachable_inv, rtc_once. exact (lm_begin ∅ ∅ 7 eq_refl).
  - done.
  - by unfold is_int32, int32_min, int32_max.
  - by unfold is_int32, int32_min, int32_max.
Qed.

Lemma q_ready : ready false false C1 C1 7 t7 q_world.
Proof.
  split; [split; [|split]| |].
  - split; [exact q_tables_ok|exact s1_roomy|exact q_active|vm_compute; by split| |reflexivity].
    intros j [tx Hj]. change (({[7 := t7]} : gmap Z Transaction) !! j = Some tx) in Hj. apply lookup_singleton_Some in Hj as [<- _]. reflexivity.
  - constructor.
  - constructor.
  - exact q_catalog.
  - intros t tb Et. exists fd, (file_hdr st1). assert (t = "t"%string) as ->.
    { unfold get_table in Et. cbn [sm q_world db_ set_db q_db db_tabs] in Et. destruct (decide (t = "t"%string)) as [|Hne]; [done|].
      by rewrite lookup_singleton_ne in Et. }
    split; [reflexivity|]. assert (tb = q_tab) as -> by by injection Et. vm_compute. reflexivity.
Qed.

Lemma no_idx : no_index q_db "t".
Proof. by intros tb [= <-]. Qed.

Lemma del_accepted (s : Session LRU.LRUReplacer MemFS.fs) : db_ (sm (rmdb s)) = q_db → accepted s del (query del).
Proof.
  intros Ed. split; rewrite ?Ed.
  - vm_compute. reflexivity.
  - exists "t"%string. split_and!; [done|exact no_idx|done].
  - assert (∀ c, c ∈ q_conds (query del) → is_rhs_val c = true) as Hv.
    { intros c. vm_compute q_conds. by intros ->%list_elem_of_singleton. }
    apply Forall_forall. intros c Hc Hv'. rewrite (Hv c Hc) in Hv'. done.
  - constructor.
  - constructor.
Qed.

Lemma sql_change_correct_witness : ∃ r w t' C', ends 50 q_session del r (after w (out q_session) [] q_session) ∧
  ready false false C1 C' 7 t' w ∧ (r = Ret tt → C' = ∅).
Proof.
  destruct (sql_change_correct 50 false false C1 C1 7 t7 q_session del (query del) q_ready eq_refl (del_accepted q_session eq_refl))
    as (r & w & t' & C' & E & _ & Hc & Hr). exists r, w, t', C'. split; [exact E|]. split; [exact Hr|].
  intros ->. inversion Hc. vm_compute. reflexivity.
Defined.

Lemma ins_accepted : accepted q_session ins (query ins).
Proof.
  split.
  - vm_compute. reflexivity.
  - exists "t"%string. split_and!; [done|exact no_idx|]. intros g h Hf. 
    assert (fhs_ (sm (rmdb q_session)) !! "t"%string = Some (fd, file_hdr st1)) as E by reflexivity. rewrite Hf in E.
    apply Some_inj, pair_equal_spec in E as [_ ->]. vm_compute. reflexivity.
  - constructor.
  - constructor.
  - assert (q_values (query ins) = [mkValue (VBigint 9) None; mkValue (VStr (bytes_of_string "bob")) None]) as -> by (vm_compute; reflexivity).
    repeat constructor; vm_compute; intuition discriminate.
Qed.

Lemma rollback_undoes_witness : ∃ r1 s1 r2 s2 w t', ends 50 q_session ins r1 s1 ∧ ends 50 s1 del r2 s2 ∧
  txn_abort 50 (Some 7) true (rmdb s2) = (Ret tt, w) ∧ tables_ok false (sm w) C1 ∧ txn_state t' = ABORTED.
Proof.
  destruct (change_spec 50 false false C1 C1 7 t7 q_session ins (query ins) q_ready eq_refl ins_accepted) as (r1 & w1 & t1 & D1 & E1 & Ed1 & _ & Hr1).
  set (s1 := after w1 (out q_session) [] q_session) in *.
  destruct (change_spec 50 false false C1 D1 7 t1 s1 del (query del) Hr1 eq_refl (del_accepted s1 Ed1)) as (r2 & w2 & t2 & D2 & E2 & _ & _ & _).
  set (s2 := after w2 (out s1) [] s1) in *.
  destruct (rollback_undoes 50 false false C1 C1 7 t7 q_session s2 q_ready eq_refl) as (w & t' & Ea & Ht & _ & Es & _).
  - eapply script_cons; [exact ins_accepted|exact E1|]. eapply script_cons; [exact (del_accepted s1 Ed1)|exact E2|]. constructor.
  - exists r1, s1, r2, s2, w, t'. split; [exact E1|]. split; [exact E2|]. split; [exact Ea|]. split; [exact Ht|exact Es].
Defined.

End DmlWitness.
