(* ===== verification/ServerSpec.v ===== *)
(** * Transactions of the server loop

    A client's request from the transaction the server begins for it to its
    commit or rollback, and the answer. *)

From S2P Require Import Prelude Defs Text SmMeta Values Replacer Posix DiskManager BufferPool RmFile RmPage RmSpec RmManager SmManager TableSpec Printer Txn LockManager LogRecord LogManager TxnManager Recovery Executor ExecutorSpec OperatorSpec ScanExec ScanSpec Dml Ast Analyze Planner Portal Server TxnSpec RecoverySpec QuerySpec PlanSem PlannerSpec AnalyzeSpec SelectSpec DmlSpec DmlSql.

Section Lifecycle.
Context {R OS : Type} `{ReplacerLaws R, PosixLaws OS}.
Variables (size : Z) (exact explicit : bool).
Abbreviation world := (Rmdb R OS).
Implicit Types (w : world) (C P : tables) (id : Z) (t : Transaction).
Abbreviation ready := (ready exact).

(** The server between transactions: the tables hold [C]. *)
Record settled C w : Prop := {
  se_tables : tables_ok exact (sm w) C;
  se_roomy : roomy (sm w);
  se_locks : sys_inv (mkSys (txn_map w) (lock_tab w));
  se_lsn : is_int32 (global_lsn (log w));
  se_ids : ids_ok w;
  se_catalog : catalog C (db_ (sm w));
  se_files : laid_out w
}.

(** begin gives a new transaction that has written nothing. *)
Lemma begin_spec C w : settled C w → 0 ≤ next_txn_id w < int32_max →
  ∃ w' t, txn_begin size None true w = (Ret (next_txn_id w), w') ∧ ready false C C (next_txn_id w) t w' ∧ same_files w w'.
Proof.
  intros [Ht Hr Hlk Hl Hids Hc Hf] Hn. set (id := next_txn_id w).
  assert (txn_map w !! id = None) as Hnew.
  { destruct (txn_map w !! id) eqn:Ex; [|done]. specialize (Hids id ltac:(by eexists)). unfold id in Hids. lia. }
  set (w1 := mkRmdb (sm w) (log w) (lock_tab w) (txn_map w) (wrap_s 32 (id + 1)) (wrap_s 32 (next_timestamp w + 1))).
  set (t0 := set_state GROWING (set_start_ts (next_timestamp w) (new_transaction id))).
  destruct (add_log_run size exact C (set_log_prev (prev_lsn t0) (new_begin (txn_id t0))) w1 Ht Hr Hl) as (w2 & E2 & [Ht2 Hr2 Hl2 K2 X2 N2 [F2 D2]]).
  set (t := set_prev_lsn (global_lsn (log w1)) t0). set (w3 := set_txns (<[id := t]> (txn_map w2)) w2).
  exists w3, t. split; [|split; [|done]].
  - unfold txn_begin. set (wa := mkRmdb (sm w) (log w) (lock_tab w) (txn_map w) (wrap_s 32 (id + 1)) (next_timestamp w)).
    rewrite (st_bind_ret (id ← fresh_txn_id; mret (new_transaction id)) _ w (new_transaction id) wa eq_refl).
    rewrite (st_bind_ret fresh_timestamp _ wa (next_timestamp w) w1 eq_refl). cbv zeta. fold t0.
    assert ((l ← on_log (add_log_to_buffer size (Some (set_log_prev (prev_lsn t0) (new_begin (txn_id t0))))); mret (set_prev_lsn l t0)) w1 = (Ret t, w2)) as E3
      by by run E2.
    by run E3.
  - assert (id < int32_max) as Hlt by (unfold id; lia). unfold int32_max in Hlt.
    assert (wrap_s 32 (id + 1) = id + 1) as Ew by (apply wrap_s_small; [lia|]; unfold id in *; lia). simpl in *.
    split; [split; [|split; constructor]| |].
    + split; [done|done| |done| |done].
      * split; simpl; [by rewrite lookup_insert_eq| |done|unfold is_int32, int32_min, int32_max; unfold id in *; lia|exact Hl].
        rewrite X2, K2. pose proof (lm_step_inv _ _ (lm_begin (txn_map w) (lock_tab w) id Hnew) Hlk) as Hb.
        apply (sys_inv_same _ _ id (set_state GROWING (new_transaction id)) t) in Hb; [|by rewrite lookup_insert_eq|done|done].
        by rewrite insert_insert_eq in Hb.
      * intros j Hj. simpl in *. rewrite N2, Ew. destruct (decide (j = id)) as [->|Hne]; [lia|]. rewrite X2, lookup_insert_ne in Hj by done.
        specialize (Hids j Hj). fold id in Hids. lia.
    + simpl. by rewrite D2.
    + intros name tab. simpl. rewrite F2, D2. apply Hf.
Qed.

(** The locks of a transaction that ends *)
Lemma release_running C id t w : running exact explicit C id t w →
  ∃ t' w', release_all id w = (Ret tt, w') ∧ running exact explicit C id t' w' ∧ lock_set t' = ∅ ∧ write_set t' = write_set t ∧ sm w' = sm w.
Proof.
  intros [Ht Hroom [Hx [Hlt Htid Hheld] Hfin Hid Hprev] Hl Hids Hmode]. pose proof (Htid id t Hx) as Hi. simpl in Hlt, Hheld.
  destruct (release_all_spec id w t Hlt Hx Hi) as (t' & lt' & E & Hi' & Hls & (Ews & Epl & Em & Ef) & Hlt' & Hrel).
  { intros d m Hd. destruct (Hheld id m d Hd) as (u & Hu & Hin). simpl in Hu. by assert (u = t) as <- by congruence. }
  exists t'. eexists. split; [exact E|]. split; [|done]. split; [done|done| |done|exact (ids_update id t t' w Hx Hids)|congruence].
  split; simpl; [by rewrite lookup_insert_eq| |by rewrite Ef|done|by rewrite Epl]. split; simpl; [done| |].
  - intros j u. rewrite lookup_insert_Some. intros [[<- <-]|[_ Hu]]; [done|exact (Htid _ _ Hu)].
  - intros j m d [Hj Hne]%Hrel. destruct (Hheld j m d Hj) as (u & Hu & Hd). exists u. by rewrite lookup_insert_ne.
Qed.

(** Changing the object of a transaction *)
Lemma set_txn_run C id t f w : running exact explicit C id t w → txn_id (f t) = txn_id t → lock_set (f t) = lock_set t →
  ∃ w', modify_txn id f w = (Ret tt, w') ∧ sm w' = sm w ∧ txn_map w' !! id = Some (f t) ∧ sys_inv (mkSys (txn_map w') (lock_tab w')) ∧
    ids_ok w' ∧ log w' = log w ∧ (finished (f t) = finished t → prev_lsn (f t) = prev_lsn t → txn_mode (f t) = txn_mode t → running exact explicit C id (f t) w').
Proof.
  intros Hr Ei El. destruct (running_txn_id _ _ _ _ _ _ Hr) as [Hx Hid]. destruct Hr as [Ht Hroom Ha Hl Hids Hmode].
  rewrite (modify_txn_spec id f w t Hx), Ei, Hid. eexists. split; [done|]. simpl. pose proof (ids_update id t (f t) w Hx Hids) as Hids'.
  split_and!; [done|by rewrite lookup_insert_eq| |exact Hids'|done|].
  - destruct Ha as [_ Hlk _ _ _]. by eapply sys_inv_same.
  - intros Ef Ep Em. split; [done|done| |done|done|congruence]. apply (active_update id t); [done..|]. rewrite Ep. apply Ha.
Qed.

Definition ended id (st : TransactionState) w : Prop :=
  ∃ t, txn_map w !! id = Some t ∧ txn_state t = st ∧ write_set t = [] ∧ lock_set t = ∅.

Lemma settled_end C id t st w w' : running exact explicit C id t w → write_set t = [] → lock_set t = ∅ → catalog C (db_ (sm w)) → laid_out w →
  modify_txn id (set_state st) w = (Ret tt, w') → settled C w' ∧ ended id st w' ∧ sm w' = sm w.
Proof.
  intros Hr Hw Hls Hc Hf E. destruct (set_txn_run C id t (set_state st) w Hr eq_refl eq_refl) as (w2 & E2 & Es & Hx & Hlk & Hids & Eg & _).
  rewrite E in E2. injection E2 as <-. destruct Hr as [Ht Hroom _ Hl _ _]. split; [|split; [by eexists|done]].
  split; rewrite ?Es, ?Eg; try done. unfold laid_out. by rewrite Es.
Qed.

(** The log record of the end of a transaction, when there is a log manager *)
Lemma log_end C id t (logged : bool) record w : running exact explicit C id t w →
  ∃ w' t', (if logged then log_for_txn size id record ;; flush_log size else mret tt) w = (Ret tt, w') ∧ running exact explicit C id t' w' ∧
    same_files w w' ∧ write_set t' = write_set t ∧ lock_set t' = lock_set t.
Proof.
  intros Hr. destruct logged; [|by exists w, t]. destruct (log_for_txn_spec size exact explicit C id t record w Hr) as (w' & l & E & Hr' & Hf).
  by exists w', (set_prev_lsn l t).
Qed.

Lemma laid_out_files w w' : same_files w w' → laid_out w → laid_out w'.
Proof using. intros [Ef Ed] Hl. unfold laid_out. by rewrite Ef, Ed. Qed.

Lemma commit_settles P C id t logged w : ready explicit P C id t w →
  ∃ w', txn_commit size (Some id) logged w = (Ret tt, w') ∧ settled C w' ∧ ended id COMMITTED w' ∧ same_files w w'.
Proof.
  intros [(Hr & _ & _) Hc Hf]. destruct (running_txn_id _ _ _ _ _ _ Hr) as [Hx Hid]. pose proof (ac_running _ _ _ (rn_active _ _ _ _ _ _ Hr)) as Hrun.
  destruct (log_end C id t logged (new_commit id) w Hr) as (w1 & t1 & E1 & Hr1 & Hs1 & _).
  destruct (set_txn_run C id t1 (set_write_set []) w1 Hr1 eq_refl eq_refl) as (w2 & E2 & Es2 & _ & _ & _ & _ & Hr2).
  specialize (Hr2 eq_refl eq_refl eq_refl). destruct (release_running C id _ w2 Hr2) as (t3 & w3 & E3 & Hr3 & Hl3 & Hw3 & Es3).
  destruct (set_txn_run C id t3 (set_state COMMITTED) w3 Hr3 eq_refl eq_refl) as (w4 & E4 & _).
  assert (same_files w w3) as Hs3 by (destruct Hs1; split; congruence).
  destruct (settled_end C id t3 COMMITTED w3 w4 Hr3 Hw3 Hl3) as (Hse & Hen & Es4).
  - destruct Hs3 as [_ ->]. exact Hc.
  - by apply (laid_out_files w).
  - exact E4.
  - exists w4. split_and!; [|done|done|unfold same_files; by rewrite Es4].
    unfold txn_commit. rewrite (st_bind_ret (txn_obj id) _ w t w) by (unfold txn_obj; by rewrite Hx). rewrite Hrun. cbv iota.
    rewrite (st_bind_ret _ _ _ _ _ E1), (st_bind_ret _ _ _ _ _ E2), (st_bind_ret _ _ _ _ _ E3). exact E4.
Qed.

Lemma undo_writes_log id ws w r w' : undo_writes id ws w = (r, w') → log w' = log w ∧ next_txn_id w' = next_txn_id w.
Proof using.
  revert w. induction ws as [|u ws IH]; intros w E; [by injection E as _ <-|]. cbn [undo_writes] in E.
  assert (∀ r1 w1, modify_txn id (set_write_set (reverse ws)) w = (r1, w1) → log w1 = log w ∧ next_txn_id w1 = next_txn_id w) as Hm.
  { intros r1 w1. unfold modify_txn, txn_obj, mbind, st_bind. destruct (txn_map w !! id); by intros [= _ <-]. }
  assert (∀ w1 r1 w2, on_system (undo_write u) w1 = (r1, w2) → log w2 = log w1 ∧ next_txn_id w2 = next_txn_id w1) as Hs.
  { intros w1 r1 w2. unfold on_system. destruct (undo_write u (sm w1)). by intros [= _ <-]. }
  apply st_bind_inv in E as [([] & w1 & E1 & E)|(e & E1 & ->)]; apply Hm in E1 as [<- <-]; [|done].
  apply st_bind_inv in E as [([] & w2 & E2 & E)|(e & E2 & ->)]; apply Hs in E2 as [<- <-]; [|done]. by apply IH.
Qed.

Lemma abort_settles P C id t logged w : ready explicit P C id t w →
  ∃ w', txn_abort size (Some id) logged w = (Ret tt, w') ∧ settled P w' ∧ ended id ABORTED w' ∧ kept (sm w) (sm w').
Proof.
  intros [([Ht Hroom Ha Hl Hids Hmode] & Hw & Hfit) Hc Hf]. destruct Ha as [Hx Hlk Hfin Hid Hprev]. pose proof Hlk as [_ Htid _]. pose proof (Htid id t Hx) as Hi.
  destruct (undo_writes id (reverse (write_set t)) w) as [r1 w1] eqn:E1. pose proof (undo_writes_log _ _ _ _ _ E1) as [Eg1 En1].
  apply (undo_writes_spec exact id _ w C t) in E1 as E1'; [|done|by apply Forall_reverse|done|done|by rewrite reverse_involutive].
  destruct r1 as [[]|e]; [|done]. destruct E1' as (Ht1 & Ex1 & Ek1 & Hs1). rewrite undo_all_rev, (wrote_undo _ _ _ Hw) in Ht1.
  set (t1 := set_write_set [] t) in *. assert (running exact explicit P id t1 w1) as Hr1.
  { split; [done|by apply Hs1| |by rewrite Eg1| |done].
    - split; [by rewrite Ex1, lookup_insert_eq| |done|done|done]. rewrite Ex1, Ek1. by apply (sys_inv_same _ _ id t).
    - intros j Hj. rewrite En1. rewrite Ex1 in Hj. exact (ids_update id t t1 w Hx Hids j Hj). }
  destruct (release_running P id t1 w1 Hr1) as (t2 & w2 & E2 & Hr2 & Hl2 & Hw2 & Es2).
  destruct (log_end P id t2 logged (new_abort id) w2 Hr2) as (w3 & t3 & E3 & Hr3 & Hs3 & Hw3 & Hl3).
  destruct (set_txn_run P id t3 (set_state ABORTED) w3 Hr3 eq_refl eq_refl) as (w4 & E4 & _).
  assert (kept (sm w) (sm w3)) as Hk3.
  { eapply kept_trans; [by apply kept_tables|]. rewrite <- Es2. by apply kept_files. }
  pose proof (laid_out_kept w w3 Hk3 Hf) as Hf3.
  destruct (settled_end P id t3 ABORTED w3 w4 Hr3) as (Hse & Hen & Es4).
  - by rewrite Hw3, Hw2.
  - by rewrite Hl3.
  - apply (catalog_change exact w3 C); [apply Hr3|done|]. by rewrite (kp_db _ _ Hk3).
  - done.
  - exact E4.
  - exists w4. split_and!; [|done|done|by rewrite Es4].
    unfold txn_abort. rewrite (st_bind_ret (txn_obj id) _ w t w) by (unfold txn_obj; by rewrite Hx). rewrite Hfin. cbv iota.
    rewrite (st_bind_ret _ _ _ _ _ E1), (st_bind_ret _ _ _ _ _ E2), (st_bind_ret _ _ _ _ _ E3). exact E4.
Qed.
End Lifecycle.

(* ------------------------------------------------------------------ *)
(** ** A request                                                        *)
(* ------------------------------------------------------------------ *)

Section Request.
Context {R OS : Type} `{ReplacerLaws R, PosixLaws OS}.
Variables (size : Z) (exact : bool) (strerror : string) (yyparse : list Z → outcome (option (option TreeNode))).
Abbreviation world := (Rmdb R OS).
Abbreviation session := (Session R OS).
Implicit Types (w : world) (s : session) (C P : tables) (id : Z) (t : Transaction).
Abbreviation ready := (ready exact false).
Abbreviation settled := (settled exact).

(** The client has no transaction that runs. *)
Definition idle s : Prop :=
  client_txn s = INVALID_TXN_ID ∨ ∃ t, txn_map (rmdb s) !! client_txn s = Some t ∧ finished t = true.

(** The session in the transaction [id] of a single statement *)
Definition in_txn w id s : session := mkSession w (knobs s) (output_txt s) (out s) (mkContext (lock_mgr_ (ctx s)) (log_mgr_ (ctx s)) (Some id)) id.

Lemma set_transaction_spec C s : settled C (rmdb s) → idle s → log_mgr_ (ctx s) = true → 0 ≤ next_txn_id (rmdb s) < int32_max →
  ∃ w t, SetTransaction size s = (Ret tt, in_txn w (next_txn_id (rmdb s)) s) ∧ ready C C (next_txn_id (rmdb s)) t w ∧ same_files (rmdb s) w.
Proof.
  intros Hs Hidle Hlog Hn. destruct (begin_spec size exact C (rmdb s) Hs Hn) as (w1 & t1 & E1 & Hr1 & Hf1). set (id := next_txn_id (rmdb s)) in *.
  destruct (set_txn_run exact false C id t1 (set_txn_mode false) w1 (proj1 (rd_writing _ _ _ _ _ _ _ Hr1)) eq_refl eq_refl)
    as (w2 & E2 & Es2 & _ & _ & _ & _ & Hr2).
  assert (txn_mode t1 = false) as Em by apply (rn_mode _ _ _ _ _ _ (proj1 (rd_writing _ _ _ _ _ _ _ Hr1))).
  specialize (Hr2 eq_refl eq_refl ltac:(by rewrite Em)). destruct Hr1 as [(_ & Hw1 & Hfit1) Hc1 Hl1]. exists w2, (set_txn_mode false t1).
  split; [|split].
  - unfold SetTransaction. run (eq_refl : get_st s = (Ret s, s)).
    assert (∃ o, on_rmdb (get_transaction (client_txn s)) s = (Ret o, s) ∧
      match o with None => mret true | Some id => t ← on_rmdb (txn_obj id); mret (finished t) end s = (Ret true, s)) as (o & Eg & Ef).
    { unfold get_transaction. destruct (Z.eqb_spec (client_txn s) INVALID_TXN_ID) as [Eq|Hne]; [exists None; split; [by destruct s|done]|].
      destruct Hidle as [|(t & Hx & Hfin)]; [done|]. exists (Some (client_txn s)). unfold mbind, st_bind, on_rmdb, get_st, assert_that, txn_obj.
      rewrite bool_decide_eq_true_2 by by eexists. rewrite Hx. cbn. rewrite Hfin. split; by destruct s. }
    run Eg. run Ef. rewrite Hlog. run (on_rmdb_run _ s _ _ E1).
    set (s1 := after w1 (out s) [] s). rewrite (st_bind_ret (modify_st _) _ s1 tt (set_client_txn id s1) eq_refl).
    pose proof (on_rmdb_run (modify_txn id (set_txn_mode false)) (set_client_txn id s1) _ _ E2) as E3. run E3.
    unfold modify_st, in_txn, set_ctx, after. simpl. rewrite !app_nil_r. by rewrite Hlog.
  - split; [|by rewrite Es2|unfold laid_out; by rewrite Es2]. split; [exact Hr2|split; [exact Hw1|by rewrite Es2]].
  - unfold same_files. by rewrite Es2.
Qed.

(** What the client reads and what output.txt gets for the result of a data
    change; nothing for an exception that is no RMDBError. *)
Definition line (word : string) : list Z := bytes_of_string word ++ [10].
Definition reply (res : outcome unit) : option (list Z * list Z) :=
  match res with
  | Ret _ => Some ([0], [])
  | Throw (TransactionAbort _ _) => Some (line "abort" ++ [0], line "abort")
  | Throw e => match what strerror e with Some msg => Some (line msg ++ [0], line "failure") | None => None end
  end.
(** How the transaction of the statement ends *)
Definition end_state (res : outcome unit) : TransactionState := match res with Throw (TransactionAbort _ _) => ABORTED | _ => COMMITTED end.

Lemma commit_ended id st w : st = COMMITTED ∨ st = ABORTED → ended id st w → txn_commit size (Some id) true w = (Ret tt, w).
Proof using.
  intros Hst (t & Hx & Es & _). unfold txn_commit. rewrite (st_bind_ret (txn_obj id) _ w t w) by (unfold txn_obj; by rewrite Hx).
  assert (finished t = true) as -> by (unfold finished; rewrite Es; by destruct Hst as [-> | ->]). done.
Qed.

Definition send (b : OutBuf) : list Z := take (Z.to_nat (out_offset b + 1)) (data_send b).
Lemma send_message str n (b : OutBuf) e : n = Z.of_nat (length str) → send (mkOut (splice 0 (str ++ [0]) (data_send b)) n e) = str ++ [0].
Proof using.
  intros ->. unfold send, splice. cbn [out_offset data_send]. rewrite take_0. cbn [app]. apply take_app_length'. rewrite length_app. simpl. lia.
Qed.

(** The end of a request: the answer and the commit of a single statement *)
Definition finish_request (sent : bool) : ST session Turn :=
  s ← get_st;
  let response := take (Z.to_nat (out_offset (out s) + 1)) (data_send (out s)) in
  if negb sent then mret Closed else
  id ← lift_outcome (deref (txn_ (ctx s)));
  t ← on_rmdb (txn_obj id);
  (if txn_mode t then mret tt else on_rmdb (txn_commit size (Some id) (log_mgr_ (ctx s)))) ;;
  mret (Answered response).

Lemma finish_commit P C id t s : ready P C id t (rmdb s) → txn_ (ctx s) = Some id → client_txn s = id →
  ∃ s', finish_request true s = (Ret (Answered (send (out s))), s') ∧ settled C (rmdb s') ∧ ended id COMMITTED (rmdb s') ∧
    output_txt s' = output_txt s ∧ client_txn s' = id.
Proof.
  intros Hr Hx Hc. destruct (commit_settles size exact false P C id t (log_mgr_ (ctx s)) (rmdb s) Hr) as (w' & E & Hs & He & _).
  exists (after w' (out s) [] s). split_and!; [|done|done|simpl; by rewrite app_nil_r|done].
  unfold finish_request. run (eq_refl : get_st s = (Ret s, s)). cbn [negb]. rewrite Hx, (st_bind_ret (lift_outcome _) _ s id s) by done.
  pose proof (proj1 (rd_writing _ _ _ _ _ _ _ Hr)) as Hrun. destruct (running_txn_id _ _ _ _ _ _ Hrun) as [Hxt _].
  assert (on_rmdb (txn_obj id) s = (Ret t, s)) as Et by (unfold on_rmdb, txn_obj; rewrite Hxt; by destruct s). run Et.
  rewrite (rn_mode _ _ _ _ _ _ Hrun). by run (on_rmdb_run _ s _ _ E).
Qed.

Lemma finish_aborted id s : ended id ABORTED (rmdb s) → txn_ (ctx s) = Some id → log_mgr_ (ctx s) = true →
  finish_request true s = (Ret (Answered (send (out s))), s).
Proof.
  intros He Hx Hlog. unfold finish_request. run (eq_refl : get_st s = (Ret s, s)). cbn [negb]. rewrite Hx, (st_bind_ret (lift_outcome _) _ s id s) by done.
  pose proof He as (t & Hxt & _). assert (on_rmdb (txn_obj id) s = (Ret t, s)) as Et by (unfold on_rmdb, txn_obj; rewrite Hxt; by destruct s). run Et.
  destruct (txn_mode t); [done|]. rewrite Hlog. pose proof (on_rmdb_run _ s _ _ (commit_ended id ABORTED (rmdb s) ltac:(by right) He)) as Ec.
  rewrite <- after_id in Ec. by run Ec.
Qed.

Definition is_abort (e : exn) : bool := match e with TransactionAbort _ _ => true | _ => false end.

Lemma change_failed db q C tree e C' : change db q C tree (Throw e) C' → C' = C.
Proof using. intros Hc. by inversion Hc. Qed.

(** What the inner try block and its handlers leave *)
Definition handled P C' id (res : outcome unit) s s' : Prop :=
  ctx s' = ctx s ∧ client_txn s' = client_txn s ∧
  match reply res with
  | Some (bytes, lines) => output_txt s' = output_txt s ++ lines ∧ (out s = empty_out → send (out s') = bytes) ∧
      match end_state res with
      | ABORTED => settled P (rmdb s') ∧ ended id ABORTED (rmdb s')
      | _ => ∃ t', ready P C' id t' (rmdb s')
      end
  | None => True
  end.

Lemma print_out_set b f s : f (out s) = Ret b → print_out f s = (Ret tt, set_out b s).
Proof using. intros E. unfold print_out. run (eq_refl : get_st s = (Ret s, s)). rewrite E. by rewrite (st_bind_ret (lift_outcome _) _ s b s). Qed.

Lemma statement_spec P C id t s tree q : ready P C id t (rmdb s) → txn_ (ctx s) = Some id → accepted s tree q →
  ∃ n res C' s', change (db_ (sm (rmdb s))) q C tree res C' ∧ handled P C' id res s s' ∧
    ∀ fuel, (n ≤ fuel)%nat → statement strerror size fuel tree s = (match reply res with Some _ => Ret tt | None => res end, s').
Proof.
  intros Hr Hx Ha. destruct (change_spec size exact false P C id t s tree q Hr Hx Ha) as (res & w & t' & C' & [n En] & _ & Hc & Hr').
  destruct res as [[]|e].
  { exists n, (Ret tt), C', (after w (out s) [] s). split; [done|]. split.
    - split_and!; [done|done|]. split_and!; [done|by intros ->|by exists t'].
    - intros fuel Hf. unfold statement, try_catch. by rewrite (En fuel Hf). }
  pose proof (change_failed _ _ _ _ _ _ Hc) as ->. set (s1 := after w (out s) [] s) in *. destruct (is_abort e) eqn:Ea.
  - destruct (abort_settles size exact false P C id t' true w Hr') as (w2 & E2 & Hs2 & He2 & _).
    assert (∃ i why, e = TransactionAbort i why) as (i & why & ->) by (destruct e; try discriminate Ea; by eexists _, _).
    set (b := mkOut (splice 0 (line "abort" ++ [0]) (data_send (out s))) 6 (ellipsis (out s))).
    exists n, (Throw (TransactionAbort i why)), C, (after w2 b (line "abort") s). split; [done|]. split.
    + split_and!; [done|done|]. cbn [reply end_state]. split_and!; [done|intros _; by apply send_message|done|done].
    + intros fuel Hf. unfold statement, try_catch. rewrite (En fuel Hf). cbn [reply].
      assert (print_out (λ b, Ret (mkOut (splice 0 (bytes_of_string "abort" ++ [10; 0]) (data_send b)) 6 (ellipsis b))) s1 = (Ret tt, set_out b s1)) as E3
        by by apply print_out_set. run E3. run (eq_refl : get_st (set_out b s1) = (Ret (set_out b s1), set_out b s1)).
      change (txn_ (ctx (set_out b s1))) with (txn_ (ctx s)). rewrite Hx. run (on_rmdb_run _ (set_out b s1) _ _ E2).
      rewrite append_file_run. unfold s1, after, set_out. simpl. by rewrite !app_nil_r.
  - assert (reply (Throw e) = match what strerror e with Some msg => Some (line msg ++ [0], line "failure") | None => None end ∧ end_state (Throw e) = COMMITTED ∧
      ∀ fuel, (n ≤ fuel)%nat → statement strerror size fuel tree s = match what strerror e with Some msg => answer_failure msg s1 | None => (Throw e, s1) end) as (Erep & Eend & Est).
    { split_and!; [by destruct e|by destruct e|]. intros fuel Hf. unfold statement, try_catch. rewrite (En fuel Hf). destruct e; try discriminate Ea; done. }
    destruct (what strerror e) as [msg|] eqn:Ew.
    + set (b := out_message msg (out s)). exists n, (Throw e), C, (after w b (line "failure") s). split; [done|]. split.
      * split_and!; [done|done|]. rewrite Erep, Eend. split_and!; [done| |by exists t'].
        intros _. unfold b, out_message. assert (bytes_of_string msg ++ [10; 0] = line msg ++ [0]) as -> by (unfold line; by rewrite <- app_assoc).
        apply send_message. unfold line. rewrite length_app. simpl. lia.
      * intros fuel Hf. rewrite (Est fuel Hf), Erep. unfold answer_failure, answer.
        assert (print_out (λ b, Ret (out_message msg b)) s1 = (Ret tt, set_out b s1)) as E3 by by apply print_out_set. run E3.
        rewrite append_file_run. unfold s1, after, set_out. simpl. by rewrite !app_nil_r.
    + exists n, (Throw e), C, s1. split; [done|]. split; [|intros fuel Hf; by rewrite (Est fuel Hf), Erep].
      split_and!; [done|done|by rewrite Erep].
Qed.

(** C2: a request with a data change is a transaction.  The server begins a
    transaction for an accepted INSERT, DELETE or UPDATE of a client that has none,
    and, given fuel, ends the request with the change done and committed and an
    empty answer; or with a lock refused, everything undone, the transaction
    aborted and "abort" sent and logged in output.txt; or with an error of a value,
    nothing changed and its message sent.  Either way the server is settled again,
    all locks of the transaction are released, and the client has none that runs.
    Exceptions that are no RMDBError escape. *)
Theorem client_request_correct C s text tree q (Hs : settled C (rmdb s)) (Hid : 0 ≤ next_txn_id (rmdb s) < int32_max) (Hidle : idle s)
    (Htext : text ≠ bytes_of_string "exit" ∧ text ≠ bytes_of_string "crash") (Hp : yyparse text = Ret (Some (Some tree))) (Ha : accepted s tree q) :
  ∃ n r res C' s', (∀ fuel, (n ≤ fuel)%nat → client_request strerror size yyparse fuel true text s = (r, s')) ∧
    change (db_ (sm (rmdb s))) q C tree res C' ∧
    match reply res with
    | Some (bytes, lines) => r = Ret (Answered bytes) ∧ output_txt s' = output_txt s ++ lines ∧
        settled C' (rmdb s') ∧ idle s' ∧ ended (next_txn_id (rmdb s)) (end_state res) (rmdb s')
    | None => ∃ e, res = Throw e ∧ r = Throw e
    end.
Proof.
  set (id := next_txn_id (rmdb s)) in *. set (s0 := set_ctx (mkContext true true None) (set_out empty_out s)).
  destruct (set_transaction_spec C s0 Hs Hidle eq_refl Hid) as (w1 & t1 & E1 & Hr1 & [Ef1 Ed1]). set (s1 := in_txn w1 id s0) in *.
  assert (accepted s1 tree q) as Ha1.
  { destruct Ha as [A1 (name & A2 & A3 & A4) A5 A6 A7]. change (db_ (sm w1) = db_ (sm (rmdb s))) in Ed1. change (fhs_ (sm w1) = fhs_ (sm (rmdb s))) in Ef1.
    split; change (rmdb s1) with w1; rewrite ?Ed1; try done. exists name. by rewrite Ef1. }
  destruct (statement_spec C C id t1 s1 tree q Hr1 eq_refl Ha1) as (n & res & C' & s2 & Hc & (Ectx & Ecl & Hh) & En).
  assert (∀ fuel, (n ≤ fuel)%nat → client_request strerror size yyparse fuel true text s =
    match reply res with Some _ => finish_request true s2 | None => (match res with Throw e => Throw e | Ret _ => Throw NullDeref end, s2) end) as Erun.
  { intros fuel Hf. unfold client_request. rewrite !bool_decide_eq_false_2 by apply Htext.
    rewrite (st_bind_ret (modify_st (λ s, set_ctx (mkContext true true None) (set_out empty_out s))) _ s tt s0 eq_refl). run E1. specialize (En fuel Hf).
    assert (execute strerror size yyparse fuel text s1 = (match reply res with Some _ => Ret tt | None => res end, s2)) as Ex by by (unfold execute; rewrite Hp).
    destruct (reply res) eqn:Er; [by run Ex|]. destruct res as [|e]; [done|]. by apply st_bind_throw. }
  change (db_ (sm (rmdb s1))) with (db_ (sm w1)) in Hc. change (db_ (sm w1) = db_ (sm (rmdb s))) in Ed1. rewrite Ed1 in Hc.
  assert (txn_ (ctx s2) = Some id) as Hx2 by by rewrite Ectx. assert (client_txn s2 = id) as Hcl2 by by rewrite Ecl.
  destruct (reply res) as [[bytes lines]|] eqn:Er.
  - destruct Hh as (Eout & Esend & Hst). specialize (Esend eq_refl). change (output_txt s1) with (output_txt s) in Eout.
    destruct (end_state res) eqn:Ees; try (exfalso; clear -Ees; by destruct res as [|[]]).
    + destruct Hst as [t' Hr2]. destruct (finish_commit C C' id t' s2 Hr2 Hx2 Hcl2) as (s3 & E3 & Hs3 & He3 & Eo3 & Ec3).
      exists n, (Ret (Answered bytes)), res, C', s3. rewrite Er, Ees. split_and!; [|done|done|by rewrite Eo3|done| |done].
      * intros fuel Hf. by rewrite (Erun fuel Hf), E3, Esend.
      * right. rewrite Ec3. destruct He3 as (t & Hxt & Es & _). exists t. split; [done|]. unfold finished. by rewrite Es.
    + destruct Hst as [Hs2 He2]. exists n, (Ret (Answered bytes)), res, C', s2. rewrite Er, Ees. split_and!; [|done|done|done| | |done].
      * intros fuel Hf. rewrite (Erun fuel Hf), (finish_aborted id s2 He2 Hx2) by by rewrite Ectx. by rewrite Esend.
      * destruct res as [[]|e]; [done|]. by rewrite (change_failed _ _ _ _ _ _ Hc).
      * right. rewrite Hcl2. destruct He2 as (t & Hxt & Es & _). exists t. split; [done|]. unfold finished. by rewrite Es.
  - destruct res as [[]|e]; [done|]. exists n, (Throw e), (Throw e), C', s2. rewrite Er. split_and!; [done|done|by exists e].
Qed.
End Request.

(** DELETE FROM t WHERE id >= 0, sent by a client without a transaction *)
Module ServerWitness.
Import RmWitness TxnWitness RecoveryWitness QueryWitness AnalyzeWitness SelectWitness DmlWitness.

Definition client : Session LRU.LRUReplacer MemFS.fs :=
  mkSession q_world new_Planner [] (mkOut (replicate (Z.to_nat BUFFER_LENGTH) 0) 0 false) (mkContext true true None) INVALID_TXN_ID.
Definition parse (text : list Z) : outcome (option (option TreeNode)) := Ret (Some (Some del)).

Lemma client_settled : settled false C1 q_world.
Proof.
  destruct q_ready as [([Ht Hr Ha Hl Hi _] & _ & _) Hc Hf]. split; [exact Ht|exact Hr|exact (ac_locks _ _ _ Ha)|exact Hl|exact Hi|exact Hc|exact Hf].
Qed.

Lemma client_request_correct_witness : ∃ n r C' s',
  (∀ fuel, (n ≤ fuel)%nat → client_request "" 50 parse fuel true (bytes_of_string "delete") client = (r, s')) ∧
  (C' = ∅ ∨ C' = C1) ∧ (r = Ret (Answered [0]) → settled false C' (rmdb s')).
Proof.
  destruct (client_request_correct 50 false "" parse C1 client (bytes_of_string "delete") del (query del) client_settled)
    as (n & r & res & C' & s' & E & Hc & Hr).
  - vm_compute. split; [discriminate|reflexivity].
  - left. reflexivity.
  - split; vm_compute; discriminate.
  - reflexivity.
  - exact (del_accepted client eq_refl).
  - exists n, r, C', s'. split; [exact E|]. split.
    + inversion Hc; [right; reflexivity|left; vm_compute; reflexivity].
    + intros Er. destruct (reply "" res) as [[bytes lines]|]; [exact (proj1 (proj2 (proj2 Hr)))|]. destruct Hr as (e & _ & Er'). congruence.
Defined.
End ServerWitness.
